(* ===== verification/_CoqProject ===== *)
-Q . S2P
Prelude.v
Mem.v
CString.v
Types.v
World.v
Samples.v
Keys.v
Checksum.v
TcpOptions.v
Packet.v
Netcode.v
NatSpec.v
Transparency.v
Forward.v
Connections.v
ConnTrees.v
Redirect.v
DecisionEngine.v
DecisionTrees.v
Icmp.v
Engine.v
Births.v
EngineOk.v
Management.v
ModVmi.v
Modules.v
ModulesOk.v
Gateway.v
Containment.v
Affinity.v
RateLimit.v
Rpc.v
Order.v
Dump.v
Lexer.v
CommandLine.v
Config.v
ConfigOk.v
Grammar.v
GrammarOk.v
Startup.v
StartupOk.v
CommandLineOk.v
Log.v
MySql.v
PcapTool.v
Locks.v
