(* ===== verification/Prelude.v ===== *)
(** * Honeybrid: a gateway between attackers and honeypots

    This development models the packet path of Honeybrid ([src/src/*.c]) and
    proves what makes it correct.  The gateway captures frames on its
    interfaces, finds or creates the connection a packet belongs to, asks a
    tree of decision modules what to do with it, and sends the packet, rewritten,
    to a low-interaction honeypot (LIH), to a high-interaction one (HIH), to an
    INTRA host or back outside; a connection may be moved from the LIH to a HIH
    while it runs, by replaying to the HIH what the LIH received and
    translating TCP sequence numbers and timestamps from then on.

    ** The files, and the code they model

    - [Prelude]: outcomes of C code ([outcome], the monad [SE] with its
      notations [let!] and [do]), record updates, shared tactics.
    - [Mem]: w-bit integers as [Z] with their wrap-around, byte order, and
      bounds-checked reads and writes of byte blocks; [CString]: [atoi],
      [g_snprintf], [inet_ntop] and C strings.
    - [Types], [World]: the data ([types.h], [structs.h], [globals.h]) and the
      state of the process: heaps, trees, configuration, frames sent.
    - [Samples]: frames and a small configuration for the witnesses.
    - [Keys]: tree keys, comparators, [switch_state] ([structs.h],
      [convenience.c]).
    - [Checksum], [TcpOptions], [Netcode], [Icmp]: [netcode.c], by topic;
      [NatSpec] specifies [nat] on abstract packets and proves the refinement,
      [Transparency] what leaves towards the outside, [Forward] the forwarders,
      resets and replay.
    - [Packet]: [process_packet] and [IP2QUEUEID] ([honeybrid.c]), [init_pkt],
      [free_pkt], [store_pkt] ([connections.c]).
    - [Connections]: [init_conn], [create_conn], [update_conn], [remove_conn],
      [clean], [setup_redirection], [switch_conn_to_intra] ([connections.c]);
      [ConnTrees] proves the invariant of the six trees, [Redirect] what the
      data path and a redirection do to it, [Births] what a new connection is.
    - [DecisionEngine]: [decision_engine.c] and [get_module] ([modules.c]);
      [DecisionTrees] gives the meaning of rules and the moves of a connection.
    - [Management]: [management.c], [free_handler], [free_target].
    - [ModVmi], [Modules]: the modules [mod_*.c] and the saving of their tables
      ([modules.c]); [ModulesOk] proves the laws the engine relies on,
      [RateLimit] that [mod_control] is a rate limiter.
    - [Rpc]: the methods of [rpc_server.c] and their table.
    - [Engine]: [pcap_cb] and [de_thread] ([honeybrid.c]); [EngineOk] its
      invariant; [Gateway] the runs of the whole gateway; [Order] the order in
      which the queues of the threads hand the frames over; [Containment] what
      the gateway lets out; [Affinity] that the frames of an attacker stay with
      their connection.
    - [Lexer], [Grammar]: the text of the configuration, its tokens
      ([config_syntax.l]) and the productions of its grammar
      ([config_rules.y]), with a parser; [GrammarOk] that the parser decides the
      productions.
    - [Config]: the actions of the grammar; [ConfigOk] what they keep.
    - [CommandLine]: the options of [main], [init_syslog], [init_signal],
      [term_signal_handler] ([honeybrid.c]), [daemon] ([daemon.c]);
      [CommandLineOk] how an engine is started and stopped.
    - [Startup]: [init_variables], [init_pcap], [main], [close_all]
      ([honeybrid.c]), [config_lookup] ([convenience.c]), [set_iface_info]
      ([netcode.c]), and [launch], the program from its arguments; [StartupOk]
      what the program is when it starts and ends.
    - [Log]: the records of the connections and the rotation of their file
      ([log.c]), the names they use ([constants.c]); [MySql] the connection to a
      database; [Dump] the dump of a payload ([connections.c]).
    - [PcapTool]: [pcap_tool.c], which the build does not compile.
    - [Locks]: the protocol of [connlock] and of the mutexes of the connections,
      one acquisition or release per step.

    A C function is the definition of the same name.  [connections.c],
    [netcode.c] and the others are composed as in the code: [Gateway.step] runs
    [de_iteration], which runs [process_packet], [init_conn], [dispatch], which
    runs [DE_process_packet], which runs the modules through the class
    [ModuleRunner]; the theorems of the engine are proved against the classes
    [ModuleLaws] and [QuietModules], which [ModulesOk] discharges for the
    modules of the program ([SilentModules] and [LinkModules], for what the
    modules neither send nor refile, are discharged in [Containment] and
    [Affinity]).

    ** Conventions

    - Memory: one heap per type of object, from addresses to records; [malloc]
      gives an address never used before, a freed object leaves its heap.  Null
      and dangling pointers, double frees, accesses outside a block,
      uninitialised values, divisions by zero, the additions of [int]s that
      overflow in [fix_tcp_timestamps], [errx] and a loop that never ends
      are the faults of [Prelude.fault]; a computation that returns met none of
      them.
    - A frame is a list of bytes and the header pointers are offsets in it.  A
      packet, a connection, a handler are shared through their addresses, so
      aliasing is that of the code.
    - GLib's trees and hash tables are finite maps; the keys, which the code
      keeps by pointer, are kept by value ([Keys] shows that the packing of keys
      and the comparators lose nothing but what [vlan_ids_conflated] says).
      Traversals follow the order of the comparators.
    - A lock of a connection is a boolean; taking one that is held is [Hangs].
      The other mutexes are not represented in the world: a step of
      [Gateway.step] is a whole iteration of a thread, interleaved with the
      others at will.  [Locks] is the model that has a step per acquisition,
      for [connlock] and the connections; there the threads take the frames of
      their own queue, and what they do between two steps is taken to end.
    - The clock is read again for each connection that a cleaning round looks at.
    - Time, [rand], what [pcap_inject] accepts and the contents of frames are
      unconstrained.  The debugging build ([HONEYBRID_DEBUG]) and the XMPP
      build are not modelled; the cryptographic and XML-RPC builds are, and the
      MySQL build in [MySql] ([main] is that of a build without it).
    - Loops whose termination the code does not make plain take fuel:
      the option parsers get one turn per option byte (they advance by one or
      more, [tcp_timestamps_total]; the case where they do not is
      [get_tcp_timestamps_hangs]), the replay one per recorded packet
      ([replay_loop_progress], [forward_loop_ends]), the walk of a rule and its
      freeing one per node ([decide_terminates], [destroy_created_tree]), the
      compilation of a rule one per character.  Running out is [Hangs], which
      the theorems exclude.

    ** What the theorems show

    - Runs of the gateway ([Gateway]), as long as no rule calls
      [mod_dns_control] ([confined_rules]), which the theorems on runs suppose
      because [remove_conn] does not remove the connections of a LIH that it
      switches ([switched_lih_dangles]): the trees stay sound, no lock is left
      behind, connections only move forward; a packet that was handled was
      freed, or recorded by its connection, but for a leak that is named; the frames of an attacker's flow
      always reach the one connection of the flow ([Affinity]); the frames of a
      flow are handled in order, those of an INTRA connection may not be
      ([Order]); what a rule refuses is never let out, nor answered unless the
      configuration asks for resets ([Containment]).
    - The configuration file ([Lexer], [GrammarOk], [ConfigOk]): its tokens are
      read back from their text, the parser accepts exactly the language of the
      grammar, the statements of an accepted file leave a well-typed state.
    - From start to end ([StartupOk], [CommandLineOk]): the command line and the
      text of an accepted configuration give the state the runs start
      from, for files of a reasonable size without a [dns_control] module;
      [honeybrid -x] with the pid file stops the engine, and shutting down, the
      threads running together until they are joined, handles the frames that
      wait; settings that are never obeyed.
    - Locks ([Locks]): no connection is used without its lock, nor after it was
      freed but for those of a LIH that were switched; the threads are never
      blocked for ever when the rules switch only connections with the outside,
      once each, and can be when a rule switches one of the local network.
    - Connections ([ConnTrees], [Redirect]): each operation keeps the trees
      sound, a removed connection leaves no entry, the expired ones and only
      they are removed; the INTRA switch that breaks this.
    - Packets ([Packet], [Checksum], [TcpOptions], [NatSpec], [Forward]):
      reception never reads outside the captured block, checksums agree with
      RFC 1071 and verify, translation refines its specification, honeypots
      keep their addresses to themselves ([Transparency]), sequence numbers
      and timestamps translate back and forth, resets are well formed.
    - Decisions and control ([DecisionTrees], [RateLimit], [Management],
      [Rpc]): what a rule means, that its evaluation ends, the moves of a
      connection, the rate limiter on strings of any capacity, the numbering of honeypots and their
      removal.
    - Records ([Log], [MySql], [Dump], [PcapTool]): the durations of a record add
      up, a CSV record is read back, no buffer of a record overflows, the rotation
      of the file; the queries reach the database in order until it goes away; a
      dump prints every byte; the two streams of captured packets keep their
      packets in order through the rotation of their files.
    Several theorems state defects of the code (freed twice, read past the end,
    never terminating): they are the properties of kind error, and [bounds].

    ** Not modelled

    The automata that flex and bison generate, in place of which the rules and
    the productions have a scanner and a parser of their own; the two threads of
    the XML-RPC server ([rpc_server.c]), which are calls of its library, and
    [err.c], which prints and exits; the clones of [mod_vmi.c], whose code is
    commented out; in [Locks], the locks of the targets, of [mod_vmi] and of the
    waits. *)
From stdpp Require Export base gmap list numbers strings option sorting.
From Stdlib Require Export ZArith Lia.

(** * Outcomes of C code *)

(** What can go wrong while a C function runs: the undefined behaviours the
    program can reach, the calls to [errx] and [err], and a loop that never
    ends (only the fuelled loops produce [Hangs]). *)
Inductive fault :=
  | NullDeref | UseAfterFree | DoubleFree | OutOfBounds | Uninitialised | DivisionByZero
  | SignedOverflow | Exited | Hangs.

#[export] Instance fault_eq_dec : EqDecision fault.
Proof. solve_decision. Defined.

Inductive outcome (A : Type) :=
  | Ret (a : A)
  | Fault (f : fault).
Arguments Ret {A} a.
Arguments Fault {A} f.

Definition obind {A B} (e : outcome A) (k : A -> outcome B) : outcome B :=
  match e with Ret a => k a | Fault f => Fault f end.

(** The value behind a possibly null pointer. *)
Definition nonnull {A} (o : option A) : outcome A :=
  match o with Some a => Ret a | None => Fault NullDeref end.

(** State-passing computations that may fault. *)
Definition SE (S A : Type) : Type := S -> outcome (A * S).

Definition sret {S A} (a : A) : SE S A := fun s => Ret (a, s).
Definition sbind {S A B} (e : SE S A) (k : A -> SE S B) : SE S B :=
  fun s => match e s with Ret (a, s') => k a s' | Fault f => Fault f end.
Definition sfault {S A} (f : fault) : SE S A := fun _ => Fault f.
Definition sget {S} : SE S S := fun s => Ret (s, s).
Definition sgets {S A} (g : S -> A) : SE S A := fun s => Ret (g s, s).
Definition smodify {S} (g : S -> S) : SE S unit := fun s => Ret (tt, g s).
Definition slift {S A} (e : outcome A) : SE S A :=
  fun s => match e with Ret a => Ret (a, s) | Fault f => Fault f end.

Declare Scope hb_scope.
Delimit Scope hb_scope with hb.
Notation "'let!' x ':=' e 'in' k" := (obind e (fun x => k))
  (at level 10, x name, e at level 100, k at level 200) : hb_scope.
Notation "'let!' ' p ':=' e 'in' k" := (obind e (fun p => k))
  (at level 10, p pattern, e at level 100, k at level 200) : hb_scope.
Notation "'do' x <- e ; k" := (sbind e (fun x => k))
  (at level 10, x name, e at level 100, k at level 200) : hb_scope.
Notation "'do' ' p <- e ; k" := (sbind e (fun p => k))
  (at level 10, p pattern, e at level 100, k at level 200) : hb_scope.
Notation "'do_' e ; k" := (sbind e (fun _ => k))
  (at level 10, e at level 100, k at level 200) : hb_scope.
#[global] Open Scope Z_scope.
#[global] Open Scope hb_scope.

(** ** Laws and inversion of the two monads *)

Lemma obind_Ret_inv {A B} (e : outcome A) (k : A -> outcome B) b :
  obind e k = Ret b <-> exists a, e = Ret a /\ k a = Ret b.
Proof. destruct e; simpl; naive_solver. Qed.

Lemma obind_assoc {A B C} (e : outcome A) (k : A -> outcome B) (h : B -> outcome C) :
  obind (obind e k) h = obind e (fun a => obind (k a) h).
Proof. by destruct e. Qed.

Lemma sbind_Ret_inv {S A B} (e : SE S A) (k : A -> SE S B) s b s' :
  sbind e k s = Ret (b, s') <->
  exists a s1, e s = Ret (a, s1) /\ k a s1 = Ret (b, s').
Proof.
  unfold sbind. destruct (e s) as [[a s1]|f].
  - split; [eauto|]. by intros (?&?&[= <- <-]&?).
  - split; [done|]. by intros (?&?&?&?).
Qed.

Lemma sbind_eq {S A B} (e : SE S A) (k : A -> SE S B) s a s1 :
  e s = Ret (a, s1) -> sbind e k s = k a s1.
Proof. intros H. unfold sbind. by rewrite H. Qed.

Lemma slift_Ret_inv {S A} (e : outcome A) (s : S) a s' :
  slift e s = Ret (a, s') <-> e = Ret a /\ s' = s.
Proof. unfold slift. destruct e; naive_solver. Qed.

Lemma nonnull_Ret_inv {A} (o : option A) a : nonnull o = Ret a <-> o = Some a.
Proof. destruct o; simpl; naive_solver. Qed.

(** [run_inv] decomposes every hypothesis saying that a monadic computation
    returned into the facts about its steps. *)
Ltac run_inv1 :=
  match goal with
  | H : obind _ _ = Ret _ |- _ => apply obind_Ret_inv in H as (? & ? & H)
  | H : sbind _ _ _ = Ret _ |- _ => apply sbind_Ret_inv in H as (? & ? & ? & H)
  | H : sret _ _ = Ret _ |- _ => unfold sret in H
  | H : sgets _ _ = Ret _ |- _ => unfold sgets in H
  | H : sget _ = Ret _ |- _ => unfold sget in H
  | H : smodify _ _ = Ret _ |- _ => unfold smodify in H
  | H : sfault _ _ = Ret _ |- _ => discriminate H
  | H : slift _ _ = Ret _ |- _ => apply slift_Ret_inv in H as [H ->]
  | H : nonnull _ = Ret _ |- _ => apply nonnull_Ret_inv in H
  | H : Fault _ = Ret _ |- _ => discriminate H
  | H : Ret _ = Ret _ |- _ => injection H as H; subst
  end.
Ltac run_inv := repeat first [run_inv1 | progress simplify_eq/=].

(** The same, one step at a time and with names. *)
Tactic Notation "orun" hyp(H) "as" simple_intropattern(x) ident(Hx) :=
  apply obind_Ret_inv in H as (x & Hx & H).
Tactic Notation "srun" hyp(H) "as" simple_intropattern(x) ident(w) ident(Hx) :=
  apply sbind_Ret_inv in H as (x & w & Hx & H).

(** * Updating one field of a record *)

(** [eta_of R] is the identity of [R] written with the constructor applied to
    the projections; the setter of a projection is found by abstracting that
    projection in it. *)
Class EtaRecord (R : Type) := eta_of : R -> R.
Class FieldUpd {R T : Type} (proj : R -> T) := field_upd : (T -> T) -> R -> R.


Ltac solve_field_upd :=
  match goal with
  | |- @FieldUpd ?R ?T ?proj =>
    let inst := constr:(_ : EtaRecord R) in
    let e := eval hnf in inst in
    let p := (eval pattern proj in e) in
    match p with
    | ?body proj => exact (fun (g : T -> T) (r : R) => body (fun x => g (proj x)) r)
    end
  end.
#[export] Hint Extern 1 (FieldUpd _) => solve_field_upd : typeclass_instances.

Notation "r <| f := v |>" := (field_upd (proj := f) (fun _ => v) r)
  (at level 1, f at level 200, left associativity,
   format "r <| f  :=  v |>") : hb_scope.
Notation "r <| f ::= g |>" := (field_upd (proj := f) g r)
  (at level 1, f at level 200, left associativity,
   format "r <| f  ::=  g |>") : hb_scope.


(** * Automation shared by the components *)

(** [zbool] turns the boolean comparisons of [Z] and [nat] in the context into
    propositions. *)
Ltac zbool :=
  repeat match goal with
  | H : (_ && _)%bool = true |- _ => apply andb_true_iff in H as [? ?]
  | H : (_ || _)%bool = false |- _ => apply orb_false_iff in H as [? ?]
  | H : negb _ = true |- _ => apply negb_true_iff in H
  | H : negb _ = false |- _ => apply negb_false_iff in H
  | H : (_ =? _) = true |- _ => apply Z.eqb_eq in H
  | H : (_ =? _) = false |- _ => apply Z.eqb_neq in H
  | H : (_ <? _) = true |- _ => apply Z.ltb_lt in H
  | H : (_ <? _) = false |- _ => apply Z.ltb_ge in H
  | H : (_ <=? _) = true |- _ => apply Z.leb_le in H
  | H : (_ <=? _) = false |- _ => apply Z.leb_gt in H
  end.

(** Case analysis on the test that blocks the goal or a hypothesis. *)
Ltac split_if :=
  match goal with
  | |- context [if ?b then _ else _] => destruct b eqn:?
  | H : context [if ?b then _ else _] |- _ => destruct b eqn:?
  end.

(** Base of the rewriting rules for words and memory. *)
Create HintDb mem.

(** * Lists *)

Lemma take_drop_app {A} (l : list A) n m :
  take n l ++ take m (drop n l) = take (n + m) l.
Proof. revert l; induction n as [|n IH]; intros [|x l]; simpl; try done.
  - by rewrite take_nil.
  - by rewrite IH.
Qed.

Lemma Forall_take_drop {A} (P : A -> Prop) l n m :
  Forall P l -> Forall P (take n (drop m l)).
Proof. intros. by apply Forall_take, Forall_drop. Qed.

(** Induction two elements at a time. *)
Lemma list_pair_ind {A} (P : list A -> Prop) :
  P [] -> (forall x, P [x]) -> (forall x y l, P l -> P (x :: y :: l)) -> forall l, P l.
Proof.
  intros H0 H1 H2. fix IH 1. intros [|x [|y l]]; [exact H0|apply H1|apply H2, IH].
Qed.
