(* ===== verification/Mem.v ===== *)
(** Machine words and byte blocks: fixed-width integers as [Z] with their
    wrap-around written out, the little-endian loads and stores of the host,
    the network byte order conversions, and bounds-checked accesses to a block
    of bytes ([memcpy], [memmove] and field accesses through a pointer into
    the block).  Offsets into a block are of type [nat]. *)
From S2P Require Import Prelude.

(** * Fixed-width integers *)

Definition u8 (z : Z) : Z := z mod 2 ^ 8.
Definition u16 (z : Z) : Z := z mod 2 ^ 16.
Definition u32 (z : Z) : Z := z mod 2 ^ 32.
Definition u64 (z : Z) : Z := z mod 2 ^ 64.

(** Two's complement reading of the low 32 bits (conversion to [int]). *)
Definition s32 (z : Z) : Z :=
  let w := u32 z in if w <? 2 ^ 31 then w else w - 2 ^ 32.

(** The byte order conversions of a little-endian host. *)
Definition htons (z : Z) : Z := 256 * (z mod 256) + (z / 256) mod 256.
Definition ntohs (z : Z) : Z := htons z.

(** * Bytes and their little-endian combination *)

Definition is_byte (b : Z) : Prop := 0 <= b < 256.
Definition bytes (l : list Z) : Prop := Forall is_byte l.

#[export] Instance is_byte_dec b : Decision (is_byte b).
Proof. unfold is_byte. apply _. Defined.
#[export] Instance bytes_dec l : Decision (bytes l).
Proof. unfold bytes. apply _. Defined.

Fixpoint le_decode (l : list Z) : Z :=
  match l with
  | [] => 0
  | b :: l => b + 256 * le_decode l
  end.

Fixpoint le_encode (n : nat) (z : Z) : list Z :=
  match n with
  | O => []
  | S n => z mod 256 :: le_encode n (z / 256)
  end.

Definition be_decode (l : list Z) : Z := le_decode (rev l).

(** [htonl]/[ntohl] reverse the four bytes of a 32-bit word. *)
Definition htonl (z : Z) : Z := be_decode (le_encode 4 z).
Definition ntohl (z : Z) : Z := htonl z.

Lemma length_le_encode n z : length (le_encode n z) = n.
Proof. revert z; induction n; intros; simpl; auto. Qed.

Lemma bytes_le_encode n z : bytes (le_encode n z).
Proof.
  revert z; induction n; intros z; simpl; constructor; [|apply IHn].
  unfold is_byte. apply Z.mod_pos_bound. lia.
Qed.

Lemma le_decode_bound l : bytes l -> 0 <= le_decode l < 256 ^ Z.of_nat (length l).
Proof.
  induction 1 as [|b l Hb Hl IH]; simpl; [lia|].
  rewrite Nat2Z.inj_succ, Z.pow_succ_r by lia. unfold is_byte in Hb. nia.
Qed.

Lemma le_decode_encode n z : le_decode (le_encode n z) = z mod 256 ^ Z.of_nat n.
Proof.
  revert z; induction n as [|n IH]; intros z; [by rewrite Z.mod_1_r|].
  cbn [le_encode le_decode]. rewrite IH.
  rewrite Nat2Z.inj_succ, Z.pow_succ_r by lia.
  symmetry. apply Z.rem_mul_r; [lia|]. apply Z.pow_pos_nonneg; lia.
Qed.

Lemma le_encode_decode l : bytes l -> le_encode (length l) (le_decode l) = l.
Proof.
  induction 1 as [|b l Hb Hl IH]; simpl; [done|]. unfold is_byte in Hb. f_equal.
  - rewrite Z.mul_comm, Z_mod_plus_full. by apply Z.mod_small.
  - rewrite Z.mul_comm, Z.div_add, Z.div_small by lia. done.
Qed.

Lemma le_decode_inj l1 l2 :
  bytes l1 -> bytes l2 -> length l1 = length l2 ->
  le_decode l1 = le_decode l2 -> l1 = l2.
Proof.
  intros H1 H2 Hl He.
  rewrite <- (le_encode_decode l1), <- (le_encode_decode l2) by done. congruence.
Qed.

Lemma le_decode_app l1 l2 :
  le_decode (l1 ++ l2) = le_decode l1 + 256 ^ Z.of_nat (length l1) * le_decode l2.
Proof.
  induction l1 as [|b l1 IH]; cbn [app le_decode length]; [lia|].
  rewrite IH, Nat2Z.inj_succ, Z.pow_succ_r by lia. lia.
Qed.

Lemma bytes_rev l : bytes l -> bytes (rev l).
Proof. apply Forall_rev. Qed.

Lemma ntohl_htonl z : 0 <= z < 2 ^ 32 -> ntohl (htonl z) = z.
Proof.
  intros Hz. unfold ntohl, htonl, be_decode.
  replace 4%nat with (length (rev (le_encode 4 z))) at 1 by done.
  rewrite le_encode_decode by (apply bytes_rev, bytes_le_encode).
  rewrite rev_involutive, le_decode_encode. by apply Z.mod_small.
Qed.

Lemma htonl_bound z : 0 <= htonl z < 2 ^ 32.
Proof.
  unfold htonl, be_decode.
  pose proof (le_decode_bound (rev (le_encode 4 z)) (bytes_rev _ (bytes_le_encode 4 z))) as H.
  rewrite length_rev, length_le_encode in H. exact H.
Qed.

Lemma htons_eq z : 0 <= z < 2 ^ 16 -> htons z = 256 * (z mod 256) + z / 256.
Proof.
  intros Hz. unfold htons. rewrite (Z.mod_small (z / 256)); [lia|].
  split; [apply Z.div_pos; lia|apply Z.div_lt_upper_bound; lia].
Qed.

Lemma htons_bound z : 0 <= z < 2 ^ 16 -> 0 <= htons z < 2 ^ 16.
Proof.
  intros Hz. rewrite htons_eq by done.
  pose proof (Z.mod_pos_bound z 256). pose proof (Z_div_mod_eq_full z 256). lia.
Qed.

Lemma ntohs_htons z : 0 <= z < 2 ^ 16 -> ntohs (htons z) = z.
Proof.
  intros Hz. unfold ntohs. rewrite (htons_eq (htons z)) by (by apply htons_bound).
  rewrite htons_eq by done.
  assert (0 <= z / 256 < 256) by (split; [apply Z.div_pos; lia|apply Z.div_lt_upper_bound; lia]).
  replace (256 * (z mod 256) + z / 256) with (z / 256 + z mod 256 * 256) by lia.
  rewrite Z_mod_plus_full, Z.div_add by lia.
  rewrite (Z.mod_small (z / 256)), (Z.div_small (z / 256)) by lia.
  pose proof (Z_div_mod_eq_full z 256). lia.
Qed.

(** * Blocks of bytes *)

(** [memcpy] out of a block: [n] bytes from offset [off]. *)
Definition mget (f : list Z) (off n : nat) : outcome (list Z) :=
  if decide (off + n <= length f)%nat then Ret (take n (drop off f))
  else Fault OutOfBounds.

(** [memcpy] into a block at offset [off]. *)
Definition mput (f : list Z) (off : nat) (bs : list Z) : outcome (list Z) :=
  if decide (off + length bs <= length f)%nat
  then Ret (take off f ++ bs ++ drop (off + length bs) f)
  else Fault OutOfBounds.

(** [memmove] inside one block. *)
Definition mmove (f : list Z) (dst src n : nat) : outcome (list Z) :=
  let! bs := mget f src n in mput f dst bs.

(** Field accesses of 1, 2 and 4 bytes, as the little-endian host does them. *)
Definition ld8 (f : list Z) (off : nat) : outcome Z :=
  let! bs := mget f off 1 in Ret (le_decode bs).
Definition ld16 (f : list Z) (off : nat) : outcome Z :=
  let! bs := mget f off 2 in Ret (le_decode bs).
Definition ld32 (f : list Z) (off : nat) : outcome Z :=
  let! bs := mget f off 4 in Ret (le_decode bs).
Definition st8 (f : list Z) (off : nat) (v : Z) : outcome (list Z) := mput f off (le_encode 1 v).
Definition st16 (f : list Z) (off : nat) (v : Z) : outcome (list Z) := mput f off (le_encode 2 v).
Definition st32 (f : list Z) (off : nat) (v : Z) : outcome (list Z) := mput f off (le_encode 4 v).

(** The bytes a well-placed access reads, and the block a well-placed store
    leaves: the values of [mget] and [mput] when they do not fault. *)
Definition sub (f : list Z) (off n : nat) : list Z := take n (drop off f).
Definition upd (f : list Z) (off : nat) (bs : list Z) : list Z :=
  take off f ++ bs ++ drop (off + length bs) f.

Section Blocks.
Implicit Types f bs : list Z.

Lemma mget_ok f off n : (off + n <= length f)%nat -> mget f off n = Ret (sub f off n).
Proof. intros. unfold mget. by rewrite decide_True. Qed.

Lemma mput_ok f off bs : (off + length bs <= length f)%nat -> mput f off bs = Ret (upd f off bs).
Proof. intros. unfold mput. by rewrite decide_True. Qed.

Lemma mget_Ret_inv f off n bs :
  mget f off n = Ret bs <-> (off + n <= length f)%nat /\ bs = sub f off n.
Proof. unfold mget. case_decide; naive_solver. Qed.

Lemma mput_Ret_inv f off bs f' :
  mput f off bs = Ret f' <-> (off + length bs <= length f)%nat /\ f' = upd f off bs.
Proof. unfold mput. case_decide; naive_solver. Qed.

Lemma mget_fault f off n : (length f < off + n)%nat -> mget f off n = Fault OutOfBounds.
Proof. intros. unfold mget. rewrite decide_False by lia. done. Qed.

Lemma length_sub f off n : (off + n <= length f)%nat -> length (sub f off n) = n.
Proof. intros. unfold sub. rewrite length_take, length_drop. lia. Qed.

Lemma length_upd f off bs : (off + length bs <= length f)%nat -> length (upd f off bs) = length f.
Proof. intros. unfold upd. rewrite !length_app, length_take, length_drop. lia. Qed.

Lemma mput_length f off bs f' : mput f off bs = Ret f' -> length f' = length f.
Proof. intros [Hb ->]%mput_Ret_inv. by apply length_upd. Qed.

Lemma bytes_sub f off n : bytes f -> bytes (sub f off n).
Proof. intros. by apply Forall_take_drop. Qed.

Lemma bytes_upd f off bs : bytes f -> bytes bs -> bytes (upd f off bs).
Proof.
  intros. unfold upd. apply Forall_app; split; [by apply Forall_take|].
  apply Forall_app; split; [done|by apply Forall_drop].
Qed.

(** Byte-wise reading of a block after a store. *)
Lemma lookup_upd f off bs i :
  (off + length bs <= length f)%nat ->
  upd f off bs !! i =
    if decide (off <= i < off + length bs)%nat then bs !! (i - off)%nat else f !! i.
Proof.
  intros Hb. unfold upd. case_decide as Hi.
  - rewrite lookup_app_r by (rewrite length_take; lia).
    rewrite length_take, lookup_app_l by lia. f_equal; lia.
  - destruct (decide (i < off)%nat).
    + rewrite lookup_app_l by (rewrite length_take; lia). by rewrite lookup_take_lt by lia.
    + rewrite lookup_app_r by (rewrite length_take; lia).
      rewrite length_take, lookup_app_r by lia.
      rewrite lookup_drop. f_equal; lia.
Qed.

Lemma lookup_sub f off n i :
  sub f off n !! i = if decide (i < n)%nat then f !! (off + i)%nat else None.
Proof.
  unfold sub. case_decide.
  - by rewrite lookup_take_lt, lookup_drop by lia.
  - by rewrite lookup_take_ge by lia.
Qed.

Lemma sub_upd_same f off bs :
  (off + length bs <= length f)%nat -> sub (upd f off bs) off (length bs) = bs.
Proof.
  intros Hb. apply list_eq; intros i. rewrite lookup_sub.
  case_decide as Hi; [|symmetry; apply lookup_ge_None; lia].
  rewrite lookup_upd by done. rewrite decide_True by lia. f_equal; lia.
Qed.

Lemma sub_upd_disjoint f off bs off' n :
  (off + length bs <= length f)%nat ->
  (off' + n <= off)%nat \/ (off + length bs <= off')%nat ->
  sub (upd f off bs) off' n = sub f off' n.
Proof.
  intros Hb Hd. apply list_eq; intros i. rewrite !lookup_sub.
  case_decide; [|done]. rewrite lookup_upd by done.
  rewrite decide_False by lia. done.
Qed.

Lemma sub_sub f off n off' n' :
  (off' + n' <= n)%nat -> sub (sub f off n) off' n' = sub f (off + off') n'.
Proof.
  intros. apply list_eq; intros i. rewrite !lookup_sub.
  case_decide; [|done]. rewrite decide_True by lia. f_equal; lia.
Qed.

Lemma sub_upd_inside f off bs o n :
  (off + length bs <= length f)%nat -> (o + n <= length bs)%nat ->
  sub (upd f off bs) (off + o) n = sub bs o n.
Proof.
  intros Hb Ho. rewrite <- (sub_upd_same f off bs) at 2 by done.
  by rewrite sub_sub.
Qed.

Lemma sub_upd_cover f a o bs n :
  (a + n <= length f)%nat -> (o + length bs <= n)%nat ->
  sub (upd f (a + o) bs) a n = upd (sub f a n) o bs.
Proof.
  intros Ha Ho. apply list_eq; intros i.
  rewrite lookup_upd by (rewrite length_sub by lia; lia).
  rewrite !lookup_sub. case_decide.
  - rewrite lookup_upd by lia. repeat case_decide; try lia; f_equal; lia.
  - rewrite decide_False by lia. done.
Qed.

Lemma sub_app_r l1 l2 off n :
  (length l1 <= off)%nat -> sub (l1 ++ l2) off n = sub l2 (off - length l1) n.
Proof. intros. unfold sub. by rewrite drop_app, (drop_ge l1) by lia. Qed.

Lemma sub_split f off n m :
  (off + n + m <= length f)%nat -> sub f off (n + m) = sub f off n ++ sub f (off + n) m.
Proof. intros. unfold sub. by rewrite <- drop_drop, take_drop_app. Qed.

Lemma upd_sub_id f off n : (off + n <= length f)%nat -> upd f off (sub f off n) = f.
Proof.
  intros. apply list_eq; intros i. rewrite lookup_upd by (by rewrite length_sub).
  rewrite length_sub by done. case_decide; [|done].
  rewrite lookup_sub, decide_True by lia. f_equal; lia.
Qed.
End Blocks.

(** ** Loads and stores that are in bounds *)

Definition rd (n : nat) (f : list Z) (off : nat) : Z := le_decode (sub f off n).

Lemma ld8_ok f off : (off + 1 <= length f)%nat -> ld8 f off = Ret (rd 1 f off).
Proof. intros. unfold ld8. by rewrite mget_ok. Qed.
Lemma ld16_ok f off : (off + 2 <= length f)%nat -> ld16 f off = Ret (rd 2 f off).
Proof. intros. unfold ld16. by rewrite mget_ok. Qed.
Lemma ld32_ok f off : (off + 4 <= length f)%nat -> ld32 f off = Ret (rd 4 f off).
Proof. intros. unfold ld32. by rewrite mget_ok. Qed.
Lemma st8_ok f off v : (off + 1 <= length f)%nat -> st8 f off v = Ret (upd f off (le_encode 1 v)).
Proof. intros. unfold st8. by rewrite mput_ok. Qed.
Lemma st16_ok f off v : (off + 2 <= length f)%nat -> st16 f off v = Ret (upd f off (le_encode 2 v)).
Proof. intros. unfold st16. by rewrite mput_ok. Qed.
Lemma st32_ok f off v : (off + 4 <= length f)%nat -> st32 f off v = Ret (upd f off (le_encode 4 v)).
Proof. intros. unfold st32. by rewrite mput_ok. Qed.

Lemma ld8_Ret_inv f off v : ld8 f off = Ret v <-> (off + 1 <= length f)%nat /\ v = rd 1 f off.
Proof. unfold ld8, rd. rewrite obind_Ret_inv. setoid_rewrite mget_Ret_inv. naive_solver. Qed.
Lemma ld16_Ret_inv f off v : ld16 f off = Ret v <-> (off + 2 <= length f)%nat /\ v = rd 2 f off.
Proof. unfold ld16, rd. rewrite obind_Ret_inv. setoid_rewrite mget_Ret_inv. naive_solver. Qed.
Lemma ld32_Ret_inv f off v : ld32 f off = Ret v <-> (off + 4 <= length f)%nat /\ v = rd 4 f off.
Proof. unfold ld32, rd. rewrite obind_Ret_inv. setoid_rewrite mget_Ret_inv. naive_solver. Qed.

Lemma rd_bound n f off : bytes f -> (off + n <= length f)%nat -> 0 <= rd n f off < 256 ^ Z.of_nat n.
Proof.
  intros Hf Hb. pose proof (le_decode_bound _ (bytes_sub f off n Hf)) as H.
  by rewrite length_sub in H.
Qed.

Lemma rd_upd_same n f off v :
  (off + n <= length f)%nat -> rd n (upd f off (le_encode n v)) off = v mod 256 ^ Z.of_nat n.
Proof.
  intros. unfold rd. rewrite <- (length_le_encode n v) at 2.
  rewrite sub_upd_same by (by rewrite length_le_encode). apply le_decode_encode.
Qed.

Lemma rd_upd_disjoint n f off bs off' :
  (off + length bs <= length f)%nat ->
  (off' + n <= off)%nat \/ (off + length bs <= off')%nat ->
  rd n (upd f off bs) off' = rd n f off'.
Proof. intros. unfold rd. by rewrite sub_upd_disjoint. Qed.

(** ** Blocks that agree outside a range *)

(** [f'] has the size of [f] and its bytes outside [a, b). *)
Definition same_outside (a b : nat) (f f' : list Z) : Prop :=
  length f' = length f /\ forall i, (i < a)%nat \/ (b <= i)%nat -> f' !! i = f !! i.

#[export] Instance same_outside_refl a b : Reflexive (same_outside a b).
Proof. by split. Qed.
#[export] Instance same_outside_trans a b : Transitive (same_outside a b).
Proof.
  intros f g h [Hl1 H1] [Hl2 H2]. split; [congruence|].
  intros i Hi. by rewrite H2, H1.
Qed.

Lemma same_outside_weaken a b a' b' f f' :
  (a' <= a)%nat -> (b <= b')%nat -> same_outside a b f f' -> same_outside a' b' f f'.
Proof. intros Ha Hb [Hl H]. split; [done|]. intros i Hi. apply H. lia. Qed.

Lemma same_outside_upd f off bs :
  (off + length bs <= length f)%nat -> same_outside off (off + length bs) f (upd f off bs).
Proof.
  intros Hb. split; [by apply length_upd|]. intros i Hi.
  rewrite lookup_upd by done. by rewrite decide_False by lia.
Qed.

Lemma same_outside_sub a b f f' off n :
  same_outside a b f f' -> (off + n <= a)%nat \/ (b <= off)%nat -> sub f' off n = sub f off n.
Proof.
  intros [Hl H] Ho. apply list_eq; intros i. rewrite !lookup_sub.
  case_decide; [|done]. apply H. lia.
Qed.

Section SameOutside.
Context (a b : nat) (f f' : list Z) (Hs : same_outside a b f f').

Lemma same_outside_mget off n :
  (off + n <= a)%nat \/ (b <= off)%nat -> mget f' off n = mget f off n.
Proof.
  intros Ho. unfold mget. rewrite (proj1 Hs). case_decide; [|done].
  f_equal. by eapply same_outside_sub.
Qed.
Lemma same_outside_ld8 off : (off + 1 <= a)%nat \/ (b <= off)%nat -> ld8 f' off = ld8 f off.
Proof. intros. unfold ld8. by rewrite same_outside_mget. Qed.
Lemma same_outside_ld16 off : (off + 2 <= a)%nat \/ (b <= off)%nat -> ld16 f' off = ld16 f off.
Proof. intros. unfold ld16. by rewrite same_outside_mget. Qed.
Lemma same_outside_ld32 off : (off + 4 <= a)%nat \/ (b <= off)%nat -> ld32 f' off = ld32 f off.
Proof. intros. unfold ld32. by rewrite same_outside_mget. Qed.
Lemma same_outside_rd n off : (off + n <= a)%nat \/ (b <= off)%nat -> rd n f' off = rd n f off.
Proof. intros. unfold rd. by erewrite same_outside_sub. Qed.
End SameOutside.

#[export] Hint Rewrite length_le_encode : mem.

(** [memstep] runs the loads and stores of the goal whose bounds [lia] proves
    from the context. *)
Ltac memlen :=
  repeat (rewrite length_upd by (rewrite ?length_le_encode; memlen)); simpl length;
  rewrite ?length_le_encode, ?length_sub by lia; try lia; simpl; try lia.
Ltac memstep :=
  repeat first
    [ rewrite ld8_ok by memlen | rewrite ld16_ok by memlen | rewrite ld32_ok by memlen
    | rewrite st8_ok by memlen | rewrite st16_ok by memlen | rewrite st32_ok by memlen
    | rewrite mget_ok by memlen | rewrite mput_ok by memlen
    | progress cbn [obind] ].

Lemma bytes_zeros n : bytes (repeat 0 n).
Proof. induction n; simpl; constructor; [by unfold is_byte|done]. Qed.

(** ** Two's complement on 32 bits *)

Lemma u32_u32 z : u32 (u32 z) = u32 z.
Proof. unfold u32. by rewrite Z.mod_mod. Qed.
Lemma u32_range z : 0 <= u32 z < 2 ^ 32.
Proof. by apply Z.mod_pos_bound. Qed.
Lemma u32_small z : 0 <= z < 2 ^ 32 -> u32 z = z.
Proof. apply Z.mod_small. Qed.
Lemma u32_add_l a b : u32 (u32 a + b) = u32 (a + b).
Proof. unfold u32. by rewrite Z.add_mod_idemp_l. Qed.
Lemma u32_add_r a b : u32 (a + u32 b) = u32 (a + b).
Proof. unfold u32. by rewrite Z.add_mod_idemp_r. Qed.
Lemma u32_add_congr x y d : u32 x = u32 y -> u32 (x + d) = u32 (y + d).
Proof. intros H. by rewrite <- u32_add_l, H, u32_add_l. Qed.

(** [a + ~d + 1] is a subtraction. *)
Lemma u32_lnot_sub a d : u32 (a + u32 (Z.lnot d) + 1) = u32 (a - d).
Proof.
  replace (a + u32 (Z.lnot d) + 1) with ((a + 1) + u32 (Z.lnot d)) by lia.
  rewrite u32_add_r. f_equal. unfold Z.lnot. lia.
Qed.
#[export] Hint Rewrite u32_u32 u32_add_l u32_add_r u32_lnot_sub : mem.

(** [bytes l] of a concrete block. *)
Ltac solve_bytes := apply (bool_decide_unpack _); vm_compute; exact I.
