(* ===== verification/CString.v ===== *)
(** C strings and their numbers, as the decision modules use them: [atoi] on the
    block a parameter points to, [g_snprintf] with [%d] and [%u], [inet_ntop],
    and the buffers the strings are written to. *)
From Stdlib Require Import Ascii.
From S2P Require Import Prelude Mem.

(** The bytes of a literal. *)
Fixpoint string_bytes (s : string) : list Z :=
  match s with
  | EmptyString => []
  | String a s => Z.of_N (N_of_ascii a) :: string_bytes s
  end.

(** * Reading a number *)

Definition is_space (b : Z) : bool := (b =? 32) || ((9 <=? b) && (b <=? 13)).
Definition is_digit (b : Z) : bool := (48 <=? b) && (b <=? 57).

Fixpoint skip_spaces (bs : list Z) : list Z :=
  match bs with
  | b :: bs' => if is_space b then skip_spaces bs' else bs
  | [] => []
  end.

(** The value of the digits at the start of the block; the byte after them must
    be in the block. *)
Fixpoint read_digits (bs : list Z) (acc : Z) : outcome Z :=
  match bs with
  | [] => Fault OutOfBounds
  | b :: bs => if is_digit b then read_digits bs (10 * acc + (b - 48)) else Ret acc
  end.

(** [atoi] is [(int) strtol(s, NULL, 10)]: the value is clamped to a [long], then
    truncated to an [int]. *)
Definition clamp_long (z : Z) : Z := Z.max (- 2 ^ 63) (Z.min (2 ^ 63 - 1) z).
Definition atoi (bs : list Z) : outcome Z :=
  match skip_spaces bs with
  | [] => Fault OutOfBounds
  | b :: bs' =>
    if b =? 45 then let! n := read_digits bs' 0 in Ret (s32 (clamp_long (- n)))
    else if b =? 43 then let! n := read_digits bs' 0 in Ret (s32 (clamp_long n))
    else let! n := read_digits (b :: bs') 0 in Ret (s32 (clamp_long n))
  end.

(** * Writing a number *)

(** The decimal digits of [n]; twenty are enough for any [long]. *)
Fixpoint digits (fuel : nat) (n : Z) (acc : list Z) : list Z :=
  match fuel with
  | O => acc
  | S fuel =>
    let acc := 48 + n mod 10 :: acc in
    if n <? 10 then acc else digits fuel (n / 10) acc
  end.
Definition print_u (n : Z) : list Z := digits 20 n [].
Definition print_d (n : Z) : list Z := if n <? 0 then 45 :: print_u (- n) else print_u n.

(** [inet_ntop(AF_INET, ..)] of an address in network order. *)
Definition inet_ntop (ip : Z) : list Z :=
  let byte i := print_u (Z.shiftr ip (8 * i) mod 256) in
  byte 0 ++ [46] ++ byte 1 ++ [46] ++ byte 2 ++ [46] ++ byte 3.

(** * Buffers *)

(** [g_snprintf(buffer, 20, ..)] into a buffer of [cap] bytes: at most 19
    characters and a zero are written. *)
Definition snprintf20 (cap : Z) (s : list Z) : outcome (list Z) :=
  let s := take 19 s in
  if Z.of_nat (length s) + 1 <=? cap then Ret s else Fault OutOfBounds.

(** The bytes of a string in a block, before its terminating zero. *)
Fixpoint c_bytes (bs : list Z) : outcome (list Z) :=
  match bs with
  | [] => Fault OutOfBounds
  | b :: bs => if b =? 0 then Ret [] else let! s := c_bytes bs in Ret (b :: s)
  end.

(** * A printed number is read back *)

Lemma is_digit_48 d : 0 <= d < 10 -> is_digit (48 + d) = true.
Proof. intros. unfold is_digit. by rewrite (proj2 (Z.leb_le _ _)), (proj2 (Z.leb_le _ _)) by lia. Qed.

(** Reading what [digits] wrote in front of [acc] continues on [acc] with the
    number. *)
Lemma read_digits_digits fuel n acc k :
  0 <= n < 10 ^ Z.of_nat fuel -> (0 < fuel)%nat ->
  exists m, read_digits (digits fuel n acc) k = read_digits acc (10 ^ m * k + n) /\ 0 <= m.
Proof.
  revert n acc k. induction fuel as [|fuel IH]; intros n acc k Hn Hf; [lia|].
  pose proof (Z.mod_pos_bound n 10 ltac:(lia)) as Hm. cbn [digits]. destruct (n <? 10) eqn:E; zbool.
  - exists 1. cbn [read_digits]. rewrite is_digit_48 by done. split; [|lia]. f_equal.
    rewrite Z.mod_small by lia. lia.
  - destruct (IH (n / 10) (48 + n mod 10 :: acc) k) as (m & Hr & Hm0).
    { rewrite Nat2Z.inj_succ, Z.pow_succ_r in Hn by lia. split; [apply Z.div_pos; lia|].
      apply Z.div_lt_upper_bound; lia. }
    { destruct fuel; [|lia]. simpl in Hn. lia. }
    exists (m + 1). rewrite Hr. cbn [read_digits]. rewrite is_digit_48 by done. split; [|lia]. f_equal.
    rewrite Z.pow_add_r, Z.pow_1_r by lia. pose proof (Z.div_mod n 10 ltac:(lia)). lia.
Qed.

Lemma read_print_u n rest : 0 <= n < 10 ^ 20 -> (forall b, head rest = Some b -> is_digit b = false) -> rest <> [] ->
  read_digits (print_u n ++ rest) 0 = Ret n.
Proof.
  intros Hn Hr Hne. assert (Happ : forall fuel k acc, digits fuel k acc ++ rest = digits fuel k (acc ++ rest)).
  { induction fuel as [|fuel IH]; intros k acc; cbn [digits]; [done|]. destruct (_ <? _); [done|]. apply IH. }
  unfold print_u. rewrite Happ. destruct (read_digits_digits 20 n ([] ++ rest) 0 Hn ltac:(lia)) as (m & -> & _).
  rewrite Z.mul_0_r. simpl. destruct rest as [|b rest]; [done|]. cbn [read_digits]. by rewrite Hr.
Qed.

Lemma print_u_head n : 0 <= n -> exists b l, print_u n = b :: l /\ is_digit b = true.
Proof.
  intros Hn. unfold print_u. assert (H : forall fuel k acc, 0 <= k -> (0 < fuel)%nat ->
    exists b l, digits fuel k acc = b :: l /\ is_digit b = true).
  { induction fuel as [|fuel IH]; intros k acc Hk Hf; [lia|]. cbn [digits].
    pose proof (Z.mod_pos_bound k 10 ltac:(lia)) as Hm. destruct (_ <? _); [|destruct fuel as [|fuel]].
    - eexists _, _. split; [done|by apply is_digit_48].
    - cbn [digits]. eexists _, _. split; [done|by apply is_digit_48].
    - apply IH; [apply Z.div_pos; lia|lia]. }
  apply H; [done|lia].
Qed.

Lemma skip_digit b l : is_digit b = true -> skip_spaces (b :: l) = b :: l.
Proof.
  intros Hb. cbn [skip_spaces]. unfold is_digit, is_space in *. destruct (_ || _) eqn:E; [|done].
  apply orb_true_iff in E as [E|E]; zbool; lia.
Qed.

Lemma atoi_print_d n : - 2 ^ 31 <= n < 2 ^ 31 -> atoi (print_d n ++ [0]) = Ret n.
Proof.
  intros Hn. assert (H10 : 2 ^ 31 < 10 ^ 20) by done.
  assert (Hs : forall z, - 2 ^ 31 <= z < 2 ^ 31 -> s32 (clamp_long z) = z).
  { intros z Hz. unfold s32, clamp_long, u32. rewrite Z.max_r, Z.min_r by lia.
    destruct (decide (0 <= z)).
    - rewrite Z.mod_small by lia. destruct (_ <? _) eqn:E; zbool; lia.
    - rewrite <- (Z.mod_add z 1) by done. rewrite Z.mod_small by lia. destruct (_ <? _) eqn:E; zbool; lia. }
  assert (Hrest : forall b, head [0] = Some b -> is_digit b = false) by (by intros b [= <-]).
  unfold atoi, print_d. destruct (n <? 0) eqn:E; zbool.
  - change (skip_spaces ((45 :: print_u (- n)) ++ [0])) with (45 :: (print_u (- n) ++ [0])).
    cbn match. change (45 =? 45) with true. cbn match.
    rewrite (read_print_u (- n) [0] ltac:(lia) Hrest) by discriminate. cbn [obind]. rewrite Hs by lia. f_equal. lia.
  - destruct (print_u_head n ltac:(lia)) as (b & l & Eb & Hb). pose proof (read_print_u n [0] ltac:(lia) Hrest ltac:(discriminate)) as Hr.
    rewrite Eb in *. cbn [app] in *. rewrite skip_digit by done.
    unfold is_digit in Hb. zbool. destruct (b =? 45) eqn:E1; zbool; [lia|]. destruct (b =? 43) eqn:E2; zbool; [lia|].
    rewrite Hr. cbn [obind]. by rewrite Hs by lia.
Qed.

(** No printed number is cut. *)
Lemma digits_length fuel n acc k : 0 <= n < 10 ^ k -> 0 <= k ->
  Z.of_nat (length (digits fuel n acc)) <= Z.max 1 k + Z.of_nat (length acc).
Proof.
  revert n acc k. induction fuel as [|fuel IH]; intros n acc k Hn Hk; cbn [digits]; [lia|].
  destruct (_ <? _) eqn:E; zbool; [simpl; lia|].
  assert (Hk1 : 1 < k).
  { destruct (decide (1 < k)); [done|]. exfalso. assert (10 ^ k <= 10 ^ 1) by (apply Z.pow_le_mono_r; lia). lia. }
  specialize (IH (n / 10) (48 + n mod 10 :: acc) (k - 1)). simpl length in IH.
  assert (0 <= n / 10 < 10 ^ (k - 1)).
  { split; [apply Z.div_pos; lia|]. apply Z.div_lt_upper_bound; [lia|]. rewrite <- Z.pow_succ_r by lia.
    replace (Z.succ (k - 1)) with k by lia. lia. }
  specialize (IH ltac:(done) ltac:(lia)). lia.
Qed.

Lemma print_d_length n : - 2 ^ 31 <= n < 2 ^ 31 -> (length (print_d n) <= 11)%nat.
Proof.
  intros Hn. assert (H10 : 2 ^ 31 < 10 ^ 10) by done. unfold print_d, print_u. destruct (_ <? _) eqn:E; zbool.
  - pose proof (digits_length 20 (- n) [] 10 ltac:(lia) ltac:(lia)). cbn [length] in *. lia.
  - pose proof (digits_length 20 n [] 10 ltac:(lia) ltac:(lia)). cbn [length] in *. lia.
Qed.

Lemma snprintf20_ok cap s : (length s <= 19)%nat -> 20 <= cap -> snprintf20 cap s = Ret s.
Proof.
  intros Hs Hc. unfold snprintf20. rewrite take_ge by lia. by rewrite (proj2 (Z.leb_le _ _)) by lia.
Qed.
