(* ===== verification/Types.v ===== *)
(** The data of the program: the enumerations of [types.h], the structures of
    [structs.h] and the globals of [globals.h], gathered in one [world] whose
    heaps hold the objects the code allocates and shares through pointers.
    A pointer is a [positive]; a nullable one is an [option ptr]; an object
    that has been freed is absent from its heap.  Addresses are never reused,
    so a dangling pointer is recognised when it is used. *)
From S2P Require Import Prelude Mem.

(** * Enumerations (types.h) *)

Inductive role_t := EXT | INT | LIH | HIH | INTRA.
Inductive conn_status_t :=
  | INVALID | INIT | DECISION | REPLAY | FORWARD | PROXY | DROP | CONTROL.
Inductive output_t :=
  | OUTPUT_INVALID | OUTPUT_SYSLOG | OUTPUT_STDOUT | OUTPUT_LOGFILES | OUTPUT_MYSQL.
Inductive status_t := NOK | OK.
Inductive decision_t := DE_NO_RULE | DE_DEFER | DE_REJECT | DE_ACCEPT | DE_DROP.
Inductive mod_result_t := DEFER | REJECT | ACCEPT.

#[export] Instance role_t_eq_dec : EqDecision role_t.
Proof. solve_decision. Defined.
#[export] Instance conn_status_t_eq_dec : EqDecision conn_status_t.
Proof. solve_decision. Defined.
#[export] Instance status_t_eq_dec : EqDecision status_t.
Proof. solve_decision. Defined.
#[export] Instance decision_t_eq_dec : EqDecision decision_t.
Proof. solve_decision. Defined.
#[export] Instance mod_result_t_eq_dec : EqDecision mod_result_t.
Proof. solve_decision. Defined.

(** The number C gives each connection state: the states are compared with
    [<] and [<=] and index the statistics arrays. *)
Definition conn_status_num (s : conn_status_t) : Z :=
  match s with
  | INVALID => 0 | INIT => 1 | DECISION => 2 | REPLAY => 3
  | FORWARD => 4 | PROXY => 5 | DROP => 6 | CONTROL => 7
  end.
Definition MAX_CONN_STATUS : nat := 8.
Definition status_index (s : conn_status_t) : nat := Z.to_nat (conn_status_num s).

(** The bits of [replay_problem_t]. *)
Definition REPLAY_UNEXPECTED_PROTOCOL : Z := Z.shiftl 1 0.
Definition REPLAY_UNEXPECTED_PAYLOAD : Z := Z.shiftl 1 1.
Definition REPLAY_UNEXPECTED_TCP_ACK : Z := Z.shiftl 1 2.
Definition REPLAY_UNEXPECTED_TCP_SEQ : Z := Z.shiftl 1 3.
Definition REPLAY_UNEXPECTED_TCP_TS : Z := Z.shiftl 1 4.
Definition REPLAY_EXPECTED_TCP_TS : Z := Z.shiftl 1 5.
Definition REPLAY_TCP_TS_OUTOFSYNC : Z := Z.shiftl 1 6.

(** * Constants *)

Definition ETHER_HDR_LEN : nat := 14.
Definition VLAN_HLEN : nat := 4.
Definition VLAN_ETH_HLEN : nat := 18.
Definition ETH_ALEN : nat := 6.
Definition IP_HDR_SIZE : nat := 20.
Definition TCP_HDR_LEN : nat := 20.
Definition UDP_HDR_LEN : nat := 8.
Definition BUFSIZE : Z := 2048.
Definition MIN_PACKET_SIZE : Z := 42.
Definition MIN_TCP_SIZE : Z := 54.
Definition ETHERTYPE_IP : Z := 0x0800.
Definition ETHERTYPE_ARP : Z := 0x0806.
Definition ETHERTYPE_VLAN : Z := 0x8100.
Definition IPPROTO_TCP : Z := 6.
Definition IPPROTO_UDP : Z := 17.

(** * VLAN tags *)

(** [struct vlan_tci] is a 16-bit word whose bit-fields are laid out from the
    least significant bit: [pcp] on 3 bits, [dei] on 1, [vid] on 12. *)
Definition vlan_pcp (i : Z) : Z := Z.land i 7.
Definition vlan_dei (i : Z) : Z := Z.land (Z.shiftr i 3) 1.
Definition vlan_vid (i : Z) : Z := Z.land (Z.shiftr i 4) 4095.

(** [BIT_MASK(a, b)] of [convenience.h], on 64-bit words. *)
Definition BIT_MASK (a b : Z) : Z :=
  Z.land (Z.shiftr (u64 (-1)) (63 - b)) (u64 (Z.lnot (Z.shiftl 1 a - 1))).

(** * Pointers and heaps *)

Notation ptr := positive (only parsing).

(** * Keys of the trees *)

Record pin_key := PinKey {
  pk_target_ip : Z;
  pk_handler_ip : Z;
  pk_vlan_id : Z;
}.

Record conn_key := ConnKey {
  ck_protocol : Z;
  ck_src_ip : Z;
  ck_src_port : Z;
  ck_dst_ip : Z;
  ck_dst_port : Z;
  ck_vlan_id : Z;
}.

#[export] Instance pin_key_eq_dec : EqDecision pin_key.
Proof. solve_decision. Defined.
#[export] Instance conn_key_eq_dec : EqDecision conn_key.
Proof. solve_decision. Defined.

(** * Handlers, targets, interfaces *)

Record handler := Handler {
  hd_ID : Z;
  hd_mac : option (list Z);
  hd_ip : option Z;
  hd_netmask : option Z;
  hd_vlan : Z;
  hd_iface : option ptr;
  hd_rule : option ptr;
  hd_exclusive : Z;
  hd_intra_target_ips : list (option Z);
}.

(** [intra_handlers] is a tree of pointers to addresses: the map is for its keys that
    are addresses, [tg_intra_null] for a null key. *)
Record target := Target {
  tg_targetID : Z;
  tg_default_route : option ptr;
  tg_default_route_ip : option Z;
  tg_default_route_mac : option (list Z);
  tg_front_handler : option ptr;
  tg_back_handlers : gmap Z ptr;
  tg_back_handler_count : Z;
  tg_back_picker : option ptr;
  tg_intra_handlers : gmap Z ptr;
  tg_intra_null : option ptr;
  tg_intra_handlers_list : list ptr;
  tg_control_rule : option ptr;
  tg_intra_rule : option ptr;
}.

Record interface := Interface {
  if_tag : string;
  if_ip : option Z;
  if_mac : list Z;
  if_mtu : Z;
  if_target : option ptr;
  if_name : option (list Z);
  if_filter : option (list Z);
  if_promisc : Z;
}.

#[export] Instance eta_handler : EtaRecord handler := fun h =>
  Handler (hd_ID h) (hd_mac h) (hd_ip h) (hd_netmask h) (hd_vlan h) (hd_iface h)
    (hd_rule h) (hd_exclusive h) (hd_intra_target_ips h).
#[export] Instance eta_target : EtaRecord target := fun t =>
  Target (tg_targetID t) (tg_default_route t) (tg_default_route_ip t)
    (tg_default_route_mac t) (tg_front_handler t) (tg_back_handlers t)
    (tg_back_handler_count t) (tg_back_picker t) (tg_intra_handlers t) (tg_intra_null t)
    (tg_intra_handlers_list t) (tg_control_rule t) (tg_intra_rule t).
#[export] Instance eta_interface : EtaRecord interface := fun i =>
  Interface (if_tag i) (if_ip i) (if_mac i) (if_mtu i) (if_target i)
    (if_name i) (if_filter i) (if_promisc i).

(** * Decision trees *)

(** The modules a rule can call ([honeybrid_modules_t]). *)
Inductive module_function :=
  | mod_source | mod_source_time | mod_random | mod_yesno | mod_counter
  | mod_vmi | mod_control | mod_backpick_random | mod_dns_control | mod_hash.

#[export] Instance module_function_eq_dec : EqDecision module_function.
Proof. solve_decision. Defined.

(** A value of a module's configuration table: the untyped block a parameter
    points to (the four bytes of an [int], or the bytes of a string with its
    terminating zero), or a key file. *)
Inductive config_value :=
  | CBlock (bs : list Z)
  | CKeyFile (p : ptr).

Record node := Node {
  nd_module : option module_function;
  nd_config : gmap string config_value;
  nd_module_name : string;
  nd_function : string;
  nd_true_branch : option ptr;
  nd_false_branch : option ptr;
}.
#[export] Instance eta_node : EtaRecord node := fun n =>
  Node (nd_module n) (nd_config n) (nd_module_name n) (nd_function n)
    (nd_true_branch n) (nd_false_branch n).

(** * Packets *)

(** [struct packet]: the frame and the positions inside it the header
    pointers designate. *)
Record packet := Packet {
  FRAME : list Z;
  p_eth : nat;
  p_ip : nat;
  p_l4 : nat;
  p_payload : nat;
}.

(** Copies of the headers as they were received. *)
Record headers := Headers {
  oh_eth : option (list Z);
  oh_vlan : option (list Z);
  oh_ip : option (list Z);
  oh_tcp : option (list Z);
  oh_udp : option (list Z);
}.

(** [struct nat]: the addresses the packet is rewritten to. *)
Record nat_struct := NatStruct {
  nat_src_ip : option Z;
  nat_dst_mac : option (list Z);
  nat_dst_ip : option Z;
  nat_dst_vlan : option Z;
}.

Record pkt_struct := PktStruct {
  pt_packet : packet;
  pt_original_headers : headers;
  pt_fragmented : bool;
  pt_broadcast : bool;
  pt_origin : role_t;
  pt_destination : role_t;
  pt_data : Z;
  pt_size : Z;
  pt_DE : Z;
  pt_conn : option ptr;
  pt_nat : nat_struct;
  pt_position : Z;
  pt_in : option ptr;
  pt_out : option ptr;
}.

#[export] Instance eta_packet : EtaRecord packet := fun p =>
  Packet (FRAME p) (p_eth p) (p_ip p) (p_l4 p) (p_payload p).
#[export] Instance eta_headers : EtaRecord headers := fun h =>
  Headers (oh_eth h) (oh_vlan h) (oh_ip h) (oh_tcp h) (oh_udp h).
#[export] Instance eta_nat_struct : EtaRecord nat_struct := fun n =>
  NatStruct (nat_src_ip n) (nat_dst_mac n) (nat_dst_ip n) (nat_dst_vlan n).
#[export] Instance eta_pkt_struct : EtaRecord pkt_struct := fun p =>
  PktStruct (pt_packet p) (pt_original_headers p) (pt_fragmented p) (pt_broadcast p)
    (pt_origin p) (pt_destination p) (pt_data p) (pt_size p) (pt_DE p) (pt_conn p)
    (pt_nat p) (pt_position p) (pt_in p) (pt_out p).

(** * Connections *)

Record hih_struct := HihStruct {
  hih_hihID : Z;
  hih_back_handler : option ptr;
  hih_port : Z;
  hih_lih_syn_seq : Z;
  hih_delta : Z;
  hih_redirected_int_key : option conn_key;
  hih_target_pin_key : option ptr;
}.

(** [payload] points into the frame of a stored packet. *)
Record expected_data_struct := ExpectedData {
  ed_ip_proto : Z;
  ed_tcp_seq : Z;
  ed_tcp_ack_seq : Z;
  ed_tcp_ts : Z;
  ed_payload : option (ptr * nat);
}.

Record conn_struct := ConnStruct {
  cn_ext_key : option conn_key;
  cn_int_key : option conn_key;
  cn_intra_key : option conn_key;
  cn_pin_key : option ptr;
  cn_lock : bool;
  cn_protocol : Z;
  cn_start_microtime : Z;
  cn_access_time : Z;
  cn_tcp_ts_diff : Z;
  cn_state : conn_status_t;
  cn_id : Z;
  cn_replay_id : Z;
  cn_count_data_pkt_from_lih : Z;
  cn_count_data_pkt_from_intruder : Z;
  cn_BUFFER : list ptr;
  cn_expected_data : expected_data_struct;
  cn_initiator : role_t;
  cn_destination : role_t;
  cn_first_pkt_vlan : Z;
  cn_first_pkt_src_mac : list Z;
  cn_first_pkt_dst_mac : list Z;
  cn_first_pkt_src_ip : Z;
  cn_first_pkt_dst_ip : Z;
  cn_first_pkt_src_port : Z;
  cn_first_pkt_dst_port : Z;
  cn_hih : hih_struct;
  cn_intra_handler : option ptr;
  cn_target : option ptr;
  cn_pin_ip : option ptr;
  cn_stat_time : list Z;
  cn_stat_packet : list Z;
  cn_stat_byte : list Z;
  cn_total_packet : Z;
  cn_total_byte : Z;
  cn_decision_packet_id : Z;
  cn_replay_problem : Z;
}.

#[export] Instance eta_hih_struct : EtaRecord hih_struct := fun h =>
  HihStruct (hih_hihID h) (hih_back_handler h) (hih_port h) (hih_lih_syn_seq h)
    (hih_delta h) (hih_redirected_int_key h) (hih_target_pin_key h).
#[export] Instance eta_expected_data : EtaRecord expected_data_struct := fun e =>
  ExpectedData (ed_ip_proto e) (ed_tcp_seq e) (ed_tcp_ack_seq e) (ed_tcp_ts e) (ed_payload e).
#[export] Instance eta_conn_struct : EtaRecord conn_struct := fun c =>
  ConnStruct (cn_ext_key c) (cn_int_key c) (cn_intra_key c) (cn_pin_key c) (cn_lock c)
    (cn_protocol c) (cn_start_microtime c) (cn_access_time c) (cn_tcp_ts_diff c)
    (cn_state c) (cn_id c) (cn_replay_id c) (cn_count_data_pkt_from_lih c)
    (cn_count_data_pkt_from_intruder c) (cn_BUFFER c) (cn_expected_data c)
    (cn_initiator c) (cn_destination c) (cn_first_pkt_vlan c) (cn_first_pkt_src_mac c)
    (cn_first_pkt_dst_mac c) (cn_first_pkt_src_ip c) (cn_first_pkt_dst_ip c)
    (cn_first_pkt_src_port c) (cn_first_pkt_dst_port c) (cn_hih c) (cn_intra_handler c)
    (cn_target c) (cn_pin_ip c) (cn_stat_time c) (cn_stat_packet c) (cn_stat_byte c)
    (cn_total_packet c) (cn_total_byte c) (cn_decision_packet_id c) (cn_replay_problem c).

(** The structures as [g_malloc0] returns them. *)
Definition hih_zero : hih_struct := HihStruct 0 None 0 0 0 None None.
Definition expected_zero : expected_data_struct := ExpectedData 0 0 0 0 None.
Definition conn_zero : conn_struct :=
  ConnStruct None None None None false 0 0 0 0 INVALID 0 0 0 0 [] expected_zero EXT EXT 0
    (repeat 0 6) (repeat 0 6) 0 0 0 0 hih_zero None None None
    (repeat 0 MAX_CONN_STATUS) (repeat 0 MAX_CONN_STATUS) (repeat 0 MAX_CONN_STATUS)
    0 0 0 0.
Definition headers_zero : headers := Headers None None None None None.
Definition nat_zero : nat_struct := NatStruct None None None None.
Definition node_zero : node := Node None ∅ "" "" None None.
Definition handler_zero : handler := Handler 0 None None None 0 None None 0 [].

(** * Pins *)

Record pin := Pin {
  pn_pin_key : ptr;
  pn_ip : Z;
  pn_count : Z;
}.
#[export] Instance eta_pin : EtaRecord pin := fun p => Pin (pn_pin_key p) (pn_ip p) (pn_count p).

(** * Arguments of the decision engine *)

Record mod_args := ModArgs {
  ma_node : ptr;
  ma_pkt : ptr;
  ma_backend_test : Z;
  ma_backend_use : Z;
}.

Record decision_holder := DecisionHolder {
  dh_pkt : ptr;
  dh_node : option ptr;
  dh_backend_test : Z;
  dh_backend_use : Z;
  dh_result : decision_t;
}.
#[export] Instance eta_mod_args : EtaRecord mod_args := fun a =>
  ModArgs (ma_node a) (ma_pkt a) (ma_backend_test a) (ma_backend_use a).
#[export] Instance eta_decision_holder : EtaRecord decision_holder := fun d =>
  DecisionHolder (dh_pkt d) (dh_node d) (dh_backend_test d) (dh_backend_use d) (dh_result d).

(** * The introspection module *)

(** [struct vmi_vm] ([mod_vmi.c]); the name, the timer, the condition and the
    mutex are left out. *)
Record vmi_vm := VmiVm {
  vm_key_ext : Z;
  vm_logID : Z;
  vm_backendID : Z;
  vm_handler : option ptr;
  vm_target : option ptr;
  vm_signal : bool;
  vm_conn_keys : list (option conn_key);
  vm_close : bool;
}.
#[export] Instance eta_vmi_vm : EtaRecord vmi_vm := fun v =>
  VmiVm (vm_key_ext v) (vm_logID v) (vm_backendID v) (vm_handler v) (vm_target v) (vm_signal v)
    (vm_conn_keys v) (vm_close v).

(** The variables of [mod_vmi.c]: a tree that was not created is a null pointer;
    the values of [bannedIPs] are pointers too. *)
Record vmi_state := VmiState {
  vmi_server : option ptr;
  vmi_initialized : bool;
  vmi_vms_ext : option (gmap Z ptr);
  vmi_vms_int : option (gmap Z ptr);
  bannedIPs : option (gmap Z (option ptr));
  vmi_vms : gmap ptr vmi_vm;
}.
#[export] Instance eta_vmi_state : EtaRecord vmi_state := fun v =>
  VmiState (vmi_server v) (vmi_initialized v) (vmi_vms_ext v) (vmi_vms_int v) (bannedIPs v) (vmi_vms v).
(** Static variables start at zero, and nothing assigns [vmi_server]. *)
Definition vmi_zero : vmi_state := VmiState None false None None None ∅.
