(* ===== verification/World.v ===== *)
(** The state of the running gateway: the globals of [globals.h] and
    [honeybrid.c], the heaps, the trees, and the frames handed to
    [pcap_inject].  The monad [M] threads it through the code; [deref]s of a
    pointer fault when it is null or dangling. *)
From S2P Require Import Prelude Mem Types.

(** A key file of a module (GLib's [GKeyFile]): a list of strings per group
    and key. *)
Definition key_file : Type := gmap (list Z * list Z) (list (list Z)).

Record world := World {
  w_next : ptr;
  w_conns : gmap ptr conn_struct;
  w_pkts : gmap ptr pkt_struct;
  w_pins : gmap ptr pin;
  w_pin_keys : gmap ptr pin_key;
  w_handlers : gmap ptr handler;
  w_targets : gmap ptr target;
  w_ifaces : gmap ptr interface;
  w_nodes : gmap ptr node;
  w_key_files : gmap ptr key_file;
  (* the trees that track connections: key -> conn_struct *)
  ext_tree1 : gmap Z ptr;
  ext_tree2 : gmap Z ptr;
  int_tree1 : gmap Z ptr;
  int_tree2 : gmap Z ptr;
  intra_tree1 : gmap Z ptr;
  intra_tree2 : gmap Z ptr;
  (* the pin trees: key -> pin *)
  comm_pin_tree : gmap Z ptr;
  target_pin_tree : gmap Z ptr;
  intra_pin_tree : gmap Z ptr;
  (* configuration *)
  targets : gmap Z ptr;
  target_counter : Z;
  links : gmap string ptr;
  modules : gmap string (gmap string config_value);
  module_to_save : gmap (list Z) ptr;
  config : gmap string config_value;
  c_id : Z;
  max_packet_buffer : Z;
  deny_hih_init : Z;
  reset_ext : Z;
  exclusive_hih : Z;
  broadcast_allowed : bool;
  broadcast : list Z;
  expiration_delay : Z;
  (* whether libpcap takes a frame for an interface *)
  pcap_accepts : ptr -> list Z -> bool;
  (* what left the gateway: interface and frame, latest first *)
  w_sent : list (ptr * list Z);
  (* the connections that were logged, latest first *)
  w_logged : list conn_struct;
  (* the time of day in seconds and the next value of rand, as the modules see them *)
  w_now : Z;
  w_rand : mod_args -> Z;
  (* the variables of mod_vmi *)
  w_vmi : vmi_state;
}.

#[export] Instance eta_world : EtaRecord world := fun w =>
  World (w_next w) (w_conns w) (w_pkts w) (w_pins w) (w_pin_keys w) (w_handlers w)
    (w_targets w) (w_ifaces w) (w_nodes w) (w_key_files w)
    (ext_tree1 w) (ext_tree2 w) (int_tree1 w) (int_tree2 w) (intra_tree1 w) (intra_tree2 w)
    (comm_pin_tree w) (target_pin_tree w) (intra_pin_tree w)
    (targets w) (target_counter w) (links w) (modules w) (module_to_save w) (config w) (c_id w)
    (max_packet_buffer w) (deny_hih_init w) (reset_ext w) (exclusive_hih w)
    (broadcast_allowed w) (broadcast w) (expiration_delay w) (pcap_accepts w)
    (w_sent w) (w_logged w)
    (w_now w) (w_rand w) (w_vmi w).

Notation M := (SE world).

(** The state a computation ends in; the starting one when it faults. *)
Definition state_after {A} (m : M A) (w : world) : world :=
  match m w with Ret (_, w') => w' | Fault _ => w end.

(** [malloc]: the next address, never used before. *)
Definition malloc : M ptr := fun w => Ret (w_next w, w <| w_next := Pos.succ (w_next w) |>).

Definition deref {V} (h : world -> gmap ptr V) (p : option ptr) : M V := fun w =>
  match p with
  | None => Fault NullDeref
  | Some a => match h w !! a with Some v => Ret (v, w) | None => Fault UseAfterFree end
  end.

(** One reader, writer and [free] per heap. *)
Definition get_conn (p : ptr) : M conn_struct := deref w_conns (Some p).
Definition get_pkt (p : ptr) : M pkt_struct := deref w_pkts (Some p).
Definition get_pin (p : ptr) : M pin := deref w_pins (Some p).
Definition get_pin_key (p : ptr) : M pin_key := deref w_pin_keys (Some p).
Definition get_handler (p : option ptr) : M handler := deref w_handlers p.
Definition get_target (p : option ptr) : M target := deref w_targets p.
Definition get_iface (p : option ptr) : M interface := deref w_ifaces p.
Definition get_node (p : option ptr) : M node := deref w_nodes p.

Definition put_conn (p : ptr) (v : conn_struct) : M unit :=
  smodify (fun w => w <| w_conns := <[p := v]> (w_conns w) |>).
Definition put_pkt (p : ptr) (v : pkt_struct) : M unit :=
  smodify (fun w => w <| w_pkts := <[p := v]> (w_pkts w) |>).
Definition put_pin (p : ptr) (v : pin) : M unit :=
  smodify (fun w => w <| w_pins := <[p := v]> (w_pins w) |>).
Definition put_pin_key (p : ptr) (v : pin_key) : M unit :=
  smodify (fun w => w <| w_pin_keys := <[p := v]> (w_pin_keys w) |>).
Definition put_handler (p : ptr) (v : handler) : M unit :=
  smodify (fun w => w <| w_handlers := <[p := v]> (w_handlers w) |>).
Definition put_target (p : ptr) (v : target) : M unit :=
  smodify (fun w => w <| w_targets := <[p := v]> (w_targets w) |>).
Definition put_iface (p : ptr) (v : interface) : M unit :=
  smodify (fun w => w <| w_ifaces := <[p := v]> (w_ifaces w) |>).
Definition put_node (p : ptr) (v : node) : M unit :=
  smodify (fun w => w <| w_nodes := <[p := v]> (w_nodes w) |>).

Definition upd_conn (p : ptr) (g : conn_struct -> conn_struct) : M unit :=
  do c <- get_conn p; put_conn p (g c).
Definition upd_pkt (p : ptr) (g : pkt_struct -> pkt_struct) : M unit :=
  do k <- get_pkt p; put_pkt p (g k).
Definition upd_pin (p : ptr) (g : pin -> pin) : M unit :=
  do k <- get_pin p; put_pin p (g k).

(** [free] of a block: a second [free] of the same block is a fault. *)
Definition free_in {V} (h : world -> gmap ptr V) (del : world -> world) (p : ptr) : M unit := fun w =>
  match h w !! p with
  | Some _ => Ret (tt, del w)
  | None => Fault DoubleFree
  end.
Definition free_conn_block (p : ptr) : M unit :=
  free_in w_conns (fun w => w <| w_conns := delete p (w_conns w) |>) p.
Definition free_pkt_block (p : ptr) : M unit :=
  free_in w_pkts (fun w => w <| w_pkts := delete p (w_pkts w) |>) p.
Definition free_pin_block (p : ptr) : M unit :=
  free_in w_pins (fun w => w <| w_pins := delete p (w_pins w) |>) p.
Definition free_pin_key (p : ptr) : M unit :=
  free_in w_pin_keys (fun w => w <| w_pin_keys := delete p (w_pin_keys w) |>) p.
Definition free_handler_block (p : ptr) : M unit :=
  free_in w_handlers (fun w => w <| w_handlers := delete p (w_handlers w) |>) p.
Definition free_target_block (p : ptr) : M unit :=
  free_in w_targets (fun w => w <| w_targets := delete p (w_targets w) |>) p.
Definition free_node_block (p : ptr) : M unit :=
  free_in w_nodes (fun w => w <| w_nodes := delete p (w_nodes w) |>) p.

(** [free_0(x)] on a possibly null pointer to a pin key. *)
Definition free_0_pin_key (p : option ptr) : M unit :=
  match p with Some a => free_pin_key a | None => sret tt end.

(** [pcap_inject] on the interface [iface]: whether the driver takes the frame
    is not under the gateway's control ([pcap_accepts]); a frame it takes is on
    the wire.  The result is that of the test [pcap_inject(..) != -1]. *)
Definition pcap_inject (iface : ptr) (f : list Z) : M bool := fun w =>
  if pcap_accepts w iface f then Ret (true, w <| w_sent ::= cons (iface, f) |>)
  else Ret (false, w).

(** Traversal of a tree keyed by integers, in the order of the comparators of
    [convenience.c], which put the greater key first. *)
Definition key_ge (a b : Z * ptr) : Prop := b.1 <= a.1.
#[export] Instance key_ge_dec a b : Decision (key_ge a b).
Proof. unfold key_ge. apply _. Defined.
Definition tree_to_list (t : gmap Z ptr) : list (Z * ptr) := merge_sort key_ge (map_to_list t).

(** The traversal of a tree of [struct addr] keys ([addr_cmp] of libdnet orders
    them by the bytes of the address, the first byte most significant). *)
Definition addr_le (a b : Z * ptr) : Prop := ntohl a.1 <= ntohl b.1.
#[export] Instance addr_le_dec a b : Decision (addr_le a b).
Proof. unfold addr_le. apply _. Defined.
Definition addr_tree_to_list (t : gmap Z ptr) : list (Z * ptr) := merge_sort addr_le (map_to_list t).

(** [g_tree_foreach]: visit the entries in order until the callback returns
    [true]. *)
Fixpoint tree_foreach {K A} (f : K -> ptr -> A -> M (bool * A)) (l : list (K * ptr)) (acc : A) : M A :=
  match l with
  | [] => sret acc
  | (k, v) :: l =>
    do '(stop, acc') <- f k v acc;
    if stop : bool then sret acc' else tree_foreach f l acc'
  end.

(** * Reasoning about the heaps *)

Section Heaps.
Context {V : Type} (h : world -> gmap ptr V).

Lemma deref_ok p v w : h w !! p = Some v -> deref h (Some p) w = Ret (v, w).
Proof. intros H. unfold deref. by rewrite H. Qed.

Lemma deref_Ret_inv p v w w' :
  deref h p w = Ret (v, w') <-> exists a, p = Some a /\ h w !! a = Some v /\ w' = w.
Proof.
  unfold deref. destruct p as [a|]; [|naive_solver].
  destruct (h w !! a) eqn:E; split; try naive_solver.
Qed.

Lemma deref_dangling p w : h w !! p = None -> deref h (Some p) w = Fault UseAfterFree.
Proof. intros H. unfold deref. by rewrite H. Qed.
End Heaps.

Lemma tree_to_list_perm t : tree_to_list t ≡ₚ map_to_list t.
Proof. apply merge_sort_Permutation. Qed.

Lemma elem_of_tree_to_list t k v : (k, v) ∈ tree_to_list t <-> t !! k = Some v.
Proof. rewrite tree_to_list_perm. apply elem_of_map_to_list. Qed.

#[export] Instance key_ge_total : Total key_ge.
Proof. intros a b. unfold key_ge. lia. Qed.
#[export] Instance key_ge_trans : Transitive key_ge.
Proof. intros a b c. unfold key_ge. lia. Qed.

(** The traversal order: decreasing keys. *)
Lemma tree_to_list_sorted t : StronglySorted key_ge (tree_to_list t).
Proof. apply (StronglySorted_merge_sort key_ge). Qed.

(** [wstep] evaluates the heap operations of the goal from the lookups known in
    the context. *)
Ltac wstep :=
  unfold get_conn, get_pkt, get_pin, get_pin_key, get_handler, get_target, get_iface,
    get_node, put_conn, put_pkt, put_pin, put_pin_key, put_handler, put_target,
    put_iface, put_node, upd_conn, upd_pkt, upd_pin, smodify, sget, sgets, sret, malloc in *;
  repeat first
    [ progress unfold sbind
    | match goal with
      | H : ?h ?w !! ?p = Some _ |- context [deref ?h (Some ?p) ?w] => rewrite (deref_ok h p _ w H)
      end
    | progress cbn beta iota ].

(** * Relations kept by computations *)

(** [keeps R m]: whenever [m] returns, the states before and after are related
    by the preorder [R]. *)
Definition keeps {A} (R : world -> world -> Prop) (m : M A) : Prop :=
  forall w a w', m w = Ret (a, w') -> R w w'.

Section Keeps.
Context (R : world -> world -> Prop) `{!Reflexive R} `{!Transitive R}.

Lemma keeps_sret {A} (a : A) : keeps R (sret a).
Proof. by intros w b w' [= _ <-]. Qed.
Lemma keeps_sfault {A} e : keeps R (@sfault world A e).
Proof. done. Qed.
Lemma keeps_sget : keeps R sget.
Proof. by intros w b w' [= _ <-]. Qed.
Lemma keeps_sgets {A} (g : world -> A) : keeps R (sgets g).
Proof. by intros w b w' [= _ <-]. Qed.
Lemma keeps_slift {A} (o : outcome A) : keeps R (slift o).
Proof. intros w b w' H. apply slift_Ret_inv in H as [_ ->]. done. Qed.
Lemma keeps_sbind {A B} (m : M A) (k : A -> M B) :
  keeps R m -> (forall a, keeps R (k a)) -> keeps R (sbind m k).
Proof. intros Hm Hk w b w' H. srun H as a w1 Ha. etransitivity; [by eapply Hm|by eapply Hk]. Qed.
Lemma keeps_deref' {V} (h : world -> gmap ptr V) p : keeps R (deref h p).
Proof. intros w v w' H. apply deref_Ret_inv in H as (_ & _ & _ & ->). done. Qed.
Lemma keeps_smodify g : (forall w, R w (g w)) -> keeps R (smodify g).
Proof. intros H w b w' [= _ <-]. apply H. Qed.
Lemma keeps_free_in {V} (h : world -> gmap ptr V) del p :
  (forall w, R w (del w)) -> keeps R (free_in h del p).
Proof. intros H w b w' Hf. unfold free_in in Hf. case_match; simplify_eq. apply H. Qed.
Lemma keeps_inject' i f : (forall w s, R w (w <| w_sent := s |>)) -> keeps R (pcap_inject i f).
Proof. intros H w b w' Hf. unfold pcap_inject in Hf. case_match; simplify_eq; [apply H|done]. Qed.
Lemma keeps_foreach {K A} (f : K -> ptr -> A -> M (bool * A)) l acc :
  (forall k v a, keeps R (f k v a)) -> keeps R (tree_foreach f l acc).
Proof.
  intros Hf. revert acc. induction l as [|[k v] l IH]; intros acc; cbn [tree_foreach].
  - apply keeps_sret.
  - apply keeps_sbind; [apply Hf|]. intros [stop acc']. destruct stop; [apply keeps_sret|apply IH].
Qed.
End Keeps.

(** [keeps_tac] decomposes a computation; what is left are the primitive
    updates. *)
Ltac keeps_step :=
  first
    [ apply keeps_sret; try apply _ | apply keeps_sget; try apply _ | apply keeps_sgets; try apply _
    | apply keeps_slift; try apply _ | apply keeps_sfault
    | apply keeps_deref'; try apply _
    | assumption | solve [auto with keeps]
    | apply keeps_foreach; [try apply _..|intros ???]
    | apply keeps_sbind; [try apply _..| |intros ?]
    | match goal with
      | |- keeps _ (if ?b then _ else _) => destruct b
      | |- keeps _ (match ?x with _ => _ end) => destruct x
      | |- keeps _ (let '(_, _) := ?x in _) => destruct x
      end ].
Ltac keeps_tac := repeat keeps_step.
Create HintDb keeps.
