(* ===== verification/Samples.v ===== *)
(** Concrete frames and a small configured gateway, on which the theorems of
    the development are instantiated: one target whose uplink is interface 1,
    a LIH (handler 11) and a HIH (handler 12) behind interface 2. *)
From S2P Require Import Prelude Mem Types World.

Definition ipv4 (a b c d : Z) : Z := a + 256 * (b + 256 * (c + 256 * d)).

Definition mac_ext : list Z := [0xaa; 0; 0; 0; 0; 1].
Definition mac_up : list Z := [0x02; 0; 0; 0; 0; 1].
Definition mac_down : list Z := [0x02; 0; 0; 0; 0; 2].
Definition mac_lih : list Z := [0x0a; 0; 0; 0; 0; 2].
Definition mac_hih : list Z := [0x0a; 0; 0; 0; 0; 3].

Definition ip_ext : Z := ipv4 198 51 100 7.
Definition ip_target : Z := ipv4 203 0 113 5.
Definition ip_lih : Z := ipv4 10 0 0 2.
Definition ip_hih : Z := ipv4 10 0 0 3.

(** An option-less IPv4 and TCP packet. *)
Definition tcp_frame (dmac smac : list Z) (src dst sport dport seq ack flags : Z) (payload : list Z) : list Z :=
  dmac ++ smac ++ [8; 0] ++
  [0x45; 0] ++ le_encode 2 (htons (40 + Z.of_nat (length payload))) ++ [0; 1; 0; 0; 64; 6; 0; 0] ++
  le_encode 4 src ++ le_encode 4 dst ++
  le_encode 2 (htons sport) ++ le_encode 2 (htons dport) ++
  le_encode 4 (htonl seq) ++ le_encode 4 (htonl ack) ++ [0x50; flags; 255; 255; 0; 0; 0; 0] ++ payload.

(** The same packet in a VLAN frame. *)
Definition vlan_frame (tci : Z) (f : list Z) : list Z :=
  take 12 f ++ [0x81; 0] ++ le_encode 2 tci ++ drop 12 f.

(** A SYN of the attacker, padded to 80 bytes. *)
Definition syn_frame : list Z :=
  tcp_frame mac_up mac_ext ip_ext ip_target 4321 80 1000 0 2 (repeat 65 26).
Definition reply_frame : list Z :=
  tcp_frame mac_down mac_lih ip_lih ip_ext 80 4321 5000 1001 0x12 (repeat 66 26).

Definition iface_up : interface := Interface "up" (Some (ipv4 203 0 113 1)) mac_up 1500 (Some 10%positive)
  (Some [101; 116; 104; 48]) None 0.
Definition iface_down : interface := Interface "down" None mac_down 1500 None (Some [101; 116; 104; 49]) None 0.
Definition lih_handler : handler :=
  Handler 0 (Some mac_lih) (Some ip_lih) None 0 (Some 2%positive) None 0 [].
Definition hih_handler : handler :=
  Handler 2 (Some mac_hih) (Some ip_hih) None 0 (Some 2%positive) None 0 [].
Definition the_target : target :=
  Target 0 (Some 1%positive) None (Some mac_ext) (Some 11%positive)
    {[ 2 := 12%positive ]} 2 None ∅ None [] None None.

Definition world0 : world :=
  World 100 ∅ ∅ ∅ ∅ {[ 11%positive := lih_handler; 12%positive := hih_handler ]}
    {[ 10%positive := the_target ]} {[ 1%positive := iface_up; 2%positive := iface_down ]} ∅ ∅
    ∅ ∅ ∅ ∅ ∅ ∅ ∅ ∅ ∅ {[ 0 := 10%positive ]} 1 ∅ ∅ ∅ ∅ 0 (2 ^ 64 - 1) 0 0 0 false
    (repeat 255 6) 120 (fun _ _ => true) [] [] 1000 (fun _ => 0) vmi_zero.
