(* ===== verification/Keys.v ===== *)
(** The keys of the trees ([structs.h]: [pin_key], [conn_key]) and their
    comparators ([convenience.c]).  A key is a packed structure read as a
    128-bit word; the trees are ordered by those words, so the components that
    use them need the packing to be injective and the comparators to be total
    orders. *)
From S2P Require Import Prelude Mem Types World.

(** * The 128-bit words *)

(** Packed little-endian: 1 + 4 + 2 + 4 + 2 bytes, then the 12-bit field. *)
Definition conn_key_word (k : conn_key) : Z :=
  le_decode (le_encode 1 (ck_protocol k) ++ le_encode 4 (ck_src_ip k) ++
             le_encode 2 (ck_src_port k) ++ le_encode 4 (ck_dst_ip k) ++
             le_encode 2 (ck_dst_port k) ++ le_encode 2 (Z.land (ck_vlan_id k) 4095)).

Definition pin_key_word (k : pin_key) : Z :=
  le_decode (le_encode 4 (pk_target_ip k) ++ le_encode 4 (pk_handler_ip k) ++
             le_encode 2 (Z.land (pk_vlan_id k) 4095)).

(** * The comparators *)

Definition intcmp (v1 v2 : Z) : Z := if u32 v1 <? u32 v2 then 1 else if u32 v1 =? u32 v2 then 0 else -1.

Definition pincmp (v1 v2 : pin_key) : Z :=
  if pin_key_word v1 <? pin_key_word v2 then 1
  else if pin_key_word v1 =? pin_key_word v2 then 0 else -1.

Definition conn_key_cmp (v1 v2 : conn_key) : Z :=
  if conn_key_word v1 <? conn_key_word v2 then 1
  else if conn_key_word v1 =? conn_key_word v2 then 0 else -1.

(** * State changes *)

(** [switch_state] (with the log line left out). *)
Definition switch_state (conn : ptr) (new_state : conn_status_t) : M status_t :=
  do_ upd_conn conn (fun c => c <| cn_state := new_state |>);
  sret OK.

(** * Well-formed keys *)

(** The fields fit their widths. *)
Definition conn_key_wf (k : conn_key) : Prop :=
  0 <= ck_protocol k < 2 ^ 8 /\ 0 <= ck_src_ip k < 2 ^ 32 /\ 0 <= ck_src_port k < 2 ^ 16 /\
  0 <= ck_dst_ip k < 2 ^ 32 /\ 0 <= ck_dst_port k < 2 ^ 16 /\ 0 <= ck_vlan_id k < 2 ^ 12.
Definition pin_key_wf (k : pin_key) : Prop :=
  0 <= pk_target_ip k < 2 ^ 32 /\ 0 <= pk_handler_ip k < 2 ^ 32 /\ 0 <= pk_vlan_id k < 2 ^ 12.

#[export] Instance conn_key_wf_dec k : Decision (conn_key_wf k).
Proof. unfold conn_key_wf. apply _. Defined.
#[export] Instance pin_key_wf_dec k : Decision (pin_key_wf k).
Proof. unfold pin_key_wf. apply _. Defined.

Lemma land_4095 z : Z.land z 4095 = z mod 2 ^ 12.
Proof. change 4095 with (Z.ones 12). by rewrite Z.land_ones. Qed.

Lemma le_encode_app_inj n x y l1 l2 :
  0 <= x < 256 ^ Z.of_nat n -> 0 <= y < 256 ^ Z.of_nat n ->
  le_encode n x ++ l1 = le_encode n y ++ l2 -> x = y /\ l1 = l2.
Proof.
  intros Hx Hy H. apply app_inj_1 in H as [H ->]; [|by rewrite !length_le_encode].
  split; [|done]. apply (f_equal le_decode) in H.
  rewrite !le_decode_encode in H. by rewrite !Z.mod_small in H.
Qed.

Lemma bytes_app l1 l2 : bytes l1 -> bytes l2 -> bytes (l1 ++ l2).
Proof. intros. by apply Forall_app. Qed.

#[export] Hint Resolve bytes_le_encode bytes_app : mem.

Lemma conn_key_word_inj k1 k2 :
  conn_key_wf k1 -> conn_key_wf k2 -> conn_key_word k1 = conn_key_word k2 -> k1 = k2.
Proof.
  intros W1 W2 H; destruct W1 as (?&?&?&?&?&?), W2 as (?&?&?&?&?&?).
  apply le_decode_inj in H; [|by eauto 12 with mem..|by rewrite !length_app, !length_le_encode].
  rewrite <- (app_nil_r (le_encode 2 (Z.land (ck_vlan_id k1) 4095))),
          <- (app_nil_r (le_encode 2 (Z.land (ck_vlan_id k2) 4095))) in H.
  rewrite !land_4095, !(Z.mod_small (ck_vlan_id _)) in H by done.
  repeat (apply le_encode_app_inj in H as [? H]; [|simpl; lia..]).
  destruct k1, k2; simpl in *; by subst.
Qed.

Lemma pin_key_word_inj k1 k2 :
  pin_key_wf k1 -> pin_key_wf k2 -> pin_key_word k1 = pin_key_word k2 -> k1 = k2.
Proof.
  intros W1 W2 H; destruct W1 as (?&?&?), W2 as (?&?&?).
  apply le_decode_inj in H; [|by eauto 12 with mem..|by rewrite !length_app, !length_le_encode].
  rewrite <- (app_nil_r (le_encode 2 (Z.land (pk_vlan_id k1) 4095))),
          <- (app_nil_r (le_encode 2 (Z.land (pk_vlan_id k2) 4095))) in H.
  rewrite !land_4095, !(Z.mod_small (pk_vlan_id _)) in H by done.
  repeat (apply le_encode_app_inj in H as [? H]; [|simpl; lia..]).
  destruct k1, k2; simpl in *; by subst.
Qed.

(** * What the trees need of a comparator *)

(** A key type as [g_tree_new_full] uses it: a word per key, which a comparator
    orders with the greater word first. *)
Class TreeKey (K : Type) := {
  tk_word : K -> Z;
  tk_cmp : K -> K -> Z;
  tk_wf : K -> Prop;
  tk_word_inj : forall a b, tk_wf a -> tk_wf b -> tk_word a = tk_word b -> a = b;
  tk_cmp_word : forall a b,
    tk_cmp a b = if tk_word a <? tk_word b then 1 else if tk_word a =? tk_word b then 0 else -1;
}.

#[export] Instance conn_key_TreeKey : TreeKey conn_key :=
  {| tk_word := conn_key_word; tk_cmp := conn_key_cmp; tk_wf := conn_key_wf;
     tk_word_inj := conn_key_word_inj; tk_cmp_word := fun _ _ => eq_refl |}.
#[export] Instance pin_key_TreeKey : TreeKey pin_key :=
  {| tk_word := pin_key_word; tk_cmp := pincmp; tk_wf := pin_key_wf;
     tk_word_inj := pin_key_word_inj; tk_cmp_word := fun _ _ => eq_refl |}.

(** The laws of a comparator that a balanced search tree relies on. *)
Definition cmp_total_order {K} (wf : K -> Prop) (cmp : K -> K -> Z) : Prop :=
  (forall a b, wf a -> wf b -> cmp a b = 0 <-> a = b) /\
  (forall a b, cmp a b = - cmp b a) /\
  (forall a b c, 0 < cmp a b -> 0 < cmp b c -> 0 < cmp a c) /\
  (forall a b, cmp a b = -1 \/ cmp a b = 0 \/ cmp a b = 1).

Section TreeKeyLaws.
Context `{TK : TreeKey K}.

Ltac cmp_cases :=
  rewrite ?tk_cmp_word in *;
  repeat match goal with
  | |- context [?x <? ?y] => destruct (Z.ltb_spec x y)
  | |- context [?x =? ?y] => destruct (Z.eqb_spec x y)
  | H : context [?x <? ?y] |- _ => destruct (Z.ltb_spec x y)
  | H : context [?x =? ?y] |- _ => destruct (Z.eqb_spec x y)
  end; try lia.

Lemma tk_total_order : cmp_total_order tk_wf tk_cmp.
Proof.
  split_and!.
  - intros a b Ha Hb. split; [|intros ->; cmp_cases].
    intros H. cmp_cases. by apply tk_word_inj.
  - intros a b. cmp_cases.
  - intros a b c. cmp_cases.
  - intros a b. cmp_cases.
Qed.
End TreeKeyLaws.

(** C39: the three comparators are total orders in which two keys compare equal
    exactly when all their fields agree, which is what makes the GLib trees of
    connections and pins finite maps: no two connections share an entry unless
    their protocol, addresses, ports and VLAN all coincide. *)
Theorem comparators_total_orders :
  cmp_total_order conn_key_wf conn_key_cmp /\
  cmp_total_order pin_key_wf pincmp /\
  cmp_total_order (fun v => 0 <= v < 2 ^ 32) intcmp.
Proof.
  split_and!; [exact (tk_total_order (TK := conn_key_TreeKey))|exact (tk_total_order (TK := pin_key_TreeKey))|].
  unfold cmp_total_order, intcmp. split_and!.
  - intros a b Ha Hb. unfold u32. rewrite !Z.mod_small by done.
    destruct (Z.ltb_spec a b), (Z.eqb_spec a b); lia.
  - intros a b. destruct (Z.ltb_spec (u32 a) (u32 b)), (Z.ltb_spec (u32 b) (u32 a)),
      (Z.eqb_spec (u32 a) (u32 b)), (Z.eqb_spec (u32 b) (u32 a)); lia.
  - intros a b c. destruct (Z.ltb_spec (u32 a) (u32 b)), (Z.ltb_spec (u32 b) (u32 c)),
      (Z.ltb_spec (u32 a) (u32 c)), (Z.eqb_spec (u32 a) (u32 b)), (Z.eqb_spec (u32 b) (u32 c)); lia.
  - intros a b. repeat split_if; lia.
Qed.

(** * The VLAN identifier in the keys *)

(** A tag as the configuration and the wire carry it: the 16-bit word
    [htons(id)], with the priority bits clear. *)
Lemma vlan_vid_htons id : 0 <= id < 4096 -> vlan_vid (htons id) = 16 * (id mod 256).
Proof.
  intros Hid. unfold vlan_vid. rewrite land_4095, Z.shiftr_div_pow2 by done.
  rewrite htons_eq by lia. change (2 ^ 12) with 4096. change (2 ^ 4) with 16.
  pose proof (Z.div_mod id 256 ltac:(lia)). pose proof (Z.mod_pos_bound id 256 ltac:(lia)).
  assert (0 <= id / 256 < 16) by (split; [apply Z.div_pos|apply Z.div_lt_upper_bound]; lia).
  replace (256 * (id mod 256) + id / 256) with (id / 256 + 16 * (id mod 256) * 16) by lia.
  rewrite Z.div_add, (Z.div_small (id / 256) 16) by lia. rewrite Z.add_0_l.
  apply Z.mod_small. lia.
Qed.

(** The bit-fields of [struct vlan_tci] read the network-order word from its
    least significant bit, so the [vid] the keys use is sixteen times the low
    byte of the VLAN identifier: identifiers that are equal modulo 256 get the
    same key, and a multiple of 256 gets the key of an untagged packet. *)
Lemma vlan_ids_conflated proto sip sport dip dport id1 id2 :
  0 <= id1 < 4096 -> 0 <= id2 < 4096 ->
  id1 mod 256 = id2 mod 256 <->
  conn_key_cmp
    (ConnKey (u8 proto) (u32 sip) (u16 sport) (u32 dip) (u16 dport) (vlan_vid (htons id1)))
    (ConnKey (u8 proto) (u32 sip) (u16 sport) (u32 dip) (u16 dport) (vlan_vid (htons id2))) = 0.
Proof.
  intros H1 H2. rewrite !vlan_vid_htons by done.
  destruct (tk_total_order (TK := conn_key_TreeKey)) as [Heq _].
  pose proof (Z.mod_pos_bound id1 256 ltac:(lia)). pose proof (Z.mod_pos_bound id2 256 ltac:(lia)).
  rewrite Heq; [| |].
  - split; [by intros ->|]. intros [= ?]. lia.
  - unfold tk_wf, conn_key_TreeKey, conn_key_wf, u8, u16, u32; simpl.
    split_and!; try (apply Z.mod_pos_bound; lia); lia.
  - unfold tk_wf, conn_key_TreeKey, conn_key_wf, u8, u16, u32; simpl.
    split_and!; try (apply Z.mod_pos_bound; lia); lia.
Qed.

Lemma vlan_ids_conflated_witness :
  10 mod 256 = 266 mod 256 <->
  conn_key_cmp (ConnKey (u8 6) (u32 1) (u16 2) (u32 3) (u16 4) (vlan_vid (htons 10)))
    (ConnKey (u8 6) (u32 1) (u16 2) (u32 3) (u16 4) (vlan_vid (htons 266))) = 0.
Proof. apply (vlan_ids_conflated 6 1 2 3 4 10 266); lia. Defined.
