(* ===== verification/Checksum.v ===== *)
(** The Internet checksum ([netcode.c]): [in_cksum], the IP, UDP and TCP
    checksum macros and [tcp_checksum], with their agreement with RFC 1071. *)
From S2P Require Import Prelude Mem Types.

(** * The routines *)

(** The accumulation of [in_cksum]: 16-bit host words into a 32-bit sum, with
    the odd byte mopped up. *)
Fixpoint cksum_accumulate (l : list Z) (sum : Z) : Z :=
  match l with
  | b0 :: b1 :: l' => cksum_accumulate l' (u32 (sum + le_decode [b0; b1]))
  | [b0] => u32 (sum + le_decode [b0; 0])
  | [] => sum
  end.

(** The carries folded back, and the truncated complement. *)
Definition cksum_fold (sum : Z) : Z :=
  let sum := u32 (Z.shiftr sum 16 + Z.land sum 0xffff) in
  let sum := u32 (sum + Z.shiftr sum 16) in
  u16 (Z.lnot sum).

Definition in_cksum_bytes (l : list Z) : Z := cksum_fold (cksum_accumulate l 0).

Definition in_cksum (f : list Z) (addr len : nat) : outcome Z :=
  let! bs := mget f addr len in Ret (in_cksum_bytes bs).

(** [ip->ihl << 2] and [ntohs(ip->tot_len)] of the header at [ip]. *)
Definition ip_ihl (f : list Z) (ip : nat) : outcome Z :=
  let! b := ld8 f ip in Ret (Z.land b 15).
Definition ip_tot_len (f : list Z) (ip : nat) : outcome Z :=
  let! v := ld16 f (ip + 2) in Ret (ntohs v).

(** [HDRDATA_SIZE], an [unsigned short]. *)
Definition hdrdata_size (f : list Z) (ip : nat) : outcome Z :=
  let! tot := ip_tot_len f ip in
  let! ihl := ip_ihl f ip in
  Ret (u16 (tot - Z.shiftl ihl 2)).

(** The checksum buffer [tcp_chk_packet]: pseudo header, TCP header and at most
    [BUFSIZE] bytes of payload.  The size given to the second [memcpy] is an
    [int] converted to [size_t]: when it is negative or larger than the
    payload array, the copy leaves the buffer. *)
Definition tcp_checksum (f : list Z) (ip : nat) : outcome Z :=
  let! hdrdata := hdrdata_size f ip in
  let! saddr := mget f (ip + 12) 4 in
  let! daddr := mget f (ip + 16) 4 in
  let pseudohdr := saddr ++ daddr ++ [0; IPPROTO_TCP] ++ le_encode 2 (htons hdrdata) in
  let! tcp := mget f (ip + IP_HDR_SIZE) TCP_HDR_LEN in
  let n := hdrdata - Z.of_nat TCP_HDR_LEN in
  if (n <? 0) || (BUFSIZE <? n) then Fault OutOfBounds
  else
    let! payload := mget f (ip + IP_HDR_SIZE + TCP_HDR_LEN) (Z.to_nat n) in
    let chk_p := pseudohdr ++ tcp ++ payload ++ repeat 0 (Z.to_nat (BUFSIZE - n)) in
    in_cksum chk_p 0 (12 + Z.to_nat hdrdata).

(** The macros: the field is zeroed, then set. *)
Definition set_ip_checksum (f : list Z) (ip : nat) : outcome (list Z) :=
  let! f := st16 f (ip + 10) (htons 0) in
  let! c := in_cksum f ip IP_HDR_SIZE in
  st16 f (ip + 10) c.

Definition set_udp_checksum (f : list Z) (ip : nat) : outcome (list Z) :=
  st16 f (ip + IP_HDR_SIZE + 6) (htons 0).

Definition set_tcp_checksum (f : list Z) (ip : nat) : outcome (list Z) :=
  let! f := st16 f (ip + IP_HDR_SIZE + 16) (htons 0) in
  let! c := tcp_checksum f ip in
  st16 f (ip + IP_HDR_SIZE + 16) c.

(** * The reference: RFC 1071 *)

(** The 16-bit words of the data, an odd byte padded with zero. *)
Fixpoint words16 (l : list Z) : list Z :=
  match l with
  | b0 :: b1 :: l' => (b0 + 256 * b1) :: words16 l'
  | [b0] => [b0]
  | [] => []
  end.

(** One's complement addition: the carry comes back at the low end. *)
Definition ones_add (a b : Z) : Z :=
  let s := a + b in if s <? 2 ^ 16 then s else s - 2 ^ 16 + 1.

Definition rfc1071 (l : list Z) : Z := 65535 - foldl ones_add 0 (words16 l).

Fixpoint sum_words (l : list Z) : Z :=
  match l with [] => 0 | w :: l => w + sum_words l end.

(** * Arithmetic modulo 65535 *)

(** The canonical value of a one's complement sum: in 1..65535, or 0 for a sum
    of zeroes. *)
Definition norm65535 (s : Z) : Z := if s =? 0 then 0 else 1 + (s - 1) mod 65535.

Lemma norm_small s : 0 <= s <= 65535 -> norm65535 s = s.
Proof.
  intros. unfold norm65535. destruct (Z.eqb_spec s 0); [done|].
  rewrite Z.mod_small by lia. lia.
Qed.

Lemma norm_sub s : 65536 <= s -> norm65535 s = norm65535 (s - 65535).
Proof.
  intros. unfold norm65535.
  destruct (Z.eqb_spec s 0), (Z.eqb_spec (s - 65535) 0); try lia.
  replace (s - 1) with ((s - 65535 - 1) + 1 * 65535) by lia.
  by rewrite Z.mod_add by lia.
Qed.

Lemma norm_bound s : 0 <= s -> 0 <= norm65535 s <= 65535.
Proof.
  intros. unfold norm65535. case_match; [lia|].
  pose proof (Z.mod_pos_bound (s - 1) 65535). lia.
Qed.

Lemma norm_mod s : 0 <= s -> norm65535 s mod 65535 = s mod 65535.
Proof.
  intros. unfold norm65535. destruct (Z.eqb_spec s 0); [by subst|].
  rewrite Z.add_mod_idemp_r by lia. f_equal. lia.
Qed.

(** Two sums with the same residue have the same canonical value, unless one of
    them is zero. *)
Lemma norm_eq s t : 0 < s -> 0 < t -> s mod 65535 = t mod 65535 -> norm65535 s = norm65535 t.
Proof.
  intros Hs Ht He. unfold norm65535.
  destruct (Z.eqb_spec s 0), (Z.eqb_spec t 0); try lia. f_equal.
  rewrite Zminus_mod, (Zminus_mod t), He. done.
Qed.

Lemma ones_add_norm a b :
  0 <= a <= 65535 -> 0 <= b <= 65535 -> ones_add a b = norm65535 (a + b).
Proof.
  intros. unfold ones_add. destruct (Z.ltb_spec (a + b) (2 ^ 16)).
  - rewrite norm_small; lia.
  - rewrite norm_sub, norm_small; lia.
Qed.

Lemma norm_norm_add s b : 0 <= s -> 0 <= b -> norm65535 (norm65535 s + b) = norm65535 (s + b).
Proof.
  intros. destruct (decide (s = 0)) as [->|]; [done|].
  assert (0 < norm65535 s).
  { unfold norm65535. destruct (Z.eqb_spec s 0); [lia|].
    pose proof (Z.mod_pos_bound (s - 1) 65535). lia. }
  apply norm_eq; try lia.
  rewrite Zplus_mod, norm_mod by lia. by rewrite <- Zplus_mod.
Qed.

(** * [in_cksum] is RFC 1071 *)

Lemma words16_bound l : bytes l -> Forall (fun w => 0 <= w <= 65535) (words16 l).
Proof.
  unfold bytes, is_byte. induction l as [|b0|b0 b1 l IH] using list_pair_ind; simpl; [done| |].
  - intros Hl. inversion_clear Hl. constructor; [lia|done].
  - intros Hl. inversion_clear Hl as [|?? H0 Hl']. inversion_clear Hl' as [|?? H1 Hl].
    constructor; [lia|by apply IH].
Qed.

Lemma length_words16 l : (2 * length (words16 l) <= length l + 1)%nat.
Proof. induction l as [|b0|b0 b1 l IH] using list_pair_ind; simpl; lia. Qed.

Lemma sum_words_bound ws :
  Forall (fun w => 0 <= w <= 65535) ws -> 0 <= sum_words ws <= 65535 * Z.of_nat (length ws).
Proof. induction 1; simpl; lia. Qed.

Lemma foldl_ones_add ws a :
  Forall (fun w => 0 <= w <= 65535) ws -> 0 <= a <= 65535 ->
  foldl ones_add a ws = norm65535 (a + sum_words ws).
Proof.
  intros Hws. revert a. induction Hws as [|w ws Hw Hws IH]; intros a Ha; simpl.
  - by rewrite Z.add_0_r, norm_small.
  - pose proof (sum_words_bound ws Hws).
    rewrite IH by (rewrite ones_add_norm by lia; apply norm_bound; lia).
    rewrite ones_add_norm, norm_norm_add by lia. f_equal. lia.
Qed.

Lemma cksum_accumulate_sum l s :
  bytes l -> 0 <= s -> s + 65535 * Z.of_nat (length (words16 l)) < 2 ^ 32 ->
  cksum_accumulate l s = s + sum_words (words16 l).
Proof.
  intros Hl Hs. revert s Hs Hl. unfold bytes, is_byte.
  induction l as [|b0|b0 b1 l IH] using list_pair_ind; intros s Hs Hl Hb; simpl in *; [lia| |].
  - inversion_clear Hl. unfold u32. rewrite Z.mod_small by lia. lia.
  - inversion_clear Hl as [|?? H0 Hl']. inversion_clear Hl' as [|?? H1 Hl].
    unfold u32. rewrite Z.mod_small by lia. rewrite IH by (done || lia). lia.
Qed.

Lemma cksum_fold_norm s : 0 <= s < 2 ^ 32 -> cksum_fold s = 65535 - norm65535 s.
Proof.
  intros Hs. unfold cksum_fold.
  assert (Hland : forall x, Z.land x 65535 = x mod 2 ^ 16)
    by (intros; change 65535 with (Z.ones 16); apply Z.land_ones; lia).
  rewrite !Hland, !Z.shiftr_div_pow2 by lia. clear Hland.
  change (2 ^ 16) with 65536.
  pose proof (Z_div_mod_eq_full s 65536) as He.
  pose proof (Z.mod_pos_bound s 65536 ltac:(lia)) as Hr.
  assert (0 <= s / 65536 < 65536) as Hq
    by (split; [apply Z.div_pos; lia|apply Z.div_lt_upper_bound; lia]).
  generalize dependent (s mod 65536). generalize dependent (s / 65536). intros q Hq r He Hr.
  remember (q + r) as t eqn:Et.
  assert (Ht : norm65535 s = norm65535 t).
  { destruct (decide (s = 0)) as [->|].
    - assert (t = 0) as -> by lia. done.
    - apply norm_eq; [lia|lia|].
      transitivity ((t + q * 65535) mod 65535); [f_equal; lia|].
      apply Z_mod_plus_full. }
  assert (0 <= t <= 131070) by lia.
  unfold u32. rewrite (Z.mod_small t) by lia. rewrite Ht.
  unfold u16, Z.lnot. change (2 ^ 16) with 65536.
  destruct (decide (t < 65536)).
  - rewrite Z.div_small, Z.add_0_r, (Z.mod_small t) by lia.
    rewrite norm_small by lia.
    replace (Z.pred (- t)) with (65535 - t + (-1) * 65536) by lia.
    rewrite Z.mod_add by lia. apply Z.mod_small. lia.
  - assert (t / 65536 = 1) as -> by (symmetry; apply (Z.div_unique t 65536 1 (t - 65536)); lia).
    rewrite (Z.mod_small (t + 1)) by lia.
    rewrite norm_sub, norm_small by lia.
    replace (Z.pred (- (t + 1))) with (65535 - (t - 65535) + (-2) * 65536) by lia.
    rewrite Z.mod_add by lia. apply Z.mod_small. lia.
Qed.

(** The checksum as the complement of the canonical sum, for any data whose
    words cannot overflow the 32-bit accumulator. *)
Lemma in_cksum_bytes_norm l :
  bytes l -> Z.of_nat (length l) <= 131072 ->
  in_cksum_bytes l = 65535 - norm65535 (sum_words (words16 l)).
Proof.
  intros Hl Hlen. unfold in_cksum_bytes.
  pose proof (length_words16 l). pose proof (sum_words_bound _ (words16_bound l Hl)).
  rewrite cksum_accumulate_sum by (done || lia).
  rewrite cksum_fold_norm by lia. done.
Qed.

(** C23: for data of at most 131072 bytes, whatever its length's parity, the
    checksum [in_cksum] computes with its 32-bit accumulator and two folds is
    the RFC 1071 checksum (one's complement additions with end-around carry).
*)
Theorem in_cksum_is_rfc1071 l :
  bytes l -> Z.of_nat (length l) <= 131072 -> in_cksum_bytes l = rfc1071 l.
Proof.
  intros Hl Hlen. rewrite in_cksum_bytes_norm by done. unfold rfc1071.
  by rewrite foldl_ones_add by (by apply words16_bound || lia).
Qed.

Lemma in_cksum_is_rfc1071_witness :
  in_cksum_bytes [0x45; 0; 0; 0x73; 0; 0; 0x40; 0; 0x40; 0x11; 0xff] =
  rfc1071 [0x45; 0; 0; 0x73; 0; 0; 0x40; 0; 0x40; 0x11; 0xff].
Proof.
  apply (in_cksum_is_rfc1071 [0x45; 0; 0; 0x73; 0; 0; 0x40; 0; 0x40; 0x11; 0xff]);
    [unfold bytes, is_byte; repeat constructor; lia|simpl; lia].
Defined.

(** * A checksum that was set verifies *)

Lemma words16_app l1 l2 :
  Nat.even (length l1) = true -> words16 (l1 ++ l2) = words16 l1 ++ words16 l2.
Proof.
  induction l1 as [|b0|b0 b1 l1 IH] using list_pair_ind; simpl; intros H; [done|done|].
  by rewrite IH.
Qed.

Lemma sum_words_app ws1 ws2 : sum_words (ws1 ++ ws2) = sum_words ws1 + sum_words ws2.
Proof. induction ws1; simpl; lia. Qed.

(** Storing a word at an even offset of a zeroed field adds it to the sum. *)
Lemma sum_words_upd l off v :
  (off + 2 <= length l)%nat -> Nat.even off = true -> sub l off 2 = [0; 0] -> 0 <= v < 2 ^ 16 ->
  sum_words (words16 (upd l off (le_encode 2 v))) = sum_words (words16 l) + v.
Proof.
  intros Hb He Hz Hv.
  assert (Hl : l = take off l ++ [0; 0] ++ drop (off + 2) l).
  { rewrite <- Hz. symmetry. etransitivity; [|apply (upd_sub_id l off 2 Hb)].
    unfold upd. by rewrite length_sub. }
  unfold upd. rewrite length_le_encode.
  assert (Nat.even (length (take off l)) = true) by (rewrite length_take; by rewrite Nat.min_l by lia).
  rewrite words16_app, !sum_words_app by done.
  rewrite (words16_app (le_encode 2 v)), sum_words_app by done.
  rewrite Hl at 3. rewrite words16_app, sum_words_app by done.
  rewrite (words16_app [0; 0]), sum_words_app by done.
  assert (sum_words (words16 (le_encode 2 v)) = v) as ->; [|simpl sum_words; lia].
  simpl. pose proof (Z_div_mod_eq_full v 256).
  rewrite (Z.mod_small (v / 256)); [lia|].
  split; [apply Z.div_pos; lia|apply Z.div_lt_upper_bound; lia].
Qed.

Lemma in_cksum_bytes_bound l : 0 <= in_cksum_bytes l < 2 ^ 16.
Proof. apply Z.mod_pos_bound. lia. Qed.

Lemma cksum_self_verifies l off :
  bytes l -> Z.of_nat (length l) <= 131072 -> (off + 2 <= length l)%nat ->
  Nat.even off = true -> sub l off 2 = [0; 0] ->
  in_cksum_bytes (upd l off (le_encode 2 (in_cksum_bytes l))) = 0.
Proof.
  intros Hl Hlen Hb He Hz.
  rewrite in_cksum_bytes_norm; first last.
  { rewrite length_upd by (by rewrite length_le_encode). done. }
  { apply bytes_upd; [done|apply bytes_le_encode]. }
  rewrite sum_words_upd by (done || apply in_cksum_bytes_bound).
  rewrite in_cksum_bytes_norm by done.
  pose proof (sum_words_bound _ (words16_bound l Hl)) as [Hs _].
  set (s := sum_words (words16 l)) in *.
  pose proof (norm_bound s Hs).
  assert (norm65535 (s + (65535 - norm65535 s)) = norm65535 65535) as ->; [|done].
  destruct (decide (s = 0)) as [->|]; [done|].
  assert (norm65535 s <= s).
  { unfold norm65535. destruct (Z.eqb_spec s 0); [lia|].
    pose proof (Z.mod_le (s - 1) 65535). lia. }
  apply norm_eq; [lia|lia|].
  replace (s + (65535 - norm65535 s)) with (s - norm65535 s + 1 * 65535) by lia.
  rewrite Z_mod_plus_full, Zminus_mod, norm_mod by lia.
  by rewrite Z.sub_diag.
Qed.

(** The IP macro: it succeeds, it verifies, it is local. *)
Lemma set_ip_checksum_ok f ip :
  bytes f -> (ip + IP_HDR_SIZE <= length f)%nat ->
  exists f', set_ip_checksum f ip = Ret f' /\
    in_cksum f' ip IP_HDR_SIZE = Ret 0 /\ bytes f' /\ length f' = length f /\
    (forall i, (i < ip + 10)%nat \/ (ip + 12 <= i)%nat -> f' !! i = f !! i).
Proof.
  unfold IP_HDR_SIZE. intros Hf Hb. unfold set_ip_checksum, in_cksum, IP_HDR_SIZE.
  memstep. eexists. split; [done|].
  set (f1 := upd f (ip + 10) (le_encode 2 (htons 0))).
  assert (length f1 = length f) as Hl1 by (subst f1; memlen).
  assert (bytes f1) by (apply bytes_upd; [done|apply bytes_le_encode]).
  rewrite mget_ok by memlen. cbn [obind].
  rewrite sub_upd_cover by (rewrite ?length_le_encode; lia).
  rewrite cksum_self_verifies; [|by apply bytes_sub|rewrite length_sub; lia|rewrite length_sub; lia|done|].
  2:{ subst f1. rewrite sub_sub by lia.
      exact (sub_upd_same f (ip + 10) (le_encode 2 (htons 0)) ltac:(rewrite length_le_encode; lia)). }
  split; [done|]. split; [apply bytes_upd; [done|apply bytes_le_encode]|].
  split; [by memlen|]. intros i Hi.
  rewrite lookup_upd by (rewrite length_le_encode; lia). rewrite decide_False by (rewrite length_le_encode; lia).
  subst f1. rewrite lookup_upd by (rewrite length_le_encode; lia).
  by rewrite decide_False by (rewrite length_le_encode; lia).
Qed.

(** [set_ip_checksum] succeeds on any header that lies in the frame, the
    20-byte header it leaves passes the receiver's test (its checksum is zero),
    and it touches nothing but the two bytes of the checksum field. *)
Lemma set_ip_checksum_verifies f ip :
  bytes f -> (ip + IP_HDR_SIZE <= length f)%nat ->
  exists f', set_ip_checksum f ip = Ret f' /\
    in_cksum f' ip IP_HDR_SIZE = Ret 0 /\ bytes f' /\ length f' = length f /\
    (forall i, (i < ip + 10)%nat \/ (ip + 12 <= i)%nat -> f' !! i = f !! i).
Proof. apply set_ip_checksum_ok. Qed.

Definition tcp_pseudo (f : list Z) (ip : nat) (seg : Z) : list Z :=
  sub f (ip + 12) 4 ++ sub f (ip + 16) 4 ++ [0; IPPROTO_TCP] ++ le_encode 2 (htons seg).

Lemma length_tcp_pseudo f ip seg : (ip + 20 <= length f)%nat -> length (tcp_pseudo f ip seg) = 12%nat.
Proof. intros. unfold tcp_pseudo. rewrite !length_app, !length_sub, length_le_encode by lia. done. Qed.

Lemma bytes_tcp_pseudo f ip seg : bytes f -> bytes (tcp_pseudo f ip seg).
Proof.
  intros. unfold tcp_pseudo. apply Forall_app; split; [by apply bytes_sub|].
  apply Forall_app; split; [by apply bytes_sub|].
  apply Forall_app; split; [|apply bytes_le_encode].
  unfold IPPROTO_TCP, is_byte. repeat constructor; lia.
Qed.

Lemma take_app_le {A} (l1 l2 : list A) n : (n <= length l1)%nat -> take n (l1 ++ l2) = take n l1.
Proof.
  intros. rewrite take_app. replace (n - length l1)%nat with 0%nat by lia.
  by rewrite take_0, app_nil_r.
Qed.

(** [tcp_checksum] on a segment that fits the buffer: the checksum of the
    pseudo header and the segment. *)
Lemma tcp_checksum_ok f ip (seg : nat) :
  (ip + 20 + seg <= length f)%nat -> ip_ihl f ip = Ret 5 ->
  ip_tot_len f ip = Ret (20 + Z.of_nat seg) -> 20 <= Z.of_nat seg <= 2068 ->
  tcp_checksum f ip = Ret (in_cksum_bytes (tcp_pseudo f ip (Z.of_nat seg) ++ sub f (ip + 20) seg)).
Proof.
  intros Hb Hihl Htot Hseg. unfold tcp_checksum, hdrdata_size, IP_HDR_SIZE, TCP_HDR_LEN, BUFSIZE.
  rewrite Htot, Hihl. cbn [obind].
  replace (u16 (20 + Z.of_nat seg - Z.shiftl 5 2)) with (Z.of_nat seg); last first.
  { unfold u16. change (Z.shiftl 5 2) with 20. rewrite Z.mod_small; lia. }
  memstep. change (Z.of_nat 20) with 20.
  destruct (Z.ltb_spec (Z.of_nat seg - 20) 0), (Z.ltb_spec 2048 (Z.of_nat seg - 20)); try lia.
  cbn [orb]. memstep.
  fold (tcp_pseudo f ip (Z.of_nat seg)).
  replace (Z.to_nat (Z.of_nat seg - 20)) with (seg - 20)%nat by lia.
  rewrite Nat2Z.id. unfold in_cksum.
  set (pad := repeat 0 _).
  assert (Hsplit : sub f (ip + 20) seg = sub f (ip + 20) 20 ++ sub f (ip + 20 + 20) (seg - 20)).
  { rewrite <- sub_split by lia. f_equal. lia. }
  change ((sub f (ip + 12) 4 ++ sub f (ip + 16) 4 ++ [0; IPPROTO_TCP] ++ le_encode 2 (htons (Z.of_nat seg))))
    with (tcp_pseudo f ip (Z.of_nat seg)).
  rewrite !app_assoc, <- (app_assoc (tcp_pseudo _ _ _)), <- Hsplit.
  assert (length (tcp_pseudo f ip (Z.of_nat seg) ++ sub f (ip + 20) seg) = 12 + seg)%nat as Hlen.
  { rewrite length_app, length_tcp_pseudo, length_sub by lia. done. }
  rewrite mget_ok by (rewrite length_app; lia). cbn [obind]. unfold sub at 1.
  rewrite drop_0, take_app_le, take_ge by lia. done.
Qed.

(** The same of the TCP macro. *)
Lemma set_tcp_checksum_ok f ip (seg : nat) :
  bytes f -> (ip + 20 + seg <= length f)%nat -> ip_ihl f ip = Ret 5 ->
  ip_tot_len f ip = Ret (20 + Z.of_nat seg) -> 20 <= Z.of_nat seg <= 2068 ->
  exists f', set_tcp_checksum f ip = Ret f' /\
    in_cksum_bytes (tcp_pseudo f' ip (Z.of_nat seg) ++ sub f' (ip + 20) seg) = 0 /\
    bytes f' /\ length f' = length f /\
    (forall i, (i < ip + 36)%nat \/ (ip + 38 <= i)%nat -> f' !! i = f !! i).
Proof.
  intros Hf Hb Hihl Htot Hseg. unfold set_tcp_checksum, IP_HDR_SIZE.
  memstep. set (f1 := upd f (ip + 20 + 16) (le_encode 2 (htons 0))).
  assert (length f1 = length f) as Hl1 by (subst f1; memlen).
  assert (bytes f1) by (apply bytes_upd; [done|apply bytes_le_encode]).
  rewrite (tcp_checksum_ok f1 ip seg); [|lia| | |done]; first last.
  { revert Htot. unfold ip_tot_len, f1. memstep. rewrite rd_upd_disjoint; [done|simpl; lia|lia]. }
  { revert Hihl. unfold ip_ihl, f1. memstep. rewrite rd_upd_disjoint; [done|simpl; lia|lia]. }
  cbn [obind]. memstep. eexists. split; [done|].
  set (c := in_cksum_bytes (tcp_pseudo f1 ip (Z.of_nat seg) ++ sub f1 (ip + 20) seg)).
  set (f2 := upd f1 (ip + 20 + 16) (le_encode 2 c)).
  assert (tcp_pseudo f2 ip (Z.of_nat seg) = tcp_pseudo f1 ip (Z.of_nat seg)) as ->.
  { unfold tcp_pseudo, f2. rewrite !(sub_upd_disjoint f1 (ip + 20 + 16)) by (rewrite ?length_le_encode; lia). done. }
  assert (sub f2 (ip + 20) seg = upd (sub f1 (ip + 20) seg) 16 (le_encode 2 c)) as ->.
  { unfold f2. by rewrite sub_upd_cover by (rewrite ?length_le_encode; lia). }
  pose proof (length_tcp_pseudo f1 ip (Z.of_nat seg) ltac:(lia)) as Hp.
  assert (tcp_pseudo f1 ip (Z.of_nat seg) ++ upd (sub f1 (ip + 20) seg) 16 (le_encode 2 c)
          = upd (tcp_pseudo f1 ip (Z.of_nat seg) ++ sub f1 (ip + 20) seg) 28 (le_encode 2 c)) as ->.
  { unfold upd at 2. rewrite length_le_encode.
    rewrite take_app, drop_app, Hp, (take_ge (tcp_pseudo _ _ _)), (drop_ge (tcp_pseudo _ _ _)) by lia.
    unfold upd. rewrite length_le_encode. by rewrite <- app_assoc. }
  assert (Hlen : length (tcp_pseudo f1 ip (Z.of_nat seg) ++ sub f1 (ip + 20) seg) = (12 + seg)%nat)
    by (rewrite length_app, Hp, length_sub; lia).
  split.
  - apply cksum_self_verifies; [|lia|lia|done|].
    + apply Forall_app; split; [by apply bytes_tcp_pseudo|by apply bytes_sub].
    + rewrite sub_app_r, Hp by lia. change (28 - 12)%nat with 16%nat.
      rewrite sub_sub by lia. unfold f1.
      apply (sub_upd_same f (ip + 20 + 16) (le_encode 2 (htons 0))).
      rewrite length_le_encode. lia.
  - split; [apply bytes_upd; [done|apply bytes_le_encode]|]. split; [unfold f2; by memlen|].
    intros i Hi. unfold f2. rewrite lookup_upd by (rewrite length_le_encode; lia).
    rewrite decide_False by (rewrite length_le_encode; lia).
    unfold f1. rewrite lookup_upd by (rewrite length_le_encode; lia).
    by rewrite decide_False by (rewrite length_le_encode; lia).
Qed.

(** C22: for an option-less IP header whose total length covers the TCP header
    and fits the checksum buffer, [set_tcp_checksum] succeeds, the segment it
    leaves passes the receiver's test over the pseudo header, and only the two
    bytes of the TCP checksum field change. *)
Theorem set_tcp_checksum_verifies f ip (seg : nat) :
  bytes f -> (ip + 20 + seg <= length f)%nat -> ip_ihl f ip = Ret 5 ->
  ip_tot_len f ip = Ret (20 + Z.of_nat seg) -> 20 <= Z.of_nat seg <= 2068 ->
  exists f', set_tcp_checksum f ip = Ret f' /\
    in_cksum_bytes (tcp_pseudo f' ip (Z.of_nat seg) ++ sub f' (ip + 20) seg) = 0 /\
    bytes f' /\ length f' = length f /\
    (forall i, (i < ip + 36)%nat \/ (ip + 38 <= i)%nat -> f' !! i = f !! i).
Proof. apply set_tcp_checksum_ok. Qed.

(** The buffer is left exactly when the segment is shorter than a TCP header
    or longer than the buffer. *)
Lemma tcp_checksum_overrun f ip hdrdata :
  (ip + 40 <= length f)%nat -> hdrdata_size f ip = Ret hdrdata ->
  hdrdata < 20 \/ 2068 < hdrdata -> tcp_checksum f ip = Fault OutOfBounds.
Proof.
  intros Hb Hh Hr. unfold tcp_checksum, IP_HDR_SIZE, TCP_HDR_LEN, BUFSIZE. rewrite Hh.
  cbn [obind]. memstep. change (Z.of_nat 20) with 20.
  destruct (Z.ltb_spec (hdrdata - 20) 0), (Z.ltb_spec 2048 (hdrdata - 20)); done || lia.
Qed.

(** * Witnesses *)

(** An ICMP-sized IP header and a TCP segment of two payload bytes. *)
Definition sample_packet : list Z :=
  [0x45; 0; 0; 42; 0; 1; 0; 0; 64; 6; 0; 0; 10; 0; 0; 1; 10; 0; 0; 2] ++
  [0; 80; 0; 81; 0; 0; 0; 1; 0; 0; 0; 0; 0x50; 2; 1; 0; 9; 9; 0; 0] ++ [7; 8].

Lemma set_ip_checksum_verifies_witness :
  exists f', set_ip_checksum sample_packet 0 = Ret f' /\
    in_cksum f' 0 IP_HDR_SIZE = Ret 0 /\ bytes f' /\ length f' = length sample_packet /\
    (forall i, (i < 0 + 10)%nat \/ (0 + 12 <= i)%nat -> f' !! i = sample_packet !! i).
Proof. apply (set_ip_checksum_verifies sample_packet 0); [solve_bytes|vm_compute; lia]. Defined.

Lemma set_tcp_checksum_verifies_witness :
  exists f', set_tcp_checksum sample_packet 0 = Ret f' /\
    in_cksum_bytes (tcp_pseudo f' 0 (Z.of_nat 22) ++ sub f' (0 + 20) 22) = 0 /\
    bytes f' /\ length f' = length sample_packet /\
    (forall i, (i < 0 + 36)%nat \/ (0 + 38 <= i)%nat -> f' !! i = sample_packet !! i).
Proof.
  apply (set_tcp_checksum_verifies sample_packet 0 22);
    [solve_bytes|vm_compute; lia|reflexivity|reflexivity|lia].
Defined.
