(* ===== verification/TcpOptions.v ===== *)
(** The TCP timestamp option ([netcode.c]: [strip_tcp_timestamps],
    [get_tcp_timestamps], [set_tcp_timestamps], [fix_tcp_timestamps]).  The
    three parsers walk the option bytes with a loop whose C termination is not
    obvious; here each takes fuel, and [scan] is the walk they implement. *)
From S2P Require Import Prelude Mem Types.

(** * Constants of [netinet/tcp.h] *)

Definition TCPOPT_EOL : Z := 0.
Definition TCPOPT_NOP : Z := 1.
Definition TCPOPT_TIMESTAMP : Z := 8.
Definition TCPOLEN_TIMESTAMP : Z := 10.
Definition TCPOPT_TSTAMP_HDR : Z := 0x0101080A.

(** * The operations *)

(** [th->doff], the high half of the thirteenth byte. *)
Definition tcp_doff (f : list Z) (th : nat) : outcome Z :=
  let! b := ld8 f (th + 12) in Ret (Z.shiftr b 4).

(** The options start after the fixed header; [length] points one byte before
    their end. *)
Definition options_length (th : nat) (doff : Z) : Z := Z.of_nat th + 20 + (doff * 4 - 20 - 1).

(** Iterations after which a walk that advances at every step has ended. *)
Definition options_fuel (ptr : nat) (length : Z) : nat := S (Z.to_nat (length - Z.of_nat ptr)).

(** The test for the usual layout: two NOPs and the timestamp, nothing else. *)
Definition tstamp_appa (f : list Z) (th : nat) (doff : Z) : outcome bool :=
  if doff =? 5 + 3 then
    let! w := ld32 f (th + 20) in Ret (w =? ntohl TCPOPT_TSTAMP_HDR)
  else Ret false.

Fixpoint strip_loop (fuel : nat) (f : list Z) (ptr : nat) (length : Z) : outcome (list Z) :=
  match fuel with
  | O => Fault Hangs
  | S fuel =>
    if Z.of_nat ptr <? length then
      let! opcode := ld8 f ptr in
      let! opsize := ld8 f (ptr + 1) in
      if opcode =? TCPOPT_EOL then Ret f
      else if opcode =? TCPOPT_NOP then strip_loop fuel f (ptr + 1) length
      else if opcode =? TCPOPT_TIMESTAMP then st8 f ptr TCPOPT_EOL
      else strip_loop fuel f (ptr + Z.to_nat opsize) length
    else Ret f
  end.

Definition strip_tcp_timestamps (f : list Z) (th : nat) : outcome (list Z) :=
  let! doff := tcp_doff f th in
  if doff =? 5 then Ret f
  else
    let! appa := tstamp_appa f th doff in
    if appa : bool then st8 f (th + 20) TCPOPT_EOL
    else let length := options_length th doff in
      strip_loop (options_fuel (th + 20) length) f (th + 20) length.

(** The two values of the option at [ts], each read only when its destination
    pointer is not null. *)
Definition read_ts (f : list Z) (ts : nat) (tsval tsecho : bool) : outcome (option Z * option Z) :=
  let! v := (if tsval then let! w := ld32 f ts in Ret (Some (ntohl w)) else Ret None) in
  let! e := (if tsecho then let! w := ld32 f (ts + 4) in Ret (Some (ntohl w)) else Ret None) in
  Ret (v, e).

Fixpoint get_loop (fuel : nat) (f : list Z) (ptr : nat) (length : Z) (tsval tsecho : bool) :
    outcome (option (option Z * option Z)) :=
  match fuel with
  | O => Fault Hangs
  | S fuel =>
    if Z.of_nat ptr <? length then
      let! opcode := ld8 f ptr in
      let! opsize := ld8 f (ptr + 1) in
      if opcode =? TCPOPT_EOL then Ret None
      else if opcode =? TCPOPT_NOP then get_loop fuel f (ptr + 1) length tsval tsecho
      else if opcode =? TCPOPT_TIMESTAMP then
        if opsize =? TCPOLEN_TIMESTAMP then
          let! r := read_ts f (ptr + 2) tsval tsecho in Ret (Some r)
        else get_loop fuel f ptr length tsval tsecho
      else get_loop fuel f (ptr + Z.to_nat opsize) length tsval tsecho
    else Ret None
  end.

(** [NOK] is [None]; [OK] comes with the values read. *)
Definition get_tcp_timestamps (f : list Z) (th : nat) (tsval tsecho : bool) :
    outcome (option (option Z * option Z)) :=
  let! doff := tcp_doff f th in
  if doff =? 5 then Ret None
  else
    let! appa := tstamp_appa f th doff in
    if appa : bool then let! r := read_ts f (th + 24) tsval tsecho in Ret (Some r)
    else let length := options_length th doff in
      get_loop (options_fuel (th + 20) length) f (th + 20) length tsval tsecho.

Definition write_ts (f : list Z) (ts : nat) (tsval tsecho : option Z) : outcome (list Z) :=
  let! f := (match tsval with Some v => st32 f ts (htonl v) | None => Ret f end) in
  match tsecho with Some v => st32 f (ts + 4) (htonl v) | None => Ret f end.

Fixpoint set_loop (fuel : nat) (f : list Z) (ptr : nat) (length : Z) (tsval tsecho : option Z) :
    outcome (list Z) :=
  match fuel with
  | O => Fault Hangs
  | S fuel =>
    if Z.of_nat ptr <? length then
      let! opcode := ld8 f ptr in
      let! opsize := ld8 f (ptr + 1) in
      if opcode =? TCPOPT_EOL then Ret f
      else if opcode =? TCPOPT_NOP then set_loop fuel f (ptr + 1) length tsval tsecho
      else if opcode =? TCPOPT_TIMESTAMP then
        if opsize =? TCPOLEN_TIMESTAMP then write_ts f (ptr + 2) tsval tsecho
        else set_loop fuel f ptr length tsval tsecho
      else set_loop fuel f (ptr + Z.to_nat opsize) length tsval tsecho
    else Ret f
  end.

Definition set_tcp_timestamps (f : list Z) (th : nat) (tsval tsecho : option Z) : outcome (list Z) :=
  let! doff := tcp_doff f th in
  if (doff =? 5) || (negb (bool_decide (is_Some tsval)) && negb (bool_decide (is_Some tsecho)))
  then Ret f
  else
    let! appa := tstamp_appa f th doff in
    if appa : bool then write_ts f (th + 24) tsval tsecho
    else let length := options_length th doff in
      set_loop (options_fuel (th + 20) length) f (th + 20) length tsval tsecho.

(** [(int) tcp_ts + (int) diff]: an addition of two [int]s that leaves their range
    is undefined. *)
Definition shift_ts (tcp_ts diff : Z) : outcome Z :=
  let sum := s32 tcp_ts + s32 diff in
  if (- 2 ^ 31 <=? sum) && (sum <? 2 ^ 31) then Ret (u32 sum) else Fault SignedOverflow.

Definition fix_tcp_timestamps (f : list Z) (th : nat) (conn : conn_struct) : outcome (status_t * list Z) :=
  let problem := cn_replay_problem conn in
  if negb (Z.land problem REPLAY_UNEXPECTED_TCP_TS =? 0) then
    let! f := strip_tcp_timestamps f th in Ret (OK, f)
  else if negb (Z.land problem REPLAY_TCP_TS_OUTOFSYNC =? 0) then
    let! r := get_tcp_timestamps f th true false in
    match r with
    | Some (Some tcp_ts, _) =>
      let! shifted := shift_ts tcp_ts (cn_tcp_ts_diff conn) in
      let! f := set_tcp_timestamps f th (Some shifted) None in
      Ret (OK, f)
    | _ => Ret (NOK, f)
    end
  else Ret (NOK, f).

(** * The walk over the options *)

(** [scan f length ptr r]: walking from [ptr], the parser stops with [r]: at the
    timestamp option at [p] for [Some p], or without one for [None]. *)
Inductive scan (f : list Z) (length : Z) : nat -> option nat -> Prop :=
  | scan_end ptr : length <= Z.of_nat ptr -> scan f length ptr None
  | scan_eol ptr n :
      Z.of_nat ptr < length -> ld8 f ptr = Ret TCPOPT_EOL -> ld8 f (ptr + 1) = Ret n ->
      scan f length ptr None
  | scan_nop ptr n r :
      Z.of_nat ptr < length -> ld8 f ptr = Ret TCPOPT_NOP -> ld8 f (ptr + 1) = Ret n ->
      scan f length (ptr + 1) r -> scan f length ptr r
  | scan_ts ptr n :
      Z.of_nat ptr < length -> ld8 f ptr = Ret TCPOPT_TIMESTAMP -> ld8 f (ptr + 1) = Ret n ->
      scan f length ptr (Some ptr)
  | scan_other ptr op n r :
      Z.of_nat ptr < length -> ld8 f ptr = Ret op -> ld8 f (ptr + 1) = Ret n ->
      op <> TCPOPT_EOL -> op <> TCPOPT_NOP -> op <> TCPOPT_TIMESTAMP -> 0 < n ->
      scan f length (ptr + Z.to_nat n) r -> scan f length ptr r.

(** What each parser does at the timestamp option the walk found. *)
Definition strip_at (f : list Z) (r : option nat) : outcome (list Z) :=
  match r with Some p => st8 f p TCPOPT_EOL | None => Ret f end.

Ltac scan_cases H :=
  induction H as [ptr Hl|ptr n Hl Hop Hn|ptr n r Hl Hop Hn Hs IH|ptr n Hl Hop Hn
                 |ptr op n r Hl Hop Hn He Hp Ht Hpos Hs IH].

Ltac opt_step :=
  match goal with
  | H : ?length <= Z.of_nat ?ptr |- context [Z.of_nat ?ptr <? ?length] =>
      rewrite (proj2 (Z.ltb_ge (Z.of_nat ptr) length) H)
  | H : Z.of_nat ?ptr < ?length |- context [Z.of_nat ?ptr <? ?length] =>
      rewrite (proj2 (Z.ltb_lt (Z.of_nat ptr) length) H)
  | H : ld8 ?f ?p = Ret _ |- context [ld8 ?f ?p] => rewrite H
  | H : ?op <> ?c |- context [?op =? ?c] => rewrite (proj2 (Z.eqb_neq op c) H)
  | |- context [?c =? ?c] => rewrite Z.eqb_refl
  end; cbn [obind].

(** Enough fuel: one iteration per byte that is left. *)
Lemma strip_loop_scan f len ptr r :
  scan f len ptr r -> forall fuel, (options_fuel ptr len <= fuel)%nat ->
  strip_loop fuel f ptr len = strip_at f r.
Proof.
  unfold options_fuel. intros H. scan_cases H; intros fuel Hf;
    (destruct fuel as [|fuel]; [lia|]); cbn [strip_loop]; repeat opt_step; try done.
  - apply IH. lia.
  - apply IH. lia.
Qed.

Lemma get_loop_scan f len ptr r tsval tsecho :
  scan f len ptr r -> forall fuel, (options_fuel ptr len <= fuel)%nat ->
  match r with
  | None => get_loop fuel f ptr len tsval tsecho = Ret None
  | Some p => ld8 f (p + 1) = Ret TCPOLEN_TIMESTAMP ->
      get_loop fuel f ptr len tsval tsecho =
        let! r := read_ts f (p + 2) tsval tsecho in Ret (Some r)
  end.
Proof.
  unfold options_fuel. intros H. scan_cases H; intros fuel Hf;
    (destruct fuel as [|fuel]; [lia|]); cbn [get_loop]; repeat opt_step; try done.
  - apply IH. lia.
  - intros [= ->]. by repeat opt_step.
  - apply IH. lia.
Qed.

Lemma set_loop_scan f len ptr r tsval tsecho :
  scan f len ptr r -> forall fuel, (options_fuel ptr len <= fuel)%nat ->
  match r with
  | None => set_loop fuel f ptr len tsval tsecho = Ret f
  | Some p => ld8 f (p + 1) = Ret TCPOLEN_TIMESTAMP ->
      set_loop fuel f ptr len tsval tsecho = write_ts f (p + 2) tsval tsecho
  end.
Proof.
  unfold options_fuel. intros H. scan_cases H; intros fuel Hf;
    (destruct fuel as [|fuel]; [lia|]); cbn [set_loop]; repeat opt_step; try done.
  - apply IH. lia.
  - intros [= ->]. by repeat opt_step.
  - apply IH. lia.
Qed.

(** The walk of a parser that returned: [get] and [set] stop only at a
    timestamp of the right length. *)
Lemma get_loop_inv fuel f ptr len tsval tsecho r :
  bytes f -> get_loop fuel f ptr len tsval tsecho = Ret r ->
  exists q, scan f len ptr q /\
    match q with Some p => ld8 f (p + 1) = Ret TCPOLEN_TIMESTAMP | None => True end.
Proof.
  intros Hf. revert ptr. induction fuel as [|fuel IH]; intros ptr; [done|]. cbn [get_loop].
  destruct (Z.ltb_spec (Z.of_nat ptr) len); [|by exists None; split; [constructor|]].
  intros H'. run_inv.
  assert (0 <= x0 < 256) as Hx0.
  { match goal with H : ld8 f (ptr + 1) = Ret x0 |- _ => apply ld8_Ret_inv in H as [? ->] end.
    by apply rd_bound. }
  destruct (Z.eqb_spec x TCPOPT_EOL) as [->|]; [by exists None; split; [eapply scan_eol|]|].
  destruct (Z.eqb_spec x TCPOPT_NOP) as [->|].
  { destruct (IH _ H') as (q & Hq & ?). exists q. split; [by eapply scan_nop|done]. }
  destruct (Z.eqb_spec x TCPOPT_TIMESTAMP) as [->|].
  { destruct (Z.eqb_spec x0 TCPOLEN_TIMESTAMP) as [->|].
    - exists (Some ptr). split; [by eapply scan_ts|done].
    - by apply IH. }
  destruct (IH _ H') as (q & Hq & ?). exists q. split; [|done].
  destruct (decide (x0 = 0)) as [->|].
  - by rewrite Nat.add_0_r in Hq.
  - eapply scan_other; eauto; lia.
Qed.

(** * Theorems about the parsers *)

(** A timestamp option with a wrong length, or another option of length zero,
    stops the walk for ever: whatever the fuel, the loop does not return. *)
Lemma get_loop_stuck f ptr len op n tsval tsecho :
  Z.of_nat ptr < len -> ld8 f ptr = Ret op -> ld8 f (ptr + 1) = Ret n ->
  op <> TCPOPT_EOL -> op <> TCPOPT_NOP ->
  (op = TCPOPT_TIMESTAMP -> n <> TCPOLEN_TIMESTAMP) -> (op <> TCPOPT_TIMESTAMP -> n = 0) ->
  forall fuel, get_loop fuel f ptr len tsval tsecho = Fault Hangs.
Proof.
  intros Hl Hop Hn He Hp Ht Ho fuel. induction fuel as [|fuel IH]; [done|]. cbn [get_loop].
  repeat opt_step. destruct (Z.eqb_spec op TCPOPT_TIMESTAMP) as [->|].
  - specialize (Ht eq_refl). by repeat opt_step.
  - rewrite Ho by done. by rewrite Nat.add_0_r.
Qed.

(** [get_tcp_timestamps] never returns on a segment whose options start
    with a timestamp option of a length other than 10 (or with any other
    option of length zero): the [break] leaves the [switch], not the loop, and
    nothing advances the pointer.  No number of iterations is enough. *)
Lemma get_tcp_timestamps_hangs f th doff op n tsval tsecho :
  tcp_doff f th = Ret doff -> 5 < doff -> tstamp_appa f th doff = Ret false ->
  ld8 f (th + 20) = Ret op -> ld8 f (th + 21) = Ret n ->
  op <> TCPOPT_EOL -> op <> TCPOPT_NOP ->
  (op = TCPOPT_TIMESTAMP -> n <> TCPOLEN_TIMESTAMP) -> (op <> TCPOPT_TIMESTAMP -> n = 0) ->
  get_tcp_timestamps f th tsval tsecho = Fault Hangs /\
  forall fuel, get_loop fuel f (th + 20) (options_length th doff) tsval tsecho = Fault Hangs.
Proof.
  intros Hd Hdoff Happa Hop Hn He Hp Ht Ho.
  assert (Hall : forall fuel,
    get_loop fuel f (th + 20) (options_length th doff) tsval tsecho = Fault Hangs).
  { apply (get_loop_stuck f (th + 20) _ op n); try done.
    - unfold options_length. lia.
    - rewrite <- Hn. f_equal. lia. }
  split; [|done]. unfold get_tcp_timestamps. rewrite Hd. cbn [obind].
  destruct (Z.eqb_spec doff 5); [lia|]. rewrite Happa. apply Hall.
Qed.

(** A TCP header of 24 bytes whose only option is a timestamp cut to 4 bytes. *)
Definition bad_ts_header : list Z :=
  [0; 80; 0; 81; 0; 0; 0; 1; 0; 0; 0; 0; 0x60; 2; 0; 0; 0; 0; 0; 0] ++ [8; 4; 0; 0].

Lemma get_tcp_timestamps_hangs_witness :
  get_tcp_timestamps bad_ts_header 0 true false = Fault Hangs /\
  forall fuel, get_loop fuel bad_ts_header 20 23 true false = Fault Hangs.
Proof.
  apply (get_tcp_timestamps_hangs bad_ts_header 0 6 8 4 true false);
    try reflexivity; unfold TCPOPT_EOL, TCPOPT_NOP, TCPOLEN_TIMESTAMP, TCPOPT_TIMESTAMP; lia.
Defined.

(** The options are well formed: the walk ends, with a timestamp of the right
    length that lies before the end of the header if it stops at one. *)
Fixpoint options_end (fuel : nat) (f : list Z) (ptr : nat) (length : Z) : bool :=
  match fuel with
  | O => false
  | S fuel =>
    if Z.of_nat ptr <? length then
      match ld8 f ptr, ld8 f (ptr + 1) with
      | Ret op, Ret n =>
        if op =? TCPOPT_EOL then true
        else if op =? TCPOPT_NOP then options_end fuel f (ptr + 1) length
        else if op =? TCPOPT_TIMESTAMP then (n =? TCPOLEN_TIMESTAMP) && (Z.of_nat ptr + n <=? length + 1)
        else (0 <? n) && options_end fuel f (ptr + Z.to_nat n) length
      | _, _ => false
      end
    else true
  end.

Lemma options_end_scan fuel f ptr len :
  options_end fuel f ptr len = true ->
  exists q, scan f len ptr q /\
    match q with Some p => ld8 f (p + 1) = Ret TCPOLEN_TIMESTAMP /\ Z.of_nat p + 10 <= len + 1 | None => True end.
Proof.
  revert ptr. induction fuel as [|fuel IH]; intros ptr; [done|]. cbn [options_end].
  destruct (Z.ltb_spec (Z.of_nat ptr) len); [|by exists None; split; [constructor|]].
  destruct (ld8 f ptr) as [op|] eqn:Hop; [|done].
  destruct (ld8 f (ptr + 1)) as [n|] eqn:Hn; [|done].
  destruct (Z.eqb_spec op TCPOPT_EOL) as [->|]; [by exists None; split; [eapply scan_eol|]|].
  destruct (Z.eqb_spec op TCPOPT_NOP) as [->|].
  { intros (q & Hq & ?)%IH. exists q. split; [by eapply scan_nop|done]. }
  destruct (Z.eqb_spec op TCPOPT_TIMESTAMP) as [->|].
  { intros [->%Z.eqb_eq Hfit%Z.leb_le]%andb_true_iff. exists (Some ptr). split; [by eapply scan_ts|done]. }
  intros [H0%Z.ltb_lt (q & Hq & ?)%IH]%andb_true_iff. exists q. split; [by eapply scan_other|done].
Qed.

(** C37: termination and safety.  When every option before the end or the
    timestamp has a positive length, and the timestamp has length 10 and ends
    before the options do, the three parsers return: the fuel they are given is
    enough, and no access leaves the header - the frame may end with it. *)
Theorem tcp_timestamps_total f th doff tsval tsecho v e :
  tcp_doff f th = Ret doff -> 5 <= doff ->
  (th + Z.to_nat (doff * 4) <= length f)%nat ->
  options_end (options_fuel (th + 20) (options_length th doff)) f (th + 20)
    (options_length th doff) = true ->
  (exists f', strip_tcp_timestamps f th = Ret f') /\
  (exists r, get_tcp_timestamps f th tsval tsecho = Ret r) /\
  (exists f', set_tcp_timestamps f th v e = Ret f').
Proof.
  intros Hd Hdoff Hlen Hend.
  apply options_end_scan in Hend as (q & Hq & Hten).
  assert (Hpos : match q with Some p => (th + 20 <= p)%nat | None => True end).
  { clear Hten. revert Hq. generalize (th + 20)%nat. intros s Hq.
    scan_cases Hq; try done; destruct r; try done; intuition lia. }
  assert (Hend : options_length th doff + 1 = Z.of_nat th + doff * 4) by (unfold options_length; lia).
  rewrite Hend in Hten. clear Hend.
  assert (Hread : forall p, (p + 8 <= length f)%nat -> exists r, read_ts f p tsval tsecho = Ret r).
  { intros p Hp. unfold read_ts. destruct tsval, tsecho; memstep; eauto. }
  assert (Hwrite : forall p, (p + 8 <= length f)%nat -> exists f', write_ts f p v e = Ret f').
  { intros p Hp. unfold write_ts. destruct v, e; memstep; eauto. }
  unfold strip_tcp_timestamps, get_tcp_timestamps, set_tcp_timestamps. rewrite Hd. cbn [obind].
  destruct (Z.eqb_spec doff 5); [cbn [orb]; split_and!; eauto|].
  assert (exists b, tstamp_appa f th doff = Ret b /\ (b = true -> doff = 8)) as (b & -> & Hb8).
  { unfold tstamp_appa. destruct (Z.eqb_spec doff (5 + 3)); [|by exists false].
    memstep. eexists. by split. }
  cbn [obind orb].
  assert (Hstrip : forall p, (p + 1 <= length f)%nat -> exists f', st8 f p TCPOPT_EOL = Ret f')
    by (intros p Hp; rewrite st8_ok by done; eauto).
  destruct b.
  - specialize (Hb8 eq_refl) as ->. change (Z.to_nat (8 * 4)) with 32%nat in Hlen.
    split; [apply Hstrip; lia|]. split.
    + destruct (Hread (th + 24)%nat ltac:(lia)) as [r ->]. cbn [obind]. eauto.
    + destruct (negb _ && negb _); [by eauto|]. apply Hwrite. lia.
  - rewrite (strip_loop_scan _ _ _ _ Hq) by done.
    pose proof (get_loop_scan _ _ _ _ tsval tsecho Hq _ (Nat.le_refl _)) as Hg.
    pose proof (set_loop_scan _ _ _ _ v e Hq _ (Nat.le_refl _)) as Hs.
    destruct q as [p|]; simpl strip_at.
    + destruct Hten as [Hten Hfit]. rewrite Hg, Hs by done. split; [apply Hstrip; lia|]. split.
      * destruct (Hread (p + 2)%nat ltac:(lia)) as [r ->]. cbn [obind]. eauto.
      * destruct (negb _ && negb _); [by eauto|]. apply Hwrite. lia.
    + rewrite Hg, Hs. split; [eauto|]. split; [eauto|]. destruct (negb _ && negb _); eauto.
Qed.

(** When the timestamp does not fit, the header is over-read, and the bytes that
    follow it are taken for the date: here a header of 24 bytes, the last two of
    which announce a timestamp, ends the frame. *)
Example get_tcp_timestamps_overreads :
  get_tcp_timestamps ([0; 80; 0; 81; 0; 0; 0; 1; 0; 0; 0; 0; 0x60; 2; 0; 0; 0; 0; 0; 0] ++ [1; 1; 8; 10]) 0 true false
  = Fault OutOfBounds.
Proof. reflexivity. Qed.

(** A header with the timestamp before the two NOPs, walked by the loop; the
    bytes end with it. *)
Definition ts_header_loop : list Z :=
  [0; 80; 0; 81; 0; 0; 0; 1; 0; 0; 0; 0; 0x80; 2; 0; 0; 0; 0; 0; 0] ++
  [8; 10; 0; 0; 1; 0; 0; 0; 2; 0; 1; 1].

Lemma tcp_timestamps_total_witness :
  (exists f', strip_tcp_timestamps ts_header_loop 0 = Ret f') /\
  (exists r, get_tcp_timestamps ts_header_loop 0 true false = Ret r) /\
  (exists f', set_tcp_timestamps ts_header_loop 0 (Some 3) None = Ret f').
Proof.
  apply (tcp_timestamps_total ts_header_loop 0 8 true false (Some 3) None);
    [reflexivity|lia|simpl; lia|reflexivity].
Defined.

(** ** Reading back what was written *)

Arguments strip_loop : simpl never.
Arguments get_loop : simpl never.
Arguments set_loop : simpl never.

Lemma scan_agree f f' len ptr p :
  scan f len ptr (Some p) -> (forall i, (i <= p + 1)%nat -> ld8 f' i = ld8 f i) ->
  scan f' len ptr (Some p) /\ (ptr <= p)%nat.
Proof.
  intros H. remember (Some p) as r eqn:Er. scan_cases H; intros Ha; simplify_eq.
  - destruct IH as [IH ?]; [done|done|]. split; [|lia].
    eapply scan_nop; eauto; rewrite Ha; eauto; lia.
  - split; [|lia]. eapply scan_ts; eauto; rewrite Ha; eauto; lia.
  - destruct IH as [IH ?]; [done|done|]. split; [|lia].
    eapply scan_other; eauto; rewrite Ha; eauto; lia.
Qed.

Lemma read_ts_Ret_inv f ts r :
  read_ts f ts true true = Ret r <->
  (ts + 8 <= length f)%nat /\ r = (Some (ntohl (rd 4 f ts)), Some (ntohl (rd 4 f (ts + 4)))).
Proof.
  unfold read_ts. split.
  - intros H. run_inv.
    repeat match goal with H : ld32 _ _ = Ret _ |- _ => apply ld32_Ret_inv in H as [? ->] end.
    split; [lia|done].
  - intros [Hl ->]. by memstep.
Qed.

Lemma rd4_htonl f ts v :
  (ts + 4 <= length f)%nat -> 0 <= v < 2 ^ 32 ->
  ntohl (rd 4 (upd f ts (le_encode 4 (htonl v))) ts) = v.
Proof.
  intros Hb Hv. rewrite rd_upd_same by done. rewrite Z.mod_small by apply htonl_bound.
  by apply ntohl_htonl.
Qed.

Lemma same_outside_upd4 f off z :
  (off + 4 <= length f)%nat -> same_outside off (off + 4) f (upd f off (le_encode 4 z)).
Proof. intros. apply (same_outside_upd f off (le_encode 4 z)). by rewrite length_le_encode. Qed.

Definition in_u32 (o : option Z) : Prop := match o with Some v => 0 <= v < 2 ^ 32 | None => True end.

Lemma write_read_ts f ts v e v0 e0 :
  in_u32 v -> in_u32 e -> read_ts f ts true true = Ret (Some v0, Some e0) ->
  exists f', write_ts f ts v e = Ret f' /\ same_outside ts (ts + 8) f f' /\
    read_ts f' ts true true = Ret (Some (default v0 v), Some (default e0 e)).
Proof.
  intros Hv He [Hl Hr]%read_ts_Ret_inv. injection Hr as -> ->. unfold write_ts.
  assert (exists f1, (match v with Some v => st32 f ts (htonl v) | None => Ret f end) = Ret f1 /\
    same_outside ts (ts + 4) f f1 /\ ntohl (rd 4 f1 ts) = default (ntohl (rd 4 f ts)) v)
    as (f1 & -> & Hs1 & Hv1).
  { destruct v as [v|]; simpl in Hv; [|by exists f; split_and!].
    rewrite st32_ok by lia. eexists. split; [done|].
    split; [apply same_outside_upd4; lia|]. apply rd4_htonl; [lia|done]. }
  cbn [obind]. pose proof (proj1 Hs1) as Hl1.
  assert (exists f2, (match e with Some e => st32 f1 (ts + 4) (htonl e) | None => Ret f1 end) = Ret f2 /\
    same_outside (ts + 4) (ts + 8) f1 f2 /\
    ntohl (rd 4 f2 (ts + 4)) = default (ntohl (rd 4 f1 (ts + 4))) e) as (f2 & -> & Hs2 & Hv2).
  { destruct e as [e|]; simpl in He; [|by exists f1; split_and!].
    rewrite st32_ok by lia. eexists. split; [done|].
    split; [|apply rd4_htonl; [lia|done]].
    replace (ts + 8)%nat with (ts + 4 + 4)%nat by lia. apply same_outside_upd4; lia. }
  exists f2. split; [done|]. pose proof (proj1 Hs2) as Hl2. split.
  { transitivity f1; (eapply same_outside_weaken; [..|eassumption]); lia. }
  apply read_ts_Ret_inv. split; [lia|]. rewrite Hv2.
  rewrite (same_outside_rd _ _ _ _ Hs2 4 ts) by lia.
  by rewrite Hv1, (same_outside_rd _ _ _ _ Hs1 4 (ts + 4)) by lia.
Qed.

Lemma scan_nop_inv f len ptr p :
  scan f len ptr (Some p) -> ld8 f ptr = Ret TCPOPT_NOP -> scan f len (ptr + 1) (Some p).
Proof.
  intros H Hop. inversion H; subst; try done;
    match goal with H : ld8 f _ = Ret _ |- _ => rewrite Hop in H; by simplify_eq end.
Qed.

Lemma scan_start f len ptr p :
  scan f len ptr (Some p) ->
  ld8 f ptr = Ret TCPOPT_NOP -> ld8 f (ptr + 1) = Ret TCPOPT_NOP -> (ptr + 2 <= p)%nat.
Proof.
  intros H H1 H2. apply scan_nop_inv in H; [|done]. apply scan_nop_inv in H; [|done].
  apply (scan_agree f f) in H as [_ H]; [lia|done].
Qed.

(** The bytes of the first option word decide the layout test. *)
Lemma appa_word f a :
  bytes f -> (a + 4 <= length f)%nat -> rd 4 f a = ntohl TCPOPT_TSTAMP_HDR ->
  sub f a 4 = [TCPOPT_NOP; TCPOPT_NOP; TCPOPT_TIMESTAMP; TCPOLEN_TIMESTAMP].
Proof.
  intros Hf Hb Hw. unfold rd in Hw. pose proof (bytes_sub f a 4 Hf) as Hs.
  apply le_encode_decode in Hs. rewrite length_sub in Hs by done.
  rewrite <- Hs, Hw. reflexivity.
Qed.

Lemma ld8_sub f a n i : (i < n)%nat -> (a + n <= length f)%nat ->
  ld8 f (a + i) = let! b := nonnull (sub f a n !! i) in Ret b.
Proof.
  intros Hi Hb. rewrite ld8_ok by lia. unfold rd, sub.
  rewrite lookup_take, lookup_drop. rewrite decide_True by done.
  destruct (lookup_lt_is_Some_2 f (a + i)) as [b Hbi]; [lia|].
  rewrite Hbi. rewrite (drop_S _ _ _ Hbi). cbn [take le_decode nonnull obind]. rewrite take_0. cbn [le_decode]. f_equal. lia.
Qed.

Lemma appa_nops f a :
  bytes f -> (a + 4 <= length f)%nat -> rd 4 f a = ntohl TCPOPT_TSTAMP_HDR ->
  ld8 f a = Ret TCPOPT_NOP /\ ld8 f (a + 1) = Ret TCPOPT_NOP.
Proof.
  intros Hf Hb Hw. apply appa_word in Hw; [|done..].
  pose proof (ld8_sub f a 4 0 ltac:(lia) Hb) as H0. pose proof (ld8_sub f a 4 1 ltac:(lia) Hb) as H1.
  rewrite Nat.add_0_r in H0. by rewrite H0, H1, Hw.
Qed.

Lemma same_outside_bytes_sub a b f f' off n :
  bytes f -> same_outside a b f f' -> (off + n <= a)%nat -> bytes (sub f' off n).
Proof. intros Hf Hs Ho. rewrite (same_outside_sub _ _ _ _ _ _ Hs) by lia. by apply bytes_sub. Qed.

(** Writing at a timestamp option that the walk found, and that is not the
    usual layout, does not turn the segment into one of the usual layout. *)
Lemma tstamp_appa_agree f f' th doff p :
  bytes f' -> same_outside (p + 2) (p + 10) f f' ->
  scan f (options_length th doff) (th + 20) (Some p) -> tstamp_appa f th doff = Ret false ->
  tstamp_appa f' th doff = Ret false.
Proof.
  intros Hf Hs Hsc. destruct (scan_agree f f _ _ _ Hsc) as [_ Hp]; [done|].
  unfold tstamp_appa. destruct (doff =? 5 + 3); [|done].
  intros H. run_inv. match goal with H : ld32 _ _ = Ret _ |- _ => apply ld32_Ret_inv in H as [Hb ->] end.
  pose proof (proj1 Hs) as Hl. rewrite ld32_ok by lia. cbn [obind]. f_equal.
  destruct (decide (th + 24 <= p + 2)%nat).
  { by rewrite (same_outside_rd _ _ _ _ Hs) by lia. }
  apply Z.eqb_neq. intros [H0 H1]%appa_nops; [|done|lia].
  destruct (scan_agree f f' _ _ _ Hsc) as [Hsc' _].
  { intros i Hi. apply (same_outside_ld8 _ _ _ _ Hs). lia. }
  pose proof (scan_start _ _ _ _ Hsc' H0 H1). lia.
Qed.

Lemma write_ts_bytes f ts v e f' : bytes f -> write_ts f ts v e = Ret f' -> bytes f'.
Proof.
  intros Hf H. unfold write_ts in H. run_inv.
  assert (bytes x) as Hx.
  { destruct v; run_inv; [|done]. match goal with H : st32 _ _ _ = Ret _ |- _ => apply mput_Ret_inv in H as [_ ->] end.
    apply bytes_upd, bytes_le_encode; done. }
  destruct e; run_inv; [|done]. match goal with H : st32 _ _ _ = Ret _ |- _ => apply mput_Ret_inv in H as [_ ->] end.
  apply bytes_upd, bytes_le_encode; done.
Qed.

(** Where [set] writes is where [get] reads. *)
Lemma set_get_ts f th v e v0 e0 :
  bytes f -> in_u32 v -> in_u32 e ->
  get_tcp_timestamps f th true true = Ret (Some (Some v0, Some e0)) ->
  exists f', set_tcp_timestamps f th v e = Ret f' /\
    get_tcp_timestamps f' th true true = Ret (Some (Some (default v0 v), Some (default e0 e))) /\
    exists ts, (th + 22 <= ts)%nat /\ same_outside ts (ts + 8) f f'.
Proof.
  intros Hf Hv He. unfold get_tcp_timestamps, set_tcp_timestamps. intros H. run_inv.
  match goal with H : tcp_doff f th = _ |- _ => rename H into Hd end.
  destruct (x =? 5) eqn:E5; [done|]. run_inv.
  match goal with H : tstamp_appa f th x = _ |- _ => rename H into Ha end.
  assert (Hd' : forall ts f', (th + 22 <= ts)%nat -> same_outside ts (ts + 8) f f' -> tcp_doff f' th = Ret x).
  { intros ts f' Hts Hs. rewrite <- Hd. unfold tcp_doff. by rewrite (same_outside_ld8 _ _ _ _ Hs) by lia. }
  rewrite Hd. cbn [obind]. rewrite E5. cbn [orb]. destruct (negb _ && negb _) eqn:Hnone.
  { apply andb_true_iff in Hnone as [?%negb_true_iff%bool_decide_eq_false ?%negb_true_iff%bool_decide_eq_false].
    exists f. rewrite Hd. cbn [obind]. rewrite E5, Ha. cbn [obind].
    destruct v, e; try (exfalso; eauto; fail). simpl. rewrite H.
    split; [done|]. split; [done|]. by exists (th + 22)%nat. }
  rewrite Ha. cbn [obind]. destruct x0.
  - run_inv. destruct (write_read_ts _ _ v e _ _ Hv He H0) as (f' & Hw & Hs & Hr).
    exists f'. split; [done|]. split; [|by exists (th + 24)%nat; split; [lia|]].
    rewrite (Hd' (th + 24)%nat f' ltac:(lia) Hs). cbn [obind]. rewrite E5.
    replace (tstamp_appa f' th x) with (tstamp_appa f th x); [rewrite Ha|].
    2:{ unfold tstamp_appa. by rewrite (same_outside_ld32 _ _ _ _ Hs) by lia. }
    cbn [obind]. by rewrite Hr.
  - destruct (get_loop_inv _ _ _ _ _ _ _ Hf H) as ([p|] & Hq & Hten).
    2:{ by rewrite (get_loop_scan _ _ _ _ true true Hq _ (Nat.le_refl _)) in H. }
    pose proof (get_loop_scan _ _ _ _ true true Hq _ (Nat.le_refl _) Hten) as Hg. simpl in Hg.
    rewrite Hg in H. run_inv.
    destruct (write_read_ts _ _ v e _ _ Hv He H0) as (f' & Hw & Hs & Hr).
    replace (p + 2 + 8)%nat with (p + 10)%nat in Hs by lia.
    destruct (scan_agree f f' _ _ _ Hq) as [Hq' Hp].
    { intros i Hi. apply (same_outside_ld8 _ _ _ _ Hs). lia. }
    exists f'. rewrite (set_loop_scan _ _ _ _ v e Hq _ (Nat.le_refl _) Hten).
    split; [done|]. split.
    2:{ exists (p + 2)%nat. replace (p + 2 + 8)%nat with (p + 10)%nat by lia. split; [lia|done]. }
    replace (tcp_doff f' th) with (Ret x : outcome Z).
    2:{ symmetry. apply (Hd' (p + 2)%nat); [lia|]. by replace (p + 2 + 8)%nat with (p + 10)%nat by lia. }
    cbn [obind]. rewrite E5.
    rewrite (tstamp_appa_agree f f' th x p); [|by eapply write_ts_bytes|done..]. cbn [obind].
    assert (ld8 f' (p + 1) = Ret TCPOLEN_TIMESTAMP) as Hten'.
    { rewrite <- Hten. apply (same_outside_ld8 _ _ _ _ Hs). lia. }
    rewrite (get_loop_scan _ _ _ _ true true Hq' _ (Nat.le_refl _) Hten'). by rewrite Hr.
Qed.

(** C38: [set_tcp_timestamps] and [get_tcp_timestamps] agree on where the option
    is.  When the segment carries a timestamp, setting new values succeeds,
    getting them back yields the new values (and the old one for a value that
    was not given), and only the eight bytes of the option changed. *)
Theorem set_get_tcp_timestamps f th v e v0 e0 :
  bytes f -> in_u32 v -> in_u32 e ->
  get_tcp_timestamps f th true true = Ret (Some (Some v0, Some e0)) ->
  exists f', set_tcp_timestamps f th v e = Ret f' /\
    get_tcp_timestamps f' th true true = Ret (Some (Some (default v0 v), Some (default e0 e))) /\
    exists ts, (th + 22 <= ts)%nat /\ same_outside ts (ts + 8) f f'.
Proof. apply set_get_ts. Qed.

Lemma set_get_tcp_timestamps_witness :
  exists f', set_tcp_timestamps ts_header_loop 0 (Some 77) None = Ret f' /\
    get_tcp_timestamps f' 0 true true = Ret (Some (Some (default 256 (Some 77)), Some (default 512 None))) /\
    exists ts, (0 + 22 <= ts)%nat /\ same_outside ts (ts + 8) ts_header_loop f'.
Proof.
  apply (set_get_tcp_timestamps ts_header_loop 0 (Some 77) None 256 512);
    [solve_bytes| simpl; lia | done | reflexivity].
Defined.
