(* ===== verification/Packet.v ===== *)
(** Reception of a frame ([connections.c]: [init_pkt], [free_pkt],
    [store_pkt]; [honeybrid.c]: [process_packet], [IP2QUEUEID]): from captured
    bytes to a [pkt_struct] whose header positions lie in its own copy of the
    frame. *)
From S2P Require Import Prelude Mem Types World Samples Checksum TcpOptions.

(** * Header fields at a position of the frame *)

Definition ip_protocol (f : list Z) (ip : nat) : outcome Z := ld8 f (ip + 9).
Definition ip_saddr (f : list Z) (ip : nat) : outcome Z := ld32 f (ip + 12).
Definition ip_daddr (f : list Z) (ip : nat) : outcome Z := ld32 f (ip + 16).
Definition l4_source (f : list Z) (l4 : nat) : outcome Z := ld16 f l4.
Definition l4_dest (f : list Z) (l4 : nat) : outcome Z := ld16 f (l4 + 2).
Definition eth_type (f : list Z) (eth : nat) : outcome Z := ld16 f (eth + 12).

(** The flag bits of the fourteenth byte of a TCP header. *)
Definition tcp_flag (bit : Z) (f : list Z) (th : nat) : outcome bool :=
  let! b := ld8 f (th + 13) in Ret (Z.testbit b bit).
Definition tcp_fin := tcp_flag 0.
Definition tcp_syn := tcp_flag 1.
Definition tcp_rst := tcp_flag 2.
Definition tcp_ack := tcp_flag 4.

(** [pkt_vlan_id(pkt)]. *)
Definition pkt_vlan_id (p : pkt_struct) : outcome Z :=
  let f := FRAME (pt_packet p) in
  let! ty := eth_type f (p_eth (pt_packet p)) in
  if ty =? htons ETHERTYPE_IP then Ret 0
  else let! tci := ld16 f (p_eth (pt_packet p) + 14) in Ret (vlan_vid tci).

(** * [init_pkt] *)

(** The copy of the frame and the position of its Ethernet and IP headers: four
    bytes are left free in front of an untagged frame, for a VLAN header to be
    added.  (The free bytes are uninitialised in C and are never read before
    they are written; they are zero here.)  Any other [ethertype] leaves the IP
    pointer null. *)
Definition init_frame (ethertype : Z) (packet : list Z) : outcome (list Z * nat * nat * headers * Z) :=
  if ethertype =? ETHERTYPE_IP then
    let f := repeat 0 VLAN_HLEN ++ packet in
    let! eth := mget f VLAN_HLEN ETHER_HDR_LEN in
    Ret (f, VLAN_HLEN, (VLAN_HLEN + ETHER_HDR_LEN)%nat, headers_zero <| oh_eth := Some eth |>,
         Z.of_nat ETHER_HDR_LEN)
  else if ethertype =? ETHERTYPE_VLAN then
    let! vlan := mget packet 0 VLAN_ETH_HLEN in
    Ret (packet, 0%nat, VLAN_ETH_HLEN, headers_zero <| oh_vlan := Some vlan |>,
         Z.of_nat VLAN_ETH_HLEN)
  else Fault NullDeref.

(** The TCP branch: [None] when the packet is refused. *)
Definition init_tcp (f : list Z) (ip : nat) (size tot_len ihl : Z) :
    outcome (option (nat * nat * option (list Z) * Z)) :=
  let tcp := (ip + Z.to_nat (Z.shiftl ihl 2))%nat in
  if size <? MIN_TCP_SIZE then Ret None
  else
    let! doff := tcp_doff f tcp in
    if (doff <? 5) || (255 <? doff) then Ret None
    else
      let! source := l4_source f tcp in
      if source =? 0 then Ret None
      else
        let! dest := l4_dest f tcp in
        if dest =? 0 then Ret None
        else
          let! hdr := mget f tcp TCP_HDR_LEN in
          Ret (Some (tcp, (tcp + Z.to_nat (Z.shiftl doff 2))%nat, Some hdr,
                     u32 (tot_len - Z.shiftl ihl 2 - Z.shiftl doff 2))).

Definition init_udp (f : list Z) (ip : nat) (tot_len ihl : Z) : outcome (nat * nat * option (list Z) * Z) :=
  let udp := (ip + Z.to_nat (Z.shiftl ihl 2))%nat in
  let! hdr := mget f udp UDP_HDR_LEN in
  Ret (udp, (udp + UDP_HDR_LEN)%nat, Some hdr, u32 (tot_len - Z.shiftl ihl 2 - Z.of_nat UDP_HDR_LEN)).

Definition init_pkt_struct (iface : ptr) (iface_target : option ptr) (broadcast : list Z)
    (ethertype : Z) (packet : list Z) : outcome (option pkt_struct) :=
  let! '(f, eth, ip, oh, hlen) := init_frame ethertype packet in
  let! tot_len := ip_tot_len f ip in
  let size := u32 (hlen + tot_len) in
  let! dhost := mget f eth ETH_ALEN in
  let! ihl := ip_ihl f ip in
  let! iphdr := mget f ip (Z.to_nat (Z.shiftl ihl 2)) in
  let oh := oh <| oh_ip := Some iphdr |> in
  let! protocol := ip_protocol f ip in
  let origin := match iface_target with Some _ => EXT | None => INT end in
  let mk (oh : headers) (l4 payload : nat) (data : Z) : pkt_struct :=
    PktStruct (Packet f eth ip l4 payload) oh (Z.of_nat (length packet) <? size)
      (bool_decide (dhost = broadcast)) origin EXT data size 0 None nat_zero 0 (Some iface) None in
  if protocol =? IPPROTO_TCP then
    let! r := init_tcp f ip size tot_len ihl in
    match r with
    | None => Ret None
    | Some (tcp, payload, hdr, data) => Ret (Some (mk (oh <| oh_tcp := hdr |>) tcp payload data))
    end
  else if protocol =? IPPROTO_UDP then
    let! '(udp, payload, hdr, data) := init_udp f ip tot_len ihl in
    Ret (Some (mk (oh <| oh_udp := hdr |>) udp payload data))
  else Ret None.

(** The structure is allocated first; a refused packet is freed. *)
Definition init_pkt (iface : ptr) (ethertype : Z) (packet : list Z) : M (status_t * option ptr) :=
  do a <- malloc;
  do i <- get_iface (Some iface);
  do bc <- sgets broadcast;
  do r <- slift (init_pkt_struct iface (if_target i) bc ethertype packet);
  match r with
  | None => sret (NOK, None)
  | Some p => do_ put_pkt a p; sret (OK, Some a)
  end.

Definition free_pkt (pkt : ptr) : M unit := free_pkt_block pkt.

(** * [process_packet] *)

(** [len] is [header->len], the length on the wire; the block [packet] has
    [header->caplen] bytes. *)
Definition process_packet (iface : ptr) (len : Z) (packet : list Z) : M (status_t * option ptr) :=
  if len <? MIN_PACKET_SIZE then sret (NOK, None)
  else
    do ty <- slift (eth_type packet 0);
    let ethertype := ntohs ty in
    do ip <- (if ethertype =? ETHERTYPE_IP then sret (Some ETHER_HDR_LEN)
              else if ethertype =? ETHERTYPE_VLAN then
                do encap <- slift (ld16 packet 16);
                sret (if ntohs encap =? ETHERTYPE_IP then Some VLAN_ETH_HLEN else None)
              else sret None);
    match ip with
    | None => sret (NOK, None)
    | Some ip =>
      do protocol <- slift (ip_protocol packet ip);
      if negb (protocol =? IPPROTO_TCP) && negb (protocol =? IPPROTO_UDP) then sret (NOK, None)
      else
        do ihl <- slift (ip_ihl packet ip);
        if (ihl <? 5) || (8 <? ihl) then sret (NOK, None)
        else
          do '(st, pkt) <- init_pkt iface ethertype packet;
          match st with NOK => sret (NOK, None) | OK => sret (OK, pkt) end
    end.

(** * [store_pkt] *)

Definition store_pkt (conn pkt : ptr) : M status_t :=
  do_ upd_pkt pkt (fun p => p <| pt_position := -1 |>);
  do c <- get_conn conn;
  do max <- sgets max_packet_buffer;
  let len := Z.of_nat (length (cn_BUFFER c)) in
  if len <? max then
    do_ put_conn conn (c <| cn_BUFFER := cn_BUFFER c ++ [pkt] |>);
    do_ upd_pkt pkt (fun p => p <| pt_position := len |>);
    sret OK
  else sret NOK.

(** * [IP2QUEUEID] *)

(** The queue of a packet: the last byte of the external address, modulo the
    number of decision threads. *)
Definition IP2QUEUEID (iface_has_target : bool) (f : list Z) (ip : nat) (decision_threads : Z) : outcome Z :=
  let! a := (if iface_has_target then ip_saddr f ip else ip_daddr f ip) in
  if decision_threads =? 0 then Fault DivisionByZero
  else Ret (Z.shiftr (Z.land a 0xFF000000) 24 mod decision_threads).

(** * What an accepted packet looks like *)

(** The invariant [init_pkt] establishes for the frame [packet] captured on
    [iface]: the copy of the frame, the layout (four spare bytes in front of an
    untagged frame), the header positions, the lengths and the origin; and the
    original headers, which are the bytes of the frame at these positions, the
    link header that the frame does not have and the other transport header
    being absent. *)
Record pkt_wf (iface : ptr) (tgt : option ptr) (packet : list Z) (p : pkt_struct) : Prop := {
  wf_layout :
    (p_eth (pt_packet p) = 4%nat /\ p_ip (pt_packet p) = 18%nat /\
       FRAME (pt_packet p) = repeat 0 4 ++ packet /\ eth_type packet 0 = Ret (htons ETHERTYPE_IP) /\
       oh_eth (pt_original_headers p) = Some (sub packet 0 14) /\ oh_vlan (pt_original_headers p) = None) \/
    (p_eth (pt_packet p) = 0%nat /\ p_ip (pt_packet p) = 18%nat /\
       FRAME (pt_packet p) = packet /\ eth_type packet 0 = Ret (htons ETHERTYPE_VLAN) /\
       oh_vlan (pt_original_headers p) = Some (sub packet 0 18) /\ oh_eth (pt_original_headers p) = None);
  wf_header : exists ihl tot proto,
    ip_ihl (FRAME (pt_packet p)) (p_ip (pt_packet p)) = Ret ihl /\ 5 <= ihl <= 8 /\
    ip_tot_len (FRAME (pt_packet p)) (p_ip (pt_packet p)) = Ret tot /\
    ip_protocol (FRAME (pt_packet p)) (p_ip (pt_packet p)) = Ret proto /\
    Z.of_nat (p_l4 (pt_packet p)) = Z.of_nat (p_ip (pt_packet p)) + 4 * ihl /\
    oh_ip (pt_original_headers p) = Some (sub (FRAME (pt_packet p)) (p_ip (pt_packet p)) (Z.to_nat (4 * ihl))) /\
    pt_size p = u32 (Z.of_nat (p_ip (pt_packet p) - p_eth (pt_packet p)) + tot) /\
    pt_fragmented p = (Z.of_nat (length packet) <? pt_size p) /\
    (proto = IPPROTO_TCP /\ oh_tcp (pt_original_headers p) = Some (sub (FRAME (pt_packet p)) (p_l4 (pt_packet p)) 20) /\
       oh_udp (pt_original_headers p) = None /\ (exists doff,
         tcp_doff (FRAME (pt_packet p)) (p_l4 (pt_packet p)) = Ret doff /\ 5 <= doff /\
         Z.of_nat (p_payload (pt_packet p)) = Z.of_nat (p_l4 (pt_packet p)) + 4 * doff /\
         pt_data p = u32 (tot - 4 * ihl - 4 * doff)) \/
     proto = IPPROTO_UDP /\ oh_udp (pt_original_headers p) = Some (sub (FRAME (pt_packet p)) (p_l4 (pt_packet p)) 8) /\
       oh_tcp (pt_original_headers p) = None /\
       p_payload (pt_packet p) = (p_l4 (pt_packet p) + 8)%nat /\
       pt_data p = u32 (tot - 4 * ihl - 8));
  wf_origin : pt_origin p = match tgt with Some _ => EXT | None => INT end;
  wf_in : pt_in p = Some iface;
  wf_conn : pt_conn p = None;
}.

(** Headers are the same in the copy, four bytes further on. *)
Lemma mget_shift l packet i n : mget (l ++ packet) (length l + i) n = mget packet i n.
Proof.
  unfold mget. rewrite length_app. repeat case_decide; try lia; [|done].
  by rewrite drop_app, (drop_ge l), app_nil_l by lia; replace (length l + i - length l)%nat with i by lia.
Qed.

Lemma init_frame_inv ethertype packet f eth ip oh hlen :
  init_frame ethertype packet = Ret (f, eth, ip, oh, hlen) ->
  ip = 18%nat /\ hlen = Z.of_nat (ip - eth) /\
  (ethertype = ETHERTYPE_IP /\ eth = 4%nat /\ f = repeat 0 4 ++ packet /\
     oh = headers_zero <| oh_eth := Some (sub packet 0 14) |> \/
   ethertype = ETHERTYPE_VLAN /\ eth = 0%nat /\ f = packet /\
     oh = headers_zero <| oh_vlan := Some (sub packet 0 18) |>).
Proof.
  unfold init_frame. intros H. destruct (Z.eqb_spec ethertype ETHERTYPE_IP).
  - orun H as hdr Hh. injection H as <- <- <- <- <-. split; [done|]. split; [done|]. left. split_and!; try done.
    do 2 f_equal. change VLAN_HLEN with (length (repeat 0 VLAN_HLEN) + 0)%nat in Hh at 2. rewrite mget_shift in Hh.
    by apply mget_Ret_inv in Hh as [_ ->].
  - destruct (Z.eqb_spec ethertype ETHERTYPE_VLAN); [|done]. orun H as hdr Hh. injection H as <- <- <- <- <-.
    split; [done|]. split; [done|]. right. apply mget_Ret_inv in Hh as [_ ->]. done.
Qed.

Lemma init_tcp_inv f ip size tot ihl tcp payload hdr data :
  5 <= ihl -> init_tcp f ip size tot ihl = Ret (Some (tcp, payload, hdr, data)) ->
  Z.of_nat tcp = Z.of_nat ip + 4 * ihl /\ hdr = Some (sub f tcp 20) /\ exists doff,
    tcp_doff f tcp = Ret doff /\ 5 <= doff /\ Z.of_nat payload = Z.of_nat tcp + 4 * doff /\
    data = u32 (tot - 4 * ihl - 4 * doff).
Proof.
  unfold init_tcp. intros Hi H. do 4 (split_if; run_inv; try done). zbool.
  rewrite !Z.shiftl_mul_pow2 in * by done. change (2 ^ 2) with 4 in *.
  match goal with H : mget f _ _ = _ |- _ => apply mget_Ret_inv in H as [_ ->] end.
  split_and!; [lia|done|]. eexists. split_and!; [done|lia..|f_equal; lia].
Qed.

Lemma init_udp_inv f ip tot ihl udp payload hdr data :
  5 <= ihl -> init_udp f ip tot ihl = Ret (udp, payload, hdr, data) ->
  Z.of_nat udp = Z.of_nat ip + 4 * ihl /\ hdr = Some (sub f udp 8) /\ payload = (udp + 8)%nat /\
  data = u32 (tot - 4 * ihl - 8).
Proof.
  unfold init_udp. intros Hi H. run_inv.
  match goal with H : mget f _ _ = _ |- _ => apply mget_Ret_inv in H as [_ ->] end.
  rewrite !Z.shiftl_mul_pow2 by done. change (2 ^ 2) with 4.
  split_and!; [lia|done|done|]. unfold UDP_HDR_LEN. f_equal. lia.
Qed.

Lemma htons_invol z : 0 <= z < 2 ^ 16 -> htons (ntohs z) = z.
Proof. intros. by apply ntohs_htons. Qed.

Lemma eth_type_bound f eth ty : bytes f -> eth_type f eth = Ret ty -> 0 <= ty < 2 ^ 16.
Proof. intros Hf [? ->]%ld16_Ret_inv. by apply (rd_bound 2). Qed.

Lemma init_pkt_struct_wf iface tgt bc ethertype packet p ihl :
  eth_type packet 0 = Ret (htons ethertype) ->
  ip_ihl packet (if ethertype =? ETHERTYPE_IP then 14%nat else 18%nat) = Ret ihl -> 5 <= ihl <= 8 ->
  init_pkt_struct iface tgt bc ethertype packet = Ret (Some p) -> pkt_wf iface tgt packet p.
Proof.
  intros Hty Hpk Hi H. unfold init_pkt_struct in H.
  orun H as [[[[f eth] ip] oh] hlen] Hfr. orun H as tot Htot. orun H as dhost Hdh.
  orun H as ihl' Hihl. orun H as iphdr Hiph. orun H as proto Hproto.
  apply init_frame_inv in Hfr as (-> & -> & Hl).
  assert (ihl' = ihl) as ->.
  { destruct Hl as [(-> & -> & -> & _)|(-> & -> & -> & _)]; unfold ip_ihl, ld8 in Hihl, Hpk; simpl in Hpk.
    - change 18%nat with (length (repeat 0 4) + 14)%nat in Hihl. rewrite mget_shift in Hihl. congruence.
    - congruence. }
  apply mget_Ret_inv in Hiph as [_ ->]. rewrite Z.shiftl_mul_pow2 in H by done. change (2 ^ 2) with 4 in H.
  rewrite (Z.mul_comm ihl 4) in H.
  destruct (Z.eqb_spec proto IPPROTO_TCP) as [Ep|].
  - orun H as [[[[tcp payload] hdr] data]|] Ht; [|done]. injection H as <-.
    apply init_tcp_inv in Ht as (? & -> & doff & ? & ? & ? & ?); [|lia].
    destruct Hl as [(-> & -> & -> & ->)|(-> & -> & -> & ->)]; (constructor; [first [left; by split_and!|right; by split_and!]| |done..]);
      exists ihl, tot, proto; (split_and!; eauto; try (simpl; lia)); left; split_and!; eauto.
  - destruct (Z.eqb_spec proto IPPROTO_UDP) as [Ep|]; [|done].
    orun H as [[[udp payload] hdr] data] Ht. injection H as <-.
    apply init_udp_inv in Ht as (? & -> & ? & ?); [|lia].
    destruct Hl as [(-> & -> & -> & ->)|(-> & -> & -> & ->)]; (constructor; [first [left; by split_and!|right; by split_and!]| |done..]);
      exists ihl, tot, proto; (split_and!; eauto; try (simpl; lia)); right; split_and!; eauto.
Qed.

Lemma get_iface_Ret_inv iface i w : w_ifaces w !! iface = Some i ->
  get_iface (Some iface) w = Ret (i, w).
Proof. apply deref_ok. Qed.

Lemma init_pkt_inv iface i ethertype packet w st r w' :
  w_ifaces w !! iface = Some i -> init_pkt iface ethertype packet w = Ret ((st, r), w') ->
  (st = NOK /\ r = None /\ w_pkts w' = w_pkts w) \/
  (st = OK /\ r = Some (w_next w) /\ exists p, w_pkts w' = <[w_next w := p]> (w_pkts w) /\
     init_pkt_struct iface (if_target i) (broadcast w) ethertype packet = Ret (Some p)).
Proof.
  intros Hi H. unfold init_pkt in H.
  srun H as a w1 Ha. injection Ha as <- <-.
  srun H as i' w2 Hi'. erewrite get_iface_Ret_inv in Hi' by done. injection Hi' as <- <-.
  srun H as bc w3 Hbc. injection Hbc as <- <-.
  srun H as o w4 Ho. apply slift_Ret_inv in Ho as [Ho ->]. destruct o as [p|].
  - srun H as u w5 Hu. injection Hu as <- <-. injection H as <- <- <-.
    right. split_and!; [done..|]. by exists p.
  - injection H as <- <- <-. by left.
Qed.

Lemma process_packet_spec iface i len packet w st r w' :
  bytes packet -> w_ifaces w !! iface = Some i ->
  process_packet iface len packet w = Ret ((st, r), w') ->
  match st, r with
  | OK, Some a => MIN_PACKET_SIZE <= len /\ a = w_next w /\
      exists p, w_pkts w' = <[a := p]> (w_pkts w) /\ pkt_wf iface (if_target i) packet p
  | NOK, None => w_pkts w' = w_pkts w
  | _, _ => False
  end.
Proof.
  intros Hby Hi H. unfold process_packet in H.
  destruct (Z.ltb_spec len MIN_PACKET_SIZE); [by injection H as <- <- <-|].
  srun H as ty w1 Hty. apply slift_Ret_inv in Hty as [Hty ->].
  pose proof (htons_invol _ (eth_type_bound _ _ _ Hby Hty)) as Hb.
  srun H as ip w1 Hip.
  assert (w1 = w /\ forall o, ip = Some o ->
    o = (if ntohs ty =? ETHERTYPE_IP then 14%nat else 18%nat)) as [-> Ho].
  { destruct (Z.eqb_spec (ntohs ty) ETHERTYPE_IP) as [E|].
    - injection Hip as <- <-. split; [done|]. by intros o [= <-].
    - destruct (ntohs ty =? ETHERTYPE_VLAN); [|by injection Hip as <- <-].
      srun Hip as e w2 He. apply slift_Ret_inv in He as [_ ->].
      destruct (ntohs e =? ETHERTYPE_IP); injection Hip as <- <-; (split; [done|]); [|done].
      by intros o [= <-]. }
  destruct ip as [ip|]; [|by injection H as <- <- <-]. specialize (Ho _ eq_refl). subst ip.
  srun H as proto w1 Hp. apply slift_Ret_inv in Hp as [Hp ->].
  destruct (negb _ && negb _); [by injection H as <- <- <-|].
  srun H as ihl w1 Hihl. apply slift_Ret_inv in Hihl as [Hihl ->].
  destruct ((ihl <? 5) || (8 <? ihl)) eqn:Eihl; [by injection H as <- <- <-|].
  srun H as [st' r'] w1 Hin. apply (init_pkt_inv _ i) in Hin; [|done].
  destruct Hin as [(-> & -> & Hw)|(-> & -> & p & Hw & Hs)]; injection H as <- <- <-; [done|].
  split_and!; [done..|]. exists p. split; [done|].
  zbool. eapply init_pkt_struct_wf; [by rewrite Hb| exact Hihl|lia|exact Hs].
Qed.

(** C21: [process_packet] either refuses a frame and leaves no packet behind, or
    allocates one packet that satisfies [pkt_wf]: an exact copy of the frame
    with room for a VLAN tag, an IP header of five to eight words carrying TCP
    or UDP, header positions computed from the lengths the headers declare, the
    original headers equal to the bytes at these positions, and the origin given
    by whether the interface is some target's uplink. *)
Theorem process_packet_sound iface i len packet w st r w' :
  bytes packet -> w_ifaces w !! iface = Some i ->
  process_packet iface len packet w = Ret ((st, r), w') ->
  match st, r with
  | OK, Some a => MIN_PACKET_SIZE <= len /\ a = w_next w /\
      exists p, w_pkts w' = <[a := p]> (w_pkts w) /\ pkt_wf iface (if_target i) packet p
  | NOK, None => w_pkts w' = w_pkts w
  | _, _ => False
  end.
Proof. apply process_packet_spec. Qed.

Lemma process_packet_sound_witness :
  match process_packet 1 80 syn_frame world0 with
  | Ret ((OK, Some a), w') => exists p, w_pkts w' = <[a := p]> (w_pkts world0) /\
      pkt_wf 1 (Some 10%positive) syn_frame p
  | _ => False
  end.
Proof.
  assert (Hby : bytes syn_frame) by solve_bytes.
  assert (Hi : w_ifaces world0 !! 1%positive = Some iface_up) by reflexivity.
  pose proof (fun st r w' => process_packet_sound 1 iface_up 80 syn_frame world0 st r w' Hby Hi) as H.
  destruct (process_packet 1 80 syn_frame world0) as [[[st r] w']|] eqn:E; [|vm_compute in E; discriminate].
  specialize (H st r w' eq_refl).
  destruct st, r; try done.
  destruct H as (_ & _ & H). exact H.
Defined.

(** ** Which frames are safe to process *)

Lemma init_frame_ok ethertype packet :
  ethertype = ETHERTYPE_IP \/ ethertype = ETHERTYPE_VLAN -> (18 <= length packet)%nat ->
  exists f eth oh, init_frame ethertype packet = Ret (f, eth, 18%nat, oh, Z.of_nat (18 - eth)) /\
    (length packet <= length f)%nat /\ (eth <= 4)%nat.
Proof.
  intros He Hl. unfold init_frame. destruct He as [-> | ->].
  - rewrite Z.eqb_refl. assert (length (repeat 0 VLAN_HLEN ++ packet) = (4 + length packet)%nat) as Hf
      by (by rewrite length_app).
    rewrite mget_ok by (unfold VLAN_HLEN, ETHER_HDR_LEN in *; lia). cbn [obind].
    exists (repeat 0 VLAN_HLEN ++ packet), 4%nat. eexists. split; [reflexivity|]. lia.
  - change (ETHERTYPE_VLAN =? ETHERTYPE_IP) with false. rewrite Z.eqb_refl.
    rewrite mget_ok by (unfold VLAN_ETH_HLEN; lia). cbn [obind].
    exists packet, 0%nat. eexists. split; [reflexivity|]. lia.
Qed.

Lemma init_tcp_ok f ip size tot ihl :
  5 <= ihl <= 8 -> (ip + 52 <= length f)%nat -> exists r, init_tcp f ip size tot ihl = Ret r.
Proof.
  intros Hi Hl. unfold init_tcp, tcp_doff, l4_source, l4_dest, TCP_HDR_LEN.
  rewrite Z.shiftl_mul_pow2 by done. change (2 ^ 2) with 4.
  split_if; [eauto|]. rewrite ld8_ok by lia. cbn [obind]. split_if; [eauto|].
  rewrite ld16_ok by lia. cbn [obind]. split_if; [eauto|].
  rewrite ld16_ok by lia. cbn [obind]. split_if; [eauto|].
  rewrite mget_ok by lia. cbn [obind]. eauto.
Qed.

Lemma init_pkt_struct_ok iface tgt bc ethertype packet ihl :
  ethertype = ETHERTYPE_IP \/ ethertype = ETHERTYPE_VLAN -> (70 <= length packet)%nat ->
  ip_ihl packet (if ethertype =? ETHERTYPE_IP then 14%nat else 18%nat) = Ret ihl -> 5 <= ihl <= 8 ->
  exists r, init_pkt_struct iface tgt bc ethertype packet = Ret r.
Proof.
  intros He Hl Hpk Hi. unfold init_pkt_struct.
  destruct (init_frame_ok ethertype packet He ltac:(lia)) as (f & eth & oh & Hfr & Hlf & Heth).
  rewrite Hfr. cbn [obind]. pose proof Hfr as (_ & _ & Hlay)%init_frame_inv.
  assert (ip_ihl f 18 = Ret ihl) as Hihl.
  { rewrite <- Hpk. destruct Hlay as [(-> & -> & -> & _)|(-> & -> & -> & _)]; [|done].
    unfold ip_ihl, ld8. change 18%nat with (length (repeat 0 4) + 14)%nat. by rewrite mget_shift. }
  unfold ip_tot_len, ip_protocol, ETH_ALEN. rewrite ld16_ok by lia. cbn [obind].
  rewrite mget_ok by lia. cbn [obind]. rewrite Hihl. cbn [obind].
  rewrite mget_ok by (rewrite Z.shiftl_mul_pow2 by done; change (2 ^ 2) with 4; lia). cbn [obind].
  rewrite ld8_ok by lia. cbn [obind]. split_if.
  - match goal with |- context [init_tcp ?a ?b ?c ?d ?e] =>
      destruct (init_tcp_ok a b c d e) as [r ->] end; [done|lia|]. cbn [obind].
    destruct r as [[[[? ?] ?] ?]|]; eauto.
  - split_if; [|eauto]. unfold init_udp.
    rewrite mget_ok by (rewrite Z.shiftl_mul_pow2 by done; change (2 ^ 2) with 4; unfold UDP_HDR_LEN; lia).
    cbn [obind]. eauto.
Qed.

(** C20: memory safety of the reception path.  On any captured block of at
    least 70 bytes (a VLAN header, an IP header of eight words and a TCP
    header), whatever its contents, [process_packet] returns: none of its
    header accesses leaves the block. *)
Theorem process_packet_safe iface i len packet w :
  (70 <= length packet)%nat -> w_ifaces w !! iface = Some i ->
  exists st r w', process_packet iface len packet w = Ret ((st, r), w').
Proof.
  intros Hl Hi. unfold process_packet. destruct (len <? _); [by do 3 eexists|].
  unfold eth_type. erewrite sbind_eq; [|unfold slift; rewrite ld16_ok by lia; done]. cbv beta zeta.
  set (ty := ntohs _). clearbody ty.
  assert (Hfin : forall ip, ip = (if ty =? ETHERTYPE_IP then 14%nat else 18%nat) ->
    (ty = ETHERTYPE_IP \/ ty = ETHERTYPE_VLAN) -> exists st r w',
    (do protocol <- slift (ip_protocol packet ip);
      if negb (protocol =? IPPROTO_TCP) && negb (protocol =? IPPROTO_UDP) then sret (NOK, None)
      else
        do ihl <- slift (ip_ihl packet ip);
        if (ihl <? 5) || (8 <? ihl) then sret (NOK, None)
        else
          do '(st, pkt) <- init_pkt iface ty packet;
          match st with NOK => sret (NOK, None) | OK => sret (OK, pkt) end) w = Ret ((st, r), w')).
  { intros ip Hip Hty. assert (ip <= 18)%nat by (rewrite Hip; split_if; lia). unfold ip_protocol.
    erewrite sbind_eq; [|unfold slift; rewrite ld8_ok by lia; done].
    split_if; [by do 3 eexists|].
    assert (exists ihl, ip_ihl packet ip = Ret ihl) as [ihl Hihl].
    { unfold ip_ihl. rewrite ld8_ok by lia. by eexists. }
    erewrite sbind_eq; [|unfold slift; rewrite Hihl; done].
    destruct ((ihl <? 5) || (8 <? ihl)) eqn:E; [by do 3 eexists|]. zbool.
    destruct (init_pkt_struct_ok iface (if_target i) (broadcast w) ty packet ihl) as [r Hr];
      [done|done|by rewrite <- Hip|lia|].
    unfold init_pkt, malloc, sgets, sbind. erewrite get_iface_Ret_inv by done.
    unfold slift. cbn -[init_pkt_struct]. rewrite Hr. destruct r; by do 3 eexists. }
  destruct (Z.eqb_spec ty ETHERTYPE_IP) as [Ety|Ety].
  - unfold sbind at 1. cbn [sret]. apply (Hfin 14%nat); [done|by left].
  - destruct (Z.eqb_spec ty ETHERTYPE_VLAN) as [Ev|Ev]; [|by do 3 eexists].
    unfold sbind at 1 2, slift at 1. rewrite ld16_ok by lia. cbn [sret].
    destruct (_ =? ETHERTYPE_IP); [|by do 3 eexists]. apply (Hfin 18%nat); [done|by right].
Qed.

Lemma process_packet_safe_witness :
  exists st r w', process_packet 1 60 (repeat 8 70) world0 = Ret ((st, r), w').
Proof. apply (process_packet_safe 1 iface_up 60 (repeat 8 70) world0); [simpl; lia|reflexivity]. Defined.

(** * Queues and buffers *)

(** Flow affinity.  The queue index is in range, it is the last byte of the
    external address modulo the number of threads, and a packet that leaves
    through the uplink towards an address gets the queue of the packets that
    came from it: both directions of a connection are processed in order by one
    decision thread. *)
Lemma queue_affinity f ip n b :
  bytes f -> f !! (ip + 15)%nat = Some b -> 0 < n ->
  exists q, IP2QUEUEID true f ip n = Ret q /\ 0 <= q < n /\ q = b mod n /\
    forall f' ip', ip_daddr f' ip' = ip_saddr f ip -> IP2QUEUEID false f' ip' n = Ret q.
Proof.
  intros Hf Hb Hn. pose proof (lookup_lt_Some _ _ _ Hb) as Hl.
  unfold IP2QUEUEID, ip_saddr. rewrite ld32_ok by lia. cbn [obind].
  set (a := rd 4 f (ip + 12)).
  assert (Z.shiftr (Z.land a 0xFF000000) 24 = b) as Ha.
  { assert (a = rd 3 f (ip + 12) + 2 ^ 24 * b) as ->.
    { unfold a, rd. change (sub f (ip + 12) 4) with (sub f (ip + 12) (3 + 1)). rewrite sub_split, le_decode_app by lia.
      rewrite length_sub by lia. f_equal. unfold sub.
      replace (ip + 12 + 3)%nat with (ip + 15)%nat by lia.
      rewrite (drop_S _ _ _ Hb). cbn [take le_decode]. rewrite take_0. cbn [le_decode].
      change (256 ^ Z.of_nat 3) with (2 ^ 24). lia. }
    pose proof (rd_bound 3 f (ip + 12) Hf ltac:(lia)) as Hr. change (256 ^ Z.of_nat 3) with (2 ^ 24) in Hr.
    assert (is_byte b) as Hbb by (eapply Forall_lookup_1; eauto). unfold is_byte in Hbb.
    rewrite Z.shiftr_land. change (Z.shiftr 0xFF000000 24) with (Z.ones 8). rewrite Z.land_ones by done.
    rewrite Z.shiftr_div_pow2 by done. rewrite Z.add_comm, Z.mul_comm, Z.div_add_l by lia.
    rewrite Z.div_small by lia. rewrite Z.add_0_r. apply Z.mod_small. lia. }
  rewrite Ha. exists (b mod n). assert (Hn0 : (n =? 0) = false) by (apply Z.eqb_neq; lia). rewrite Hn0.
  split; [done|]. split; [by apply Z.mod_pos_bound|]. split; [done|].
  intros f' ip' He. rewrite He. cbn [obind]. fold a. by rewrite Ha.
Qed.

Lemma queue_affinity_witness :
  exists q, IP2QUEUEID true syn_frame 14 4 = Ret q /\ 0 <= q < 4 /\ q = 7 mod 4 /\
    forall f' ip', ip_daddr f' ip' = ip_saddr syn_frame 14 -> IP2QUEUEID false f' ip' 4 = Ret q.
Proof. apply (queue_affinity syn_frame 14 4 7); [solve_bytes|reflexivity|lia]. Defined.
