(* ===== verification/Netcode.v ===== *)
(** Rewriting and sending of packets ([netcode.c]): address translation with
    VLAN headers, the four proxies, the two forwarders of redirected
    connections, the resets and the replay of a recorded conversation. *)
From S2P Require Import Prelude Mem Types World Samples Keys Checksum TcpOptions Packet.

(** * Editing a packet *)

Definition set_frame (p : pkt_struct) (f : list Z) : pkt_struct :=
  p <| pt_packet ::= fun k => k <| FRAME := f |> |>.
Definition set_eth (p : pkt_struct) (off : nat) : pkt_struct :=
  p <| pt_packet ::= fun k => k <| p_eth := off |> |>.

Definition with_frame (p : pkt_struct) (g : list Z -> outcome (list Z)) : outcome pkt_struct :=
  let! f := g (FRAME (pt_packet p)) in
  Ret (set_frame p f).

(** [memcpy] of a field of the packet. *)
Definition put_at (p : pkt_struct) (off : nat) (bs : list Z) : outcome pkt_struct :=
  with_frame p (fun f => mput f off bs).

Definition set_shost (p : pkt_struct) (mac : list Z) := put_at p (p_eth (pt_packet p) + 6) mac.
Definition set_dhost (p : pkt_struct) (mac : list Z) := put_at p (p_eth (pt_packet p)) mac.
Definition set_saddr (p : pkt_struct) (ip : Z) := put_at p (p_ip (pt_packet p) + 12) (le_encode 4 ip).
Definition set_daddr (p : pkt_struct) (ip : Z) := put_at p (p_ip (pt_packet p) + 16) (le_encode 4 ip).

(** The packet is tagged: [ntohs(eth->ether_type) == ETHERTYPE_VLAN]. *)
Definition is_tagged (p : pkt_struct) : outcome bool :=
  let! ty := eth_type (FRAME (pt_packet p)) (p_eth (pt_packet p)) in
  Ret (ntohs ty =? ETHERTYPE_VLAN).

(** The three fields of a VLAN header at the start of [FRAME]. *)
Definition write_vlan_header (p : pkt_struct) (tci : Z) : outcome pkt_struct :=
  let p := set_eth p 0 in
  with_frame p (fun f =>
    let! f := st16 f 12 (htons ETHERTYPE_VLAN) in
    let! f := st16 f 16 (htons ETHERTYPE_IP) in
    st16 f 14 tci).

(** Ethernet addresses moved four bytes down, VLAN header written. *)
Definition add_vlan_header (p : pkt_struct) (tci : Z) : outcome pkt_struct :=
  let! p := with_frame p (fun f => mmove f 0 (p_eth (pt_packet p)) ETHER_HDR_LEN) in
  let! p := write_vlan_header p tci in
  Ret (p <| pt_size := u32 (pt_size p + Z.of_nat VLAN_HLEN) |>).

(** Ethernet addresses moved four bytes up over the VLAN header. *)
Definition strip_vlan_header (p : pkt_struct) : outcome pkt_struct :=
  let! p := with_frame p (fun f => mmove f VLAN_HLEN 0 ETHER_HDR_LEN) in
  let p := set_eth p VLAN_HLEN in
  let! p := with_frame p (fun f => st16 f (VLAN_HLEN + 12) (htons ETHERTYPE_IP)) in
  Ret (p <| pt_size := u32 (pt_size p - Z.of_nat VLAN_HLEN) |>).

(** [vlan->h_vlan_TCI = tci] on a tagged packet. *)
Definition set_tci (p : pkt_struct) (tci : Z) : outcome pkt_struct :=
  with_frame p (fun f => st16 f (p_eth (pt_packet p) + 14) tci).

(** * [nat] (here [do_nat]) *)

Definition nat_checksums (p : pkt_struct) : outcome pkt_struct :=
  let ip := p_ip (pt_packet p) in
  let! protocol := ip_protocol (FRAME (pt_packet p)) ip in
  let! p := with_frame p (fun f =>
    if protocol =? IPPROTO_TCP then set_tcp_checksum f ip else set_udp_checksum f ip) in
  with_frame p (fun f => set_ip_checksum f ip).

(** EXT: destination translation, towards a downlink that is a VLAN or not. *)
Definition nat_from_ext (p : pkt_struct) : outcome pkt_struct :=
  let! mac := nonnull (nat_dst_mac (pt_nat p)) in
  let! p := set_dhost p mac in
  let! ip := nonnull (nat_dst_ip (pt_nat p)) in
  let! p := set_daddr p ip in
  match nat_dst_vlan (pt_nat p) with
  | Some tci =>
    if vlan_vid tci =? 0 then
      let! tagged := is_tagged p in if tagged : bool then strip_vlan_header p else Ret p
    else add_vlan_header p tci
  | None => let! tagged := is_tagged p in if tagged : bool then strip_vlan_header p else Ret p
  end.

(** The VLAN part of the translations to INTRA and HIH. *)
Definition nat_vlan (p : pkt_struct) : outcome pkt_struct :=
  let! tagged := is_tagged p in
  let! tci := nonnull (nat_dst_vlan (pt_nat p)) in
  if tagged : bool then if vlan_vid tci =? 0 then Ret p else set_tci p tci
  else if vlan_vid tci =? 0 then Ret p else add_vlan_header p tci.

(** The rewritten packet, and whether the destination was valid: on an invalid
    one the function returns before the checksums. *)
Definition nat_addresses (p : pkt_struct) : outcome (pkt_struct * bool) :=
  match pt_origin p with
  | EXT => let! p := nat_from_ext p in Ret (p, true)
  | _ =>
    let! mac := nonnull (nat_dst_mac (pt_nat p)) in
    let! p := set_dhost p mac in
    match pt_destination p with
    | INTRA =>
      let! ip := nonnull (nat_dst_ip (pt_nat p)) in
      let! p := set_daddr p ip in
      let! p := nat_vlan p in Ret (p, true)
    | EXT =>
      let! ip := nonnull (nat_src_ip (pt_nat p)) in
      let! p := set_saddr p ip in
      let! tagged := is_tagged p in
      let! p := (if tagged : bool then strip_vlan_header p else Ret p) in Ret (p, true)
    | HIH =>
      let! ip := nonnull (nat_src_ip (pt_nat p)) in
      let! p := set_saddr p ip in
      let! p := nat_vlan p in Ret (p, true)
    | _ => Ret (p, false)
    end
  end.

Definition nat_pkt (p : pkt_struct) (out_mac : list Z) : outcome pkt_struct :=
  let! p := set_shost p out_mac in
  let! '(p, valid) := nat_addresses p in
  if valid : bool then nat_checksums p else Ret p.

Definition do_nat (pkt : ptr) : M unit :=
  do p <- get_pkt pkt;
  do out <- get_iface (pt_out p);
  do p <- slift (nat_pkt p (if_mac out));
  put_pkt pkt p.

(** * Sending *)

(** [pkt->out && pcap_inject(pkt->out->pcap, pkt->packet.eth, pkt->size) != -1]. *)
Definition send_pkt (pkt : ptr) : M status_t :=
  do p <- get_pkt pkt;
  match pt_out p with
  | None => sret NOK
  | Some out =>
    do _i <- get_iface (Some out);
    do bs <- slift (mget (FRAME (pt_packet p)) (p_eth (pt_packet p)) (Z.to_nat (pt_size p)));
    do ok <- pcap_inject out bs;
    sret (if ok : bool then OK else NOK)
  end.

(** The connection of a packet. *)
Definition pkt_conn (p : pkt_struct) : M (ptr * conn_struct) :=
  do a <- slift (nonnull (pt_conn p));
  do c <- get_conn a;
  sret (a, c).

Definition set_nat_handler (p : pkt_struct) (h : handler) (dst : role_t) : pkt_struct :=
  p <| pt_out := hd_iface h |>
    <| pt_nat := NatStruct (nat_src_ip (pt_nat p)) (hd_mac h) (hd_ip h) (Some (hd_vlan h)) |>
    <| pt_destination := dst |>.

Definition proxy_ext2int (pkt : ptr) : M status_t :=
  do p <- get_pkt pkt;
  do '(_, c) <- pkt_conn p;
  match cn_initiator c with
  | LIH | EXT =>
    do t <- get_target (cn_target c);
    do h <- get_handler (tg_front_handler t);
    do_ put_pkt pkt (set_nat_handler p h LIH);
    do_ do_nat pkt;
    send_pkt pkt
  | HIH =>
    do h <- get_handler (hih_back_handler (cn_hih c));
    do_ put_pkt pkt (set_nat_handler p h HIH);
    do_ do_nat pkt;
    send_pkt pkt
  | _ => sret NOK
  end.

(** The address a connection impersonates: the [ip] of its pin. *)
Definition pin_addr (pin : ptr) : M Z := do p <- get_pin pin; sret (pn_ip p).

Definition proxy_int2ext (pkt : ptr) : M status_t :=
  do p <- get_pkt pkt;
  do '(_, c) <- pkt_conn p;
  do t <- get_target (cn_target c);
  let p := p <| pt_out := tg_default_route t |> <| pt_destination := EXT |> in
  do n <- (if decide (cn_initiator c = EXT) then
             sret (NatStruct (Some (cn_first_pkt_dst_ip c)) (Some (cn_first_pkt_src_mac c))
                     (Some (cn_first_pkt_src_ip c)) (nat_dst_vlan (pt_nat p)))
           else
             do src <- (match cn_pin_ip c with
                        | Some pin => do a <- pin_addr pin; sret (Some a)
                        | None => do i <- get_iface (tg_default_route t); sret (if_ip i)
                        end);
             sret (NatStruct src (tg_default_route_mac t) (nat_dst_ip (pt_nat p)) (nat_dst_vlan (pt_nat p))));
  do_ put_pkt pkt (p <| pt_nat := n |>);
  do_ do_nat pkt;
  send_pkt pkt.

Definition proxy_hih2intra (pkt : ptr) : M status_t :=
  do p <- get_pkt pkt;
  do '(_, c) <- pkt_conn p;
  match cn_intra_handler c with
  | None => sret NOK
  | Some ih =>
    do h <- get_handler (Some ih);
    do_ put_pkt pkt (set_nat_handler p h INTRA);
    do_ do_nat pkt;
    send_pkt pkt
  end.

Definition proxy_intra2hih (pkt : ptr) : M status_t :=
  do p <- get_pkt pkt;
  do '(_, c) <- pkt_conn p;
  match hih_back_handler (cn_hih c) with
  | None => sret NOK
  | Some bh =>
    do h <- get_handler (Some bh);
    do src <- (match cn_pin_ip c with
               | Some pin => pin_addr pin
               | None => sret (cn_first_pkt_dst_ip c)
               end);
    do_ put_pkt pkt (p <| pt_out := hd_iface h |>
      <| pt_nat := NatStruct (Some src) (Some (cn_first_pkt_src_mac c)) (nat_dst_ip (pt_nat p)) (Some (hd_vlan h)) |>
      <| pt_destination := HIH |>);
    do_ do_nat pkt;
    send_pkt pkt
  end.

(** * Forwarding of redirected connections *)

(** The Ethernet and IP part of [forward_ext2hih]. *)
Definition forward_ext2hih_headers (p : pkt_struct) (h : handler) (out_mac : list Z) : outcome pkt_struct :=
  let! p := set_shost p out_mac in
  let! mac := nonnull (hd_mac h) in
  let! p := set_dhost p mac in
  let! ip := nonnull (hd_ip h) in
  let! p := set_daddr p ip in
  if hd_vlan h =? 0 then Ret p
  else
    let! ty := eth_type (FRAME (pt_packet p)) (p_eth (pt_packet p)) in
    let! p := (if ty =? htons ETHERTYPE_VLAN then Ret p
               else
                 let! p := with_frame p (fun f => mmove f 0 (p_eth (pt_packet p)) ETHER_HDR_LEN) in
                 Ret (p <| pt_size := u32 (pt_size p + Z.of_nat VLAN_HLEN) |>)) in
    write_vlan_header p (hd_vlan h).

(** The transport part: destination port, acknowledgement number translated
    back to the numbering of the HIH, checksums. *)
Definition forward_ext2hih_l4 (p : pkt_struct) (hih : hih_struct) : outcome pkt_struct :=
  let ip := p_ip (pt_packet p) in
  let l4 := p_l4 (pt_packet p) in
  let! protocol := ip_protocol (FRAME (pt_packet p)) ip in
  let! p :=
    (if protocol =? IPPROTO_TCP then
       with_frame p (fun f =>
         let! f := st16 f (l4 + 2) (hih_port hih) in
         let! ack := tcp_ack f l4 in
         let! f := (if ack : bool then
                      let! a := ld32 f (l4 + 8) in
                      st32 f (l4 + 8) (htonl (u32 (ntohl a + u32 (Z.lnot (hih_delta hih)) + 1)))
                    else Ret f) in
         set_tcp_checksum f ip)
     else if protocol =? IPPROTO_UDP then
       with_frame p (fun f =>
         let! f := st16 f (l4 + 2) (hih_port hih) in
         set_udp_checksum f ip)
     else Ret p) in
  with_frame p (fun f => set_ip_checksum f ip).

Definition forward_ext2hih (pkt : ptr) : M status_t :=
  do p <- get_pkt pkt;
  do '(_, c) <- pkt_conn p;
  match hih_back_handler (cn_hih c) with
  | None => sret NOK
  | Some bh =>
    do h <- get_handler (Some bh);
    let p := p <| pt_out := hd_iface h |> <| pt_destination := HIH |> in
    do out <- get_iface (pt_out p);
    do p <- slift (forward_ext2hih_headers p h (if_mac out));
    do p <- slift (forward_ext2hih_l4 p (cn_hih c));
    do_ put_pkt pkt p;
    send_pkt pkt
  end.

(** The Ethernet and IP part of [forward_hih2ext]: the packet takes the
    addresses the attacker first talked to. *)
Definition forward_hih2ext_headers (p : pkt_struct) (c : conn_struct) : outcome pkt_struct :=
  let! p := set_shost p (cn_first_pkt_dst_mac c) in
  let! p := set_dhost p (cn_first_pkt_src_mac c) in
  let! p := set_saddr p (cn_first_pkt_dst_ip c) in
  let! tagged := is_tagged p in
  if tagged : bool then strip_vlan_header p else Ret p.

(** Source port, sequence number in the numbering of the LIH, timestamps. *)
Definition forward_hih2ext_l4 (p : pkt_struct) (c : conn_struct) : outcome pkt_struct :=
  let ip := p_ip (pt_packet p) in
  let l4 := p_l4 (pt_packet p) in
  let! protocol := ip_protocol (FRAME (pt_packet p)) ip in
  let! p :=
    (if protocol =? IPPROTO_TCP then
       with_frame p (fun f =>
         let! f := st16 f l4 (hih_port (cn_hih c)) in
         let! s := ld32 f (l4 + 4) in
         let! f := st32 f (l4 + 4) (htonl (u32 (ntohl s + hih_delta (cn_hih c)))) in
         let! '(_, f) := fix_tcp_timestamps f l4 c in
         set_tcp_checksum f ip)
     else if protocol =? IPPROTO_UDP then
       with_frame p (fun f =>
         let! f := st16 f l4 (hih_port (cn_hih c)) in
         set_udp_checksum f ip)
     else Ret p) in
  with_frame p (fun f => set_ip_checksum f ip).

Definition forward_hih2ext (pkt : ptr) : M status_t :=
  do p <- get_pkt pkt;
  do '(_, c) <- pkt_conn p;
  do t <- get_target (cn_target c);
  match tg_default_route t with
  | None => sret NOK
  | Some out =>
    let p := p <| pt_out := Some out |> <| pt_destination := EXT |> in
    do p <- slift (forward_hih2ext_headers p c);
    do p <- slift (forward_hih2ext_l4 p c);
    do_ put_pkt pkt p;
    send_pkt pkt
  end.

(** * Resets *)

(** [sizeof(struct tcp_packet)]: two headers and the pointer that stands for
    the payload. *)
Definition SIZEOF_TCP_PACKET : nat := 48.

Definition flag_bit (b : bool) : Z := if b then 1 else 0.

(** The Ethernet (or VLAN) header of the reset, the offset of its IP header and
    the size sent. *)
Definition reset_link (oh : headers) : outcome (list Z * nat * Z) :=
  let frame := repeat 0 (VLAN_ETH_HLEN + SIZEOF_TCP_PACKET) in
  match oh_vlan oh with
  | Some vlan =>
    let! f := mput frame 0 vlan in
    let! d := mget vlan 0 ETH_ALEN in
    let! s := mget vlan 6 ETH_ALEN in
    let! f := mput f 6 d in
    let! f := mput f 0 s in
    Ret (f, VLAN_ETH_HLEN, Z.of_nat (VLAN_ETH_HLEN + SIZEOF_TCP_PACKET))
  | None =>
    let! eth := nonnull (oh_eth oh) in
    let! d := mget eth 0 ETH_ALEN in
    let! s := mget eth 6 ETH_ALEN in
    let! f := mput frame 6 d in
    let! f := mput f 0 s in
    let! f := st16 f 12 (htons ETHERTYPE_IP) in
    Ret (f, ETHER_HDR_LEN, Z.of_nat (ETHER_HDR_LEN + SIZEOF_TCP_PACKET))
  end.

Definition reset_ip (f : list Z) (rst : nat) (oip : list Z) : outcome (list Z) :=
  let! f := st8 f rst 0x45 in
  let! f := st16 f (rst + 2) (ntohs 40) in
  let! f := st16 f (rst + 6) (ntohs 0x4000) in
  let! f := st8 f (rst + 8) 0x40 in
  let! f := st8 f (rst + 9) IPPROTO_TCP in
  let! d := mget oip 16 4 in
  let! f := mput f (rst + 12) d in
  let! s := mget oip 12 4 in
  mput f (rst + 16) s.

(** The number the reset acknowledges: everything the packet carried. *)
Definition reset_ack_seq (oip otcp : list Z) : outcome Z :=
  let! seq := ld32 otcp 4 in
  let! syn := tcp_syn otcp 0 in
  let! fin := tcp_fin otcp 0 in
  let! tot := ip_tot_len oip 0 in
  let! ihl := ip_ihl oip 0 in
  let! doff := tcp_doff otcp 0 in
  Ret (u32 (ntohl seq + flag_bit syn + flag_bit fin + tot - Z.shiftl ihl 2 - Z.shiftl doff 2)).

Definition reset_tcp (f : list Z) (tcp : nat) (oip otcp : list Z) : outcome (list Z) :=
  let! dest := mget otcp 2 2 in
  let! f := mput f tcp dest in
  let! source := mget otcp 0 2 in
  let! f := mput f (tcp + 2) source in
  let! ack := tcp_ack otcp 0 in
  let! f := (if ack : bool then let! a := mget otcp 8 4 in mput f (tcp + 4) a else Ret f) in
  let! a := reset_ack_seq oip otcp in
  let! f := st32 f (tcp + 8) (htonl a) in
  let! f := st8 f (tcp + 12) 0x50 in
  st8 f (tcp + 13) 0x14.

(** The frame [reply_reset] sends. *)
Definition reset_frame (oh : headers) : outcome (list Z) :=
  let! '(f, rst, size) := reset_link oh in
  let! oip := nonnull (oh_ip oh) in
  let! f := reset_ip f rst oip in
  let! otcp := nonnull (oh_tcp oh) in
  let! f := reset_tcp f (rst + IP_HDR_SIZE) oip otcp in
  let! f := set_tcp_checksum f rst in
  let! f := set_ip_checksum f rst in
  mget f 0 (Z.to_nat size).

Definition reply_reset (pkt : option ptr) (iface : option ptr) : M unit :=
  match pkt, iface with
  | Some pkt, Some iface =>
    do p <- get_pkt pkt;
    do f <- slift (reset_frame (pt_original_headers p));
    do _i <- get_iface (Some iface);
    do _ok <- pcap_inject iface f;
    sret tt
  | _, _ => sret tt
  end.

(** The walk over [BUFFER]: [tmp] is left at the last element, and a packet of
    the LIH must have been seen. *)
Fixpoint reset_lih_loop (l : list ptr) (tmp p : option ptr) : M (option ptr * option ptr) :=
  match l with
  | [] => sret (tmp, p)
  | a :: l =>
    do k <- get_pkt a;
    reset_lih_loop l (Some a) (if decide (pt_origin k = LIH) then Some a else p)
  end.

Definition reset_lih (conn : ptr) : M unit :=
  do c <- get_conn conn;
  if cn_protocol c =? IPPROTO_TCP then
    do '(tmp, p) <- reset_lih_loop (cn_BUFFER c) None None;
    match p with
    | None => sret tt
    | Some _ =>
      do t <- slift (nonnull tmp);
      do k <- get_pkt t;
      do '(_, c') <- pkt_conn k;
      do tg <- get_target (cn_target c');
      do h <- get_handler (tg_front_handler tg);
      reply_reset tmp (hd_iface h)
    end
  else sret tt.

(** * Replay *)

Definition define_expected_data (pkt : ptr) : M unit :=
  do p <- get_pkt pkt;
  do '(a, c) <- pkt_conn p;
  let f := FRAME (pt_packet p) in
  let l4 := p_l4 (pt_packet p) in
  do proto <- slift (ip_protocol f (p_ip (pt_packet p)));
  let e := (cn_expected_data c) <| ed_ip_proto := proto |>
             <| ed_payload := Some (pkt, p_payload (pt_packet p)) |> in
  do e <- (if proto =? IPPROTO_TCP then
             do seq <- slift (ld32 f (l4 + 4));
             do ack <- slift (ld32 f (l4 + 8));
             do r <- slift (get_tcp_timestamps f l4 true false);
             let ts := match r with Some (Some ts, _) => ts | _ => -1 end in
             sret (ExpectedData proto (u32 (ntohl seq + u32 (Z.lnot (hih_delta (cn_hih c))) + 1))
                     (ntohl ack) ts (ed_payload e))
           else sret e);
  put_conn a (c <| cn_expected_data := e |>).

(** [strncmp(s1, s2, n) == 0] on two blocks of memory: the comparison stops at
    the first difference, at a zero, or after [n] bytes. *)
Fixpoint strncmp_eq (n : Z) (l1 l2 : list Z) {struct l1} : outcome bool :=
  if n <=? 0 then Ret true
  else
    match l1, l2 with
    | b1 :: l1, b2 :: l2 =>
      if b1 =? b2 then if b1 =? 0 then Ret true else strncmp_eq (n - 1) l1 l2 else Ret false
    | _, _ => Fault OutOfBounds
    end.

(** The bits of [replay_problem] the timestamps raise, and the skew. *)
Definition test_timestamps (expected_ts ts tcp_ts_diff : Z) : Z * Z :=
  if (expected_ts =? -1) && negb (ts =? -1) then (REPLAY_UNEXPECTED_TCP_TS, tcp_ts_diff)
  else if (-1 <? expected_ts) && (-1 <? ts) && negb (ts =? expected_ts) then
    (REPLAY_TCP_TS_OUTOFSYNC, expected_ts - ts)
  else if (-1 <? expected_ts) && (ts =? -1) then (REPLAY_EXPECTED_TCP_TS, tcp_ts_diff)
  else (0, tcp_ts_diff).

Definition add_problem (c : conn_struct) (bit : Z) : conn_struct :=
  c <| cn_replay_problem := Z.lor (cn_replay_problem c) bit |>.

(** The header tests: [None] goes on to the payload, [Some bit] ends with
    [NOK]. *)
Definition test_headers (c : conn_struct) (p : pkt_struct) : outcome (option Z * conn_struct) :=
  let f := FRAME (pt_packet p) in
  let l4 := p_l4 (pt_packet p) in
  let e := cn_expected_data c in
  let! proto := ip_protocol f (p_ip (pt_packet p)) in
  if negb (proto =? ed_ip_proto e) then Ret (Some REPLAY_UNEXPECTED_PROTOCOL, c)
  else if proto =? IPPROTO_TCP then
    let! syn := tcp_syn f l4 in
    let! bad_seq := (if syn : bool then Ret false
                     else let! seq := ld32 f (l4 + 4) in Ret (negb (ntohl seq =? ed_tcp_seq e))) in
    if bad_seq : bool then Ret (Some REPLAY_UNEXPECTED_TCP_SEQ, c)
    else
      let! ack := ld32 f (l4 + 8) in
      if negb (ntohl ack =? ed_tcp_ack_seq e) then Ret (Some REPLAY_UNEXPECTED_TCP_ACK, c)
      else
        let! r := get_tcp_timestamps f l4 true false in
        let ts := match r with Some (Some ts, _) => ts | _ => -1 end in
        let '(bit, diff) := test_timestamps (ed_tcp_ts e) ts (cn_tcp_ts_diff c) in
        Ret (None, add_problem (c <| cn_tcp_ts_diff := diff |>) bit)
  else Ret (None, c).

Definition test_expected (conn pkt : ptr) : M status_t :=
  do c <- get_conn conn;
  do p <- get_pkt pkt;
  do '(bad, c') <- slift (test_headers c p);
  match bad with
  | Some bit => do_ put_conn conn (add_problem c' bit); sret NOK
  | None =>
    do '(q, off) <- slift (nonnull (ed_payload (cn_expected_data c)));
    do k <- get_pkt q;
    do same <- slift (strncmp_eq (pt_data p)
                        (drop (p_payload (pt_packet p)) (FRAME (pt_packet p)))
                        (drop off (FRAME (pt_packet k))));
    do_ put_conn conn (if same : bool then c' else add_problem c' REPLAY_UNEXPECTED_PAYLOAD);
    sret OK
  end.

(** [g_slist_nth_data(conn->BUFFER, conn->replay_id)]. *)
Definition buffer_current (c : conn_struct) : option ptr :=
  cn_BUFFER c !! Z.to_nat (cn_replay_id c).

(** The loop of [replay]: it forwards recorded packets of the attacker until it
    meets one of the LIH, or until the list ends; [de] remembers that a packet
    received after the decision was met.  [true] means the list ended (the
    connection is then in state [FORWARD]).  One iteration per recorded packet:
    the length of the list is enough fuel. *)
Fixpoint replay_loop (fuel : nat) (conn current : ptr) (de : Z) : M (bool * ptr) :=
  match fuel with
  | O => sfault Hangs
  | S fuel =>
    do k <- get_pkt current;
    if bool_decide (pt_origin k = EXT) || (de =? 1) then
      do_ (if decide (pt_origin k = EXT) then do_ forward_ext2hih current; sret tt else sret tt);
      do c <- get_conn conn;
      if Z.of_nat (length (cn_BUFFER c)) <=? cn_replay_id c + 1 then
        do_ switch_state conn FORWARD;
        sret (true, current)
      else
        let c := c <| cn_replay_id := u32 (cn_replay_id c + 1) |> in
        do_ put_conn conn c;
        do next <- slift (nonnull (buffer_current c));
        do k' <- get_pkt next;
        replay_loop fuel conn next (if de =? 0 then pt_DE k' else de)
    else sret (false, current)
  end.

Definition incr_replay_id (conn : ptr) : M unit :=
  upd_conn conn (fun c => c <| cn_replay_id ::= fun i => u32 (i + 1) |>).

Definition replay (conn pkt : ptr) : M status_t :=
  do p <- get_pkt pkt;
  if decide (pt_origin p = HIH) then
    do st <- test_expected conn pkt;
    match st with
    | NOK => sret OK
    | OK =>
      do c <- get_conn conn;
      do current <- slift (nonnull (buffer_current c));
      do k <- get_pkt current;
      do '(ended, current) <- replay_loop (S (length (cn_BUFFER c))) conn current (pt_DE k);
      if ended : bool then sret OK
      else
        do_ define_expected_data current;
        do_ incr_replay_id conn;
        sret OK
    end
  else sret NOK.

(** * ARP *)

Definition ARPOP_REQUEST : Z := 1.
Definition ARPOP_REPLY : Z := 2.

(** The reply to an ARP request, in a frame of the same kind; [None] for
    anything but a request.  Offsets inside [struct ether_arp]: operation 6,
    sender hardware and protocol addresses 8 and 14, target ones 18 and 24. *)
Definition arp_reply_frame (ethertype : Z) (mac : list Z) (packet : list Z) : outcome (option (list Z)) :=
  let hlen := if ethertype =? ETHERTYPE_ARP then ETHER_HDR_LEN else VLAN_ETH_HLEN in
  let! op := ld16 packet (hlen + 6) in
  if op =? htons ARPOP_REQUEST then
    let f := repeat 0 (28 + hlen) in
    let! f := (if ethertype =? ETHERTYPE_ARP then st16 f 12 (htons ETHERTYPE_ARP)
               else
                 let! f := st16 f 12 (htons ETHERTYPE_VLAN) in
                 let! v := mget packet ETHER_HDR_LEN VLAN_HLEN in
                 mput f ETHER_HDR_LEN v) in
    let! f := mput f 6 mac in
    let! sha := mget packet (hlen + 8) ETH_ALEN in
    let! f := mput f 0 sha in
    let! f := st16 f hlen (htons 1) in
    let! f := st16 f (hlen + 2) (htons ETHERTYPE_IP) in
    let! f := st8 f (hlen + 4) 6 in
    let! f := st8 f (hlen + 5) 4 in
    let! f := st16 f (hlen + 6) (htons ARPOP_REPLY) in
    let! f := mput f (hlen + 8) mac in
    let! tpa := mget packet (hlen + 24) 4 in
    let! f := mput f (hlen + 14) tpa in
    let! spa := mget packet (hlen + 14) 4 in
    let! f := mput f (hlen + 24) spa in
    Ret (Some f)
  else Ret None.

Definition send_arp_reply (ethertype : Z) (iface : ptr) (packet : list Z) : M unit :=
  do i <- get_iface (Some iface);
  do r <- slift (arp_reply_frame ethertype (if_mac i) packet);
  match r with
  | Some f => do _ok <- pcap_inject iface f; sret tt
  | None => sret tt
  end.
