(* ===== verification/NatSpec.v ===== *)
(** An abstract specification of [nat] ([netcode.c]) and the proof that the
    byte manipulations implement it.  An abstract packet has its two Ethernet
    addresses, an optional VLAN tag and the bytes that follow the link header;
    [rep] relates it to a [pkt_struct], whose frame keeps room for the tag. *)
From S2P Require Import Prelude Mem Types World Samples Keys Checksum TcpOptions Packet Netcode.

(** * Blocks in two parts *)

Section Halves.
Context (l r : list Z).

Lemma mput_right i bs :
  mput (l ++ r) (length l + i) bs = let! r' := mput r i bs in Ret (l ++ r').
Proof.
  unfold mput. rewrite length_app. repeat case_decide; try lia; [|done]. cbn [obind].
  rewrite take_app, drop_app, (take_ge l), (drop_ge l) by lia.
  replace (length l + i - length l)%nat with i by lia.
  replace (length l + i + length bs - length l)%nat with (i + length bs)%nat by lia.
  by rewrite <- app_assoc.
Qed.

Lemma mput_left i bs : (i + length bs <= length l)%nat ->
  mput (l ++ r) i bs = let! l' := mput l i bs in Ret (l' ++ r).
Proof.
  intros H. rewrite !mput_ok by (rewrite ?length_app; lia). cbn [obind]. unfold upd.
  rewrite take_app, drop_app. replace (i - length l)%nat with 0%nat by lia.
  replace (i + length bs - length l)%nat with 0%nat by lia.
  by rewrite take_0, drop_0, app_nil_r, <- !app_assoc.
Qed.

Lemma mget_left i n : (i + n <= length l)%nat -> mget (l ++ r) i n = mget l i n.
Proof.
  intros H. rewrite !mget_ok by (rewrite ?length_app; lia). unfold sub.
  rewrite drop_app, take_app. replace (i - length l)%nat with 0%nat by lia.
  rewrite drop_0, length_drop. replace (n - (length l - i))%nat with 0%nat by lia.
  by rewrite take_0, app_nil_r.
Qed.

Lemma mmove_left d s n : (d + n <= length l)%nat -> (s + n <= length l)%nat ->
  mmove (l ++ r) d s n = let! l' := mmove l d s n in Ret (l' ++ r).
Proof.
  intros Hd Hs. unfold mmove. rewrite mget_left by done.
  rewrite mget_ok by done. cbn [obind]. apply mput_left. by rewrite length_sub.
Qed.

(** The checksum routines only see what follows the link header. *)
Lemma ip_ihl_right : ip_ihl (l ++ r) (length l) = ip_ihl r 0.
Proof. unfold ip_ihl, ld8. by rewrite <- (mget_shift l r 0), Nat.add_0_r. Qed.
Lemma ip_tot_len_right : ip_tot_len (l ++ r) (length l) = ip_tot_len r 0.
Proof. unfold ip_tot_len, ld16. by rewrite mget_shift. Qed.
Lemma ip_protocol_right : ip_protocol (l ++ r) (length l) = ip_protocol r 0.
Proof. unfold ip_protocol, ld8. by rewrite mget_shift. Qed.

Lemma tcp_checksum_right : tcp_checksum (l ++ r) (length l) = tcp_checksum r 0.
Proof.
  unfold tcp_checksum, hdrdata_size. rewrite ip_ihl_right, ip_tot_len_right.
  destruct (ip_tot_len r 0) as [tot|]; [|done]. cbn [obind].
  destruct (ip_ihl r 0) as [ihl|]; [|done]. cbn [obind].
  rewrite <- !Nat.add_assoc, !mget_shift. done.
Qed.
End Halves.

Lemma set_ip_checksum_right l r :
  set_ip_checksum (l ++ r) (length l) = let! r' := set_ip_checksum r 0 in Ret (l ++ r').
Proof.
  unfold set_ip_checksum, st16, in_cksum. rewrite mput_right, !obind_assoc. simpl (0 + 10)%nat.
  destruct (mput r 10 _) as [r1|] eqn:E; [|done]. cbn [obind].
  rewrite <- (Nat.add_0_r (length l)) at 1. rewrite mget_shift, !obind_assoc.
  destruct (mget r1 0 _) as [bs|]; [|done]. cbn [obind]. by rewrite mput_right.
Qed.

Lemma set_udp_checksum_right l r :
  set_udp_checksum (l ++ r) (length l) = let! r' := set_udp_checksum r 0 in Ret (l ++ r').
Proof. unfold set_udp_checksum, st16. by rewrite <- Nat.add_assoc, mput_right. Qed.

Lemma set_tcp_checksum_right l r :
  set_tcp_checksum (l ++ r) (length l) = let! r' := set_tcp_checksum r 0 in Ret (l ++ r').
Proof.
  unfold set_tcp_checksum, st16. rewrite <- Nat.add_assoc, mput_right, !obind_assoc. simpl (0 + IP_HDR_SIZE + 16)%nat.
  simpl (IP_HDR_SIZE + 16)%nat.
  destruct (mput r 36 _) as [r1|] eqn:E; [|done]. cbn [obind].
  rewrite tcp_checksum_right, !obind_assoc.
  destruct (tcp_checksum r1 0) as [c|]; [|done]. cbn [obind]. by rewrite mput_right.
Qed.

(** * Abstract packets *)

Record apkt := APkt {
  a_dst : list Z;
  a_src : list Z;
  a_tag : option Z;
  a_ip : list Z;
}.
#[export] Instance eta_apkt : EtaRecord apkt := fun a =>
  APkt (a_dst a) (a_src a) (a_tag a) (a_ip a).

(** The link header as it is on the wire. *)
Definition link (a : apkt) : list Z :=
  match a_tag a with
  | None => a_dst a ++ a_src a ++ [8; 0]
  | Some tci => a_dst a ++ a_src a ++ [0x81; 0] ++ le_encode 2 tci ++ [8; 0]
  end.
Definition wire (a : apkt) : list Z := link a ++ a_ip a.
Definition link_len (a : apkt) : Z := match a_tag a with None => 14 | Some _ => 18 end.

(** The frame is the wire image, with four spare bytes when it has no tag. *)
Record rep (p : pkt_struct) (a : apkt) : Prop := {
  rep_dst : length (a_dst a) = 6%nat;
  rep_src : length (a_src a) = 6%nat;
  rep_ip : p_ip (pt_packet p) = 18%nat;
  rep_eth : p_eth (pt_packet p) = match a_tag a with None => 4%nat | Some _ => 0%nat end;
  rep_frame : exists spare, length spare = p_eth (pt_packet p) /\
    FRAME (pt_packet p) = spare ++ wire a;
}.

(** * The specification of [nat] *)

(** What the transport and IP checksums do to the bytes after the link header. *)
Definition spec_checksums (ip : list Z) : outcome (list Z) :=
  let! protocol := ip_protocol ip 0 in
  let! ip := (if protocol =? IPPROTO_TCP then set_tcp_checksum ip 0 else set_udp_checksum ip 0) in
  set_ip_checksum ip 0.

(** The tag a packet gets on its way to a downlink that may be a VLAN. *)
Definition spec_tag (tci : Z) (untagged : option Z) : option Z :=
  if vlan_vid tci =? 0 then untagged else Some tci.

Definition spec_addresses (p : pkt_struct) (a : apkt) : outcome (apkt * bool) :=
  let n := pt_nat p in
  match pt_origin p with
  | EXT =>
    let! mac := nonnull (nat_dst_mac n) in
    let! dst := nonnull (nat_dst_ip n) in
    let! ip := mput (a_ip a) 16 (le_encode 4 dst) in
    let tag := match nat_dst_vlan n with Some tci => spec_tag tci None | None => None end in
    Ret (APkt mac (a_src a) tag ip, true)
  | _ =>
    let! mac := nonnull (nat_dst_mac n) in
    let a := a <| a_dst := mac |> in
    match pt_destination p with
    | INTRA =>
      let! dst := nonnull (nat_dst_ip n) in
      let! ip := mput (a_ip a) 16 (le_encode 4 dst) in
      let! tci := nonnull (nat_dst_vlan n) in
      Ret (APkt mac (a_src a) (spec_tag tci (a_tag a)) ip, true)
    | EXT =>
      let! src := nonnull (nat_src_ip n) in
      let! ip := mput (a_ip a) 12 (le_encode 4 src) in
      Ret (APkt mac (a_src a) None ip, true)
    | HIH =>
      let! src := nonnull (nat_src_ip n) in
      let! ip := mput (a_ip a) 12 (le_encode 4 src) in
      let! tci := nonnull (nat_dst_vlan n) in
      Ret (APkt mac (a_src a) (spec_tag tci (a_tag a)) ip, true)
    | _ => Ret (a, false)
    end
  end.

Definition nat_spec (p : pkt_struct) (out_mac : list Z) (a : apkt) : outcome apkt :=
  let! '(a, valid) := spec_addresses p (a <| a_src := out_mac |>) in
  if valid : bool then let! ip := spec_checksums (a_ip a) in Ret (a <| a_ip := ip |>)
  else Ret a.

(** * The primitive edits *)

(** [p'] is [p] with another frame, link position and size. *)
Definition same_meta (p p' : pkt_struct) : Prop :=
  p' = (set_eth (set_frame p (FRAME (pt_packet p'))) (p_eth (pt_packet p')))
         <| pt_size := pt_size p' |>.

Lemma same_meta_trans p q r : same_meta p q -> same_meta q r -> same_meta p r.
Proof. unfold same_meta. intros H1 H2. rewrite H2, H1. by destruct p as [[]]. Qed.

(** An edit that keeps the size. *)
Definition edits (e : pkt_struct -> outcome pkt_struct) (p : pkt_struct) (a : apkt) (dsize : Z) : Prop :=
  exists p', e p = Ret p' /\ rep p' a /\ same_meta p p' /\
    u32 (pt_size p') = u32 (pt_size p + dsize).

Lemma length_link a : length (a_dst a) = 6%nat -> length (a_src a) = 6%nat ->
  Z.of_nat (length (link a)) = link_len a.
Proof.
  intros Hd Hs. unfold link, link_len.
  destruct (a_tag a); rewrite !length_app, ?length_le_encode, Hd, Hs; done.
Qed.

Ltac six l H := destruct l as [|? [|? [|? [|? [|? [|? [|]]]]]]]; try discriminate H; clear H.

(** Put the packet in concrete form: sixteen or eighteen named bytes. *)
Ltac open_rep H :=
  let Hd := fresh in let Hs := fresh in let Hip := fresh in let He := fresh in let Hf := fresh in
  destruct H as [Hd Hs Hip He (? & ? & Hf)];
  match goal with p : pkt_struct |- _ => destruct p as [[? ? ? ? ?] ? ? ? ? ? ? ? ? ? ? ? ? ?] end;
  match goal with a : apkt |- _ => destruct a as [? ? [?|] ?] end;
  cbn [pt_packet FRAME p_eth p_ip a_dst a_src a_tag a_ip wire link] in *; subst;
  unfold wire, link in *; cbn [a_dst a_src a_tag a_ip] in *;
  match goal with Hd : length ?l = 6%nat, Hs : length ?l' = 6%nat |- _ => six l Hd; six l' Hs end;
  match goal with
  | H : length ?s = 4%nat |- _ => destruct s as [|? [|? [|? [|? [|]]]]]; try discriminate H; clear H
  | H : length ?s = 0%nat |- _ => destruct s; try discriminate H; clear H
  end.

Ltac edit_step :=
  repeat (first
    [ rewrite mput_ok by (rewrite ?length_le_encode; cbn; lia) | rewrite mget_ok by (cbn; lia) ];
    cbn [obind]).

Ltac close_rep :=
  cbn [obind]; unfold upd, sub; cbn;
  eexists; split; [reflexivity|]; split;
    [constructor; cbn; try reflexivity; first [by exists []|by eexists [_; _; _; _]]|
     split; [reflexivity|cbn; try (f_equal; lia)]].

Lemma edit_shost p a m : rep p a -> length m = 6%nat ->
  edits (fun p => set_shost p m) p (a <| a_src := m |>) 0.
Proof.
  intros H Hm. six m Hm. unfold edits, set_shost, put_at, with_frame.
  open_rep H; cbn [pt_packet FRAME p_eth]; edit_step; close_rep.
Qed.

Lemma edit_dhost p a m : rep p a -> length m = 6%nat ->
  edits (fun p => set_dhost p m) p (a <| a_dst := m |>) 0.
Proof.
  intros H Hm. six m Hm. unfold edits, set_dhost, put_at, with_frame.
  open_rep H; cbn [pt_packet FRAME p_eth]; edit_step; close_rep.
Qed.

(** What precedes the IP header takes eighteen bytes. *)
Lemma rep_split p a : rep p a ->
  exists pre, length pre = 18%nat /\ FRAME (pt_packet p) = pre ++ a_ip a /\
    forall ip', rep (set_frame p (pre ++ ip')) (a <| a_ip := ip' |>).
Proof.
  intros [Hd Hs Hip He (spare & Hsp & Hf)]. exists (spare ++ link a).
  pose proof (length_link a Hd Hs) as Hl. unfold link_len in Hl.
  split; [rewrite length_app; rewrite He in Hsp; destruct (a_tag a); lia|].
  split; [by rewrite <- app_assoc|].
  intros ip'. constructor; try done. exists spare. split; [done|]. by rewrite <- app_assoc.
Qed.

Lemma same_meta_set_frame p f : same_meta p (set_frame p f).
Proof. unfold same_meta. by destruct p as [[]]. Qed.

(** Edits behind the link header. *)
Lemma edit_ip p a i bs ip' :
  rep p a -> mput (a_ip a) i bs = Ret ip' ->
  edits (fun p => put_at p (p_ip (pt_packet p) + i) bs) p (a <| a_ip := ip' |>) 0.
Proof.
  intros H Hm. pose proof (rep_ip _ _ H) as Hip. destruct (rep_split _ _ H) as (pre & Hl & Hf & Hrep).
  unfold edits, put_at, with_frame. rewrite Hip, Hf, <- Hl, mput_right, Hm. cbn [obind].
  eexists. split; [done|]. split; [apply Hrep|]. split; [apply same_meta_set_frame|].
  simpl. f_equal. lia.
Qed.

Lemma edit_checksums p a ip' :
  rep p a -> spec_checksums (a_ip a) = Ret ip' ->
  edits nat_checksums p (a <| a_ip := ip' |>) 0.
Proof.
  intros H Hm. pose proof (rep_ip _ _ H) as Hip. destruct (rep_split _ _ H) as (pre & Hl & Hf & Hrep).
  unfold edits, nat_checksums, with_frame. rewrite Hip, Hf, <- Hl, ip_protocol_right.
  unfold spec_checksums in Hm. orun Hm as proto Hp. rewrite Hp. cbn [obind].
  orun Hm as ip1 H1.
  assert ((if proto =? IPPROTO_TCP then set_tcp_checksum (pre ++ a_ip a) (length pre)
           else set_udp_checksum (pre ++ a_ip a) (length pre)) = Ret (pre ++ ip1)) as ->.
  { destruct (proto =? IPPROTO_TCP); [rewrite set_tcp_checksum_right|rewrite set_udp_checksum_right];
      by rewrite H1. }
  cbn [obind]. cbn [set_frame field_upd pt_packet FRAME]. simpl FRAME.
  rewrite set_ip_checksum_right, Hm. cbn [obind].
  eexists. split; [done|]. split; [exact (Hrep ip')|]. split.
  - unfold same_meta. by destruct p as [[]].
  - simpl. f_equal. lia.
Qed.

Lemma rep_is_tagged p a : rep p a -> is_tagged p = Ret (bool_decide (is_Some (a_tag a))).
Proof.
  intros H. unfold is_tagged, eth_type, ld16.
  open_rep H; cbn [pt_packet FRAME p_eth]; edit_step; unfold sub; reflexivity.
Qed.

Lemma le_encode_2 z : exists b0 b1, le_encode 2 z = [b0; b1].
Proof. by eexists _, _. Qed.

(** Run the code on the named bytes. *)
Ltac run_bytes :=
  change (le_encode 2 (htons ETHERTYPE_VLAN)) with [0x81; 0];
  change (le_encode 2 (htons ETHERTYPE_IP)) with [8; 0];
  repeat match goal with
  | |- context [le_encode 2 ?z] =>
    let b0 := fresh "b" in let b1 := fresh "b" in let E := fresh in
    destruct (le_encode_2 z) as (b0 & b1 & E); rewrite !E
  end;
  cbv -[u32 Z.add Z.sub app le_encode]; cbn [app].

Ltac close_bytes :=
  eexists; split; [reflexivity|]; split;
    [constructor; cbn -[le_encode]; try reflexivity; unfold wire, link; cbn -[le_encode];
       repeat match goal with E : le_encode 2 _ = _ |- _ => rewrite E end;
       first [by exists []|by eexists [_; _; _; _]]|
     split; [reflexivity|cbn -[u32]; rewrite ?u32_u32; f_equal; try lia]].


Lemma edit_add_vlan p a tci : rep p a -> a_tag a = None ->
  edits (fun p => add_vlan_header p tci) p (a <| a_tag := Some tci |>) 4.
Proof.
  intros H Ht. unfold edits, add_vlan_header, write_vlan_header, with_frame, st16.
  open_rep H; [done|]. clear Ht. run_bytes. close_bytes.
Qed.

Lemma edit_set_tci p a tci old : rep p a -> a_tag a = Some old ->
  edits (fun p => set_tci p tci) p (a <| a_tag := Some tci |>) 0.
Proof.
  intros H Ht. unfold edits, set_tci, with_frame, st16.
  open_rep H; [|done]. clear Ht. run_bytes. close_bytes.
Qed.

Lemma edit_strip p a old : rep p a -> a_tag a = Some old ->
  edits strip_vlan_header p (a <| a_tag := None |>) (-4).
Proof.
  intros H Ht. unfold edits, strip_vlan_header, with_frame, st16.
  open_rep H; [|done]. clear Ht. run_bytes. close_bytes.
Qed.

(** * Sequences of edits *)

Lemma edits_ret p a : rep p a -> edits Ret p a 0.
Proof.
  intros H. exists p. split; [done|]. split; [done|]. split; [by destruct p as [[]]|].
  f_equal. lia.
Qed.

Lemma edits_bind e1 e2 p a1 a2 d1 d2 :
  edits e1 p a1 d1 -> (forall p', rep p' a1 -> same_meta p p' -> edits e2 p' a2 d2) ->
  edits (fun p => let! p := e1 p in e2 p) p a2 (d1 + d2).
Proof.
  intros (p1 & H1 & Hr1 & Hm1 & Hs1) H2.
  destruct (H2 p1 Hr1 Hm1) as (p2 & He2 & Hr2 & Hm2 & Hs2).
  exists p2. split; [by rewrite H1|]. split; [done|]. split; [by eapply same_meta_trans|].
  rewrite Hs2, (u32_add_congr _ _ d2 Hs1). f_equal. lia.
Qed.

(** The tail of a sequence may depend on fields that edits keep. *)
Lemma edits_ext e1 e2 p a d : e1 p = e2 p -> edits e1 p a d -> edits e2 p a d.
Proof. intros He (p' & H & ?). exists p'. by rewrite <- He. Qed.

Lemma edits_size e p a d d' : d = d' -> edits e p a d -> edits e p a d'.
Proof. by intros ->. Qed.

Lemma same_meta_fields p p' : same_meta p p' ->
  pt_nat p' = pt_nat p /\ pt_origin p' = pt_origin p /\ pt_destination p' = pt_destination p.
Proof. intros ->. by destruct p as [[]]. Qed.

(** The VLAN part towards an internal network. *)
Lemma edit_nat_vlan p a tci :
  rep p a -> nat_dst_vlan (pt_nat p) = Some tci ->
  edits nat_vlan p (a <| a_tag := spec_tag tci (a_tag a) |>)
    (match a_tag a with Some _ => 0 | None => if vlan_vid tci =? 0 then 0 else 4 end).
Proof.
  intros H Hv. unfold spec_tag.
  assert (forall e d a', edits e p a' d ->
    nat_vlan p = e p -> edits nat_vlan p a' d) as Hgo.
  { intros e d a' He Heq. by eapply edits_ext; [symmetry|]. }
  assert (Hn : nat_vlan p = if bool_decide (is_Some (a_tag a))
     then if vlan_vid tci =? 0 then Ret p else set_tci p tci
     else if vlan_vid tci =? 0 then Ret p else add_vlan_header p tci).
  { unfold nat_vlan. rewrite (rep_is_tagged _ _ H), Hv. done. }
  destruct (a_tag a) as [old|] eqn:Ht.
  - rewrite bool_decide_eq_true_2 in Hn by eauto. destruct (vlan_vid tci =? 0).
    + apply (Hgo Ret); [|done]. rewrite <- Ht. apply edits_ret. by destruct a.
    + eapply (Hgo (fun p => set_tci p tci)); [|done]. by eapply edit_set_tci.
  - rewrite bool_decide_eq_false_2 in Hn by (by intros []). destruct (vlan_vid tci =? 0).
    + apply (Hgo Ret); [|done]. rewrite <- Ht. apply edits_ret. by destruct a.
    + eapply (Hgo (fun p => add_vlan_header p tci)); [|done]. by eapply edit_add_vlan.
Qed.

(** Going to the uplink, a tag is removed. *)
Definition strip_if_tagged (p : pkt_struct) : outcome pkt_struct :=
  let! tagged := is_tagged p in if tagged : bool then strip_vlan_header p else Ret p.

Lemma edit_strip_if_tagged p a :
  rep p a -> edits strip_if_tagged p (a <| a_tag := None |>)
    (match a_tag a with Some _ => -4 | None => 0 end).
Proof.
  intros H.
  assert (Hn : strip_if_tagged p = if bool_decide (is_Some (a_tag a)) then strip_vlan_header p else Ret p).
  { unfold strip_if_tagged. by rewrite (rep_is_tagged _ _ H). }
  destruct (a_tag a) as [old|] eqn:Ht.
  - rewrite bool_decide_eq_true_2 in Hn by eauto.
    eapply edits_ext; [symmetry; exact Hn|]. by eapply edit_strip.
  - rewrite bool_decide_eq_false_2 in Hn by (by intros []).
    eapply (edits_ext Ret); [symmetry; exact Hn|].
    replace (a <| a_tag := None |>) with a by (destruct a; simpl in Ht; by subst).
    by apply edits_ret.
Qed.

(** * The refinement *)

Lemma edits_nonnull {A} (get : pkt_struct -> option A) (k : A -> pkt_struct -> outcome pkt_struct) p v a d :
  get p = Some v -> edits (k v) p a d ->
  edits (fun p => let! x := nonnull (get p) in k x p) p a d.
Proof. intros Hg. apply edits_ext. by rewrite Hg. Qed.

(** Rewrite one address, then go on. *)
Lemma edits_daddr k p a ip ip' d a' :
  rep p a -> mput (a_ip a) 16 (le_encode 4 ip) = Ret ip' ->
  (forall p', rep p' (a <| a_ip := ip' |>) -> same_meta p p' -> edits k p' a' d) ->
  edits (fun p => let! p := set_daddr p ip in k p) p a' d.
Proof.
  intros H Hm Hk. apply (edits_size _ _ _ (0 + d)); [lia|].
  eapply (edits_bind (fun p => set_daddr p ip)); [|exact Hk]. by apply (edit_ip p a 16).
Qed.
Lemma edits_saddr k p a ip ip' d a' :
  rep p a -> mput (a_ip a) 12 (le_encode 4 ip) = Ret ip' ->
  (forall p', rep p' (a <| a_ip := ip' |>) -> same_meta p p' -> edits k p' a' d) ->
  edits (fun p => let! p := set_saddr p ip in k p) p a' d.
Proof.
  intros H Hm Hk. apply (edits_size _ _ _ (0 + d)); [lia|].
  eapply (edits_bind (fun p => set_saddr p ip)); [|exact Hk]. by apply (edit_ip p a 12).
Qed.
Lemma edits_dhost k p a m d a' :
  rep p a -> length m = 6%nat ->
  (forall p', rep p' (a <| a_dst := m |>) -> same_meta p p' -> edits k p' a' d) ->
  edits (fun p => let! p := set_dhost p m in k p) p a' d.
Proof.
  intros H Hm Hk. apply (edits_size _ _ _ (0 + d)); [lia|].
  eapply (edits_bind (fun p => set_dhost p m)); [|exact Hk]. by apply edit_dhost.
Qed.

(** The three address rewritings as sequences of edits. *)
Definition chain_dnat (vlan : pkt_struct -> outcome pkt_struct) (p : pkt_struct) : outcome pkt_struct :=
  let! m := nonnull (nat_dst_mac (pt_nat p)) in
  let! p := set_dhost p m in
  let! ip := nonnull (nat_dst_ip (pt_nat p)) in
  let! p := set_daddr p ip in vlan p.
Definition chain_snat (vlan : pkt_struct -> outcome pkt_struct) (p : pkt_struct) : outcome pkt_struct :=
  let! m := nonnull (nat_dst_mac (pt_nat p)) in
  let! p := set_dhost p m in
  let! ip := nonnull (nat_src_ip (pt_nat p)) in
  let! p := set_saddr p ip in vlan p.

Section Chains.
Context (vlan : pkt_struct -> outcome pkt_struct) (p : pkt_struct) (a : apkt) (Hrep : rep p a).
Context (m : list Z) (Hm : nat_dst_mac (pt_nat p) = Some m) (Hlen : length m = 6%nat).

Lemma edits_chain_dnat ip ip' tag d :
  nat_dst_ip (pt_nat p) = Some ip -> mput (a_ip a) 16 (le_encode 4 ip) = Ret ip' ->
  (forall p', rep p' (APkt m (a_src a) (a_tag a) ip') -> same_meta p p' ->
     edits vlan p' (APkt m (a_src a) tag ip') d) ->
  edits (chain_dnat vlan) p (APkt m (a_src a) tag ip') d.
Proof.
  intros Hip Hput Hk. unfold chain_dnat.
  eapply (edits_nonnull (fun p => nat_dst_mac (pt_nat p)) (fun m p => let! p := set_dhost p m in _)); [done|].
  eapply edits_dhost; [done..|]. intros p1 Hr1 Hm1. destruct (same_meta_fields _ _ Hm1) as (E & _).
  eapply (edits_nonnull (fun p => nat_dst_ip (pt_nat p)) (fun ip p => let! p := set_daddr p ip in _)); [by rewrite E|].
  eapply edits_daddr; [done..|]. intros p2 Hr2 Hm2. apply Hk; [exact Hr2|by eapply same_meta_trans].
Qed.

Lemma edits_chain_snat ip ip' tag d :
  nat_src_ip (pt_nat p) = Some ip -> mput (a_ip a) 12 (le_encode 4 ip) = Ret ip' ->
  (forall p', rep p' (APkt m (a_src a) (a_tag a) ip') -> same_meta p p' ->
     edits vlan p' (APkt m (a_src a) tag ip') d) ->
  edits (chain_snat vlan) p (APkt m (a_src a) tag ip') d.
Proof.
  intros Hip Hput Hk. unfold chain_snat.
  eapply (edits_nonnull (fun p => nat_dst_mac (pt_nat p)) (fun m p => let! p := set_dhost p m in _)); [done|].
  eapply edits_dhost; [done..|]. intros p1 Hr1 Hm1. destruct (same_meta_fields _ _ Hm1) as (E & _).
  eapply (edits_nonnull (fun p => nat_src_ip (pt_nat p)) (fun ip p => let! p := set_saddr p ip in _)); [by rewrite E|].
  eapply edits_saddr; [done..|]. intros p2 Hr2 Hm2. apply Hk; [exact Hr2|by eapply same_meta_trans].
Qed.
End Chains.

Definition ext_vlan (p : pkt_struct) : outcome pkt_struct :=
  match nat_dst_vlan (pt_nat p) with
  | Some tci => if vlan_vid tci =? 0 then strip_if_tagged p else add_vlan_header p tci
  | None => strip_if_tagged p
  end.

Ltac obind_cases :=
  repeat match goal with
  | |- context [obind ?e _] =>
    lazymatch e with context [obind] => fail | _ => destruct e eqn:?; cbn [obind]; try reflexivity end
  end.

(** [nat_addresses] is one of the sequences. *)
Lemma nat_addresses_ext p : pt_origin p = EXT ->
  nat_addresses p = let! p := chain_dnat ext_vlan p in Ret (p, true).
Proof.
  intros Ho. unfold nat_addresses, nat_from_ext, chain_dnat, ext_vlan, strip_if_tagged. rewrite Ho.
  rewrite !obind_assoc. destruct (nat_dst_mac (pt_nat p)); [|done]. cbn [nonnull obind].
  rewrite !obind_assoc. destruct (set_dhost p _) as [p1|]; [|done]. cbn [obind].
  destruct (nat_dst_ip (pt_nat p1)); [|done]. cbn [nonnull obind].
  rewrite !obind_assoc. destruct (set_daddr p1 _) as [p2|]; [|done]. done.
Qed.

Lemma set_dhost_destination p m p1 : set_dhost p m = Ret p1 -> pt_destination p1 = pt_destination p.
Proof. unfold set_dhost, put_at, with_frame. intros H. orun H as f Hf. by injection H as <-. Qed.

Lemma nat_addresses_int p : pt_origin p <> EXT ->
  nat_addresses p =
  match pt_destination p with
  | INTRA => let! p := chain_dnat nat_vlan p in Ret (p, true)
  | EXT => let! p := chain_snat strip_if_tagged p in Ret (p, true)
  | HIH => let! p := chain_snat nat_vlan p in Ret (p, true)
  | _ => let! m := nonnull (nat_dst_mac (pt_nat p)) in let! p := set_dhost p m in Ret (p, false)
  end.
Proof.
  intros Ho. unfold nat_addresses, chain_dnat, chain_snat.
  replace (match pt_origin p with EXT => let! p0 := nat_from_ext p in Ret (p0, true) | _ => _ end) with
    (let! mac := nonnull (nat_dst_mac (pt_nat p)) in
     let! p := set_dhost p mac in
     match pt_destination p with
    | INTRA => let! ip := nonnull (nat_dst_ip (pt_nat p)) in
      let! p := set_daddr p ip in let! p := nat_vlan p in Ret (p, true)
    | EXT => let! ip := nonnull (nat_src_ip (pt_nat p)) in
      let! p := set_saddr p ip in let! tagged := is_tagged p in
      let! p := (if tagged : bool then strip_vlan_header p else Ret p) in Ret (p, true)
    | HIH => let! ip := nonnull (nat_src_ip (pt_nat p)) in
      let! p := set_saddr p ip in let! p := nat_vlan p in Ret (p, true)
    | _ => Ret (p, false)
    end) by (by destruct (pt_origin p)).
  destruct (nat_dst_mac (pt_nat p)) as [m|]; cbn [nonnull obind]; [|by destruct (pt_destination p)].
  destruct (set_dhost p m) as [p1|] eqn:E; cbn [obind]; [|by destruct (pt_destination p)].
  rewrite (set_dhost_destination _ _ _ E). unfold strip_if_tagged.
  destruct (pt_destination p); try done; rewrite !obind_assoc;
    [destruct (nat_src_ip (pt_nat p1))|destruct (nat_src_ip (pt_nat p1))|destruct (nat_dst_ip (pt_nat p1))];
    cbn [nonnull obind]; try done; rewrite !obind_assoc;
    [destruct (set_saddr p1 _)|destruct (set_saddr p1 _)|destruct (set_daddr p1 _)];
    cbn [obind]; try done; by rewrite !obind_assoc.
Qed.

(** The addresses and VLAN tag of [spec_addresses] are those the code writes. *)
Definition vlan_ok (p : pkt_struct) (a : apkt) : Prop :=
  pt_origin p = EXT -> is_Some (a_tag a) ->
  match nat_dst_vlan (pt_nat p) with Some tci => vlan_vid tci = 0 | None => True end.

Definition edits_v (e : pkt_struct -> outcome (pkt_struct * bool)) p a v d : Prop :=
  exists p', e p = Ret (p', v) /\ rep p' a /\ same_meta p p' /\
    u32 (pt_size p') = u32 (pt_size p + d).

Lemma edits_v_intro e k p a v d :
  k p = (let! p := e p in Ret (p, v)) -> edits e p a d -> edits_v k p a v d.
Proof. intros He (p' & H & ?). exists p'. by rewrite He, H. Qed.

Lemma edit_ext_vlan p a :
  rep p a -> pt_origin p = EXT -> vlan_ok p a ->
  let tag := match nat_dst_vlan (pt_nat p) with Some tci => spec_tag tci None | None => None end in
  edits ext_vlan p (a <| a_tag := tag |>) (link_len (a <| a_tag := tag |>) - link_len a).
Proof.
  intros H Ho Hv tag. subst tag. specialize (Hv Ho).
  assert (Hstrip : ext_vlan p = strip_if_tagged p ->
    edits ext_vlan p (a <| a_tag := None |>) (link_len (a <| a_tag := None |>) - link_len a)).
  { intros He. eapply edits_ext; [by symmetry|].
    eapply edits_size; [|by apply edit_strip_if_tagged]. unfold link_len; simpl. by destruct (a_tag a). }
  unfold ext_vlan in *. destruct (nat_dst_vlan (pt_nat p)) as [tci|] eqn:Ed; [|by apply Hstrip].
  unfold spec_tag. destruct (Z.eqb_spec (vlan_vid tci) 0) as [|Hvid]; [by apply Hstrip|].
  destruct (a_tag a) eqn:Et; [by destruct Hvid; eauto|].
  eapply edits_size; [|eapply (edits_ext (fun p => add_vlan_header p tci)); [|by apply edit_add_vlan]].
  - unfold link_len; simpl. by rewrite Et.
  - rewrite Ed. by destruct (Z.eqb_spec (vlan_vid tci) 0).
Qed.

Lemma nat_addresses_refines p a a' v :
  rep p a -> (forall m, nat_dst_mac (pt_nat p) = Some m -> length m = 6%nat) -> vlan_ok p a ->
  spec_addresses p a = Ret (a', v) ->
  edits_v nat_addresses p a' v (link_len a' - link_len a).
Proof.
  intros H Hmac Hv Hs. unfold spec_addresses in Hs.
  assert (Hsnat : forall vlan m ip ip' tag, nat_dst_mac (pt_nat p) = Some m ->
    nat_src_ip (pt_nat p) = Some ip -> mput (a_ip a) 12 (le_encode 4 ip) = Ret ip' ->
    (forall p', rep p' (APkt m (a_src a) (a_tag a) ip') -> same_meta p p' ->
       edits vlan p' (APkt m (a_src a) tag ip') (link_len (APkt m (a_src a) tag ip') - link_len a)) ->
    nat_addresses p = (let! p := chain_snat vlan p in Ret (p, true)) ->
    edits_v nat_addresses p (APkt m (a_src a) tag ip') true (link_len (APkt m (a_src a) tag ip') - link_len a)).
  { intros vlan m ip ip' tag Hm Hip Hput Hk He. eapply edits_v_intro; [exact He|].
    by eapply edits_chain_snat; eauto. }
  assert (Hdnat : forall vlan m ip ip' tag, nat_dst_mac (pt_nat p) = Some m ->
    nat_dst_ip (pt_nat p) = Some ip -> mput (a_ip a) 16 (le_encode 4 ip) = Ret ip' ->
    (forall p', rep p' (APkt m (a_src a) (a_tag a) ip') -> same_meta p p' ->
       edits vlan p' (APkt m (a_src a) tag ip') (link_len (APkt m (a_src a) tag ip') - link_len a)) ->
    nat_addresses p = (let! p := chain_dnat vlan p in Ret (p, true)) ->
    edits_v nat_addresses p (APkt m (a_src a) tag ip') true (link_len (APkt m (a_src a) tag ip') - link_len a)).
  { intros vlan m ip ip' tag Hm Hip Hput Hk He. eapply edits_v_intro; [exact He|].
    by eapply edits_chain_dnat; eauto. }
  assert (Hvlan : forall p' m ip' tci, rep p' (APkt m (a_src a) (a_tag a) ip') -> same_meta p p' ->
    nat_dst_vlan (pt_nat p) = Some tci ->
    edits nat_vlan p' (APkt m (a_src a) (spec_tag tci (a_tag a)) ip')
      (link_len (APkt m (a_src a) (spec_tag tci (a_tag a)) ip') - link_len a)).
  { intros p' m ip' tci Hr Hmm Ht. destruct (same_meta_fields _ _ Hmm) as (En & _).
    eapply edits_size; [|apply (edit_nat_vlan p' _ tci Hr); by rewrite En].
    unfold link_len, spec_tag; simpl. destruct (a_tag a), (vlan_vid tci =? 0); done. }
  destruct (decide (pt_origin p = EXT)) as [Ho|Ho].
  - rewrite Ho in Hs. orun Hs as m Hm. orun Hs as ip Hip. orun Hs as ip' Hput. injection Hs as <- <-.
    apply nonnull_Ret_inv in Hm, Hip.
    eapply Hdnat; [done..| |by apply nat_addresses_ext]. intros p' Hr Hmm.
    destruct (same_meta_fields _ _ Hmm) as (En & Eo & _).
    assert (Ho' : pt_origin p' = EXT) by congruence.
    assert (Hv' : vlan_ok p' (APkt m (a_src a) (a_tag a) ip'))
      by (unfold vlan_ok in *; rewrite En, Eo; exact Hv).
    pose proof (edit_ext_vlan p' _ Hr Ho' Hv') as Hext. cbv zeta in Hext. rewrite En in Hext.
    exact Hext.
  - pose proof (nat_addresses_int p Ho) as Heq.
    assert (Hs' : (let! mac := nonnull (nat_dst_mac (pt_nat p)) in
      match pt_destination p with
      | INTRA =>
        let! dst := nonnull (nat_dst_ip (pt_nat p)) in
        let! ip := mput (a_ip a) 16 (le_encode 4 dst) in
        let! tci := nonnull (nat_dst_vlan (pt_nat p)) in
        Ret (APkt mac (a_src a) (spec_tag tci (a_tag a)) ip, true)
      | EXT =>
        let! src := nonnull (nat_src_ip (pt_nat p)) in
        let! ip := mput (a_ip a) 12 (le_encode 4 src) in
        Ret (APkt mac (a_src a) None ip, true)
      | HIH =>
        let! src := nonnull (nat_src_ip (pt_nat p)) in
        let! ip := mput (a_ip a) 12 (le_encode 4 src) in
        let! tci := nonnull (nat_dst_vlan (pt_nat p)) in
        Ret (APkt mac (a_src a) (spec_tag tci (a_tag a)) ip, true)
      | _ => Ret (a <| a_dst := mac |>, false)
      end) = Ret (a', v)) by (by destruct (pt_origin p)).
    clear Hs. orun Hs' as m Hm. apply nonnull_Ret_inv in Hm.
    assert (Hinv : nat_addresses p = (let! m := nonnull (nat_dst_mac (pt_nat p)) in
        let! p := set_dhost p m in Ret (p, false)) ->
      Ret (a <| a_dst := m |>, false) = Ret (a', v) -> edits_v nat_addresses p a' v (link_len a' - link_len a)).
    { intros He [= <- <-]. rewrite Hm in He. cbn [nonnull obind] in He.
      eapply (edits_v_intro (fun p => set_dhost p m)); [exact He|].
      eapply edits_size; [|by apply edit_dhost; eauto]. unfold link_len. simpl. lia. }
    destruct (pt_destination p); [| by apply Hinv|by apply Hinv| |].
    + orun Hs' as ip Hip. orun Hs' as ip' Hput. injection Hs' as <- <-. apply nonnull_Ret_inv in Hip.
      eapply Hsnat; [done..| |exact Heq]. intros p' Hr Hmm.
      eapply edits_size; [|exact (edit_strip_if_tagged p' _ Hr)].
      unfold link_len; simpl. by destruct (a_tag a).
    + orun Hs' as ip Hip. orun Hs' as ip' Hput. orun Hs' as tci Ht. injection Hs' as <- <-.
      apply nonnull_Ret_inv in Hip, Ht. eapply Hsnat; [done..| |exact Heq]. eauto.
    + orun Hs' as ip Hip. orun Hs' as ip' Hput. orun Hs' as tci Ht. injection Hs' as <- <-.
      apply nonnull_Ret_inv in Hip, Ht. eapply Hdnat; [done..| |exact Heq]. eauto.
Qed.

(** C8: [nat] implements its specification.  On a packet whose frame has the
    usual layout, the byte copies, the moves that insert or remove a VLAN tag,
    the size updates and the checksum macros produce exactly the packet of
    [nat_spec]: Ethernet addresses replaced, source or destination address
    replaced, the tag the destination wants, checksums recomputed, every other
    byte unchanged, and the size changed by the length of the tag. *)
Theorem nat_refines p a out_mac a' :
  rep p a -> length out_mac = 6%nat ->
  (forall m, nat_dst_mac (pt_nat p) = Some m -> length m = 6%nat) -> vlan_ok p a ->
  nat_spec p out_mac a = Ret a' ->
  exists p', nat_pkt p out_mac = Ret p' /\ rep p' a' /\ same_meta p p' /\
    u32 (pt_size p') = u32 (pt_size p + (link_len a' - link_len a)).
Proof.
  intros H Hout Hmac Hv Hs. unfold nat_spec in Hs. orun Hs as [a1 v] Ha.
  destruct (edit_shost p a out_mac H Hout) as (p1 & H1 & Hr1 & Hm1 & Hs1).
  destruct (same_meta_fields _ _ Hm1) as (En & Eo & Ed).
  assert (Ha1 : spec_addresses p1 (a <| a_src := out_mac |>) = Ret (a1, v)).
  { rewrite <- Ha. unfold spec_addresses. by rewrite En, Eo, Ed. }
  apply nat_addresses_refines in Ha1 as (p2 & H2 & Hr2 & Hm2 & Hs2); [|done|by rewrite En|].
  2:{ unfold vlan_ok in *. rewrite En, Eo. exact Hv. }
  assert (Hsz : u32 (pt_size p2) = u32 (pt_size p + (link_len a1 - link_len a))).
  { rewrite Hs2. erewrite u32_add_congr by exact Hs1. f_equal. unfold link_len; simpl. lia. }
  unfold nat_pkt. rewrite H1. cbn [obind]. rewrite H2. cbn [obind]. destruct v.
  - orun Hs as ip' Hck. injection Hs as <-.
    destruct (edit_checksums p2 a1 ip' Hr2 Hck) as (p3 & H3 & Hr3 & Hm3 & Hs3).
    exists p3. split; [done|]. split; [done|]. split; [by do 2 (eapply same_meta_trans; [eassumption|])|].
    rewrite Hs3, (u32_add_congr _ _ 0 Hsz). f_equal. unfold link_len; simpl. lia.
  - injection Hs as <-. exists p2. split_and!; [done..|by eapply same_meta_trans|exact Hsz].
Qed.

(** * What leaves the gateway *)

Definition size_ok (p : pkt_struct) : Prop := 0 <= pt_size p < 2 ^ 32.

Lemma with_frame_size p g p' : with_frame p g = Ret p' -> size_ok p -> size_ok p'.
Proof. unfold with_frame. intros H. orun H as f Hf. by injection H as <-. Qed.

Lemma add_vlan_size p tci p' : add_vlan_header p tci = Ret p' -> size_ok p'.
Proof.
  unfold add_vlan_header. intros H. orun H as p1 H1. orun H as p2 H2. injection H as <-. apply u32_range.
Qed.
Lemma strip_vlan_size p p' : strip_vlan_header p = Ret p' -> size_ok p'.
Proof.
  unfold strip_vlan_header. intros H. orun H as p1 H1. orun H as p2 H2. injection H as <-. apply u32_range.
Qed.

#[local] Hint Resolve with_frame_size add_vlan_size strip_vlan_size : core.

Lemma nat_vlan_size p p' : nat_vlan p = Ret p' -> size_ok p -> size_ok p'.
Proof.
  unfold nat_vlan, set_tci. intros H. orun H as t Ht. orun H as tci Htci.
  repeat split_if; try (injection H as <-); eauto.
Qed.

Lemma nat_addresses_size p p' v : nat_addresses p = Ret (p', v) -> size_ok p -> size_ok p'.
Proof.
  unfold nat_addresses, nat_from_ext, set_dhost, set_daddr, set_saddr, put_at. intros H Hs.
  destruct (pt_origin p).
  { orun H as q Hq. injection H as <- <-. orun Hq as m Hm. orun Hq as p1 H1. orun Hq as ip Hip.
    orun Hq as p2 H2. apply with_frame_size in H1, H2; [|done..].
    case_match; repeat split_if; eauto; try (orun Hq as t Ht; split_if; eauto; by injection Hq as <-). }
  all: orun H as m Hm; orun H as p1 H1; apply with_frame_size in H1; [|done];
    destruct (pt_destination p1); try (by injection H as <- <-);
    orun H as ip Hip; orun H as p2 H2; apply with_frame_size in H2; try done;
    try (orun H as q Hq; injection H as <- <-; by eapply nat_vlan_size);
    orun H as t Ht; orun H as q Hq; injection H as <- <-; split_if; eauto; by injection Hq as <-.
Qed.

Lemma nat_pkt_size p mac p' : nat_pkt p mac = Ret p' -> size_ok p -> size_ok p'.
Proof.
  unfold nat_pkt, set_shost, put_at, nat_checksums. intros H Hs. orun H as p1 H1.
  orun H as [p2 v] H2. apply nat_addresses_size in H2; [|by eauto].
  destruct v; [|by injection H as <-].
  orun H as proto Hp. orun H as p3 H3. eauto.
Qed.

(** Lengths. *)
Lemma set_ip_checksum_length f ip f' : set_ip_checksum f ip = Ret f' -> length f' = length f.
Proof.
  unfold set_ip_checksum, st16. intros H. orun H as f1 H1. orun H as c Hc.
  apply mput_length in H1, H. congruence.
Qed.

Lemma spec_checksums_length ip ip' : spec_checksums ip = Ret ip' -> length ip' = length ip.
Proof.
  unfold spec_checksums. intros H. orun H as proto Hp. orun H as ip1 H1.
  apply set_ip_checksum_length in H. rewrite H.
  split_if; [|by apply mput_length in H1].
  unfold set_tcp_checksum, st16 in H1. orun H1 as f1 Hf. orun H1 as c Hc.
  apply mput_length in Hf, H1. congruence.
Qed.

Lemma nat_spec_length p mac a a' : nat_spec p mac a = Ret a' -> length (a_ip a') = length (a_ip a).
Proof.
  unfold nat_spec. intros H. orun H as [a1 v] Ha.
  assert (length (a_ip a1) = length (a_ip a)) as Hl.
  { unfold spec_addresses in Ha. destruct (pt_origin p).
    1: orun Ha as m Hm; orun Ha as d Hd; orun Ha as ip Hip; injection Ha as <- <-; by apply mput_length in Hip.
    all: orun Ha as m Hm; destruct (pt_destination p); try (by injection Ha as <- <-);
      orun Ha as d Hd; orun Ha as ip Hip; apply mput_length in Hip;
      try (orun Ha as tci Ht); by injection Ha as <- <-. }
  destruct v; [|by injection H as <-].
  orun H as ip Hip. injection H as <-. simpl. apply spec_checksums_length in Hip. congruence.
Qed.

Lemma rep_send p a n :
  rep p a -> (n <= length (wire a))%nat ->
  mget (FRAME (pt_packet p)) (p_eth (pt_packet p)) n = Ret (take n (wire a)).
Proof.
  intros [_ _ _ _ (spare & Hsp & Hf)] Hn. rewrite Hf, <- Hsp, <- (Nat.add_0_r (length spare)), mget_shift.
  by rewrite mget_ok.
Qed.

Lemma link_len_pos a : 14 <= link_len a <= 18.
Proof. unfold link_len. destruct (a_tag a); lia. Qed.

(** The frame [nat] and [pcap_inject] put on the wire. *)
Definition sent_frame (p : pkt_struct) (a a' : apkt) : list Z :=
  take (Z.to_nat (pt_size p - link_len a + link_len a')) (wire a').

(** A packet that is whole: its size covers the link header and does not exceed
    the captured bytes. *)
Definition whole (p : pkt_struct) (a : apkt) : Prop :=
  link_len a <= pt_size p /\ pt_size p - link_len a <= Z.of_nat (length (a_ip a)) /\
  pt_size p + 4 < 2 ^ 32.

(** The state after a frame was handed to [pcap_inject]. *)
Definition after_send (w : world) (pkt : ptr) (p' : pkt_struct) (out : ptr) (sent : list Z) : world :=
  let w1 := w <| w_pkts := <[pkt := p']> (w_pkts w) |> in
  if pcap_accepts w out sent then w1 <| w_sent := (out, sent) :: w_sent w |> else w1.

Lemma nat_send pkt p a a' out i w :
  w_pkts w !! pkt = Some p -> pt_out p = Some out -> w_ifaces w !! out = Some i ->
  rep p a -> length (if_mac i) = 6%nat ->
  (forall m, nat_dst_mac (pt_nat p) = Some m -> length m = 6%nat) -> vlan_ok p a -> whole p a ->
  nat_spec p (if_mac i) a = Ret a' ->
  exists p', (do_ do_nat pkt; send_pkt pkt) w =
      Ret (if pcap_accepts w out (sent_frame p a a') then OK else NOK,
           after_send w pkt p' out (sent_frame p a a')) /\
    rep p' a' /\ same_meta p p'.
Proof.
  intros Hp Ho Hi Hr Hmac Hdm Hv (Hlo & Hhi & Hmax) Hs.
  destruct (nat_refines p a (if_mac i) a' Hr Hmac Hdm Hv Hs) as (p' & Hn & Hr' & Hm & Hsz).
  pose proof (link_len_pos a). pose proof (link_len_pos a').
  assert (Hsize : pt_size p' = pt_size p - link_len a + link_len a').
  { apply nat_pkt_size in Hn; [|unfold size_ok; lia]. unfold size_ok, u32 in *.
    rewrite !Z.mod_small in Hsz by lia. lia. }
  exists p'. split; [|done]. unfold do_nat, send_pkt, after_send.
  wstep. rewrite Ho. wstep. unfold slift. rewrite Hn. wstep.
  assert (Hout : pt_out p' = Some out) by (rewrite Hm, <- Ho; by destruct p as [[]]).
  unfold deref at 1. cbn [field_upd w_pkts]. simpl w_pkts. rewrite lookup_insert_eq.
  rewrite Hout. unfold deref at 1. simpl w_ifaces. rewrite Hi.
  rewrite (rep_send p' a') by (done || (rewrite Hsize; unfold wire; rewrite length_app, (nat_spec_length _ _ _ _ Hs);
    pose proof (length_link a' (rep_dst _ _ Hr') (rep_src _ _ Hr')); lia)).
  unfold pcap_inject. simpl pcap_accepts. rewrite Hsize. fold (sent_frame p a a').
  by destruct (pcap_accepts w out (sent_frame p a a')).
Qed.

Lemma mput_sub f off bs f' o n :
  mput f off bs = Ret f' -> (o + n <= off)%nat \/ (off + length bs <= o)%nat -> sub f' o n = sub f o n.
Proof. intros [Hb ->]%mput_Ret_inv Hd. by apply sub_upd_disjoint. Qed.

(** The checksums leave the addresses alone. *)
Lemma spec_checksums_addresses ip ip' : spec_checksums ip = Ret ip' -> sub ip' 12 8 = sub ip 12 8.
Proof.
  unfold spec_checksums. intros H. orun H as proto Hp. orun H as ip1 H1.
  transitivity (sub ip1 12 8).
  - unfold set_ip_checksum, st16 in H. orun H as f1 Hf. orun H as c Hc.
    apply (mput_sub _ _ _ _ 12 8) in Hf, H; [congruence|rewrite length_le_encode; lia..].
  - split_if; [|apply (mput_sub _ _ _ _ 12 8) in H1; [done|rewrite length_le_encode; unfold IP_HDR_SIZE; lia]].
    unfold set_tcp_checksum, st16 in H1. orun H1 as f1 Hf. orun H1 as c Hc.
    apply (mput_sub _ _ _ _ 12 8) in Hf, H1; [congruence|rewrite length_le_encode; unfold IP_HDR_SIZE; lia..].
Qed.

Lemma mput_sub_same f off bs f' : mput f off bs = Ret f' -> sub f' off (length bs) = bs.
Proof. intros [Hb ->]%mput_Ret_inv. by apply sub_upd_same. Qed.

Lemma sub_prefix f off n k : (k <= n)%nat -> sub f off k = take k (sub f off n).
Proof. intros. unfold sub. rewrite take_take. f_equal. lia. Qed.
Lemma sub_suffix f off k n : sub f (off + k) n = drop k (sub f off (k + n)).
Proof. unfold sub. rewrite <- drop_drop. apply take_drop_commute. Qed.
Lemma sub_8_lo f : sub f 12 4 = take 4 (sub f 12 8).
Proof. apply sub_prefix. lia. Qed.
Lemma sub_8_hi f : sub f 16 4 = drop 4 (sub f 12 8).
Proof. apply (sub_suffix f 12 4 4). Qed.

Lemma pkt_conn_ok p ca c w : pt_conn p = Some ca -> w_conns w !! ca = Some c ->
  pkt_conn p w = Ret ((ca, c), w).
Proof. intros Hp Hc. unfold pkt_conn. rewrite Hp. unfold slift. cbn [nonnull]. by wstep. Qed.

(** C24: what the attacker's packet looks like on the honeynet.  For a
    connection opened from outside, [proxy_ext2int] hands one frame to the
    interface of the LIH: destination MAC and address of the LIH, source MAC of
    the interface, the VLAN tag of the LIH if it has one, the attacker's source
    address kept; it reports [OK] exactly when the driver takes the frame. *)
Theorem proxy_ext2int_sends pkt p a ca c ta t ha h out i mac ip a' w :
  w_pkts w !! pkt = Some p -> pt_conn p = Some ca -> w_conns w !! ca = Some c ->
  cn_initiator c = EXT -> cn_target c = Some ta -> w_targets w !! ta = Some t ->
  tg_front_handler t = Some ha -> w_handlers w !! ha = Some h ->
  hd_iface h = Some out -> w_ifaces w !! out = Some i -> length (if_mac i) = 6%nat ->
  hd_mac h = Some mac -> length mac = 6%nat -> hd_ip h = Some ip ->
  pt_origin p = EXT -> rep p a -> a_tag a = None -> whole p a ->
  nat_spec (set_nat_handler p h LIH) (if_mac i) a = Ret a' ->
  exists p', proxy_ext2int pkt w =
      Ret (if pcap_accepts w out (sent_frame p a a') then OK else NOK,
           after_send (w <| w_pkts := <[pkt := set_nat_handler p h LIH]> (w_pkts w) |>)
             pkt p' out (sent_frame p a a')) /\
    a_dst a' = mac /\ a_src a' = if_mac i /\ a_tag a' = spec_tag (hd_vlan h) None /\
    sub (a_ip a') 16 4 = le_encode 4 ip /\ sub (a_ip a') 12 4 = sub (a_ip a) 12 4.
Proof.
  intros Hp Hc Hca Hini Ht Hta Hf Hha Hout Hi Himac Hmac Hlmac Hip Horig Hr Htag Hw Hs.
  set (p1 := set_nat_handler p h LIH) in *.
  assert (Hr1 : rep p1 a) by (destruct Hr; constructor; done).
  set (w1 := w <| w_pkts := <[pkt := p1]> (w_pkts w) |>).
  destruct (nat_send pkt p1 a a' out i w1) as (p' & Hrun & Hr' & Hm).
  { simpl. by rewrite lookup_insert_eq. } { done. } { done. } { done. } { done. }
  { intros m. simpl. rewrite Hmac. by intros [= <-]. } { intros _ [? ?]. congruence. } { exact Hw. } { exact Hs. }
  exists p'. split.
  - unfold proxy_ext2int. wstep. rewrite (pkt_conn_ok p ca c w Hc Hca). wstep. rewrite Hini, Ht. wstep.
    rewrite Hf. wstep. fold p1. exact Hrun.
  - unfold nat_spec in Hs. orun Hs as [a1 v] Ha. unfold spec_addresses in Ha.
    change (pt_origin p1) with (pt_origin p) in Ha. rewrite Horig in Ha. cbn -[le_encode mput] in Ha.
    rewrite Hmac, Hip in Ha. cbn [nonnull obind] in Ha. orun Ha as ip1 Hput. injection Ha as <- <-.
    orun Hs as ip2 Hck. injection Hs as <-. cbn -[le_encode mput sub] in *.
    split_and!; [done..| |].
    + pose proof (mput_length _ _ _ _ Hput) as Hl1. pose proof (spec_checksums_length _ _ Hck) as Hl2.
      pose proof Hput as [Hb _]%mput_Ret_inv. rewrite length_le_encode in Hb.
      rewrite (sub_8_hi ip2), (spec_checksums_addresses _ _ Hck), <- sub_8_hi.
      apply mput_sub_same in Hput. by rewrite length_le_encode in Hput.
    + pose proof (mput_length _ _ _ _ Hput) as Hl1. pose proof (spec_checksums_length _ _ Hck) as Hl2.
      pose proof Hput as [Hb _]%mput_Ret_inv. rewrite length_le_encode in Hb.
      rewrite (sub_8_lo ip2), (spec_checksums_addresses _ _ Hck), <- sub_8_lo.
      apply (mput_sub _ _ _ _ 12 4) in Hput; [done|lia].
Qed.

(** * A concrete run *)

(** The SYN of the attacker as [process_packet] leaves it, attached to a
    connection (address 20) opened from outside. *)
Definition syn_pkt : pkt_struct :=
  PktStruct (Packet (repeat 0 4 ++ syn_frame) 4 18 38 58)
    (Headers (Some (take 14 syn_frame)) None (Some (take 20 (drop 14 syn_frame)))
       (Some (take 20 (drop 34 syn_frame))) None)
    false false EXT EXT 26 80 0 (Some 20%positive) nat_zero 0 (Some 1%positive) None.
Definition ext_conn : conn_struct :=
  conn_zero <| cn_initiator := EXT |> <| cn_destination := LIH |> <| cn_target := Some 10%positive |>
    <| cn_state := INIT |> <| cn_protocol := IPPROTO_TCP |>.
Definition world1 : world :=
  world0 <| w_pkts := {[ 21%positive := syn_pkt ]} |> <| w_conns := {[ 20%positive := ext_conn ]} |>.
Definition syn_apkt : apkt := APkt mac_up mac_ext None (drop 14 syn_frame).
Definition syn_at_lih : apkt :=
  match nat_spec (set_nat_handler syn_pkt lih_handler LIH) mac_down syn_apkt with
  | Ret a => a | Fault _ => syn_apkt
  end.

Lemma syn_rep : rep syn_pkt syn_apkt.
Proof. by constructor; try (exists (repeat 0 4)). Qed.

Lemma nat_refines_witness :
  exists p', nat_pkt (set_nat_handler syn_pkt lih_handler LIH) mac_down = Ret p' /\ rep p' syn_at_lih /\
    same_meta (set_nat_handler syn_pkt lih_handler LIH) p' /\
    u32 (pt_size p') = u32 (80 + (link_len syn_at_lih - link_len syn_apkt)).
Proof.
  apply (nat_refines (set_nat_handler syn_pkt lih_handler LIH) syn_apkt mac_down syn_at_lih).
  - destruct syn_rep; by constructor.
  - reflexivity.
  - by intros m [= <-].
  - by intros _ [? ?].
  - vm_compute. reflexivity.
Defined.

Lemma proxy_ext2int_sends_witness :
  exists p', proxy_ext2int 21 world1 =
      Ret (OK, after_send (world1 <| w_pkts := <[21%positive := set_nat_handler syn_pkt lih_handler LIH]> (w_pkts world1) |>)
             21 p' 2 (sent_frame syn_pkt syn_apkt syn_at_lih)) /\
    a_dst syn_at_lih = mac_lih /\ a_src syn_at_lih = mac_down /\ a_tag syn_at_lih = spec_tag 0 None /\
    sub (a_ip syn_at_lih) 16 4 = le_encode 4 ip_lih /\ sub (a_ip syn_at_lih) 12 4 = sub (a_ip syn_apkt) 12 4.
Proof.
  apply (proxy_ext2int_sends 21 syn_pkt syn_apkt 20 ext_conn 10 the_target 11 lih_handler 2
    iface_down mac_lih ip_lih syn_at_lih world1); try reflexivity.
  - exact syn_rep.
  - split_and!; vm_compute; congruence.
Defined.
