(* ===== verification/Transparency.v ===== *)
(** What leaves the gateway towards the outside: the frame [proxy_int2ext]
    ([netcode.c]) sends for a honeypot shows the address the attacker knows, or
    the public address of the connection, never that of the honeypot. *)
From S2P Require Import Prelude Mem Types World Samples Keys Checksum TcpOptions Packet Netcode NatSpec.

(** The address and the next hop a honeypot's packet leaves with: for a
    connection opened from outside, the address the attacker contacted and the
    hardware address it came from; else the address of the pin, or of the uplink,
    and the default route. *)
Definition public_addr (w : world) (c : conn_struct) (t : target) : option Z :=
  if decide (cn_initiator c = EXT) then Some (cn_first_pkt_dst_ip c)
  else match cn_pin_ip c with
       | Some pin => pn_ip <$> w_pins w !! pin
       | None => tg_default_route t ≫= fun r => w_ifaces w !! r ≫= if_ip
       end.
Definition next_hop (c : conn_struct) (t : target) : option (list Z) :=
  if decide (cn_initiator c = EXT) then Some (cn_first_pkt_src_mac c) else tg_default_route_mac t.

(** The packet as [proxy_int2ext] prepares it for [nat]. *)
Definition outward (p : pkt_struct) (c : conn_struct) (t : target) (src : Z) (mac : list Z) : pkt_struct :=
  p <| pt_out := tg_default_route t |> <| pt_destination := EXT |>
    <| pt_nat := NatStruct (Some src) (Some mac)
                   (if decide (cn_initiator c = EXT) then Some (cn_first_pkt_src_ip c) else nat_dst_ip (pt_nat p))
                   (nat_dst_vlan (pt_nat p)) |>.

(** What [nat] makes of it. *)
Lemma outward_spec p c t src mac out_mac a a' :
  pt_origin p <> EXT -> nat_spec (outward p c t src mac) out_mac a = Ret a' ->
  a_dst a' = mac /\ a_src a' = out_mac /\ a_tag a' = None /\
  sub (a_ip a') 12 4 = le_encode 4 src /\ sub (a_ip a') 16 4 = sub (a_ip a) 16 4.
Proof.
  intros Ho Hs. unfold nat_spec in Hs. orun Hs as [a1 v] Ha. unfold spec_addresses in Ha.
  assert (Ha' : (let! ip := mput (a_ip a) 12 (le_encode 4 src) in Ret (APkt mac out_mac None ip, true)) = Ret (a1, v)).
  { rewrite <- Ha. change (pt_origin (outward p c t src mac)) with (pt_origin p). by destruct (pt_origin p). }
  clear Ha. orun Ha' as ip1 Hput. injection Ha' as <- <-. orun Hs as ip2 Hck. injection Hs as <-.
  cbn -[le_encode mput sub] in *. split_and!; [done..| |].
  - rewrite (sub_8_lo ip2), (spec_checksums_addresses _ _ Hck), <- sub_8_lo.
    apply mput_sub_same in Hput. by rewrite length_le_encode in Hput.
  - rewrite (sub_8_hi ip2), (spec_checksums_addresses _ _ Hck), <- sub_8_hi.
    apply (mput_sub _ _ _ _ 16 4) in Hput; [done|rewrite length_le_encode; lia].
Qed.

(** C25: honeypots keep their addresses to themselves.  [proxy_int2ext] hands one
    frame to the uplink of the target: source MAC of the uplink, no VLAN tag, the
    next hop of the connection, the destination unchanged, and for source address
    the one the attacker contacted when the connection comes from outside, the
    public address of the connection else; it reports [OK] exactly when the
    driver takes the frame. *)
Theorem proxy_int2ext_masquerades pkt p a ca c ta t out i mac src a' w :
  w_pkts w !! pkt = Some p -> pt_conn p = Some ca -> w_conns w !! ca = Some c ->
  cn_target c = Some ta -> w_targets w !! ta = Some t ->
  tg_default_route t = Some out -> w_ifaces w !! out = Some i -> length (if_mac i) = 6%nat ->
  public_addr w c t = Some src -> next_hop c t = Some mac -> length mac = 6%nat ->
  pt_origin p <> EXT -> rep p a -> whole p a ->
  nat_spec (outward p c t src mac) (if_mac i) a = Ret a' ->
  exists p', proxy_int2ext pkt w =
      Ret (if pcap_accepts w out (sent_frame p a a') then OK else NOK,
           after_send (w <| w_pkts := <[pkt := outward p c t src mac]> (w_pkts w) |>)
             pkt p' out (sent_frame p a a')) /\
    a_dst a' = mac /\ a_src a' = if_mac i /\ a_tag a' = None /\
    sub (a_ip a') 12 4 = le_encode 4 src /\ sub (a_ip a') 16 4 = sub (a_ip a) 16 4.
Proof.
  intros Hp Hc Hca Ht Hta Hout Hi Himac Hsrc Hmac Hlmac Horig Hr Hw Hs.
  set (p1 := outward p c t src mac) in *.
  assert (Hr1 : rep p1 a) by (destruct Hr; constructor; done).
  set (w1 := w <| w_pkts := <[pkt := p1]> (w_pkts w) |>).
  destruct (nat_send pkt p1 a a' out i w1) as (p' & Hrun & Hr' & Hm).
  { simpl. by rewrite lookup_insert_eq. } { done. } { done. } { done. } { done. }
  { simpl. by intros m [= <-]. } { intros E. simpl in E. congruence. } { exact Hw. } { exact Hs. }
  exists p'. split; [|by eapply outward_spec].
  unfold proxy_int2ext. wstep. rewrite (pkt_conn_ok p ca c w Hc Hca). wstep. rewrite Ht. wstep.
  unfold public_addr, next_hop in Hsrc, Hmac. unfold p1, outward in Hrun, w1 |- *.
  destruct (decide (cn_initiator c = EXT)).
  - injection Hsrc as <-. injection Hmac as <-. wstep. exact Hrun.
  - unfold pin_addr. rewrite Hmac. destruct (cn_pin_ip c) as [pin|].
    + destruct (w_pins w !! pin) as [k|] eqn:E; [|done]. injection Hsrc as <-. wstep. exact Hrun.
    + rewrite Hout in Hsrc. cbn in Hsrc. rewrite Hi in Hsrc. cbn in Hsrc.
      assert (Hd : deref w_ifaces (tg_default_route t) w = Ret (i, w)) by (rewrite Hout; by apply deref_ok).
      wstep. rewrite Hd. cbn beta iota. rewrite Hsrc. exact Hrun.
Qed.

(** ** Witness *)

(** The LIH answers the attacker of [Samples]: its frame leaves with the address
    the attacker contacted. *)
Definition reply_pkt : pkt_struct :=
  PktStruct (Packet (repeat 0 4 ++ reply_frame) 4 18 38 58)
    (Headers (Some (take 14 reply_frame)) None (Some (take 20 (drop 14 reply_frame)))
       (Some (take 20 (drop 34 reply_frame))) None)
    false false LIH EXT 26 80 0 (Some 20%positive) nat_zero 0 (Some 2%positive) None.
Definition answered_conn : conn_struct :=
  ext_conn <| cn_first_pkt_src_ip := ip_ext |> <| cn_first_pkt_dst_ip := ip_target |> <| cn_first_pkt_src_mac := mac_ext |>.
Definition world_answered : world :=
  world0 <| w_pkts := {[ 21%positive := reply_pkt ]} |> <| w_conns := {[ 20%positive := answered_conn ]} |>.
Definition reply_apkt : apkt := APkt mac_down mac_lih None (drop 14 reply_frame).
Definition reply_outward : pkt_struct := outward reply_pkt answered_conn the_target ip_target mac_ext.
Definition reply_outside : apkt :=
  match nat_spec reply_outward mac_up reply_apkt with Ret a => a | Fault _ => reply_apkt end.

Lemma proxy_int2ext_masquerades_witness :
  exists p', proxy_int2ext 21 world_answered =
      Ret (OK, after_send (world_answered <| w_pkts := <[21%positive := reply_outward]> (w_pkts world_answered) |>)
             21 p' 1 (sent_frame reply_pkt reply_apkt reply_outside)) /\
    a_dst reply_outside = mac_ext /\ a_src reply_outside = mac_up /\ a_tag reply_outside = None /\
    sub (a_ip reply_outside) 12 4 = le_encode 4 ip_target /\
    sub (a_ip reply_outside) 16 4 = sub (a_ip reply_apkt) 16 4.
Proof.
  apply (proxy_int2ext_masquerades 21 reply_pkt reply_apkt 20 answered_conn 10 the_target 1 iface_up mac_ext ip_target
    reply_outside world_answered); try reflexivity.
  - discriminate.
  - constructor; try reflexivity. exists (repeat 0 4). split; reflexivity.
  - split_and!; vm_compute; congruence.
Defined.
