(* ===== verification/Forward.v ===== *)
(** Redirected connections ([netcode.c]: [forward_ext2hih], [forward_hih2ext],
    [reply_reset], [replay]): the translation of sequence numbers and
    timestamps between the two honeypots, the resets, and the progress of the
    replay. *)
From S2P Require Import Prelude Mem Types World Samples Keys Checksum TcpOptions Packet Netcode NatSpec.

(** * What the edits of a segment leave alone *)

Lemma mput_same_outside f off bs f' a b :
  mput f off bs = Ret f' -> (a <= off)%nat -> (off + length bs <= b)%nat -> same_outside a b f f'.
Proof.
  intros [Hb ->]%mput_Ret_inv Ha Hl. eapply same_outside_weaken; [exact Ha|exact Hl|].
  by apply same_outside_upd.
Qed.

Lemma st_same_outside n f off v f' a b :
  mput f off (le_encode n v) = Ret f' -> (a <= off)%nat -> (off + n <= b)%nat -> same_outside a b f f'.
Proof. intros H Ha Hb. eapply mput_same_outside; [exact H|exact Ha|by rewrite length_le_encode]. Qed.

Lemma set_tcp_checksum_same f ip f' :
  set_tcp_checksum f ip = Ret f' -> same_outside (ip + 36) (ip + 38) f f'.
Proof.
  unfold set_tcp_checksum, st16, IP_HDR_SIZE. intros H. orun H as f1 H1. orun H as c Hc.
  transitivity f1; eapply st_same_outside; eauto; lia.
Qed.

Lemma set_ip_checksum_same f ip f' :
  set_ip_checksum f ip = Ret f' -> same_outside (ip + 10) (ip + 12) f f'.
Proof.
  unfold set_ip_checksum, st16. intros H. orun H as f1 H1. orun H as c Hc.
  transitivity f1; eapply st_same_outside; eauto; lia.
Qed.

Lemma same_outside_end a f f' n : length f = n -> same_outside a n f f' ->
  forall b, (length f <= b)%nat -> same_outside a b f f'.
Proof. intros Hn Hs b Hb. eapply same_outside_weaken; [done| |exact Hs]. lia. Qed.

(** The timestamp parsers only write among the options. *)
Lemma st8_same f p v f' a : st8 f p v = Ret f' -> (a <= p)%nat -> same_outside a (length f) f f'.
Proof.
  unfold st8. intros H Hp. pose proof H as [Hb _]%mput_Ret_inv. rewrite length_le_encode in Hb.
  by eapply st_same_outside.
Qed.

Lemma strip_loop_same fuel f ptr len f' :
  strip_loop fuel f ptr len = Ret f' -> same_outside ptr (length f) f f'.
Proof.
  revert ptr. induction fuel as [|fuel IH]; intros ptr H; [done|].
  change (strip_loop (S fuel) f ptr len) with
    (if Z.of_nat ptr <? len then
      let! opcode := ld8 f ptr in
      let! opsize := ld8 f (ptr + 1) in
      if opcode =? TCPOPT_EOL then Ret f
      else if opcode =? TCPOPT_NOP then strip_loop fuel f (ptr + 1) len
      else if opcode =? TCPOPT_TIMESTAMP then st8 f ptr TCPOPT_EOL
      else strip_loop fuel f (ptr + Z.to_nat opsize) len
    else Ret f) in H.
  destruct (_ <? len); [|by injection H as <-]. orun H as op Hop. orun H as n Hn.
  destruct (op =? _); [by injection H as <-|].
  destruct (op =? _); [apply (same_outside_weaken (ptr + 1) (length f)); [lia|lia|by apply IH]|].
  destruct (op =? _); [by eapply st8_same|].
  apply (same_outside_weaken (ptr + Z.to_nat n) (length f)); [lia|lia|by apply IH].
Qed.

Lemma write_ts_same f ts v e f' a :
  write_ts f ts v e = Ret f' -> (a <= ts)%nat -> same_outside a (length f) f f'.
Proof.
  unfold write_ts, st32. intros H Ha. orun H as f1 H1.
  assert (same_outside a (length f) f f1) as Hs1.
  { destruct v; [|by injection H1 as <-]. pose proof H1 as [Hb _]%mput_Ret_inv.
    rewrite length_le_encode in Hb. by eapply st_same_outside. }
  destruct e; [|by injection H as <-]. pose proof H as [Hb _]%mput_Ret_inv.
  rewrite length_le_encode in Hb. etransitivity; [exact Hs1|].
  rewrite (proj1 Hs1) in Hb. eapply st_same_outside; [exact H|lia|lia].
Qed.

Lemma set_loop_same fuel f ptr len v e f' :
  set_loop fuel f ptr len v e = Ret f' -> same_outside ptr (length f) f f'.
Proof.
  revert ptr. induction fuel as [|fuel IH]; intros ptr H; [done|].
  change (set_loop (S fuel) f ptr len v e) with
    (if Z.of_nat ptr <? len then
      let! opcode := ld8 f ptr in
      let! opsize := ld8 f (ptr + 1) in
      if opcode =? TCPOPT_EOL then Ret f
      else if opcode =? TCPOPT_NOP then set_loop fuel f (ptr + 1) len v e
      else if opcode =? TCPOPT_TIMESTAMP then
        if opsize =? TCPOLEN_TIMESTAMP then write_ts f (ptr + 2) v e
        else set_loop fuel f ptr len v e
      else set_loop fuel f (ptr + Z.to_nat opsize) len v e
    else Ret f) in H.
  destruct (_ <? len); [|by injection H as <-]. orun H as op Hop. orun H as n Hn.
  destruct (op =? _); [by injection H as <-|].
  destruct (op =? _); [apply (same_outside_weaken (ptr + 1) (length f)); [lia|lia|by apply IH]|].
  destruct (op =? _).
  - destruct (n =? _); [eapply write_ts_same; [exact H|lia]|by apply IH].
  - apply (same_outside_weaken (ptr + Z.to_nat n) (length f)); [lia|lia|by apply IH].
Qed.

Lemma fix_tcp_timestamps_same f th c st f' :
  fix_tcp_timestamps f th c = Ret (st, f') -> same_outside (th + 20) (length f) f f'.
Proof.
  unfold fix_tcp_timestamps. intros H. split_if.
  - orun H as f1 H1. injection H as <- <-. unfold strip_tcp_timestamps in H1.
    orun H1 as doff Hd. split_if; [by injection H1 as <-|]. orun H1 as b Hb.
    destruct b; [eapply st8_same; [exact H1|lia]|by eapply strip_loop_same].
  - split_if; [|by injection H as <- <-]. orun H as r Hr.
    destruct r as [[[ts|] e]|]; try (by injection H as <- <-).
    orun H as sh Hsh. orun H as f1 H1. injection H as <- <-. unfold set_tcp_timestamps in H1.
    orun H1 as doff Hd. split_if; [by injection H1 as <-|]. orun H1 as b Hb.
    destruct b; [eapply write_ts_same; [exact H1|lia]|by eapply set_loop_same].
Qed.

(** * Sequence numbers *)

Definition seq_of (p : pkt_struct) : Z := ntohl (rd 4 (FRAME (pt_packet p)) (p_l4 (pt_packet p) + 4)).
Definition ack_of (p : pkt_struct) : Z := ntohl (rd 4 (FRAME (pt_packet p)) (p_l4 (pt_packet p) + 8)).

(** A TCP segment behind an IP header without options. *)
Definition plain_tcp (p : pkt_struct) : Prop :=
  ip_protocol (FRAME (pt_packet p)) (p_ip (pt_packet p)) = Ret IPPROTO_TCP /\
  p_l4 (pt_packet p) = (p_ip (pt_packet p) + 20)%nat.

Lemma with_frame_inv p g p' : with_frame p g = Ret p' ->
  exists f, g (FRAME (pt_packet p)) = Ret f /\ p' = set_frame p f.
Proof. unfold with_frame. intros H. orun H as f Hf. injection H as <-. eauto. Qed.

Lemma st32_rd f off v f' : st32 f off v = Ret f' -> rd 4 f' off = v mod 2 ^ 32.
Proof.
  unfold st32. intros [Hb ->]%mput_Ret_inv. rewrite length_le_encode in Hb. by apply (rd_upd_same 4).
Qed.

Lemma st32_same f off v f' : st32 f off v = Ret f' -> same_outside off (off + 4) f f'.
Proof. intros H. eapply st_same_outside; [exact H|lia|lia]. Qed.
Lemma st16_same f off v f' : st16 f off v = Ret f' -> same_outside off (off + 2) f f'.
Proof. intros H. eapply st_same_outside; [exact H|lia|lia]. Qed.

Lemma hih2ext_seq p c p' :
  plain_tcp p -> forward_hih2ext_l4 p c = Ret p' ->
  p_l4 (pt_packet p') = p_l4 (pt_packet p) /\
  seq_of p' = u32 (seq_of p + hih_delta (cn_hih c)) /\ ack_of p' = ack_of p.
Proof.
  intros [Hproto Hl4] H. unfold forward_hih2ext_l4 in H. rewrite Hproto in H. cbn [obind] in H.
  orun H as p1 H1. apply with_frame_inv in H1 as (f & H1 & ->). apply with_frame_inv in H as (f' & H & ->).
  split; [done|]. unfold seq_of, ack_of. rewrite Hl4 in *.
  orun H1 as f1 Hf1. orun H1 as s Hs. orun H1 as f2 Hf2. orun H1 as [st f3] Hf3.
  change (FRAME (pt_packet (set_frame p f))) with f in H. simpl p_ip in H.
  change (p_ip (pt_packet (set_frame p f))) with (p_ip (pt_packet p)) in H.
  change (FRAME (pt_packet (set_frame (set_frame p f) f'))) with f'.
  change (p_l4 (pt_packet (set_frame (set_frame p f) f'))) with (p_l4 (pt_packet p)). rewrite Hl4.
  set (ip := p_ip (pt_packet p)) in *. set (f0 := FRAME (pt_packet p)) in *.
  apply set_ip_checksum_same in H. apply set_tcp_checksum_same in H1.
  apply fix_tcp_timestamps_same in Hf3. pose proof (st32_rd _ _ _ _ Hf2) as Hseq.
  apply st16_same in Hf1. apply st32_same in Hf2. apply ld32_Ret_inv in Hs as [_ ->].
  rewrite (same_outside_rd _ _ _ _ H 4 (ip + 20 + 4)) by lia.
  rewrite (same_outside_rd _ _ _ _ H1 4 (ip + 20 + 4)) by lia.
  rewrite (same_outside_rd _ _ _ _ Hf3 4 (ip + 20 + 4)) by lia.
  rewrite (same_outside_rd _ _ _ _ H 4 (ip + 20 + 8)) by lia.
  rewrite (same_outside_rd _ _ _ _ H1 4 (ip + 20 + 8)) by lia.
  rewrite (same_outside_rd _ _ _ _ Hf3 4 (ip + 20 + 8)) by lia.
  rewrite (same_outside_rd _ _ _ _ Hf2 4 (ip + 20 + 8)) by lia.
  rewrite (same_outside_rd _ _ _ _ Hf1 4 (ip + 20 + 8)) by lia.
  split; [|done]. rewrite Hseq, (same_outside_rd _ _ _ _ Hf1 4 (ip + 20 + 4)) by lia.
  rewrite Z.mod_small by apply htonl_bound. apply ntohl_htonl. apply Z.mod_pos_bound. lia.
Qed.

Lemma ext2hih_ack p hih p' :
  plain_tcp p -> tcp_ack (FRAME (pt_packet p)) (p_l4 (pt_packet p)) = Ret true ->
  forward_ext2hih_l4 p hih = Ret p' ->
  p_l4 (pt_packet p') = p_l4 (pt_packet p) /\
  ack_of p' = u32 (ack_of p - hih_delta hih) /\ seq_of p' = seq_of p.
Proof.
  intros [Hproto Hl4] Hack H. unfold forward_ext2hih_l4 in H. rewrite Hproto in H. cbn [obind] in H.
  orun H as p1 H1. apply with_frame_inv in H1 as (f & H1 & ->). apply with_frame_inv in H as (f' & H & ->).
  split; [done|]. unfold seq_of, ack_of. rewrite Hl4 in *.
  orun H1 as f1 Hf1. orun H1 as ack Hb. orun H1 as f2 Hf2.
  change (FRAME (pt_packet (set_frame p f))) with f in H.
  change (p_ip (pt_packet (set_frame p f))) with (p_ip (pt_packet p)) in H.
  change (FRAME (pt_packet (set_frame (set_frame p f) f'))) with f'.
  change (p_l4 (pt_packet (set_frame (set_frame p f) f'))) with (p_l4 (pt_packet p)). rewrite Hl4.
  set (ip := p_ip (pt_packet p)) in *. set (f0 := FRAME (pt_packet p)) in *.
  apply set_ip_checksum_same in H. apply set_tcp_checksum_same in H1. apply st16_same in Hf1.
  assert (ack = true) as ->.
  { unfold tcp_ack, tcp_flag in Hb, Hack. rewrite (same_outside_ld8 _ _ _ _ Hf1) in Hb by lia. congruence. }
  orun Hf2 as a Ha. pose proof (st32_rd _ _ _ _ Hf2) as Hnum. apply st32_same in Hf2.
  apply ld32_Ret_inv in Ha as [_ ->].
  rewrite (same_outside_rd _ _ _ _ H 4 (ip + 20 + 4)) by lia.
  rewrite (same_outside_rd _ _ _ _ H1 4 (ip + 20 + 4)) by lia.
  rewrite (same_outside_rd _ _ _ _ Hf2 4 (ip + 20 + 4)) by lia.
  rewrite (same_outside_rd _ _ _ _ Hf1 4 (ip + 20 + 4)) by lia.
  rewrite (same_outside_rd _ _ _ _ H 4 (ip + 20 + 8)) by lia.
  rewrite (same_outside_rd _ _ _ _ H1 4 (ip + 20 + 8)) by lia.
  split; [|done]. rewrite Hnum, (same_outside_rd _ _ _ _ Hf1 4 (ip + 20 + 8)) by lia.
  rewrite Z.mod_small by apply htonl_bound. rewrite ntohl_htonl by (apply Z.mod_pos_bound; lia).
  apply u32_lnot_sub.
Qed.

(** C30: on segments whose IP header has no options, the two forwarders translate
    sequence numbers consistently.  Whatever
    number the HIH gives a segment, an acknowledgement that the attacker sends
    for the translated segment (its number plus [n]) reaches the HIH as an
    acknowledgement of the segment it really sent (its own number plus [n]),
    on 32 bits with wrap-around; neither forwarder alters the other number.
    (With IP options [set_tcp_checksum] overwrites two bytes elsewhere in the segment.) *)
Theorem forward_numbering p c p' q q' n :
  plain_tcp p -> plain_tcp q -> tcp_ack (FRAME (pt_packet q)) (p_l4 (pt_packet q)) = Ret true ->
  forward_hih2ext_l4 p c = Ret p' -> forward_ext2hih_l4 q (cn_hih c) = Ret q' ->
  ack_of q = u32 (seq_of p' + n) ->
  ack_of q' = u32 (seq_of p + n) /\ ack_of p' = ack_of p /\ seq_of q' = seq_of q.
Proof.
  intros Hp Hq Hack Hf Hb Hn.
  destruct (hih2ext_seq p c p' Hp Hf) as (_ & Hs & Ha).
  destruct (ext2hih_ack q (cn_hih c) q' Hq Hack Hb) as (_ & Ha' & Hs').
  split_and!; [|done..]. rewrite Ha', Hn, Hs. unfold Z.sub.
  rewrite u32_add_l, <- Z.add_assoc, u32_add_l. f_equal. lia.
Qed.

(** A segment of the HIH, and the attacker's acknowledgement of it. *)
Definition hih_segment : pkt_struct :=
  let f := tcp_frame mac_down mac_hih ip_hih ip_ext 80 4321 7000 1001 0x10 [71; 69; 84] in
  PktStruct (Packet (repeat 0 4 ++ f) 4 18 38 58) headers_zero false false HIH EXT 3 57 0
    (Some 20%positive) nat_zero 0 (Some 2%positive) None.
Definition redirected : conn_struct :=
  conn_zero <| cn_hih := HihStruct 2 (Some 12%positive) (htons 80) 5000 (u32 (-2000)) None None |>.
Definition ext_segment : pkt_struct :=
  let f := tcp_frame mac_up mac_ext ip_ext ip_target 4321 80 1001 5003 0x10 [] in
  PktStruct (Packet (repeat 0 4 ++ f) 4 18 38 58) headers_zero false false EXT EXT 0 54 0
    (Some 20%positive) nat_zero 0 (Some 1%positive) None.

Lemma forward_numbering_witness :
  match forward_hih2ext_l4 hih_segment redirected, forward_ext2hih_l4 ext_segment (cn_hih redirected) with
  | Ret p', Ret q' => ack_of q' = u32 (7000 + 3) /\ ack_of p' = ack_of hih_segment /\
      seq_of q' = seq_of ext_segment
  | _, _ => False
  end.
Proof.
  destruct (forward_hih2ext_l4 hih_segment redirected) as [p'|] eqn:E1; [|vm_compute in E1; discriminate].
  destruct (forward_ext2hih_l4 ext_segment (cn_hih redirected)) as [q'|] eqn:E2; [|vm_compute in E2; discriminate].
  assert (Hn : ack_of ext_segment = u32 (seq_of p' + 3)).
  { vm_compute in E1. injection E1 as <-. vm_compute. reflexivity. }
  exact (forward_numbering hih_segment redirected p' ext_segment q' 3
    (conj eq_refl eq_refl) (conj eq_refl eq_refl) eq_refl E1 E2 Hn).
Defined.

(** * Resets *)

Lemma explode6 (l : list Z) : length l = 6%nat -> exists a b c d e f, l = [a; b; c; d; e; f].
Proof. destruct l as [|a [|b [|c [|d [|e [|f []]]]]]]; try done. by eexists _, _, _, _, _, _. Qed.

Lemma mget_inv_length f off n bs : mget f off n = Ret bs -> length bs = n.
Proof. intros [H ->]%mget_Ret_inv. by apply length_sub. Qed.

(** The link header of the reset. *)
Definition reset_tag (oh : headers) : list Z :=
  match oh_vlan oh with Some v => sub v 12 6 | None => [8; 0] end.

Record headers_ok (oh : headers) (d s oip otcp : list Z) : Prop := {
  ho_d : length d = 6%nat;
  ho_s : length s = 6%nat;
  ho_link : match oh_vlan oh with
            | Some v => v = d ++ s ++ sub v 12 6 /\ length v = 18%nat
            | None => exists t, oh_eth oh = Some (d ++ s ++ t) /\ length t = 2%nat end;
  ho_ip : oh_ip oh = Some oip;
  ho_oip : (20 <= length oip)%nat;
  ho_tcp : oh_tcp oh = Some otcp;
  ho_otcp : length otcp = 20%nat;
  ho_bytes : bytes d /\ bytes s /\ bytes (reset_tag oh) /\ bytes oip /\ bytes otcp;
}.

Lemma reset_link_eq oh d s oip otcp :
  headers_ok oh d s oip otcp ->
  exists f, reset_link oh = Ret (f, (12 + length (reset_tag oh))%nat, Z.of_nat (60 + length (reset_tag oh))) /\
    f = s ++ d ++ reset_tag oh ++ repeat 0 (length f - 12 - length (reset_tag oh)) /\ length f = 66%nat /\
    (length (reset_tag oh) = 2 \/ length (reset_tag oh) = 6)%nat.
Proof.
  intros [Hd Hs Hl _ _ _ _ _]. unfold reset_link, reset_tag in *.
  apply explode6 in Hd as (d0&d1&d2&d3&d4&d5&->). apply explode6 in Hs as (s0&s1&s2&s3&s4&s5&->).
  destruct (oh_vlan oh) as [v|].
  - destruct Hl as [Hv Hlen].
    assert (length (sub v 12 6) = 6%nat) as H6 by (apply length_sub; lia).
    apply explode6 in H6 as (t0&t1&t2&t3&t4&t5&Et). rewrite Et in *. clear Et. subst v.
    cbv -[Z.of_nat]. eexists. split; [reflexivity|]. split; [reflexivity|]. split; [done|]. by right.
  - destruct Hl as (t & -> & Ht). destruct t as [|t0 [|t1 []]]; try done.
    cbv -[Z.of_nat]. eexists. split; [reflexivity|]. split; [reflexivity|]. split; [done|]. by left.
Qed.

(** The numbers of RFC 793, read in the bytes of the received headers: the
    sequence number of the segment, and the space it takes, which is its payload
    and one for each of [SYN] and [FIN]. *)
Definition be_encode (n : nat) (z : Z) : list Z := rev (le_encode n z).
Definition byte_at (l : list Z) (i : nat) : Z := default 0 (l !! i).
Definition seg_bit (otcp : list Z) (bit : Z) : bool := Z.testbit (byte_at otcp 13) bit.
Definition seg_seq (otcp : list Z) : Z := be_decode (sub otcp 4 4).
Definition seg_len (oip otcp : list Z) : Z :=
  be_decode (sub oip 2 2) - 4 * (byte_at oip 0 mod 16) - 4 * (byte_at otcp 12 / 16)
  + (if seg_bit otcp 1 then 1 else 0) + (if seg_bit otcp 0 then 1 else 0).

Lemma le_encode_htonl z : le_encode 4 (htonl z) = be_encode 4 z.
Proof.
  unfold htonl, be_decode, be_encode. rewrite <- (length_le_encode 4 z) at 1. rewrite <- length_rev.
  apply le_encode_decode, bytes_rev, bytes_le_encode.
Qed.

Lemma ntohl_rd f o : bytes f -> (o + 4 <= length f)%nat -> ntohl (rd 4 f o) = be_decode (sub f o 4).
Proof.
  intros Hf Ho. unfold ntohl, htonl, rd. rewrite <- (length_sub f o 4) at 1 by done.
  by rewrite le_encode_decode by (by apply bytes_sub).
Qed.

Lemma ntohs_rd f o : bytes f -> (o + 2 <= length f)%nat -> ntohs (rd 2 f o) = be_decode (sub f o 2).
Proof.
  intros Hf Ho. unfold rd. pose proof (bytes_sub f o 2 Hf) as Hb. pose proof (length_sub f o 2 Ho) as Hl.
  destruct (sub f o 2) as [|a [|b [|]]]; try done. unfold be_decode. cbn [le_decode rev app].
  apply Forall_cons_1 in Hb as [Ha Hb]. apply Forall_cons_1 in Hb as [Hb _]. unfold is_byte in *.
  unfold ntohs, htons. rewrite !Z.mul_0_r, !Z.add_0_r.
  rewrite (Z.mul_comm 256 b), Z_mod_plus_full, Z.div_add by lia.
  rewrite (Z.div_small a), (Z.mod_small a), Z.add_0_l, (Z.mod_small b) by lia. lia.
Qed.

Lemma ld8_byte f o : (o < length f)%nat -> ld8 f o = Ret (byte_at f o).
Proof.
  intros Ho. rewrite ld8_ok by lia. unfold rd, sub, byte_at. destruct (lookup_lt_is_Some_2 f o Ho) as [b Hb].
  rewrite Hb, (drop_S _ _ _ Hb). cbn [take le_decode default]. f_equal. simpl. lia.
Qed.

Lemma tcp_flag_bit bit f : (13 < length f)%nat -> tcp_flag bit f 0 = Ret (seg_bit f bit).
Proof. intros Hf. unfold tcp_flag. by rewrite ld8_byte. Qed.

(** What the code adds up is the segment's end. *)
Lemma reset_ack_seq_rfc oip otcp :
  bytes oip -> bytes otcp -> (20 <= length oip)%nat -> length otcp = 20%nat ->
  reset_ack_seq oip otcp = Ret (u32 (seg_seq otcp + seg_len oip otcp)).
Proof.
  intros Hi Ht Hli Hlt. unfold reset_ack_seq, tcp_syn, tcp_fin, tcp_doff, ip_ihl, ip_tot_len.
  rewrite ld32_ok, !tcp_flag_bit, ld16_ok, !ld8_byte by lia. cbn [obind Nat.add].
  rewrite ntohl_rd, ntohs_rd by (done || lia). rewrite !Z.shiftl_mul_pow2, Z.shiftr_div_pow2 by lia.
  change 15 with (Z.ones 4). rewrite Z.land_ones by lia. change (2 ^ 2) with 4. change (2 ^ 4) with 16.
  do 2 f_equal. unfold seg_seq, seg_len, flag_bit. lia.
Qed.

(** The segment a reset must carry: addresses and ports exchanged, everything
    received acknowledged, [RST] and [ACK] set; eight more bytes are sent. *)
Definition rst_ip (oip : list Z) : list Z :=
  [0x45; 0; 0; 40; 0; 0; 0x40; 0; 0x40; 6; 0; 0] ++ sub oip 16 4 ++ sub oip 12 4.
Definition rst_tcp (otcp : list Z) (ack : bool) (a : Z) : list Z :=
  sub otcp 2 2 ++ sub otcp 0 2 ++ (if ack then sub otcp 8 4 else [0; 0; 0; 0]) ++
  be_encode 4 a ++ [0x50; 0x14; 0; 0; 0; 0; 0; 0].
Definition rst_wire (oh : headers) (d s oip otcp : list Z) (ack : bool) (a : Z) : list Z :=
  s ++ d ++ reset_tag oh ++ rst_ip oip ++ rst_tcp otcp ack a ++ repeat 0 8.

Definition reset_headers (oh : headers) : outcome (list Z * nat * Z) :=
  let! '(f, rst, size) := reset_link oh in
  let! oip := nonnull (oh_ip oh) in
  let! f := reset_ip f rst oip in
  let! otcp := nonnull (oh_tcp oh) in
  let! f := reset_tcp f (rst + IP_HDR_SIZE) oip otcp in
  Ret (f, rst, size).

Lemma reset_frame_headers oh :
  reset_frame oh =
  let! '(f, rst, size) := reset_headers oh in
  let! f := set_tcp_checksum f rst in
  let! f := set_ip_checksum f rst in
  mget f 0 (Z.to_nat size).
Proof.
  unfold reset_frame, reset_headers. rewrite obind_assoc.
  destruct (reset_link oh) as [[[f rst] size]|]; [|done]. cbn [obind]. rewrite obind_assoc.
  destruct (nonnull (oh_ip oh)) as [oip|]; [|done]. cbn [obind]. rewrite obind_assoc.
  destruct (reset_ip f rst oip) as [f1|]; [|done]. cbn [obind]. rewrite obind_assoc.
  destruct (nonnull (oh_tcp oh)) as [otcp|]; [|done]. cbn [obind]. rewrite obind_assoc. done.
Qed.

Ltac named l n :=
  lazymatch n with
  | O => idtac
  | S ?n => destruct l as [|? l]; [simpl in *; lia|named l n]
  end.

Lemma le_encode_4 z : exists b0 b1 b2 b3, le_encode 4 z = [b0; b1; b2; b3].
Proof. by eexists _, _, _, _. Qed.

(** Writing behind a link header is writing at the start of what follows it. *)
Lemma mput_right_0 l r bs : mput (l ++ r) (length l) bs = let! r' := mput r 0 bs in Ret (l ++ r').
Proof. rewrite <- (Nat.add_0_r (length l)) at 1. apply mput_right. Qed.

Ltac right_step :=
  first [rewrite mput_right_0 | rewrite mput_right]; rewrite ?obind_assoc; cbn [Nat.add];
  lazymatch goal with
  | |- obind (mput ?r ?i ?bs) _ = _ => destruct (mput r i bs) as [?|]; [|done]; cbn [obind]
  end.

Lemma reset_ip_right l r oip :
  reset_ip (l ++ r) (length l) oip = let! r' := reset_ip r 0 oip in Ret (l ++ r').
Proof.
  unfold reset_ip, st8, st16. do 5 right_step.
  destruct (mget oip 16 4) as [d|]; [|done]. cbn [obind]. right_step.
  destruct (mget oip 12 4) as [e|]; [|done]. cbn [obind]. apply mput_right.
Qed.

Lemma reset_tcp_right l r oip otcp :
  reset_tcp (l ++ r) (length l + 20) oip otcp = let! r' := reset_tcp r 20 oip otcp in Ret (l ++ r').
Proof.
  unfold reset_tcp, st8, st32. rewrite <- !Nat.add_assoc. cbn [Nat.add].
  destruct (mget otcp 2 2) as [d|]; [|done]. cbn [obind]. right_step.
  destruct (mget otcp 0 2) as [e|]; [|done]. cbn [obind]. right_step.
  destruct (tcp_ack otcp 0) as [ack|]; [|done]. cbn [obind].
  assert (Hseq : forall r1 (k : list Z -> outcome (list Z)),
    (let! f := (if ack : bool then let! a := mget otcp 8 4 in mput (l ++ r1) (length l + 24) a
                else Ret (l ++ r1)) in k f) =
    (let! r := (if ack : bool then let! a := mget otcp 8 4 in mput r1 24 a else Ret r1) in k (l ++ r))).
  { intros r1 k. destruct ack; [|done]. destruct (mget otcp 8 4) as [x|]; [|done]. cbn [obind].
    by rewrite mput_right, obind_assoc. }
  rewrite Hseq. clear Hseq. destruct (if ack : bool then _ else _) as [r3|]; [|done]. cbn [obind].
  destruct (reset_ack_seq oip otcp) as [seq|]; [|done]. cbn [obind]. do 2 right_step. apply mput_right.
Qed.

(** The two headers of the reset, written on cleared memory. *)
Lemma reset_segment z oip otcp ack a :
  (20 <= length oip)%nat -> length otcp = 20%nat ->
  tcp_ack otcp 0 = Ret ack -> reset_ack_seq oip otcp = Ret a ->
  exists z1, reset_ip (repeat 0 40 ++ z) 0 oip = Ret z1 /\
    reset_tcp z1 20 oip otcp = Ret (rst_ip oip ++ rst_tcp otcp ack a ++ z).
Proof.
  intros Hoip Hotcp Hack Ha. unfold reset_tcp. rewrite Hack, Ha. clear Hack Ha. cbn [obind].
  unfold rst_tcp. rewrite <- le_encode_htonl. destruct (le_encode_4 (htonl a)) as (a0 & a1 & a2 & a3 & Ea).
  unfold st32. rewrite Ea. clear Ea. named oip 20%nat. named otcp 20%nat. destruct otcp; [|done].
  clear Hoip Hotcp. eexists. split; [cbv -[Z.of_nat app]; cbn [app]; reflexivity|].
  destruct ack; cbv -[Z.of_nat app]; cbn [app]; reflexivity.
Qed.

Lemma reset_headers_eq oh d s oip otcp ack a :
  headers_ok oh d s oip otcp -> tcp_ack otcp 0 = Ret ack -> reset_ack_seq oip otcp = Ret a ->
  let rst := (12 + length (reset_tag oh))%nat in
  exists z, (length z = 14 - length (reset_tag oh))%nat /\ bytes z /\ take 8 z = repeat 0 8 /\
    reset_headers oh = Ret ((s ++ d ++ reset_tag oh) ++ rst_ip oip ++ rst_tcp otcp ack a ++ z, rst,
                            Z.of_nat (rst + 48)) /\
    length (s ++ d ++ reset_tag oh) = rst /\ (rst <= 18)%nat.
Proof.
  intros Hok Hack Ha rst. destruct (reset_link_eq oh d s oip otcp Hok) as (f & Hl & Hf & Hlen & Htag).
  destruct Hok as [Hd Hs _ Hip Hoip Htcp Hotcp _].
  assert (Hpre : length (s ++ d ++ reset_tag oh) = rst) by (rewrite !length_app; unfold rst; lia).
  set (tl := length (reset_tag oh)) in *.
  exists (repeat 0 (14 - tl)). split; [by rewrite repeat_length|].
  split; [apply bytes_zeros|].
  split; [destruct Htag as [-> | ->]; done|].
  assert (Hz : f = (s ++ d ++ reset_tag oh) ++ repeat 0 40 ++ repeat 0 (14 - tl)).
  { rewrite Hf, <- repeat_app, <- !app_assoc. do 3 f_equal. f_equal. lia. }
  destruct (reset_segment (repeat 0 (14 - tl)) oip otcp ack a Hoip Hotcp Hack Ha) as (z1 & H1 & H2).
  split; [|split; [done|unfold rst; lia]].
  unfold reset_headers. rewrite Hl. cbn [obind]. rewrite Hip. cbn [nonnull obind].
  rewrite Hz. fold tl. fold rst. rewrite <- Hpre, reset_ip_right, H1. cbn [obind]. rewrite Htcp. cbn [nonnull obind].
  unfold IP_HDR_SIZE. rewrite reset_tcp_right, H2. cbn [obind]. do 2 f_equal. rewrite Hpre. unfold rst. lia.
Qed.

Lemma bytes_rst oip otcp ack a z :
  bytes oip -> bytes otcp -> bytes z -> bytes (rst_ip oip ++ rst_tcp otcp ack a ++ z).
Proof.
  intros H1 H2 H3. unfold rst_ip, rst_tcp, be_encode.
  repeat apply bytes_app; try apply bytes_sub; try done; try solve_bytes;
    try (repeat constructor; apply Z.mod_pos_bound; lia).
  destruct ack; [by apply bytes_sub|solve_bytes].
Qed.

(** C35: the reset [reply_reset] sends.  For any received TCP headers it builds
    a frame (48 bytes after the link header, which is that of the received
    frame with the two MAC addresses exchanged, VLAN tag kept) that agrees with
    the specification [rst_wire] everywhere outside the two checksum fields,
    and both checksums verify at the receiver.  The numbers are those of RFC
    793: the reset takes the acknowledgement number of a segment that has one as
    its sequence number, and zero otherwise; it acknowledges the sequence number
    of the segment plus its length, in which [SYN] and [FIN] count for one. *)
Theorem reply_reset_frame oh d s oip otcp :
  headers_ok oh d s oip otcp ->
  let ack := seg_bit otcp 4 in let a := u32 (seg_seq otcp + seg_len oip otcp) in
  let rst := (12 + length (reset_tag oh))%nat in
  exists f, reset_frame oh = Ret f /\ length f = (rst + 48)%nat /\
    (forall i, ~ (rst + 10 <= i < rst + 12)%nat -> ~ (rst + 36 <= i < rst + 38)%nat ->
       f !! i = rst_wire oh d s oip otcp ack a !! i) /\
    in_cksum f rst 20 = Ret 0 /\
    in_cksum_bytes (tcp_pseudo f rst 20 ++ sub f (rst + 20) 20) = 0.
Proof.
  intros Hok ack a rst.
  assert (Hack : tcp_ack otcp 0 = Ret ack) by (destruct Hok; apply tcp_flag_bit; lia).
  assert (Ha : reset_ack_seq oip otcp = Ret a) by (destruct Hok as [? ? ? ? ? ? ? (? & ? & ? & ? & ?)]; by apply reset_ack_seq_rfc).
  destruct (reset_headers_eq oh d s oip otcp ack a Hok Hack Ha) as (z & Hz & Hbz & Hz8 & Hh & Hpre & Hrst).
  fold rst in Hh, Hpre, Hrst. rewrite reset_frame_headers, Hh. cbn [obind].
  set (pre := s ++ d ++ reset_tag oh) in *. set (body := rst_ip oip ++ rst_tcp otcp ack a ++ z) in *.
  pose proof Hok as [Hd Hs _ _ Hoip _ Hotcp (Hbd & Hbs & Hbt & Hbo & Hbtcp)].
  assert (Hlip : length (rst_ip oip) = 20%nat).
  { unfold rst_ip. rewrite !length_app, !length_sub by lia. done. }
  assert (Hltcp : length (rst_tcp otcp ack a) = 20%nat).
  { unfold rst_tcp, be_encode. rewrite !length_app, !length_sub, length_rev, length_le_encode by lia.
    destruct ack; [rewrite length_sub by lia|]; done. }
  assert (Hlb : length (pre ++ body) = 66%nat).
  { unfold body. rewrite !length_app, Hpre, Hlip, Hltcp, Hz. unfold rst in *. lia. }
  assert (Hb : bytes (pre ++ body)).
  { apply bytes_app; [|by apply bytes_rst]. unfold pre. by repeat apply bytes_app. }
  destruct (set_tcp_checksum_ok (pre ++ body) rst 20) as (f1 & H1 & Hv1 & Hb1 & Hl1 & Ho1); [done|lia| | |lia|].
  { rewrite <- Hpre, ip_ihl_right. reflexivity. }
  { rewrite <- Hpre, ip_tot_len_right. reflexivity. }
  rewrite H1. cbn [obind].
  destruct (set_ip_checksum_ok f1 rst) as (f2 & H2 & Hv2 & Hb2 & Hl2 & Ho2); [done|unfold IP_HDR_SIZE; lia|].
  rewrite H2. cbn [obind]. rewrite Nat2Z.id.
  exists (take (rst + 48) f2). rewrite mget_ok by lia. split; [done|].
  split; [rewrite length_take; lia|].
  assert (Hsub : forall o n, (o + n <= rst + 48)%nat -> sub (take (rst + 48) f2) o n = sub f2 o n).
  { intros o n Hon. unfold sub. apply list_eq. intros i. rewrite !lookup_take. case_decide; [|done].
    rewrite !lookup_drop, lookup_take, decide_True by lia. done. }
  split; [|split].
  - intros i Hi1 Hi2. rewrite lookup_take. unfold rst_wire. fold rst.
    replace (s ++ d ++ reset_tag oh ++ rst_ip oip ++ rst_tcp otcp ack a ++ repeat 0 8)
      with (take (rst + 48) (pre ++ body)).
    2:{ rewrite take_app, Hpre, take_ge by lia. unfold body, pre. rewrite <- !app_assoc. do 3 f_equal.
        replace (rst + 48 - rst)%nat with (20 + (20 + 8))%nat by lia.
        rewrite take_app_add' by done. rewrite take_app_add' by done. by rewrite Hz8. }
    rewrite lookup_take. case_decide; [|done]. rewrite Ho2, Ho1 by lia. done.
  - unfold in_cksum in *. rewrite mget_ok in * by (rewrite ?length_take; unfold IP_HDR_SIZE in *; lia).
    rewrite Hsub by lia. exact Hv2.
  - rewrite Hsub by lia. unfold tcp_pseudo in *. rewrite !Hsub by lia.
    assert (Hsame : same_outside (rst + 10) (rst + 12) f1 f2) by (split; [lia|intros i Hi; apply Ho2; lia]).
    rewrite !(same_outside_sub _ _ _ _ _ _ Hsame) by lia. exact Hv1.
Qed.

Lemma reply_reset_frame_witness :
  let oh := pt_original_headers syn_pkt in
  exists f, reset_frame oh = Ret f /\ length f = 62%nat /\
    (forall i, ~ (24 <= i < 26)%nat -> ~ (50 <= i < 52)%nat ->
       f !! i = rst_wire oh mac_up mac_ext (sub syn_frame 14 20) (sub syn_frame 34 20) false 1027 !! i) /\
    in_cksum f 14 20 = Ret 0 /\
    in_cksum_bytes (tcp_pseudo f 14 20 ++ sub f (14 + 20) 20) = 0.
Proof.
  apply (reply_reset_frame (pt_original_headers syn_pkt) mac_up mac_ext (sub syn_frame 14 20) (sub syn_frame 34 20)).
  constructor; try reflexivity.
  - exists [8; 0]. by split.
  - split_and!; solve_bytes.
Defined.

(** * Timestamps *)

Lemma u32_s32 z : u32 (s32 z) = u32 z.
Proof.
  unfold s32. destruct (u32 z <? 2 ^ 31); [apply u32_u32|].
  unfold u32. rewrite Zminus_mod, Z.mod_mod, Z.sub_0_r by done. by rewrite Z.mod_mod.
Qed.

(** The sum of two [int]s is defined; it is then the date on 32 bits. *)
Definition int_sum_ok (a b : Z) : bool := (- 2 ^ 31 <=? s32 a + s32 b) && (s32 a + s32 b <? 2 ^ 31).

Lemma shift_ts_u32 t d : shift_ts t d = if int_sum_ok t d then Ret (u32 (t + d)) else Fault SignedOverflow.
Proof.
  unfold shift_ts. fold (int_sum_ok t d). destruct (int_sum_ok t d); [|done]. f_equal.
  rewrite <- u32_add_l, u32_s32, u32_add_l, <- u32_add_r, u32_s32. by rewrite u32_add_r.
Qed.

Lemma read_ts_value f ts t o :
  read_ts f ts true true = Ret (Some t, Some o) -> read_ts f ts true false = Ret (Some t, None).
Proof.
  intros H. unfold read_ts in *. orun H as v Hv. rewrite Hv. cbn [obind]. orun H as e He.
  injection H as -> ->. done.
Qed.

Lemma get_loop_value fuel f ptr len t o :
  get_loop fuel f ptr len true true = Ret (Some (Some t, Some o)) ->
  get_loop fuel f ptr len true false = Ret (Some (Some t, None)).
Proof.
  revert ptr. induction fuel as [|fuel IH]; intros ptr; [done|].
  change (get_loop (S fuel) f ptr len) with (fun v e : bool =>
    if Z.of_nat ptr <? len then
      let! opcode := ld8 f ptr in
      let! opsize := ld8 f (ptr + 1) in
      if opcode =? TCPOPT_EOL then Ret None
      else if opcode =? TCPOPT_NOP then get_loop fuel f (ptr + 1) len v e
      else if opcode =? TCPOPT_TIMESTAMP then
        if opsize =? TCPOLEN_TIMESTAMP then
          let! r := read_ts f (ptr + 2) v e in Ret (Some r)
        else get_loop fuel f ptr len v e
      else get_loop fuel f (ptr + Z.to_nat opsize) len v e
    else Ret None). cbv beta.
  destruct (_ <? len); [|done]. intros H. orun H as op Hop. orun H as n Hn. rewrite Hop, Hn. cbn [obind].
  destruct (op =? _); [done|]. destruct (op =? _); [by apply IH|].
  destruct (op =? _); [|by apply IH]. destruct (n =? _); [|by apply IH].
  orun H as r Hr. injection H as ->. by rewrite (read_ts_value _ _ _ _ Hr).
Qed.

Lemma get_value f th t o :
  get_tcp_timestamps f th true true = Ret (Some (Some t, Some o)) ->
  get_tcp_timestamps f th true false = Ret (Some (Some t, None)).
Proof.
  unfold get_tcp_timestamps. intros H. orun H as doff Hd. rewrite Hd. cbn [obind].
  destruct (doff =? 5); [done|]. orun H as b Hb. rewrite Hb. cbn [obind].
  destruct b; [|by eapply get_loop_value].
  orun H as r Hr. injection H as ->. by rewrite (read_ts_value _ _ _ _ Hr).
Qed.

(** A date that was read is a 32-bit number. *)
Lemma get_loop_date fuel f ptr len t o : get_loop fuel f ptr len true false = Ret (Some (Some t, o)) -> 0 <= t.
Proof.
  revert ptr. induction fuel as [|fuel IH]; intros ptr; [done|].
  change (get_loop (S fuel) f ptr len) with (fun v e : bool =>
    if Z.of_nat ptr <? len then
      let! opcode := ld8 f ptr in
      let! opsize := ld8 f (ptr + 1) in
      if opcode =? TCPOPT_EOL then Ret None
      else if opcode =? TCPOPT_NOP then get_loop fuel f (ptr + 1) len v e
      else if opcode =? TCPOPT_TIMESTAMP then
        if opsize =? TCPOLEN_TIMESTAMP then
          let! r := read_ts f (ptr + 2) v e in Ret (Some r)
        else get_loop fuel f ptr len v e
      else get_loop fuel f (ptr + Z.to_nat opsize) len v e
    else Ret None). cbv beta.
  destruct (_ <? len); [|done]. intros H. orun H as op Hop. orun H as n Hn.
  destruct (op =? _); [done|]. destruct (op =? _); [by eapply IH|].
  destruct (op =? _); [|by eapply IH]. destruct (n =? _); [|by eapply IH].
  orun H as r Hr. injection H as ->. unfold read_ts in Hr. orun Hr as v Hv. orun Hv as x Hx.
  injection Hv as <-. injection Hr as <- <-. apply htonl_bound.
Qed.

Lemma get_date f th t o : get_tcp_timestamps f th true false = Ret (Some (Some t, o)) -> 0 <= t.
Proof.
  unfold get_tcp_timestamps. intros H. orun H as doff Hd. destruct (doff =? 5); [done|]. orun H as b Hb.
  destruct b; [|by eapply get_loop_date]. orun H as r Hr. injection H as ->.
  unfold read_ts in Hr. orun Hr as v Hv. orun Hv as x Hx. injection Hv as <-. injection Hr as <- <-. apply htonl_bound.
Qed.

(** What a test that compared the dates leaves in the connection. *)
Lemma land_lor_0 a b c : Z.land a c = 0 -> Z.land b c = 0 -> Z.land (Z.lor a b) c = 0.
Proof. intros Ha Hb. by rewrite Z.land_lor_distr_l, Ha, Hb. Qed.
Lemma test_expected_skew conn pkt w w' c p e t o :
  w_conns w !! conn = Some c -> w_pkts w !! pkt = Some p ->
  test_expected conn pkt w = Ret (OK, w') ->
  ip_protocol (FRAME (pt_packet p)) (p_ip (pt_packet p)) = Ret IPPROTO_TCP ->
  get_tcp_timestamps (FRAME (pt_packet p)) (p_l4 (pt_packet p)) true false = Ret (Some (Some t, o)) ->
  ed_tcp_ts (cn_expected_data c) = e -> 0 <= e -> t <> e ->
  exists c1 other, w_conns w' !! conn = Some c1 /\ cn_tcp_ts_diff c1 = e - t /\
    (other = 0 \/ other = REPLAY_UNEXPECTED_PAYLOAD) /\
    cn_replay_problem c1 = Z.lor (Z.lor (cn_replay_problem c) REPLAY_TCP_TS_OUTOFSYNC) other.
Proof.
  intros Hc Hp H Hproto Hg He Hpos Hne. pose proof (get_date _ _ _ _ Hg) as Ht.
  unfold test_expected, get_conn, get_pkt in H. srun H as c0 w1 H1. apply deref_Ret_inv in H1 as (a & [= <-] & Ea & ->).
  assert (c0 = c) as -> by congruence. srun H as p0 w1 H1. apply deref_Ret_inv in H1 as (a & [= <-] & Ep & ->).
  assert (p0 = p) as -> by congruence. srun H as [bad c'] w1 H1. apply slift_Ret_inv in H1 as [Hh ->].
  destruct bad as [bit|]; [srun H as u w2 H2; discriminate|].
  assert (c' = add_problem (c <| cn_tcp_ts_diff := e - t |>) REPLAY_TCP_TS_OUTOFSYNC) as ->.
  { unfold test_headers in Hh. rewrite Hproto in Hh. cbn [obind] in Hh. destruct (negb _); [done|].
    change (IPPROTO_TCP =? IPPROTO_TCP) with true in Hh. cbn match in Hh. orun Hh as syn Hs. orun Hh as bad Hb.
    destruct bad; [done|]. orun Hh as ack Ha. destruct (negb _); [done|]. rewrite Hg in Hh. cbn [obind] in Hh.
    unfold test_timestamps in Hh. rewrite He in Hh.
    destruct (Z.eqb_spec e (-1)); [lia|]. destruct (Z.ltb_spec (-1) e); [|lia]. destruct (Z.ltb_spec (-1) t); [|lia].
    destruct (Z.eqb_spec t e); [done|]. cbn [andb negb] in Hh. by injection Hh as <-. }
  srun H as [q off] w1 H1. apply slift_Ret_inv in H1 as [_ ->]. srun H as k w1 H1. apply deref_Ret_inv in H1 as (a & _ & _ & ->).
  srun H as same w1 H1. apply slift_Ret_inv in H1 as [_ ->]. srun H as u w1 H1. injection H1 as _ <-. injection H as <-.
  destruct same; eexists; [exists 0|exists REPLAY_UNEXPECTED_PAYLOAD]; (split; [apply lookup_insert_eq|]); simpl;
    rewrite ?Z.lor_0_r; auto.
Qed.

(** C36: timestamps are resynchronised.  When the replay ([test_expected]) finds
    the HIH's timestamp [t] where the LIH's was [e], it stores the skew in the
    connection; from then on, and if no timestamp was found where none was
    expected (the timestamps are then stripped), [fix_tcp_timestamps] succeeds on
    every segment that carries a timestamp: one stamped [t'] by the HIH leaves
    with the LIH's clock, [e + (t' - t)] on 32 bits, its echo unchanged.  The
    exception is an addition of [int]s that overflows, which is undefined. *)
Theorem timestamps_resynchronised conn pkt w w' c p e t o :
  w_conns w !! conn = Some c -> w_pkts w !! pkt = Some p ->
  test_expected conn pkt w = Ret (OK, w') ->
  ip_protocol (FRAME (pt_packet p)) (p_ip (pt_packet p)) = Ret IPPROTO_TCP ->
  get_tcp_timestamps (FRAME (pt_packet p)) (p_l4 (pt_packet p)) true false = Ret (Some (Some t, o)) ->
  ed_tcp_ts (cn_expected_data c) = e -> 0 <= e -> t <> e ->
  Z.land (cn_replay_problem c) REPLAY_UNEXPECTED_TCP_TS = 0 ->
  exists c1, w_conns w' !! conn = Some c1 /\ cn_tcp_ts_diff c1 = e - t /\
    forall c2 f th t' o', cn_tcp_ts_diff c2 = cn_tcp_ts_diff c1 -> cn_replay_problem c2 = cn_replay_problem c1 ->
      bytes f -> get_tcp_timestamps f th true true = Ret (Some (Some t', Some o')) ->
      if int_sum_ok t' (e - t) then
        exists f', fix_tcp_timestamps f th c2 = Ret (OK, f') /\
          get_tcp_timestamps f' th true true = Ret (Some (Some (u32 (e + (t' - t))), Some o'))
      else fix_tcp_timestamps f th c2 = Fault SignedOverflow.
Proof.
  intros Hc Hp H Hproto Hg He Hpos Hne Hun.
  destruct (test_expected_skew _ _ _ _ _ _ _ _ _ Hc Hp H Hproto Hg He Hpos Hne) as (c1 & x & Hc1 & Hd & Hx & Hb).
  exists c1. split; [done|]. split; [done|]. intros c2 f th t' o' Hd2 Hb2 Hf Hg'.
  assert (Hun2 : Z.land (cn_replay_problem c2) REPLAY_UNEXPECTED_TCP_TS = 0).
  { rewrite Hb2, Hb. apply land_lor_0; [by apply land_lor_0|]. by destruct Hx as [-> | ->]. }
  assert (Hout : Z.land (cn_replay_problem c2) REPLAY_TCP_TS_OUTOFSYNC <> 0).
  { rewrite Hb2, Hb, !Z.land_lor_distr_l. intros E. apply Z.lor_eq_0_iff in E as [[_ E]%Z.lor_eq_0_iff _]. discriminate. }
  unfold fix_tcp_timestamps. rewrite Hun2, (proj2 (Z.eqb_neq _ _) Hout), (get_value _ _ _ _ Hg'). cbn [Z.eqb negb obind].
  rewrite shift_ts_u32, Hd2, Hd. destruct (int_sum_ok t' (e - t)); [|done]. cbn [obind].
  destruct (set_get_ts f th (Some (u32 (t' + (e - t)))) None t' o') as (f' & Hs & Hg2 & _); [done|apply u32_range|done|done|].
  exists f'. rewrite Hs. cbn [obind]. split; [done|]. rewrite Hg2. simpl default. by replace (t' + (e - t)) with (e + (t' - t)) by lia.
Qed.

(** A segment of the HIH dated 256, where 300 was expected. *)
Definition dated_segment : pkt_struct :=
  PktStruct (Packet (repeat 0 18 ++ [0x45; 0; 0; 52; 0; 0; 0x40; 0; 64; 6; 0; 0] ++ repeat 0 8 ++ ts_header_loop) 4 18 38 70)
    headers_zero false false HIH EXT 0 66 0 (Some 20%positive) nat_zero 0 (Some 2%positive) None.
Definition dated_conn : conn_struct :=
  conn_zero <| cn_expected_data := ExpectedData 6 1 0 300 (Some (21%positive, 0%nat)) |>.
Definition dated_world : world :=
  world0 <| w_pkts := {[ 21%positive := dated_segment ]} |> <| w_conns := {[ 20%positive := dated_conn ]} |>.

Lemma timestamps_resynchronised_witness :
  exists c1, w_conns (state_after (test_expected 20 21) dated_world) !! 20%positive = Some c1 /\
    cn_tcp_ts_diff c1 = 300 - 256 /\
    exists f', fix_tcp_timestamps ts_header_loop 0 c1 = Ret (OK, f') /\
      get_tcp_timestamps f' 0 true true = Ret (Some (Some (u32 (300 + (256 - 256))), Some 512)).
Proof.
  destruct (timestamps_resynchronised 20 21 dated_world (state_after (test_expected 20 21) dated_world)
    dated_conn dated_segment 300 256 None) as (c1 & H1 & H2 & H3);
    [reflexivity|reflexivity|vm_compute; reflexivity|reflexivity|reflexivity|reflexivity|lia|lia|reflexivity|].
  exists c1. split; [done|]. split; [done|].
  exact (H3 c1 ts_header_loop 0%nat 256 512 eq_refl eq_refl ltac:(solve_bytes) eq_refl).
Defined.

(** * Progress of the replay *)

(** [m] neither hangs nor touches the connections. *)
Definition keeps_conns {A} (m : M A) : Prop := forall w,
  match m w with Ret (_, w') => w_conns w' = w_conns w | Fault e => e <> Hangs end.
Definition no_hang {A} (o : outcome A) : Prop := o <> Fault Hangs.

Lemma keeps_ret {A} (a : A) : keeps_conns (sret a).
Proof. by intros w. Qed.
Lemma keeps_bind {A B} (m : M A) (k : A -> M B) :
  keeps_conns m -> (forall a, keeps_conns (k a)) -> keeps_conns (sbind m k).
Proof.
  intros Hm Hk w. unfold sbind. specialize (Hm w). destruct (m w) as [[a w1]|]; [|done].
  specialize (Hk a w1). destruct (k a w1) as [[b w2]|]; [|done]. congruence.
Qed.
Lemma keeps_deref {V} (h : world -> gmap ptr V) p : keeps_conns (deref h p).
Proof. intros w. unfold deref. destruct p as [a|]; [|done]. by destruct (h w !! a). Qed.
Lemma keeps_lift {A} (o : outcome A) : no_hang o -> keeps_conns (slift o).
Proof. intros H w. unfold slift. destruct o as [a|e]; [done|]. intros ->. done. Qed.
Lemma keeps_put_pkt p v : keeps_conns (put_pkt p v).
Proof. by intros w. Qed.
Lemma keeps_inject i f : keeps_conns (pcap_inject i f).
Proof. intros w. unfold pcap_inject. by destruct (pcap_accepts w i f). Qed.

Lemma nh_ret {A} (a : A) : no_hang (Ret a).
Proof. done. Qed.
Lemma nh_bind {A B} (o : outcome A) (k : A -> outcome B) :
  no_hang o -> (forall a, no_hang (k a)) -> no_hang (obind o k).
Proof. unfold no_hang. destruct o; simpl; [auto|]. congruence. Qed.
Lemma nh_mget f o n : no_hang (mget f o n).
Proof. unfold no_hang, mget. by case_decide. Qed.
Lemma nh_mput f o b : no_hang (mput f o b).
Proof. unfold no_hang, mput. by case_decide. Qed.
Lemma nh_nonnull {A} (o : option A) : no_hang (nonnull o).
Proof. by destruct o. Qed.
Lemma nh_oob {A} : no_hang (@Fault A OutOfBounds).
Proof. done. Qed.

#[export] Hint Resolve nh_ret nh_mget nh_mput nh_nonnull nh_oob keeps_ret keeps_deref
  keeps_put_pkt keeps_inject : nohang.

Ltac nohang :=
  repeat first
    [ solve [auto with nohang]
    | apply nh_bind; [|intros ?] | apply keeps_bind; [|intros ?] | apply keeps_lift
    | match goal with
      | |- context [if ?b then _ else _] => destruct b
      | |- context [match ?x with Some _ => _ | None => _ end] => destruct x
      | |- context [let '(_, _) := ?x in _] => destruct x
      end ].

Lemma nh_tcp_checksum f ip : no_hang (set_tcp_checksum f ip).
Proof.
  unfold set_tcp_checksum, tcp_checksum, hdrdata_size, ip_tot_len, ip_ihl, in_cksum, st16, ld16, ld8.
  nohang.
Qed.
Lemma nh_udp_checksum f ip : no_hang (set_udp_checksum f ip).
Proof. unfold set_udp_checksum, st16. nohang. Qed.
Lemma nh_ip_checksum f ip : no_hang (set_ip_checksum f ip).
Proof. unfold set_ip_checksum, in_cksum, st16. nohang. Qed.
#[export] Hint Resolve nh_tcp_checksum nh_udp_checksum nh_ip_checksum : nohang.

Lemma nh_with_frame p g : (forall f, no_hang (g f)) -> no_hang (with_frame p g).
Proof. intros H. unfold with_frame. nohang. Qed.

Lemma nh_ext2hih_headers p h mac : no_hang (forward_ext2hih_headers p h mac).
Proof.
  unfold forward_ext2hih_headers, write_vlan_header, set_shost, set_dhost, set_daddr, put_at, eth_type,
    with_frame, mmove, ld16, st16. nohang.
Qed.
Lemma nh_ext2hih_l4 p hih : no_hang (forward_ext2hih_l4 p hih).
Proof.
  unfold forward_ext2hih_l4, with_frame, ip_protocol, tcp_ack, tcp_flag, st16, st32, ld32, ld8. nohang.
Qed.
#[export] Hint Resolve nh_ext2hih_headers nh_ext2hih_l4 : nohang.

Lemma forward_ext2hih_keeps pkt : keeps_conns (forward_ext2hih pkt).
Proof.
  unfold forward_ext2hih, pkt_conn, send_pkt, get_pkt, get_conn, get_handler, get_iface. nohang.
Qed.

(** C31: the replay makes progress and ends.  With a fuel above the number of
    recorded packets that are left, [replay_loop] never runs out of it,
    whatever frames are sent; when it returns, the list of recorded packets is
    the same, the replay index did not go back, and either the list was
    exhausted and the connection is in state [FORWARD], or the loop stopped at
    a packet that is not the attacker's and the state is unchanged. *)
Theorem replay_loop_progress fuel conn current de w c :
  w_conns w !! conn = Some c -> 0 <= cn_replay_id c ->
  Z.of_nat (length (cn_BUFFER c)) < 2 ^ 32 ->
  Z.of_nat (length (cn_BUFFER c)) - cn_replay_id c < Z.of_nat fuel ->
  (0 < fuel)%nat ->
  match replay_loop fuel conn current de w with
  | Fault e => e <> Hangs
  | Ret ((ended, current'), w') => exists c', w_conns w' !! conn = Some c' /\
      cn_BUFFER c' = cn_BUFFER c /\ cn_replay_id c <= cn_replay_id c' /\
      (if ended : bool then cn_state c' = FORWARD /\
         Z.of_nat (length (cn_BUFFER c)) <= cn_replay_id c' + 1
       else cn_state c' = cn_state c /\ exists k, w_pkts w' !! current' = Some k /\ pt_origin k <> EXT)
  end.
Proof.
  revert current de w c. induction fuel as [|fuel IH]; intros current de w c Hc Hid Hlen Hfuel Hpos; [lia|].
  cbn [replay_loop]. unfold sbind at 1, get_pkt at 1, deref at 1.
  destruct (w_pkts w !! current) as [k|] eqn:Hk; [|done].
  destruct (bool_decide (pt_origin k = EXT) || (de =? 1)) eqn:Eb.
  2:{ exists c. split; [done|]. split; [done|]. split; [lia|]. split; [done|]. exists k. split; [done|].
      apply orb_false_iff in Eb as [Eb _]. by apply bool_decide_eq_false in Eb. }
  unfold sbind at 1.
  set (fw := (if decide (pt_origin k = EXT)
     then do_ forward_ext2hih current; sret tt else sret tt) : M unit).
  assert (Hfw : keeps_conns fw).
  { unfold fw. destruct (decide _); [|apply keeps_ret]. apply keeps_bind; [apply forward_ext2hih_keeps|]. intros; apply keeps_ret. }
  specialize (Hfw w). destruct (fw w) as [[u w1]|]; [|done].
  rewrite <- Hfw in Hc. unfold sbind at 1, get_conn at 1. rewrite (deref_ok _ _ _ _ Hc).
  destruct (Z.leb_spec (Z.of_nat (length (cn_BUFFER c))) (cn_replay_id c + 1)).
  - unfold switch_state. wstep. unfold sbind, get_conn, put_conn, smodify. rewrite (deref_ok _ _ _ _ Hc). wstep.
    exists (c <| cn_state := FORWARD |>). simpl. rewrite lookup_insert_eq.
    split; [done|]. split; [done|]. split; [simpl; lia|]. split; [done|simpl; lia].
  - set (c1 := c <| cn_replay_id := u32 (cn_replay_id c + 1) |>).
    assert (Hrid : cn_replay_id c1 = cn_replay_id c + 1) by (apply u32_small; lia).
    unfold sbind at 1, put_conn at 1, smodify at 1.
    set (w2 := w1 <| w_conns := <[conn := c1]> (w_conns w1) |>).
    unfold sbind at 1, slift at 1. destruct (buffer_current c1) as [next|]; [|done].
    unfold nonnull. unfold sbind at 1, get_pkt at 1, deref at 1.
    destruct (w_pkts w2 !! next) as [k'|] eqn:Hk'; [|done].
    assert (Hc1 : w_conns w2 !! conn = Some c1) by (simpl; by rewrite lookup_insert_eq).
    specialize (IH next (if de =? 0 then pt_DE k' else de) w2 c1 Hc1).
    rewrite Hrid in IH. change (cn_BUFFER c1) with (cn_BUFFER c) in IH.
    specialize (IH ltac:(lia) Hlen ltac:(lia) ltac:(lia)).
    destruct (replay_loop fuel conn next _ w2) as [[[ended cur] w']|e]; [|done].
    destruct IH as (c' & H1 & H2 & H3 & H4). exists c'. split; [done|]. split; [done|]. split; [lia|]. exact H4.
Qed.

(** A redirected connection with one recorded packet of the attacker. *)
Definition replay_conn : conn_struct :=
  redirected <| cn_BUFFER := [21%positive] |> <| cn_state := REPLAY |> <| cn_target := Some 10%positive |>.
Definition replay_world : world :=
  world0 <| w_pkts := {[ 21%positive := syn_pkt ]} |> <| w_conns := {[ 20%positive := replay_conn ]} |>.

Lemma replay_loop_progress_witness :
  match replay_loop 2 20 21 0 replay_world with
  | Fault e => e <> Hangs
  | Ret ((ended, current'), w') => exists c', w_conns w' !! 20%positive = Some c' /\
      cn_BUFFER c' = cn_BUFFER replay_conn /\ cn_replay_id replay_conn <= cn_replay_id c' /\
      (if ended : bool then cn_state c' = FORWARD /\
         Z.of_nat (length (cn_BUFFER replay_conn)) <= cn_replay_id c' + 1
       else cn_state c' = cn_state replay_conn /\
         exists k, w_pkts w' !! current' = Some k /\ pt_origin k <> EXT)
  end.
Proof.
  apply (replay_loop_progress 2 20 21 0 replay_world replay_conn);
    [reflexivity|by vm_compute|by vm_compute|by vm_compute|lia].
Defined.

(** * ARP *)

(** The reply to the request [packet] ([hlen] is the length of its link
    header): answered to the sender, with the interface's MAC for the address
    it asked for; the target hardware address is left zero. *)
Definition arp_answer (hlen : nat) (mac packet : list Z) : list Z :=
  [0; 1; 8; 0; 6; 4; 0; 2] ++ mac ++ sub packet (hlen + 24) 4 ++ repeat 0 6 ++ sub packet (hlen + 14) 4.

Definition arp_link (ethertype : Z) (packet mac : list Z) : list Z :=
  if ethertype =? ETHERTYPE_ARP then sub packet 22 6 ++ mac ++ [8; 6]
  else sub packet 26 6 ++ mac ++ [0x81; 0] ++ sub packet 14 4.

Lemma explode4 (l : list Z) : length l = 4%nat -> exists a b c d, l = [a; b; c; d].
Proof. destruct l as [|a [|b [|c [|d []]]]]; try done. by eexists _, _, _, _. Qed.

(** [send_arp_reply] answers every request, in a frame of the same kind
    (plain or VLAN, tag copied), for the protocol address that was asked, with
    the MAC of the interface it came in on; anything else is not answered. *)
Lemma arp_reply_answers ethertype mac packet op :
  let hlen := if ethertype =? ETHERTYPE_ARP then 14%nat else 18%nat in
  length mac = 6%nat -> (hlen + 28 <= length packet)%nat -> ld16 packet (hlen + 6) = Ret op ->
  arp_reply_frame ethertype mac packet =
    Ret (if op =? htons ARPOP_REQUEST then Some (arp_link ethertype packet mac ++ arp_answer hlen mac packet)
         else None).
Proof.
  intros hlen Hmac Hlen Hop. unfold arp_reply_frame, ETHER_HDR_LEN, VLAN_ETH_HLEN. fold hlen.
  rewrite Hop. cbn [obind]. destruct (op =? htons ARPOP_REQUEST); [|done].
  apply explode6 in Hmac as (m0&m1&m2&m3&m4&m5&->).
  rewrite !(mget_ok packet) by (unfold ETH_ALEN, VLAN_HLEN, hlen in *; destruct (_ =? _); lia).
  unfold arp_answer, arp_link, ETH_ALEN, VLAN_HLEN.
  assert (Hsha : length (sub packet (hlen + 8) 6) = 6%nat) by (apply length_sub; lia).
  assert (Htpa : length (sub packet (hlen + 24) 4) = 4%nat) by (apply length_sub; lia).
  assert (Hspa : length (sub packet (hlen + 14) 4) = 4%nat) by (apply length_sub; lia).
  assert (Htag : length (sub packet 14 4) = 4%nat) by (apply length_sub; unfold hlen in *; destruct (_ =? _); lia).
  subst hlen. destruct (ethertype =? ETHERTYPE_ARP); cbn [Nat.add] in *;
    apply explode6 in Hsha as (a0&a1&a2&a3&a4&a5&->); apply explode4 in Htpa as (b0&b1&b2&b3&->);
    apply explode4 in Hspa as (c0&c1&c2&c3&->); try apply explode4 in Htag as (e0&e1&e2&e3&->);
    cbv; reflexivity.
Qed.

Definition arp_request : list Z :=
  repeat 255 6 ++ mac_ext ++ [8; 6] ++ [0; 1; 8; 0; 6; 4; 0; 1] ++ mac_ext ++ [10; 0; 0; 9] ++
  repeat 0 6 ++ [10; 0; 0; 1].

Lemma arp_reply_answers_witness :
  arp_reply_frame ETHERTYPE_ARP mac_up arp_request =
    Ret (Some (arp_link ETHERTYPE_ARP arp_request mac_up ++ arp_answer 14 mac_up arp_request)).
Proof.
  apply (arp_reply_answers ETHERTYPE_ARP mac_up arp_request (htons ARPOP_REQUEST));
    [reflexivity|simpl; lia|reflexivity].
Defined.
