(* ===== verification/Connections.v ===== *)
(** Connection tracking ([connections.c]): where a packet comes from, the
    lookup, creation, update and removal of connections in the six trees, the
    reference-counted pins that bind honeypots to addresses, expiration and the
    set-up of a redirection.

    The tree lock [connlock] is taken and released inside single operations and
    is not represented; the lock of each connection is ([cn_lock]): taking a
    lock that is held is a [Hangs] fault. *)
From S2P Require Import Prelude Mem Types World Samples Keys Checksum TcpOptions Packet Netcode.

(** * Trees *)

Definition conn_lookup_in (t : gmap Z ptr) (k : conn_key) : option ptr := t !! conn_key_word k.

(** [g_tree_remove(t, key)] with a possibly null key: the comparator
    dereferences it as soon as the tree is not empty. *)
Definition remove_key (t : gmap Z ptr) (k : option conn_key) : outcome (gmap Z ptr) :=
  match k with
  | Some k => Ret (delete (conn_key_word k) t)
  | None => if decide (t = ∅) then Ret t else Fault NullDeref
  end.

(** [g_tree_remove] of a pin through a pointer to its key. *)
Definition remove_pin_key (t : gmap Z ptr) (k : option ptr) : M (gmap Z ptr) :=
  match k with
  | Some a => do pk <- get_pin_key a; sret (delete (pin_key_word pk) t)
  | None => if decide (t = ∅) then sret t else sfault NullDeref
  end.

(** A fresh pin key. *)
Definition new_pin_key (pk : pin_key) : M ptr := do a <- malloc; do_ put_pin_key a pk; sret a.

Definition find_pin (t : gmap Z ptr) (k : ptr) : M (option ptr) :=
  do pk <- get_pin_key k; sret (t !! pin_key_word pk).

Definition incr_pin (pin : ptr) : M unit := upd_pin pin (fun p => p <| pn_count ::= fun n => u64 (n + 1) |>).

(** * Where a packet comes from *)

(** The VLAN of the packet is the handler's. *)
Definition vlan_matches (h : handler) (p : pkt_struct) : outcome bool :=
  let f := FRAME (pt_packet p) in
  let! ty := eth_type f (p_eth (pt_packet p)) in
  if (ty =? htons ETHERTYPE_IP) && (vlan_vid (hd_vlan h) =? 0) then Ret true
  else if ty =? htons ETHERTYPE_VLAN then
    let! tci := ld16 f (p_eth (pt_packet p) + 14) in
    Ret (vlan_vid (hd_vlan h) =? vlan_vid tci)
  else Ret false.

Definition handler_is_source (h : handler) (p : pkt_struct) : outcome bool :=
  if decide (hd_iface h = pt_in p) then
    let! ip := nonnull (hd_ip h) in
    let! saddr := ip_saddr (FRAME (pt_packet p)) (p_ip (pt_packet p)) in
    if ip =? saddr then vlan_matches h p else Ret false
  else Ret false.

(** The [hih_search] and [intra_search] structures; the handler is
    uninitialised until it is found. *)
Record hih_search := HihSearch {
  hs_found : bool;
  hs_hihID : Z;
  hs_back_handler : option ptr;
}.
Record target_search := TargetSearch {
  ts_found : bool;
  ts_target : option ptr;
  ts_hih : hih_search;
  ts_intra_handler : option ptr;
}.
#[export] Instance eta_hih_search : EtaRecord hih_search := fun s =>
  HihSearch (hs_found s) (hs_hihID s) (hs_back_handler s).
#[export] Instance eta_target_search : EtaRecord target_search := fun s =>
  TargetSearch (ts_found s) (ts_target s) (ts_hih s) (ts_intra_handler s).
Definition hih_search_init : hih_search := HihSearch false 0 None.
Definition target_search_init : target_search := TargetSearch false None hih_search_init None.

Definition initialised {A} (o : option A) : outcome A :=
  match o with Some a => Ret a | None => Fault Uninitialised end.

Definition find_hih_src (pkt : ptr) (hihID : Z) (bh : ptr) (s : hih_search) : M (bool * hih_search) :=
  do h <- get_handler (Some bh);
  do p <- get_pkt pkt;
  do yes <- slift (handler_is_source h p);
  sret (if yes : bool then (true, HihSearch true hihID (Some bh)) else (false, s)).

(** Only the address is compared, and the handler is not recorded. *)
Definition find_hih_dst (pkt : ptr) (hihID : Z) (bh : ptr) (s : hih_search) : M (bool * hih_search) :=
  do h <- get_handler (Some bh);
  do p <- get_pkt pkt;
  do ip <- slift (nonnull (hd_ip h));
  do daddr <- slift (ip_daddr (FRAME (pt_packet p)) (p_ip (pt_packet p)));
  sret (if ip =? daddr then (true, s <| hs_found := true |>) else (false, s)).

(** A null key is passed over. *)
Definition find_intra (pkt : ptr) (target_ip : option Z) (ih : ptr) (s : option ptr) : M (bool * option ptr) :=
  match target_ip with
  | None => sret (false, s)
  | Some _ =>
    do h <- get_handler (Some ih);
    do p <- get_pkt pkt;
    do yes <- slift (handler_is_source h p);
    sret (if yes : bool then (true, Some ih) else (false, s))
  end.

Definition set_origin (pkt : ptr) (r : role_t) : M unit := upd_pkt pkt (fun p => p <| pt_origin := r |>).

(** A comparison with a null key reads through it; a traversal does not compare,
    and gives the null key to its callback. *)
Definition intra_lookup (t : target) (ip : Z) : outcome (option ptr) :=
  match tg_intra_null t with Some _ => Fault NullDeref | None => Ret (tg_intra_handlers t !! ip) end.
Definition intra_list (t : target) : list (option Z * ptr) :=
  match tg_intra_null t with
  | Some h => [(None, h)]
  | None => prod_map Some id <$> addr_tree_to_list (tg_intra_handlers t)
  end.

Definition find_target (pkt : ptr) (targetID : Z) (target : ptr) (s : target_search) :
    M (bool * target_search) :=
  let s := s <| ts_target := Some target |> in
  do t <- get_target (Some target);
  do p <- get_pkt pkt;
  do saddr <- slift (ip_saddr (FRAME (pt_packet p)) (p_ip (pt_packet p)));
  do fh <- get_handler (tg_front_handler t);
  do fip <- slift (nonnull (hd_ip fh));
  if saddr =? fip then
    do_ set_origin pkt LIH;
    sret (true, s <| ts_found := true |>)
  else
    do hs <- tree_foreach (find_hih_src pkt) (tree_to_list (tg_back_handlers t)) (ts_hih s);
    let s := s <| ts_hih := hs |> in
    if hs_found hs then
      do_ set_origin pkt HIH;
      sret (true, s <| ts_found := true |>)
    else
      do ih <- tree_foreach (find_intra pkt) (intra_list t) (ts_intra_handler s);
      let s := s <| ts_intra_handler := ih |> in
      match ih with
      | Some _ => do_ set_origin pkt INTRA; sret (true, s <| ts_found := true |>)
      | None => sret (false, s)
      end.

(** * Lookup *)

Definition pkt_conn_key (p : pkt_struct) : outcome conn_key :=
  let f := FRAME (pt_packet p) in
  let ip := p_ip (pt_packet p) in
  let l4 := p_l4 (pt_packet p) in
  let! protocol := ip_protocol f ip in
  let! src := ip_saddr f ip in
  let! sport := l4_source f l4 in
  let! dst := ip_daddr f ip in
  let! dport := l4_dest f l4 in
  let! vlan := pkt_vlan_id p in
  Ret (ConnKey protocol src sport dst dport vlan).

(** LIH or HIH: the front handler of the connection's target decides. *)
Definition lookup_origin (p : pkt_struct) (c : conn_struct) : M role_t :=
  do t <- get_target (cn_target c);
  do fh <- get_handler (tg_front_handler t);
  do lih <- slift (handler_is_source fh p);
  sret (if lih : bool then LIH else HIH).

Definition conn_lookup (pkt : ptr) : M (option ptr) :=
  do p <- get_pkt pkt;
  do key <- slift (pkt_conn_key p);
  do w <- sget;
  do found <-
    (if decide (pt_origin p = EXT) then
       sret (match conn_lookup_in (ext_tree1 w) key with
             | Some conn => Some conn
             | None => conn_lookup_in (int_tree2 w) key
             end)
     else
       match (match conn_lookup_in (ext_tree2 w) key with
              | Some conn => Some conn
              | None =>
                match conn_lookup_in (int_tree1 w) key with
                | Some conn => Some conn
                | None => conn_lookup_in (intra_tree1 w) key
                end
              end) with
       | Some conn =>
         do c <- get_conn conn;
         do r <- lookup_origin p c;
         do_ set_origin pkt r;
         sret (Some conn)
       | None =>
         match conn_lookup_in (intra_tree2 w) key with
         | Some conn => do_ set_origin pkt INTRA; sret (Some conn)
         | None => sret None
         end
       end);
  match found with
  | Some conn =>
    do c <- get_conn conn;
    if cn_lock c then sfault Hangs
    else do_ put_conn conn (c <| cn_lock := true |>); sret (Some conn)
  | None => sret None
  end.

(** * Creation *)

(** [conn->access_time = microtime]: the seconds of a date, in a [gint]. *)
Definition access_second (microtime : Z) : Z := s32 (microtime / 1000000).

(** The fields common to every new connection, from its first packet. *)
Definition conn_init (p : pkt_struct) (target : ptr) (id microtime : Z) : outcome conn_struct :=
  let f := FRAME (pt_packet p) in
  let! protocol := ip_protocol f (p_ip (pt_packet p)) in
  let! smac := mget f (p_eth (pt_packet p) + 6) ETH_ALEN in
  let! dmac := mget f (p_eth (pt_packet p)) ETH_ALEN in
  let! src := ip_saddr f (p_ip (pt_packet p)) in
  let! dst := ip_daddr f (p_ip (pt_packet p)) in
  let! sport := l4_source f (p_l4 (pt_packet p)) in
  let! dport := l4_dest f (p_l4 (pt_packet p)) in
  let INIT_index := status_index INIT in
  Ret (conn_zero
    <| cn_lock := true |>
    <| cn_target := Some target |>
    <| cn_protocol := protocol |>
    <| cn_access_time := access_second microtime |>
    <| cn_initiator := pt_origin p |>
    <| cn_id := u32 id |>
    <| cn_start_microtime := microtime |>
    <| cn_stat_time := <[INIT_index := microtime]> (cn_stat_time conn_zero) |>
    <| cn_stat_packet := <[INIT_index := 1]> (cn_stat_packet conn_zero) |>
    <| cn_stat_byte := <[INIT_index := s32 (pt_size p)]> (cn_stat_byte conn_zero) |>
    <| cn_total_packet := 1 |>
    <| cn_total_byte := pt_size p |>
    <| cn_first_pkt_src_mac := smac |>
    <| cn_first_pkt_dst_mac := dmac |>
    <| cn_first_pkt_src_ip := src |>
    <| cn_first_pkt_dst_ip := dst |>
    <| cn_first_pkt_src_port := sport |>
    <| cn_first_pkt_dst_port := dport |>).

(** The two keys of a connection: what its packets look like on the side that
    opened it, and the replies. *)
Definition key_of (c : conn_struct) (src dst vlan : Z) : conn_key :=
  ConnKey (cn_protocol c) src (cn_first_pkt_src_port c) dst (cn_first_pkt_dst_port c) vlan.
Definition reply_key_of (c : conn_struct) (src dst vlan : Z) : conn_key :=
  ConnKey (cn_protocol c) src (cn_first_pkt_dst_port c) dst (cn_first_pkt_src_port c) vlan.

Definition insert_ext (conn : ptr) (ext_key int_key : conn_key) : M unit :=
  smodify (fun w => w <| ext_tree1 ::= <[conn_key_word ext_key := conn]> |>
                      <| ext_tree2 ::= <[conn_key_word int_key := conn]> |>).
Definition insert_int (conn : ptr) (int_key ext_key : conn_key) : M unit :=
  smodify (fun w => w <| int_tree1 ::= <[conn_key_word int_key := conn]> |>
                      <| int_tree2 ::= <[conn_key_word ext_key := conn]> |>).
Definition insert_intra (conn : ptr) (int_key intra_key : conn_key) : M unit :=
  smodify (fun w => w <| intra_tree1 ::= <[conn_key_word int_key := conn]> |>
                      <| intra_tree2 ::= <[conn_key_word intra_key := conn]> |>).

(** A packet from outside: the connection goes to the LIH, and the address it
    was sent to is pinned for the LIH and this target. *)
Definition create_conn_ext (conn : ptr) (c : conn_struct) (t : target) : M (status_t * conn_struct) :=
  do fh <- get_handler (tg_front_handler t);
  do fip <- slift (nonnull (hd_ip fh));
  let vid := vlan_vid (hd_vlan fh) in
  let src := cn_first_pkt_src_ip c in
  let dst := cn_first_pkt_dst_ip c in
  let ext_key := key_of c src dst 0 in
  let int_key := reply_key_of c fip src vid in
  let pk := PinKey dst fip vid in
  do pin_key <- new_pin_key pk;
  let c := c <| cn_state := INIT |> <| cn_destination := LIH |> <| cn_ext_key := Some ext_key |>
             <| cn_int_key := Some int_key |> <| cn_pin_key := Some pin_key |> in
  do_ insert_ext conn ext_key int_key;
  do w <- sget;
  do_ (match comm_pin_tree w !! pin_key_word pk with
       | None =>
         do k <- new_pin_key pk;
         do a <- malloc;
         do_ put_pin a (Pin k dst 1);
         smodify (fun w => w <| comm_pin_tree ::= <[pin_key_word pk := a]> |>)
       | Some pin => incr_pin pin
       end);
  sret (OK, c).

(** The address a connection towards the outside is translated to: that of the
    pin if there is one (which is then counted), or the address of the uplink. *)
Definition snat_address (tree : gmap Z ptr) (pk : pin_key) (t : target) (c : conn_struct) : M (Z * conn_struct) :=
  do k <- new_pin_key pk;
  do pin <- find_pin tree k;
  match pin with
  | None =>
    do i <- get_iface (tg_default_route t);
    do a <- slift (nonnull (if_ip i));
    do_ free_pin_key k;
    sret (a, c)
  | Some pin =>
    do v <- get_pin pin;
    do_ incr_pin pin;
    sret (pn_ip v, c <| cn_pin_ip := Some pin |> <| cn_pin_key := Some k |>)
  end.

(** The keys of a connection from inside to the outside. *)
Definition create_outgoing (conn : ptr) (c : conn_struct) (vid snat_to : Z) : M (status_t * conn_struct) :=
  let src := cn_first_pkt_src_ip c in
  let dst := cn_first_pkt_dst_ip c in
  let ext_key := reply_key_of c dst snat_to 0 in
  let int_key := key_of c src dst vid in
  do_ insert_int conn int_key ext_key;
  sret (OK, c <| cn_ext_key := Some ext_key |> <| cn_int_key := Some int_key |>).

Definition create_conn_lih (conn pkt : ptr) (c : conn_struct) (t : target) : M (status_t * conn_struct) :=
  let c := c <| cn_state := CONTROL |> in
  do intra <- slift (intra_lookup t (cn_first_pkt_dst_ip c));
  match intra with
  | Some _ => sret (NOK, c <| cn_destination := INTRA |>)
  | None =>
    do s <- tree_foreach (find_hih_dst pkt) (tree_to_list (tg_back_handlers t)) hih_search_init;
    if hs_found s then sret (NOK, c <| cn_destination := HIH |>)
    else
      let c := c <| cn_destination := EXT |> in
      do fh <- get_handler (tg_front_handler t);
      do fip <- slift (nonnull (hd_ip fh));
      let vid := vlan_vid (hd_vlan fh) in
      do w <- sget;
      do '(snat_to, c) <- snat_address (comm_pin_tree w) (PinKey (cn_first_pkt_dst_ip c) fip vid) t c;
      create_outgoing conn c vid snat_to
  end.

(** Where a connection opened by a HIH goes: [Some r] with the state the search
    leaves the connection in, and whether its creation goes on. *)
Inductive hih_destination :=
  | HihToIntra | HihUndefinedIntra | HihInvalid (r : role_t) | HihToExt.

Definition same_network (h : handler) (ip hip : Z) : bool :=
  match hd_netmask h with
  | Some m => Z.land ip m =? Z.land hip m
  | None => false
  end.

Definition hih_destination_of (pkt : ptr) (c : conn_struct) (t : target) (bh : handler) : M hih_destination :=
  match cn_intra_handler c with
  | Some _ => sret HihToIntra
  | None =>
    do local <- (match hd_netmask bh with
                 | Some _ => do hip <- slift (nonnull (hd_ip bh));
                             sret (same_network bh (cn_first_pkt_dst_ip c) hip)
                 | None => sret false end);
    if local : bool then sret HihUndefinedIntra
    else
      do fh <- get_handler (tg_front_handler t);
      do fip <- slift (nonnull (hd_ip fh));
      if cn_first_pkt_dst_ip c =? fip then sret (HihInvalid LIH)
      else
        do s <- tree_foreach (find_hih_dst pkt) (tree_to_list (tg_back_handlers t)) hih_search_init;
        sret (if hs_found s then HihInvalid HIH else HihToExt)
  end.

Definition create_hih_ext (conn : ptr) (c : conn_struct) (t : target) (bh : handler) : M (status_t * conn_struct) :=
  let c := c <| cn_destination := EXT |> in
  do w <- sget;
  do hip <- slift (nonnull (hd_ip bh));
  let vid := vlan_vid (hd_vlan bh) in
  do '(snat_to, c) <-
    (if exclusive_hih w =? 1 then snat_address (target_pin_tree w) (PinKey 0 hip vid) t c
     else
       do fh <- get_handler (tg_front_handler t);
       do fip <- slift (nonnull (hd_ip fh));
       snat_address (comm_pin_tree w) (PinKey (cn_first_pkt_dst_ip c) fip (vlan_vid (hd_vlan fh))) t c);
  create_outgoing conn c vid snat_to.

(** The pin of an exclusive INTRA handler; [None] when it is bound to another
    address.  A new pin shares its key with the connection. *)
Definition intra_pin (c : conn_struct) (ih : handler) : M (option conn_struct) :=
  do iip <- slift (nonnull (hd_ip ih));
  do k <- new_pin_key (PinKey (cn_first_pkt_src_ip c) iip (vlan_vid (hd_vlan ih)));
  do w <- sget;
  do pin <- find_pin (intra_pin_tree w) k;
  match pin with
  | None =>
    do a <- malloc;
    do_ put_pin a (Pin k (cn_first_pkt_dst_ip c) 1);
    do pk <- get_pin_key k;
    do_ smodify (fun w => w <| intra_pin_tree ::= <[pin_key_word pk := a]> |>);
    sret (Some (c <| cn_pin_ip := Some a |> <| cn_pin_key := Some k |>))
  | Some pin =>
    do v <- get_pin pin;
    if negb (pn_ip v =? cn_first_pkt_dst_ip c) then do_ free_pin_key k; sret None
    else
      do_ incr_pin pin;
      sret (Some (c <| cn_pin_key := Some k |> <| cn_pin_ip := Some pin |>))
  end.

Definition create_hih_intra (conn : ptr) (c : conn_struct) (bh : handler) (ih : ptr) : M (status_t * conn_struct) :=
  let c := c <| cn_destination := INTRA |> in
  do h <- get_handler (Some ih);
  do pinned <- (if hd_exclusive h =? 0 then sret (Some c) else intra_pin c h);
  match pinned with
  | None => sret (NOK, c)
  | Some c =>
    do iip <- slift (nonnull (hd_ip h));
    let intra_key := reply_key_of c iip (cn_first_pkt_src_ip c) (vlan_vid (hd_vlan h)) in
    let int_key := key_of c (cn_first_pkt_src_ip c) (cn_first_pkt_dst_ip c) (vlan_vid (hd_vlan bh)) in
    do_ insert_intra conn int_key intra_key;
    sret (OK, c <| cn_intra_key := Some intra_key |> <| cn_int_key := Some int_key |>)
  end.

Definition create_conn_hih (conn pkt : ptr) (c : conn_struct) (t : target) (s : hih_search) :
    M (status_t * conn_struct) :=
  do bha <- slift (initialised (hs_back_handler s));
  do bh <- get_handler (Some bha);
  do intra <- slift (intra_lookup t (cn_first_pkt_dst_ip c));
  let c := c <| cn_state := INIT |>
             <| cn_hih := HihStruct (hs_hihID s) (Some bha) 0 0 0 None None |>
             <| cn_intra_handler := intra |> in
  do d <- hih_destination_of pkt c t bh;
  match d with
  | HihToIntra =>
    match cn_intra_handler c with
    | Some ih => create_hih_intra conn c bh ih
    | None => sret (NOK, c)
    end
  | HihUndefinedIntra => sret (OK, c <| cn_destination := INTRA |>)
  | HihInvalid r => sret (NOK, c <| cn_destination := r |>)
  | HihToExt => create_hih_ext conn c t bh
  end.

(** An INTRA host may only call back a HIH that is pinned for it.  The handler
    is read from the search that determined the origin, which never recorded
    one: [find_hih_dst] only sets the flag. *)
Definition create_conn_intra (conn pkt : ptr) (c : conn_struct) (t : target) (s : target_search) :
    M (status_t * conn_struct) :=
  let c := c <| cn_state := PROXY |> in
  do intra <- slift (intra_lookup t (cn_first_pkt_dst_ip c));
  match intra with
  | Some _ => sret (NOK, c <| cn_destination := INTRA |>)
  | None =>
    do fh <- get_handler (tg_front_handler t);
    do fip <- slift (nonnull (hd_ip fh));
    if cn_first_pkt_dst_ip c =? fip then sret (NOK, c <| cn_destination := LIH |>)
    else
      do hs <- tree_foreach (find_hih_dst pkt) (tree_to_list (tg_back_handlers t))
                 ((ts_hih s) <| hs_found := false |>);
      if hs_found hs then
        do bha <- slift (initialised (hs_back_handler hs));
        do bh <- get_handler (Some bha);
        let c := c <| cn_hih ::= fun h => h <| hih_back_handler := Some bha |> |> in
        do iha <- slift (initialised (ts_intra_handler s));
        do ih <- get_handler (Some iha);
        do iip <- slift (nonnull (hd_ip ih));
        do hip <- slift (nonnull (hd_ip bh));
        do k <- new_pin_key (PinKey iip hip (vlan_vid (hd_vlan ih)));
        do w <- sget;
        do pin <- find_pin (intra_pin_tree w) k;
        match pin with
        | None => sret (NOK, c)
        | Some pin =>
          do v <- get_pin pin;
          do_ incr_pin pin;
          let c := c <| cn_pin_ip := Some pin |> <| cn_pin_key := Some k |> <| cn_destination := HIH |> in
          let int_key := reply_key_of c (cn_first_pkt_dst_ip c) (pn_ip v) 0 in
          let intra_key := key_of c (cn_first_pkt_src_ip c) (cn_first_pkt_dst_ip c) (vlan_vid (hd_vlan bh)) in
          do_ insert_intra conn int_key intra_key;
          sret (OK, c <| cn_int_key := Some int_key |> <| cn_intra_key := Some intra_key |>)
        end
      else sret (NOK, c <| cn_destination := EXT |>)
  end.

(** * Release *)

Fixpoint free_pkts (l : list ptr) : M unit :=
  match l with [] => sret tt | a :: l => do_ free_pkt a; free_pkts l end.

Definition free_conn (conn : option ptr) : M unit :=
  match conn with
  | None => sret tt
  | Some a =>
    do c <- get_conn a;
    do_ free_pkts (cn_BUFFER c);
    do_ free_0_pin_key (cn_pin_key c);
    do_ free_0_pin_key (hih_target_pin_key (cn_hih c));
    free_conn_block a
  end.

Definition free_pin (pin : ptr) : M unit :=
  do p <- get_pin pin;
  do_ free_pin_key (pn_pin_key p);
  free_pin_block pin.

(** [create_conn]: [None] is the [NOK] result. *)
Definition create_conn (pkt : ptr) (microtime : Z) : M (option ptr) :=
  do p <- get_pkt pkt;
  let f := FRAME (pt_packet p) in
  do protocol <- slift (ip_protocol f (p_ip (pt_packet p)));
  do no_syn <- (if protocol =? IPPROTO_TCP then
                  do syn <- slift (tcp_syn f (p_l4 (pt_packet p))); sret (negb syn)
                else sret false);
  if no_syn : bool then sret None
  else
    do '(target, s) <-
      (if decide (pt_origin p = EXT) then
         do i <- get_iface (pt_in p); sret (if_target i, target_search_init)
       else
         do w <- sget;
         do s <- tree_foreach (find_target pkt) (tree_to_list (targets w)) target_search_init;
         sret (if ts_found s then ts_target s else None, s));
    match target with
    | None => sret None
    | Some ta =>
      do conn <- malloc;
      do p <- get_pkt pkt;
      do t <- get_target (Some ta);
      do_ smodify (fun w => w <| c_id := u64 (c_id w + 1) |>);
      do w <- sget;
      do c <- slift (conn_init p ta (c_id w) microtime);
      do '(result, c) <-
        (match pt_origin p with
         | EXT => create_conn_ext conn c t
         | LIH => create_conn_lih conn pkt c t
         | HIH => create_conn_hih conn pkt c t (ts_hih s)
         | INTRA => create_conn_intra conn pkt c t s
         | INT => sret (NOK, c)
         end);
      do_ put_conn conn c;
      match result with
      | OK => do_ upd_pkt pkt (fun p => p <| pt_conn := Some conn |>); sret (Some conn)
      | NOK => do_ free_conn (Some conn); sret None
      end
    end.

(** * Update *)

Definition stats_state (s : conn_status_t) : conn_status_t := match s with CONTROL => PROXY | s => s end.

Definition update_conn_struct (p : pkt_struct) (c : conn_struct) (microtime : Z) : conn_struct :=
  let i := status_index (stats_state (cn_state c)) in
  c <| cn_stat_time ::= <[i := microtime]> |>
    <| cn_stat_packet ::= alter (fun n => s32 (n + 1)) i |>
    <| cn_stat_byte ::= alter (fun n => s32 (n + pt_size p)) i |>
    <| cn_total_packet ::= fun n => u32 (n + 1) |>
    <| cn_total_byte ::= fun n => u32 (n + pt_size p) |>
    <| cn_access_time := access_second microtime |>
    <| cn_count_data_pkt_from_intruder ::=
         fun n => if decide (pt_origin p = EXT) then u32 (n + 1) else n |>.

Definition update_conn (pkt conn : ptr) (microtime : Z) : M status_t :=
  do p <- get_pkt pkt;
  do c <- get_conn conn;
  do_ put_conn conn (update_conn_struct p c microtime);
  do_ put_pkt pkt (p <| pt_conn := Some conn |>);
  sret OK.

(** [init_conn]: the packet's connection, found or created, locked. *)
Definition init_conn (pkt : ptr) (microtime : Z) : M (option ptr) :=
  do found <- conn_lookup pkt;
  match found with
  | None => create_conn pkt microtime
  | Some conn => do_ update_conn pkt conn microtime; sret (Some conn)
  end.

(** * Removal *)

(** The count of the pin bound to a key goes down; at zero the pin is removed
    from the tree through [removal_key] and freed. *)
Definition release_pin (get_tree : world -> gmap Z ptr) (set_tree : gmap Z ptr -> world -> world)
    (key removal_key : option ptr) : M unit :=
  match key with
  | None => sret tt
  | Some k =>
    do w <- sget;
    do pin <- find_pin (get_tree w) k;
    match pin with
    | None => sret tt
    | Some pin =>
      do_ upd_pin pin (fun p => p <| pn_count ::= fun n => u64 (n - 1) |>);
      do v <- get_pin pin;
      if pn_count v =? 0 then
        do t <- remove_pin_key (get_tree w) removal_key;
        do_ smodify (set_tree t);
        free_pin pin
      else sret tt
    end
  end.

Definition set_comm_pin_tree (t : gmap Z ptr) (w : world) : world := w <| comm_pin_tree := t |>.
Definition set_target_pin_tree (t : gmap Z ptr) (w : world) : world := w <| target_pin_tree := t |>.
Definition set_intra_pin_tree (t : gmap Z ptr) (w : world) : world := w <| intra_pin_tree := t |>.

Definition remove_ext (c : conn_struct) : M unit :=
  do w <- sget;
  do t1 <- slift (remove_key (ext_tree1 w) (cn_ext_key c));
  do t2 <- slift (remove_key (ext_tree2 w) (cn_int_key c));
  do t2 <- slift (match hih_redirected_int_key (cn_hih c) with
                  | Some k => remove_key t2 (Some k)
                  | None => Ret t2 end);
  do_ smodify (fun w => w <| ext_tree1 := t1 |> <| ext_tree2 := t2 |>);
  release_pin comm_pin_tree set_comm_pin_tree (cn_pin_key c) (cn_pin_key c).

Definition remove_int (c : conn_struct) : M unit :=
  do w <- sget;
  do t2 <- slift (remove_key (int_tree2 w) (cn_ext_key c));
  do t1 <- slift (remove_key (int_tree1 w) (cn_int_key c));
  do_ smodify (fun w => w <| int_tree2 := t2 |> <| int_tree1 := t1 |>);
  release_pin comm_pin_tree set_comm_pin_tree (cn_pin_key c) (cn_pin_key c).

Definition remove_intra (c : conn_struct) : M unit :=
  do w <- sget;
  do t1 <- slift (remove_key (intra_tree1 w) (cn_int_key c));
  do t2 <- slift (remove_key (intra_tree2 w) (cn_intra_key c));
  do_ smodify (fun w => w <| intra_tree1 := t1 |> <| intra_tree2 := t2 |>);
  release_pin intra_pin_tree set_intra_pin_tree (cn_pin_key c) (cn_pin_key c).

Definition remove_from_trees (c : conn_struct) : M unit :=
  match cn_initiator c, cn_destination c with
  | EXT, _ => remove_ext c
  | (LIH | HIH), EXT => remove_int c
  | INTRA, _ | HIH, INTRA => remove_intra c
  | _, _ => sret tt
  end.

Definition remove_conn (conn : ptr) (delay : Z) : M unit :=
  do c <- get_conn conn;
  if cn_lock c then (if delay =? 0 then sfault Hangs else sret tt)
  else
    do_ put_conn conn (c <| cn_lock := true |>);
    do_ remove_from_trees c;
    do_ release_pin target_pin_tree set_target_pin_tree (hih_target_pin_key (cn_hih c)) (cn_pin_key c);
    do c <- get_conn conn;
    do_ smodify (fun w => w <| w_logged ::= cons c |>);
    free_conn (Some conn).

(** * Expiration *)

Definition expired (c : conn_struct) (curtime delay : Z) : bool :=
  (delay <? curtime - cn_access_time c) || (conn_status_num (cn_state c) <? conn_status_num INIT).

(** The clock is read at each connection: [clock conn] is the second of that
    reading, kept in an [int]. *)
Definition expire_conn (clock : ptr -> Z) (delay key : Z) (conn : ptr) (entrytoclean : list ptr) : M (bool * list ptr) :=
  do c <- get_conn conn;
  let curtime := s32 (clock conn) in
  sret (false, if expired c curtime delay then entrytoclean ++ [conn] else entrytoclean).

(** [g_ptr_array_foreach(entrytoclean, remove_conn, delay)]. *)
Fixpoint remove_conns (l : list ptr) (delay : Z) : M unit :=
  match l with [] => sret tt | a :: l => do_ remove_conn a delay; remove_conns l delay end.

(** One round of [clean], and the whole of [close_conn_trees] before the trees
    are destroyed. *)
Definition clean_round (clock : ptr -> Z) (delay : Z) : M unit :=
  do w <- sget;
  do l <- tree_foreach (expire_conn clock delay) (tree_to_list (ext_tree1 w)) [];
  do l <- tree_foreach (expire_conn clock delay) (tree_to_list (int_tree2 w)) l;
  do l <- tree_foreach (expire_conn clock delay) (tree_to_list (intra_tree1 w)) l;
  remove_conns l delay.

(** The delay [clean] uses: 120 seconds unless the configuration has a positive
    one. *)
Definition clean_delay (config_delay : Z) : Z := if config_delay <=? 0 then 120 else config_delay.
Definition clean (clock : ptr -> Z) : M unit :=
  do d <- sgets expiration_delay; clean_round clock (clean_delay d).

Definition close_conn_trees (clock : ptr -> Z) : M unit :=
  do_ clean_round clock 0;
  smodify (fun w => w <| ext_tree1 := ∅ |> <| ext_tree2 := ∅ |> <| int_tree1 := ∅ |> <| int_tree2 := ∅ |>
                      <| comm_pin_tree := ∅ |> <| target_pin_tree := ∅ |>
                      <| intra_tree1 := ∅ |> <| intra_tree2 := ∅ |> <| intra_pin_tree := ∅ |>).

(** * Redirection *)

(** The binding of an exclusive HIH to the address the attacker talks to:
    [None] when it is bound to another one. *)
Definition bind_exclusive (c : conn_struct) (bh : handler) : M (option conn_struct) :=
  do hip <- slift (nonnull (hd_ip bh));
  let pk := PinKey 0 hip (vlan_vid (hd_vlan bh)) in
  do k <- new_pin_key pk;
  do w <- sget;
  do pin <- find_pin (target_pin_tree w) k;
  match pin with
  | Some pin =>
    do v <- get_pin pin;
    if negb (pn_ip v =? cn_first_pkt_dst_ip c) then do_ free_pin_key k; sret None
    else
      do_ incr_pin pin;
      sret (Some (c <| cn_hih ::= fun h => h <| hih_target_pin_key := Some k |> |>))
  | None =>
    do a <- malloc;
    do_ put_pin a (Pin k (cn_first_pkt_dst_ip c) 1);
    do k' <- new_pin_key pk;
    do_ smodify (fun w => w <| target_pin_tree ::= <[pin_key_word pk := a]> |>);
    sret (Some (c <| cn_hih ::= fun h => h <| hih_target_pin_key := Some k' |> |>))
  end.

(** The loop that forwards the recorded packets of the attacker; one iteration
    per recorded packet. *)
Fixpoint forward_loop (fuel : nat) (conn : ptr) : M (option ptr) :=
  match fuel with
  | O => sfault Hangs
  | S fuel =>
    do c <- get_conn conn;
    match buffer_current c with
    | None => sret None
    | Some current =>
      do k <- get_pkt current;
      if decide (pt_origin k = EXT) then
        do _st <- forward_ext2hih current;
        do_ incr_replay_id conn;
        forward_loop fuel conn
      else sret (Some current)
    end
  end.

Definition setup_redirection (conn : ptr) (hih_use microtime : Z) : M status_t :=
  if hih_use =? 0 then sret NOK
  else
    do c <- get_conn conn;
    do t <- get_target (cn_target c);
    do bh <- get_handler (tg_back_handlers t !! u32 hih_use);
    match hd_ip bh with
    | None => sret NOK
    | Some hip =>
      do w <- sget;
      do bound <- (if exclusive_hih w =? 1 then bind_exclusive c bh else sret (Some c));
      match bound with
      | None => sret NOK
      | Some c =>
        let key := ConnKey (cn_protocol c) hip (cn_first_pkt_dst_port c) (cn_first_pkt_src_ip c)
                     (cn_first_pkt_src_port c) (vlan_vid (hd_vlan bh)) in
        let h := (cn_hih c) <| hih_hihID := hih_use |>
                   <| hih_back_handler := tg_back_handlers t !! u32 hih_use |>
                   <| hih_port := cn_first_pkt_dst_port c |> <| hih_redirected_int_key := Some key |> in
        do_ put_conn conn (c <| cn_hih := h |>
          <| cn_stat_time ::= <[status_index DECISION := microtime]> |>);
        do_ smodify (fun w => w <| ext_tree2 ::= <[conn_key_word key := conn]> |>);
        do _st <- switch_state conn REPLAY;
        do_ reset_lih conn;
        do c <- get_conn conn;
        do current <- forward_loop (S (length (cn_BUFFER c))) conn;
        match current with
        | Some pkt => do_ define_expected_data pkt; do_ incr_replay_id conn; sret OK
        | None => sret OK
        end
      end
    end.

(** * Intra-LAN connections *)

Definition switch_conn_to_intra (conn ih : ptr) : M status_t :=
  do c <- get_conn conn;
  do h <- get_handler (Some ih);
  do iip <- slift (nonnull (hd_ip h));
  let key := reply_key_of c iip (cn_first_pkt_src_ip c) (vlan_vid (hd_vlan h)) in
  do_ put_conn conn (c <| cn_intra_handler := Some ih |> <| cn_intra_key := Some key |>);
  do w <- sget;
  do t1 <- slift (remove_key (int_tree1 w) (cn_int_key c));
  do t2 <- slift (remove_key (int_tree2 w) (cn_ext_key c));
  do_ smodify (fun w => w <| int_tree1 := t1 |> <| int_tree2 := t2 |>);
  do int_key <- slift (nonnull (cn_int_key c));
  do_ insert_intra conn int_key key;
  sret OK.

Definition add_conn_to_intra (conn : option ptr) (ih : ptr) : M status_t :=
  match conn with
  | None => sret NOK
  | Some conn =>
    do c <- get_conn conn;
    match cn_intra_handler c, cn_int_key c with
    | None, None =>
      do h <- get_handler (Some ih);
      do iip <- slift (nonnull (hd_ip h));
      let intra_key := reply_key_of c iip (cn_first_pkt_src_ip c) (vlan_vid (hd_vlan h)) in
      let int_key := key_of c (cn_first_pkt_src_ip c) (cn_first_pkt_dst_ip c) (vlan_vid (cn_first_pkt_vlan c)) in
      do_ put_conn conn (c <| cn_intra_handler := Some ih |> <| cn_intra_key := Some intra_key |>
                           <| cn_int_key := Some int_key |>);
      do_ insert_intra conn int_key intra_key;
      sret OK
    | _, _ => sret NOK
    end
  end.
