(* ===== verification/ConnTrees.v ===== *)
(** Safety of the connection trees: every pointer they hold is a live
    connection of the right kind, filed under one of its own keys; every
    operation of [connections.c] that creates, finds, updates, expires or
    removes connections preserves it, so none of them leaves a dangling entry. *)
From S2P Require Import Prelude Mem Types World Samples Keys Checksum TcpOptions Packet Netcode Connections.

(** * Quiet computations *)

(** Nothing that concerns the connections, their trees and the rules changes. *)
Record quiet (w w' : world) : Prop := {
  q_conns : w_conns w' = w_conns w;
  q_nodes : w_nodes w' = w_nodes w;
  q_ext1 : ext_tree1 w' = ext_tree1 w;
  q_ext2 : ext_tree2 w' = ext_tree2 w;
  q_int1 : int_tree1 w' = int_tree1 w;
  q_int2 : int_tree2 w' = int_tree2 w;
  q_intra1 : intra_tree1 w' = intra_tree1 w;
  q_intra2 : intra_tree2 w' = intra_tree2 w;
  q_next : (w_next w <= w_next w')%positive;
}.
#[export] Instance quiet_refl : Reflexive quiet.
Proof. intros w. by constructor. Qed.
#[export] Instance quiet_trans : Transitive quiet.
Proof. intros w1 w2 w3 [] []. constructor; try congruence. lia. Qed.

Notation quietly := (keeps quiet).

Lemma quiet_malloc : quietly malloc.
Proof. intros w a w' [= <- <-]. constructor; try done. simpl. lia. Qed.
Lemma quiet_put_pkt p v : quietly (put_pkt p v).
Proof. apply keeps_smodify. intros w. by constructor. Qed.
Lemma quiet_put_pin p v : quietly (put_pin p v).
Proof. apply keeps_smodify. intros w. by constructor. Qed.
Lemma quiet_put_pin_key p v : quietly (put_pin_key p v).
Proof. apply keeps_smodify. intros w. by constructor. Qed.
Lemma quiet_free_pkt p : quietly (free_pkt p).
Proof. apply keeps_free_in. intros w. by constructor. Qed.
Lemma quiet_free_pin_key p : quietly (free_pin_key p).
Proof. apply keeps_free_in. intros w. by constructor. Qed.
Lemma quiet_free_pin_block p : quietly (free_pin_block p).
Proof. apply keeps_free_in. intros w. by constructor. Qed.
Lemma quiet_c_id : quietly (smodify (fun w => w <| c_id := u64 (c_id w + 1) |>)).
Proof. apply keeps_smodify. intros w. by constructor. Qed.
Lemma quiet_comm t : quietly (smodify (set_comm_pin_tree t)).
Proof. apply keeps_smodify. intros w. by constructor. Qed.
Lemma quiet_target t : quietly (smodify (set_target_pin_tree t)).
Proof. apply keeps_smodify. intros w. by constructor. Qed.
Lemma quiet_intra t : quietly (smodify (set_intra_pin_tree t)).
Proof. apply keeps_smodify. intros w. by constructor. Qed.
Lemma quiet_comm_insert k a : quietly (smodify (fun w => w <| comm_pin_tree ::= <[k := a]> |>)).
Proof. apply keeps_smodify. intros w. by constructor. Qed.
Lemma quiet_intra_insert k a : quietly (smodify (fun w => w <| intra_pin_tree ::= <[k := a]> |>)).
Proof. apply keeps_smodify. intros w. by constructor. Qed.
Lemma quiet_logged c : quietly (smodify (fun w => w <| w_logged ::= cons c |>)).
Proof. apply keeps_smodify. intros w. by constructor. Qed.

#[export] Hint Resolve quiet_malloc quiet_put_pkt quiet_put_pin quiet_put_pin_key quiet_free_pkt
  quiet_free_pin_key quiet_free_pin_block quiet_c_id quiet_comm quiet_target quiet_intra
  quiet_comm_insert quiet_intra_insert quiet_logged : keeps.

Lemma quiet_upd_pkt p g : quietly (upd_pkt p g).
Proof. unfold upd_pkt, get_pkt. keeps_tac. Qed.
Lemma quiet_upd_pin p g : quietly (upd_pin p g).
Proof. unfold upd_pin, get_pin. keeps_tac. Qed.
Lemma quiet_new_pin_key k : quietly (new_pin_key k).
Proof. unfold new_pin_key. keeps_tac. Qed.
Lemma quiet_find_pin t k : quietly (find_pin t k).
Proof. unfold find_pin, get_pin_key. keeps_tac. Qed.
Lemma quiet_free_0 k : quietly (free_0_pin_key k).
Proof. unfold free_0_pin_key. keeps_tac. Qed.
Lemma quiet_remove_pin_key t k : quietly (remove_pin_key t k).
Proof. unfold remove_pin_key, get_pin_key. keeps_tac. Qed.
Lemma quiet_free_pin p : quietly (free_pin p).
Proof. unfold free_pin, get_pin. keeps_tac. Qed.
Lemma quiet_free_pkts l : quietly (free_pkts l).
Proof. induction l; cbn [free_pkts]; keeps_tac. Qed.
#[export] Hint Resolve quiet_upd_pkt quiet_upd_pin quiet_new_pin_key quiet_find_pin quiet_free_0
  quiet_remove_pin_key quiet_free_pin quiet_free_pkts : keeps.

Lemma quiet_incr_pin p : quietly (incr_pin p).
Proof. apply quiet_upd_pin. Qed.
Lemma quiet_set_origin p r : quietly (set_origin p r).
Proof. apply quiet_upd_pkt. Qed.
#[export] Hint Resolve quiet_incr_pin quiet_set_origin : keeps.

Lemma quiet_release get set k k' : (forall t, quietly (smodify (set t))) ->
  quietly (release_pin get set k k').
Proof. intros H. unfold release_pin, get_pin. keeps_tac; apply H. Qed.

Lemma quiet_find_target p k t s : quietly (find_target p k t s).
Proof.
  unfold find_target, find_hih_src, find_intra, get_target, get_pkt, get_handler. keeps_tac.
Qed.
Lemma quiet_find_hih_dst p k t s : quietly (find_hih_dst p k t s).
Proof. unfold find_hih_dst, get_pkt, get_handler. keeps_tac. Qed.
#[export] Hint Resolve quiet_find_target quiet_find_hih_dst : keeps.
Lemma quiet_snat t pk tg c : quietly (snat_address t pk tg c).
Proof. unfold snat_address, get_iface, get_pin. keeps_tac. Qed.
Lemma quiet_intra_pin c h : quietly (intra_pin c h).
Proof. unfold intra_pin, get_pin, get_pin_key. keeps_tac. Qed.
Lemma quiet_hih_destination p c t bh : quietly (hih_destination_of p c t bh).
Proof. unfold hih_destination_of, get_handler. keeps_tac. Qed.
#[export] Hint Resolve quiet_snat quiet_intra_pin quiet_hih_destination : keeps.

(** * The invariant *)

Definition keyed (key : option conn_key) (k : Z) : Prop :=
  exists ck, key = Some ck /\ conn_key_word ck = k.

(** The kind of a connection says which pair of trees files it. *)
Definition class_ext (c : conn_struct) : Prop := cn_initiator c = EXT.
Definition class_int (c : conn_struct) : Prop :=
  (cn_initiator c = LIH \/ cn_initiator c = HIH) /\ cn_destination c = EXT.
Definition class_intra (c : conn_struct) : Prop :=
  cn_initiator c = INTRA \/ (cn_initiator c = HIH /\ cn_destination c = INTRA).

Definition entries (t : gmap Z ptr) (conns : gmap ptr conn_struct) (P : conn_struct -> Z -> Prop) : Prop :=
  forall k a, t !! k = Some a -> exists c, conns !! a = Some c /\ P c k.

Definition in_ext1 (c : conn_struct) (k : Z) : Prop := class_ext c /\ keyed (cn_ext_key c) k.
Definition in_ext2 (c : conn_struct) (k : Z) : Prop :=
  class_ext c /\ (keyed (cn_int_key c) k \/ keyed (hih_redirected_int_key (cn_hih c)) k).
Definition in_int1 (c : conn_struct) (k : Z) : Prop := class_int c /\ keyed (cn_int_key c) k.
Definition in_int2 (c : conn_struct) (k : Z) : Prop := class_int c /\ keyed (cn_ext_key c) k.
Definition in_intra1 (c : conn_struct) (k : Z) : Prop := class_intra c /\ keyed (cn_int_key c) k.
Definition in_intra2 (c : conn_struct) (k : Z) : Prop := class_intra c /\ keyed (cn_intra_key c) k.

Record trees_ok (w : world) : Prop := {
  ok_ext1 : entries (ext_tree1 w) (w_conns w) in_ext1;
  ok_ext2 : entries (ext_tree2 w) (w_conns w) in_ext2;
  ok_int1 : entries (int_tree1 w) (w_conns w) in_int1;
  ok_int2 : entries (int_tree2 w) (w_conns w) in_int2;
  ok_intra1 : entries (intra_tree1 w) (w_conns w) in_intra1;
  ok_intra2 : entries (intra_tree2 w) (w_conns w) in_intra2;
  ok_fresh : forall a c, w_conns w !! a = Some c -> (a < w_next w)%positive;
}.

Lemma trees_ok_quiet w w' : trees_ok w -> quiet w w' -> trees_ok w'.
Proof.
  intros [] [Hc _ E1 E2 I1 I2 A1 A2 Hn]. constructor; rewrite ?E1, ?E2, ?I1, ?I2, ?A1, ?A2, ?Hc; try done.
  intros a c Hac. eapply Pos.lt_le_trans; eauto.
Qed.

(** What identifies a connection for the trees. *)
Definition same_id (c c' : conn_struct) : Prop :=
  cn_initiator c' = cn_initiator c /\ cn_destination c' = cn_destination c /\
  cn_ext_key c' = cn_ext_key c /\ cn_int_key c' = cn_int_key c /\ cn_intra_key c' = cn_intra_key c /\
  hih_redirected_int_key (cn_hih c') = hih_redirected_int_key (cn_hih c).

Lemma entries_update t conns P a c c' :
  entries t conns P -> conns !! a = Some c -> (forall k, P c k -> P c' k) ->
  entries t (<[a := c']> conns) P.
Proof.
  intros He Ha HP k b Hb. destruct (He k b Hb) as (cb & Hcb & HPk).
  destruct (decide (a = b)) as [<-|].
  - exists c'. rewrite lookup_insert_eq. split; [done|]. apply HP. congruence.
  - exists cb. by rewrite lookup_insert_ne.
Qed.

Definition with_conns (w : world) (m : gmap ptr conn_struct) : world := w <| w_conns := m |>.

Lemma trees_ok_update w a c c' :
  trees_ok w -> w_conns w !! a = Some c -> same_id c c' ->
  trees_ok (with_conns w (<[a := c']> (w_conns w))).
Proof.
  intros [] Ha (E1 & E2 & E3 & E4 & E5 & E6).
  constructor; simpl;
    try (eapply entries_update; [eassumption|exact Ha|];
         unfold in_ext1, in_ext2, in_int1, in_int2, in_intra1, in_intra2, class_ext, class_int, class_intra;
         rewrite E1, ?E2, ?E3, ?E4, ?E5, ?E6; done).
  intros b cb Hb. destruct (decide (a = b)) as [<-|]; [eauto|]. rewrite lookup_insert_ne in Hb by done. eauto.
Qed.

(** A connection that no entry designates can be replaced or dropped. *)
Definition unfiled (w : world) (a : ptr) : Prop :=
  forall k, ext_tree1 w !! k <> Some a /\ ext_tree2 w !! k <> Some a /\ int_tree1 w !! k <> Some a /\
    int_tree2 w !! k <> Some a /\ intra_tree1 w !! k <> Some a /\ intra_tree2 w !! k <> Some a.

Lemma entries_other t conns conns' P a :
  entries t conns P -> (forall k, t !! k <> Some a) -> (forall b, b <> a -> conns' !! b = conns !! b) ->
  entries t conns' P.
Proof.
  intros He Ha Hb k b Hk. destruct (He k b Hk) as (c & Hc & HP). exists c.
  split; [|done]. rewrite Hb; [done|]. intros ->. by destruct (Ha k).
Qed.

Lemma trees_ok_other w a m :
  trees_ok w -> unfiled w a -> (forall b, b <> a -> m !! b = w_conns w !! b) ->
  (forall c, m !! a = Some c -> (a < w_next w)%positive) -> trees_ok (with_conns w m).
Proof.
  intros [] Hu Hb Hn. constructor; simpl;
    try (eapply entries_other; [eassumption| |exact Hb]; intros k; specialize (Hu k); tauto).
  intros b c Hc. destruct (decide (b = a)) as [->|]; [eauto|]. rewrite Hb in Hc by done. eauto.
Qed.

(** A fresh address is in no tree. *)
Lemma fresh_unfiled w a : trees_ok w -> w_conns w !! a = None -> unfiled w a.
Proof.
  intros [] Ha k. split_and!; intros Hk;
    match goal with
    | H : entries ?t _ _, Hk : ?t !! _ = Some _ |- _ => destruct (H _ _ Hk) as (c & Hc & _); congruence
    end.
Qed.

(** * Creation *)

(** How a creation files a connection: in no tree, or under its two keys in the
    pair of trees of its class. *)
Inductive filing (conn : ptr) (c : conn_struct) (w w' : world) : Prop :=
  | filed_nowhere : quiet w w' -> filing conn c w w'
  | filed_ext w1 w2 ek ik :
      quiet w w1 -> insert_ext conn ek ik w1 = Ret (tt, w2) -> quiet w2 w' ->
      class_ext c -> cn_ext_key c = Some ek -> cn_int_key c = Some ik -> filing conn c w w'
  | filed_int w1 w2 ek ik :
      quiet w w1 -> insert_int conn ik ek w1 = Ret (tt, w2) -> quiet w2 w' ->
      class_int c -> cn_ext_key c = Some ek -> cn_int_key c = Some ik -> filing conn c w w'
  | filed_intra w1 w2 ik ak :
      quiet w w1 -> insert_intra conn ik ak w1 = Ret (tt, w2) -> quiet w2 w' ->
      class_intra c -> cn_int_key c = Some ik -> cn_intra_key c = Some ak -> filing conn c w w'.

Lemma entries_fresh t conns P a c :
  entries t conns P -> conns !! a = None -> entries t (<[a := c]> conns) P.
Proof.
  intros He Ha k b Hb. destruct (He k b Hb) as (cb & Hcb & HP). exists cb.
  rewrite lookup_insert_ne; [done|]. intros ->. congruence.
Qed.

Lemma entries_insert t conns P a c k :
  entries t conns P -> conns !! a = None -> P c k -> entries (<[k := a]> t) (<[a := c]> conns) P.
Proof.
  intros He Ha HP k' b Hb. destruct (decide (k = k')) as [<-|].
  - rewrite lookup_insert_eq in Hb. injection Hb as <-. exists c. by rewrite lookup_insert_eq.
  - rewrite lookup_insert_ne in Hb by done. by eapply entries_fresh.
Qed.

Lemma keyed_some ck : keyed (Some ck) (conn_key_word ck).
Proof. by exists ck. Qed.


Lemma filing_trees_ok w w' conn c :
  trees_ok w -> w_conns w !! conn = None -> (conn < w_next w)%positive -> filing conn c w w' ->
  trees_ok (with_conns w' (<[conn := c]> (w_conns w'))) /\ (conn < w_next w')%positive.
Proof.
  intros Hok Hfresh Hlt Hf.
  assert (Hnext : forall w1, quiet w w1 -> (conn < w_next w1)%positive).
  { intros w1 Hq. eapply Pos.lt_le_trans; [exact Hlt|]. apply Hq. }
  destruct Hf as [Hq|w1 w2 ek ik Hq Hi Hq' Hc He Hk|w1 w2 ek ik Hq Hi Hq' Hc He Hk|w1 w2 ek ik Hq Hi Hq' Hc He Hk].
  { split; [|by apply Hnext]. pose proof (trees_ok_quiet _ _ Hok Hq) as [E1 E2 I1 I2 A1 A2 Hl].
    assert (w_conns w' !! conn = None) by (by rewrite (q_conns _ _ Hq)).
    constructor; simpl; try (by apply entries_fresh).
    intros a c' Ha. destruct (decide (a = conn)) as [->|]; [by apply Hnext|].
    rewrite lookup_insert_ne in Ha by done. by eapply Hl. }
  all: assert (Hn2 : (conn < w_next w')%positive)
    by (injection Hi as <-; eapply Pos.lt_le_trans; [by apply Hnext|]; apply (q_next _ _ Hq'));
    split; [|exact Hn2];
    pose proof (trees_ok_quiet _ _ Hok Hq) as [E1 E2 I1 I2 A1 A2 Hl];
    assert (Hf1 : w_conns w1 !! conn = None) by (by rewrite (q_conns _ _ Hq));
    injection Hi as <-; destruct Hq' as [Q1 _ Q2 Q3 Q4 Q5 Q6 Q7 Q8]; simpl in *;
    constructor; simpl; rewrite ?Q1, ?Q2, ?Q3, ?Q4, ?Q5, ?Q6, ?Q7;
    first
    [ by apply entries_fresh
    | apply entries_insert; [done|done|];
      unfold in_ext1, in_ext2, in_int1, in_int2, in_intra1, in_intra2;
      rewrite ?He, ?Hk; auto using keyed_some
    | intros a c' Ha; destruct (decide (a = conn)) as [->|]; [done|];
      rewrite lookup_insert_ne in Ha by done; eapply Pos.lt_le_trans; [by eapply Hl|exact Q8] ].
Qed.

(** A computation that files [conn], and what it returns. *)
Definition files (conn : ptr) (m : M (status_t * conn_struct)) : Prop :=
  forall w r c w', m w = Ret ((r, c), w') -> filing conn c w w' /\ (r = NOK -> quiet w w').

Lemma files_nok conn c : files conn (sret (NOK, c)).
Proof. intros w r c' w' [= -> -> ->]. split; [by apply filed_nowhere|done]. Qed.

Lemma filing_quiet_l conn c w w1 w' : quiet w w1 -> filing conn c w1 w' -> filing conn c w w'.
Proof.
  intros Hq [Hq1|? ? ? ? Hq1|? ? ? ? Hq1|? ? ? ? Hq1]; pose proof (quiet_trans _ _ _ Hq Hq1);
    [by apply filed_nowhere|by eapply filed_ext|by eapply filed_int|by eapply filed_intra].
Qed.

Lemma files_bind {A} conn (m : M A) k :
  quietly m -> (forall a, files conn (k a)) -> files conn (sbind m k).
Proof.
  intros Hm Hk w r c w' H. srun H as a w1 Ha. apply Hm in Ha. apply Hk in H as [H1 H2].
  split; [by eapply filing_quiet_l|]. intros Hr. etrans; [done|by apply H2].
Qed.

(** ** What each kind of creation does *)

Lemma files_ext conn c t : cn_initiator c = EXT -> files conn (create_conn_ext conn c t).
Proof.
  intros Hi w r c' w' H. unfold create_conn_ext in H.
  srun H as fh w1 H1. srun H as fip w2 H2. srun H as k w3 H3. srun H as u w4 Hins.
  assert (Hq : quiet w w3).
  { assert (quietly (get_handler (tg_front_handler t))) as Hh by (unfold get_handler; keeps_tac).
    assert (quietly (@slift world _ (nonnull (hd_ip fh)))) as Hs by keeps_tac.
    etrans; [by eapply Hh|]. etrans; [by eapply Hs|]. by eapply quiet_new_pin_key. }
  cbv zeta in Hins. destruct u.
  match type of H with ?k _ = _ => assert (Hk : quietly k) end.
  { keeps_tac. }
  pose proof (Hk _ _ _ H) as Hq'. run_inv.
  all: split; [|done]; eapply filed_ext; try eassumption; done.
Qed.

Lemma files_outgoing conn c vid ip :
  class_int c -> files conn (create_outgoing conn c vid ip).
Proof.
  intros Hc w r c' w' H. unfold create_outgoing in H. srun H as [] w1 Hins. injection H as <- <- <-.
  split; [|done]. by eapply filed_int.
Qed.

(** What the creation functions keep of the connection they complete. *)
Lemma snat_address_keeps t pk tg c w ip c' w' :
  snat_address t pk tg c w = Ret ((ip, c'), w') ->
  cn_initiator c' = cn_initiator c /\ cn_destination c' = cn_destination c.
Proof.
  intros H. unfold snat_address in H. srun H as k w1 H1. srun H as pin w2 H2.
  destruct pin; run_inv; done.
Qed.

Lemma files_lih conn pkt c t : cn_initiator c = LIH -> files conn (create_conn_lih conn pkt c t).
Proof.
  intros Hi. unfold create_conn_lih. apply files_bind; [keeps_tac|]. intros [ih|]; [apply files_nok|].
  apply files_bind; [keeps_tac|]. intros s. destruct (hs_found s); [apply files_nok|].
  apply files_bind; [unfold get_handler; keeps_tac|]. intros fh.
  apply files_bind; [keeps_tac|]. intros fip. apply files_bind; [keeps_tac|]. intros wx.
  intros w r c' w' H. srun H as [ip cs] w1 Hs.
  pose proof (quiet_snat _ _ _ _ _ _ _ Hs) as Hq. apply snat_address_keeps in Hs as [E1 E2].
  apply files_outgoing in H; [|split; rewrite ?E1, ?E2; auto].
  destruct H as [H1 H2]. split; [by eapply filing_quiet_l|]. intros Hr. etrans; [done|by apply H2].
Qed.

Lemma files_hih_ext conn c t bh : cn_initiator c = HIH -> files conn (create_hih_ext conn c t bh).
Proof.
  intros Hi. unfold create_hih_ext.
  apply files_bind; [keeps_tac|]. intros wx. apply files_bind; [keeps_tac|]. intros hip.
  intros w r c' w' H. srun H as [ip cs] w1 Hs.
  assert (Hk : quiet w w1 /\ cn_initiator cs = HIH /\ cn_destination cs = EXT).
  { destruct (exclusive_hih wx =? 1).
    - pose proof (quiet_snat _ _ _ _ _ _ _ Hs). by apply snat_address_keeps in Hs as [-> ->].
    - srun Hs as fh w2 H2. srun Hs as fip w3 H3.
      pose proof (quiet_snat _ _ _ _ _ _ _ Hs). apply snat_address_keeps in Hs as [-> ->].
      unfold get_handler in H2. run_inv. apply deref_Ret_inv in H2 as (_ & _ & _ & ->). done. }
  destruct Hk as (Hq & E1 & E2). apply files_outgoing in H; [|split; auto].
  destruct H as [H1 H2]. split; [by eapply filing_quiet_l|]. intros Hr. etrans; [done|by apply H2].
Qed.

Lemma intra_pin_keeps c h w c' w' :
  intra_pin c h w = Ret (Some c', w') ->
  cn_initiator c' = cn_initiator c /\ cn_destination c' = cn_destination c.
Proof.
  intros H. unfold intra_pin in H. srun H as iip w1 H1. srun H as k w2 H2. srun H as wx w3 H3.
  srun H as pin w4 H4. destruct pin; [|run_inv; done].
  srun H as v w5 H5. destruct (negb _); run_inv; done.
Qed.

Lemma files_intra_pair conn c ik ak :
  class_intra c -> cn_int_key c = Some ik -> cn_intra_key c = Some ak ->
  files conn (do_ insert_intra conn ik ak; sret (OK, c)).
Proof.
  intros Hc Hi Ha w r c'' w' H. srun H as [] w1 Hins. injection H as <- <- <-.
  split; [|done]. by eapply filed_intra.
Qed.

Lemma files_hih_intra conn c bh ih : cn_initiator c = HIH -> files conn (create_hih_intra conn c bh ih).
Proof.
  intros Hi. unfold create_hih_intra. apply files_bind; [unfold get_handler; keeps_tac|]. intros h.
  intros w r c' w' H. srun H as pinned w1 Hp.
  assert (Hk : quiet w w1 /\ forall cs, pinned = Some cs -> cn_initiator cs = HIH /\ cn_destination cs = INTRA).
  { destruct (hd_exclusive h =? 0).
    - injection Hp as <- <-. split; [done|]. by intros cs [= <-].
    - split; [by eapply quiet_intra_pin|]. intros cs ->. apply intra_pin_keeps in Hp as [-> ->]. done. }
  destruct Hk as (Hq & Hcs). destruct pinned as [cs|].
  - destruct (Hcs cs eq_refl) as [E1 E2]. clear Hcs. revert w1 w' r c' H Hp Hq.
    intros w1 w' r c' H Hp Hq. srun H as iip w2 H2. apply slift_Ret_inv in H2 as [_ ->].
    eapply files_intra_pair in H as [H1 H2]; [|by right|done|done].
    split; [by eapply filing_quiet_l|]. intros Hr. etrans; [done|by apply H2].
  - injection H as <- <- <-. split; [by apply filed_nowhere|done].
Qed.

Lemma files_hih conn pkt c t s : cn_initiator c = HIH -> files conn (create_conn_hih conn pkt c t s).
Proof.
  intros Hi. unfold create_conn_hih. apply files_bind; [keeps_tac|]. intros bha.
  apply files_bind; [unfold get_handler; keeps_tac|]. intros bh.
  apply files_bind; [keeps_tac|]. intros intra. apply files_bind; [auto with keeps|]. intros [| |r|].
  - destruct (cn_intra_handler _); [by apply files_hih_intra|apply files_nok].
  - intros w r c' w' [= <- <- <-]. split; [by apply filed_nowhere|done].
  - apply files_nok.
  - by apply files_hih_ext.
Qed.

Lemma files_intra conn pkt c t s : cn_initiator c = INTRA -> files conn (create_conn_intra conn pkt c t s).
Proof.
  intros Hi. unfold create_conn_intra. apply files_bind; [keeps_tac|]. intros [ih|]; [apply files_nok|].
  apply files_bind; [unfold get_handler; keeps_tac|]. intros fh.
  apply files_bind; [keeps_tac|]. intros fip. destruct (_ =? _); [apply files_nok|].
  apply files_bind; [keeps_tac|]. intros hs. destruct (hs_found hs); [|apply files_nok].
  repeat (apply files_bind; [solve [unfold get_handler; keeps_tac]|]; intros ?).
  match goal with |- files _ (match ?x with _ => _ end) => destruct x end; [|apply files_nok].
  repeat (apply files_bind; [solve [unfold get_pin; keeps_tac]|]; intros ?).
  by apply files_intra_pair; [left|..].
Qed.

(** * The invariant is preserved *)

Lemma conn_init_origin p ta id mt c : conn_init p ta id mt = Ret c -> cn_initiator c = pt_origin p.
Proof. intros H. unfold conn_init in H. run_inv. done. Qed.

Lemma quiet_same_next w w' : quiet w w' -> (w_next w <= w_next w')%positive.
Proof. by intros []. Qed.

Lemma get_conn_inv a w c w' : get_conn a w = Ret (c, w') -> w_conns w !! a = Some c /\ w' = w.
Proof. unfold get_conn. rewrite deref_Ret_inv. naive_solver. Qed.
Lemma get_pkt_inv a w p w' : get_pkt a w = Ret (p, w') -> w_pkts w !! a = Some p /\ w' = w.
Proof. unfold get_pkt. rewrite deref_Ret_inv. naive_solver. Qed.

(** [free_conn] drops the connection and touches no tree. *)
Lemma free_conn_effect a w u w' :
  free_conn (Some a) w = Ret (u, w') ->
  exists w1, quiet w w1 /\ w' = with_conns w1 (delete a (w_conns w1)).
Proof.
  intros H. unfold free_conn in H. srun H as c w1 H1. srun H as v w2 H2. srun H as v' w3 H3.
  srun H as v'' w4 H4. apply get_conn_inv in H1 as [_ ->].
  exists w4. split.
  - etrans; [by eapply quiet_free_pkts|]. etrans; by eapply quiet_free_0.
  - unfold free_conn_block, free_in in H. case_match; simplify_eq. done.
Qed.

Lemma unfiled_quiet w w' a : quiet w w' -> unfiled w a -> unfiled w' a.
Proof. intros [_ _ E1 E2 I1 I2 A1 A2 _] H k. rewrite E1, E2, I1, I2, A1, A2. apply H. Qed.

Lemma free_conn_trees_ok a w u w' :
  trees_ok w -> unfiled w a -> free_conn (Some a) w = Ret (u, w') ->
  trees_ok w' /\ w_conns w' = delete a (w_conns w).
Proof.
  intros Hok Hu Hf. destruct (free_conn_effect _ _ _ _ Hf) as (w1 & Hq & ->).
  split; [|simpl; by rewrite (q_conns _ _ Hq)].
  eapply trees_ok_other.
  - by eapply trees_ok_quiet.
  - by eapply unfiled_quiet.
  - intros b Hb. by rewrite lookup_delete_ne.
  - intros c. by rewrite lookup_delete_eq.
Qed.

(** Dispatch on the origin: the five creations file the connection. *)
Lemma files_dispatch conn pkt p c t s :
  cn_initiator c = pt_origin p ->
  files conn (match pt_origin p with
              | EXT => create_conn_ext conn c t
              | LIH => create_conn_lih conn pkt c t
              | HIH => create_conn_hih conn pkt c t (ts_hih s)
              | INTRA => create_conn_intra conn pkt c t s
              | INT => sret (NOK, c)
              end).
Proof.
  intros Hi. destruct (pt_origin p).
  - by apply files_ext.
  - apply files_nok.
  - by apply files_lih.
  - by apply files_hih.
  - by apply files_intra.
Qed.

(** What [create_conn] does with the structure once it is filled. *)
Lemma create_finish_trees_ok w0 w1 conn c r pkt w' res :
  trees_ok w0 -> w_conns w0 !! conn = None -> (conn < w_next w0)%positive ->
  filing conn c w0 w1 -> (r = NOK -> quiet w0 w1) ->
  (do_ put_conn conn c;
   match r with
   | OK => do_ upd_pkt pkt (fun p => p <| pt_conn := Some conn |>); sret (Some conn)
   | NOK => do_ free_conn (Some conn); sret None
   end) w1 = Ret (res, w') ->
  trees_ok w' /\
  match res with
  | Some a => a = conn /\ w_conns w' = <[conn := c]> (w_conns w0)
  | None => w_conns w' = w_conns w0
  end.
Proof.
  intros Hok Hf Hlt Hfil Hnok H. srun H as u w2 H2. injection H2 as _ <-.
  destruct (filing_trees_ok _ _ _ _ Hok Hf Hlt Hfil) as [Hok2 Hlt2].
  assert (Hc1 : w_conns w1 = w_conns w0).
  { destruct Hfil as [Hq|? ? ? ? Hq Hi Hq'|? ? ? ? Hq Hi Hq'|? ? ? ? Hq Hi Hq'];
      [by apply q_conns|..]; injection Hi as <-; apply q_conns in Hq, Hq'; simpl in *; congruence. }
  destruct r; srun H as u' w3 H3; injection H as <- <-.
  - specialize (Hnok eq_refl).
    assert (Hu : unfiled (with_conns w1 (<[conn:=c]> (w_conns w1))) conn).
    { change (unfiled w1 conn). eapply unfiled_quiet; [done|]. by apply fresh_unfiled. }
    destruct (free_conn_trees_ok _ _ _ _ Hok2 Hu H3) as [Hok' ->]. split; [done|].
    simpl. rewrite delete_insert_eq, Hc1. by apply delete_id.
  - apply quiet_upd_pkt in H3. split; [by eapply trees_ok_quiet|]. split; [done|].
    rewrite (q_conns _ _ H3). simpl. by rewrite Hc1.
Qed.

(** The part of [create_conn] before the structure is allocated changes nothing
    the trees care about. *)
Definition select_target (pkt : ptr) (p : pkt_struct) : M (option ptr * target_search) :=
  if decide (pt_origin p = EXT) then
    do i <- get_iface (pt_in p); sret (if_target i, target_search_init)
  else
    do w <- sget;
    do s <- tree_foreach (find_target pkt) (tree_to_list (targets w)) target_search_init;
    sret (if ts_found s then ts_target s else None, s).

Lemma quiet_select_target pkt p : quietly (select_target pkt p).
Proof. unfold select_target, get_iface. keeps_tac. Qed.

Lemma create_conn_trees_ok pkt mt w res w' :
  trees_ok w -> create_conn pkt mt w = Ret (res, w') ->
  trees_ok w' /\
  match res with
  | Some a => w_conns w !! a = None /\ exists c, w_conns w' = <[a := c]> (w_conns w)
  | None => w_conns w' = w_conns w
  end.
Proof.
  intros Hok H. unfold create_conn in H. srun H as p w1 H1. apply get_pkt_inv in H1 as [_ ->].
  srun H as proto w1 H1. apply slift_Ret_inv in H1 as [_ ->].
  srun H as no_syn w1 H1.
  assert (w1 = w) as -> by (destruct (proto =? IPPROTO_TCP); run_inv; done).
  destruct no_syn; [by injection H as <- <-|].
  srun H as [ta s] w2 H2. apply (quiet_select_target pkt p) in H2.
  destruct ta as [ta|]; [|injection H as <- <-; split; [by eapply trees_ok_quiet|by apply q_conns]].
  srun H as conn w3 H3. pose proof (quiet_malloc _ _ _ H3) as Hq3. injection H3 as <- <-.
  srun H as p' w4 H4. apply get_pkt_inv in H4 as [_ ->].
  srun H as t w4 H4. unfold get_target in H4. apply deref_Ret_inv in H4 as (_ & _ & _ & ->).
  srun H as u w4 H4. apply quiet_c_id in H4.
  srun H as wx w5 H5. injection H5 as _ <-. srun H as c w5 H5. apply slift_Ret_inv in H5 as [Hc ->].
  apply conn_init_origin in Hc. srun H as [r c'] w5 H5.
  assert (Hq : quiet w w4) by (etrans; [done|by etrans]).
  destruct (files_dispatch _ _ p' _ _ _ Hc _ _ _ _ H5) as [Hfil Hnok].
  assert (Hfresh : w_conns w4 !! w_next w2 = None).
  { rewrite (q_conns _ _ Hq). destruct (w_conns w !! w_next w2) eqn:E; [|done].
    apply (ok_fresh _ Hok) in E. pose proof (q_next _ _ H2). lia. }
  assert (Hlt : (w_next w2 < w_next w4)%positive).
  { eapply Pos.lt_le_trans; [|by apply (q_next _ _ H4)]. simpl. lia. }
  pose proof (trees_ok_quiet _ _ Hok Hq) as Hok4.
  destruct (create_finish_trees_ok _ _ _ _ _ _ _ _ Hok4 Hfresh Hlt Hfil Hnok H) as [Hok' Hres].
  split; [done|]. rewrite (q_conns _ _ Hq) in Hres, Hfresh.
  destruct res as [a|]; [|done]. destruct Hres as [-> Hcs]. eauto.
Qed.

(** * Lookup and update *)

(** The connections may change, but not what identifies them; the trees do not. *)
Record tracks (w w' : world) : Prop := {
  tr_conns : forall a c, w_conns w !! a = Some c -> exists c', w_conns w' !! a = Some c' /\ same_id c c';
  tr_back : forall a, w_conns w !! a = None -> w_conns w' !! a = None;
  tr_nodes : w_nodes w' = w_nodes w;
  tr_ext1 : ext_tree1 w' = ext_tree1 w;
  tr_ext2 : ext_tree2 w' = ext_tree2 w;
  tr_int1 : int_tree1 w' = int_tree1 w;
  tr_int2 : int_tree2 w' = int_tree2 w;
  tr_intra1 : intra_tree1 w' = intra_tree1 w;
  tr_intra2 : intra_tree2 w' = intra_tree2 w;
  tr_next : (w_next w <= w_next w')%positive;
}.

#[export] Instance same_id_refl : Reflexive same_id.
Proof. intros c. by repeat split. Qed.
#[export] Instance same_id_trans : Transitive same_id.
Proof. intros c1 c2 c3 (?&?&?&?&?&?) (?&?&?&?&?&?). repeat split; congruence. Qed.

#[export] Instance tracks_refl : Reflexive tracks.
Proof. intros w. constructor; try done. intros a c Ha. by exists c. Qed.
#[export] Instance tracks_trans : Transitive tracks.
Proof.
  intros w1 w2 w3 [H1 B1] [H2 B2]. constructor; try congruence; try lia; [|eauto].
  intros a c Ha. destruct (H1 a c Ha) as (c' & Hc' & ?). destruct (H2 a c' Hc') as (c'' & ? & ?).
  exists c''. split; [done|by etrans].
Qed.

Lemma quiet_tracks w w' : quiet w w' -> tracks w w'.
Proof. intros []. constructor; try done; [|by intros; congruence]. intros a c Ha. exists c. split; [congruence|done]. Qed.

Lemma keeps_weaken {A} (R R' : world -> world -> Prop) (m : M A) :
  (forall w w', R w w' -> R' w w') -> keeps R m -> keeps R' m.
Proof. intros H Hm w a w' Hr. apply H. by eapply Hm. Qed.

Lemma entries_tracks t conns conns' (P : conn_struct -> Z -> Prop) :
  entries t conns P ->
  (forall a c, conns !! a = Some c -> exists c', conns' !! a = Some c' /\ same_id c c') ->
  (forall c c' k, same_id c c' -> P c k -> P c' k) -> entries t conns' P.
Proof.
  intros He Hc HP k a Ha. destruct (He k a Ha) as (c & Hca & Hk).
  destruct (Hc a c Hca) as (c' & ? & ?). exists c'. eauto.
Qed.

Lemma trees_ok_tracks w w' : trees_ok w -> tracks w w' -> trees_ok w'.
Proof.
  intros [] [Hc Hb _ E1 E2 I1 I2 A1 A2 Hn]. constructor; rewrite ?E1, ?E2, ?I1, ?I2, ?A1, ?A2;
    try (eapply entries_tracks; [eassumption|exact Hc|];
         intros c c' k (S1&S2&S3&S4&S5&S6);
         unfold in_ext1, in_ext2, in_int1, in_int2, in_intra1, in_intra2, class_ext, class_int, class_intra;
         rewrite S1, ?S2, ?S3, ?S4, ?S5, ?S6; done).
  intros a c' Ha. destruct (w_conns w !! a) as [c|] eqn:E; [|apply Hb in E; congruence].
  eapply Pos.lt_le_trans; [by eapply ok_fresh0|done].
Qed.

Lemma tracks_put_conn a c c' w u w' :
  w_conns w !! a = Some c -> same_id c c' -> put_conn a c' w = Ret (u, w') -> tracks w w'.
Proof.
  intros Ha Hs [= _ <-]. constructor; try done; simpl.
  - intros b cb Hb. destruct (decide (a = b)) as [<-|].
    + exists c'. rewrite lookup_insert_eq. by simplify_eq.
    + exists cb. by rewrite lookup_insert_ne.
  - intros b Hb. rewrite lookup_insert_ne; [done|]. intros ->. congruence.
Qed.

Lemma quiet_lookup_origin p c : quietly (lookup_origin p c).
Proof. unfold lookup_origin, get_target, get_handler. keeps_tac. Qed.
#[export] Hint Resolve quiet_lookup_origin : keeps.

Lemma conn_lookup_tracks pkt w res w' :
  conn_lookup pkt w = Ret (res, w') -> tracks w w'.
Proof.
  intros H. unfold conn_lookup in H. srun H as p w1 H1. apply get_pkt_inv in H1 as [_ ->].
  srun H as key w1 H1. apply slift_Ret_inv in H1 as [_ ->].
  srun H as wx w1 H1. injection H1 as <- <-. srun H as found w1 H1.
  assert (Hq : quiet w w1).
  { lazymatch type of H1 with ?k _ = _ => assert (Hk : quietly k) by (unfold get_conn; keeps_tac) end.
    by apply Hk in H1. }
  apply quiet_tracks in Hq. destruct found as [conn|]; [|by injection H as _ <-].
  srun H as c w2 H2. apply get_conn_inv in H2 as [Hc ->]. destruct (cn_lock c); [done|].
  srun H as u w2 H2. injection H as _ <-. etrans; [done|].
  by eapply tracks_put_conn; [exact Hc| |exact H2].
Qed.

(** The packet designates the connection [a], which is live. *)
Definition attached (pkt a : ptr) (w : world) : Prop :=
  exists c p, w_conns w !! a = Some c /\ w_pkts w !! pkt = Some p /\ pt_conn p = Some a.

Lemma update_conn_spec pkt conn mt w r w' :
  update_conn pkt conn mt w = Ret (r, w') -> r = OK /\ tracks w w' /\ attached pkt conn w'.
Proof.
  intros H. unfold update_conn in H. srun H as p w1 H1. apply get_pkt_inv in H1 as [_ ->].
  srun H as c w1 H1. apply get_conn_inv in H1 as [Hc ->]. srun H as u w1 H1. srun H as u' w2 H2.
  injection H as <- <-. split; [done|]. split.
  - etrans; [|by apply quiet_tracks; eapply quiet_put_pkt].
    by eapply tracks_put_conn; [exact Hc| |exact H1].
  - injection H1 as _ <-. injection H2 as _ <-. eexists _, _. simpl.
    rewrite !lookup_insert_eq. done.
Qed.

Lemma attached_create w1 pkt conn c w' a r :
  (do_ put_conn conn c;
   match r with
   | OK => do_ upd_pkt pkt (fun p => p <| pt_conn := Some conn |>); sret (Some conn)
   | NOK => do_ free_conn (Some conn); sret None
   end) w1 = Ret (Some a, w') -> attached pkt a w'.
Proof.
  intros H. srun H as u w2 H2. injection H2 as _ <-. destruct r; srun H as u' w3 H3; [done|].
  injection H as <- <-. unfold upd_pkt in H3. srun H3 as p w4 H4. apply get_pkt_inv in H4 as [_ ->].
  injection H3 as _ <-. eexists _, _. simpl. rewrite !lookup_insert_eq. done.
Qed.

Lemma create_conn_attached pkt mt w a w' :
  create_conn pkt mt w = Ret (Some a, w') -> attached pkt a w'.
Proof.
  intros H. unfold create_conn in H. srun H as p w1 H1. srun H as proto w2 H2. srun H as no_syn w3 H3.
  destruct no_syn; [done|]. srun H as [ta s] w4 H4. destruct ta as [ta|]; [|done].
  srun H as conn w5 H5. srun H as p' w6 H6. srun H as t w7 H7. srun H as u w8 H8. srun H as wx w9 H9.
  srun H as c w10 H10. srun H as [r c'] w11 H11. by eapply attached_create.
Qed.

(** * Removal *)

Lemma remove_key_inv t k t' : remove_key t k = Ret t' ->
  (exists ck, k = Some ck /\ t' = delete (conn_key_word ck) t) \/ (k = None /\ t = ∅ /\ t' = ∅).
Proof.
  unfold remove_key. destruct k as [ck|]; [intros [= <-]; eauto|].
  destruct (decide (t = ∅)); [|done]. intros [= <-]. eauto.
Qed.

(** Deleting the entry of its key leaves no entry for a connection that can
    only be filed there. *)
Lemma entries_removed t conns P a k t' c :
  entries t conns P -> conns !! a = Some c -> (forall n, P c n -> keyed k n) ->
  remove_key t k = Ret t' -> entries t' conns P /\ forall n, t' !! n <> Some a.
Proof.
  intros He Ha HP Hr. apply remove_key_inv in Hr as [(ck & -> & ->)|(-> & -> & ->)].
  - split.
    + intros n b Hb. apply lookup_delete_Some in Hb as [_ Hb]. by apply He.
    + intros n Hn. apply lookup_delete_Some in Hn as [Hne Hn].
      destruct (He n a Hn) as (c' & Hc' & Hk). simplify_eq. destruct (HP n Hk) as (ck' & E & Ek).
      congruence.
  - split; [done|]. intros n. by rewrite lookup_empty.
Qed.

Lemma entries_subset t t' conns P : entries t conns P -> t' ⊆ t -> entries t' conns P.
Proof. intros He Hs k a Ha. apply He. by eapply lookup_weaken. Qed.

Lemma remove_key_subset t k t' : remove_key t k = Ret t' -> t' ⊆ t.
Proof. intros H. apply remove_key_inv in H as [(ck & _ & ->)|(_ & -> & ->)]; [apply delete_subseteq|done]. Qed.

Lemma not_filed t conns P a c n :
  entries t conns P -> conns !! a = Some c -> (forall n, ~ P c n) -> t !! n <> Some a.
Proof. intros He Ha Hn Hk. destruct (He n a Hk) as (c' & ? & ?). simplify_eq. by eapply Hn. Qed.

(** The step of a removal on the trees: only entries of [a] disappear, and all
    of them do. *)
Record unfiles (a : ptr) (w w' : world) : Prop := {
  uf_ok : trees_ok w';
  uf_conns : w_conns w' = w_conns w;
  uf_unfiled : unfiled w' a;
  uf_ext1 : ext_tree1 w' ⊆ ext_tree1 w;
  uf_int2 : int_tree2 w' ⊆ int_tree2 w;
  uf_intra1 : intra_tree1 w' ⊆ intra_tree1 w;
}.

Lemma unfiles_quiet a w w1 w' : unfiles a w w1 -> quiet w1 w' -> unfiles a w w'.
Proof.
  intros [] Hq. constructor; [by eapply trees_ok_quiet|by rewrite (q_conns _ _ Hq)|by eapply unfiled_quiet
    |by rewrite (q_ext1 _ _ Hq)|by rewrite (q_int2 _ _ Hq)|by rewrite (q_intra1 _ _ Hq)].
Qed.

(** An entry for a connection of another class is impossible. *)
Ltac other_class :=
  match goal with
  | He : entries ?t _ _, Ha : _ !! ?a = Some _ |- ?t !! _ <> Some ?a =>
      eapply not_filed; [exact He|exact Ha|];
      unfold in_ext1, in_ext2, in_int1, in_int2, in_intra1, in_intra2, class_ext, class_int, class_intra in *;
      intuition congruence
  end.

Lemma remove_ext_unfiles a c w u w' :
  trees_ok w -> w_conns w !! a = Some c -> class_ext c -> remove_ext c w = Ret (u, w') -> unfiles a w w'.
Proof.
  intros Hok Ha Hc H. pose proof Hok as [E1 E2 I1 I2 A1 A2 Hl]. unfold remove_ext in H.
  srun H as wx w1 H1. injection H1 as <- <-. srun H as t1 w1 H1. apply slift_Ret_inv in H1 as [H1 ->].
  srun H as t2 w1 H2. apply slift_Ret_inv in H2 as [H2 ->].
  srun H as t3 w1 H3. apply slift_Ret_inv in H3 as [H3 ->]. srun H as v w1 H4.
  apply (quiet_release comm_pin_tree set_comm_pin_tree) in H; [|auto with keeps].
  eapply unfiles_quiet; [|exact H]. injection H4 as _ <-.
  destruct (entries_removed _ _ _ _ _ _ _ E1 Ha (fun n H => proj2 H) H1) as [E1' U1].
  assert (Hs2 : t3 ⊆ ext_tree2 w).
  { apply remove_key_subset in H2. destruct (hih_redirected_int_key _); [|by injection H3 as <-].
    apply remove_key_subset in H3. by etrans. }
  assert (U2 : forall n, t3 !! n <> Some a).
  { intros n Hn. destruct (E2 n a) as (c' & Hc' & _ & Hk); [by eapply lookup_weaken|]. simplify_eq.
    assert (Hn2 : t2 !! n = Some a).
    { destruct (hih_redirected_int_key _); [|by injection H3 as <-].
      apply remove_key_subset in H3. by eapply lookup_weaken. }
    destruct Hk as [(ck & E & <-)|(ck & E & <-)]; rewrite E in *.
    - injection H2 as <-. by rewrite lookup_delete_eq in Hn2.
    - injection H3 as <-. by rewrite lookup_delete_eq in Hn. }
  constructor; try done; [constructor; simpl; try done; by eapply entries_subset| |by eapply remove_key_subset].
  intros n. simpl. split_and!; [apply U1|apply U2|other_class..].
Qed.

Lemma remove_int_unfiles a c w u w' :
  trees_ok w -> w_conns w !! a = Some c -> class_int c -> remove_int c w = Ret (u, w') -> unfiles a w w'.
Proof.
  intros Hok Ha Hc H. pose proof Hok as [E1 E2 I1 I2 A1 A2 Hl]. unfold remove_int in H.
  srun H as wx w1 H1. injection H1 as <- <-. srun H as t2 w1 H2. apply slift_Ret_inv in H2 as [H2 ->].
  srun H as t1 w1 H1. apply slift_Ret_inv in H1 as [H1 ->]. srun H as v w1 H4.
  apply (quiet_release comm_pin_tree set_comm_pin_tree) in H; [|auto with keeps].
  eapply unfiles_quiet; [|exact H]. injection H4 as _ <-.
  destruct (entries_removed _ _ _ _ _ _ _ I1 Ha (fun n H => proj2 H) H1) as [I1' U1].
  destruct (entries_removed _ _ _ _ _ _ _ I2 Ha (fun n H => proj2 H) H2) as [I2' U2].
  constructor; try done; [|by eapply remove_key_subset].
  intros n. simpl. split_and!; [other_class|other_class|apply U1|apply U2|other_class..].
Qed.

Lemma remove_intra_unfiles a c w u w' :
  trees_ok w -> w_conns w !! a = Some c -> class_intra c -> remove_intra c w = Ret (u, w') -> unfiles a w w'.
Proof.
  intros Hok Ha Hc H. pose proof Hok as [E1 E2 I1 I2 A1 A2 Hl]. unfold remove_intra in H.
  srun H as wx w1 H1. injection H1 as <- <-. srun H as t1 w1 H1. apply slift_Ret_inv in H1 as [H1 ->].
  srun H as t2 w1 H2. apply slift_Ret_inv in H2 as [H2 ->]. srun H as v w1 H4.
  apply (quiet_release intra_pin_tree set_intra_pin_tree) in H; [|auto with keeps].
  eapply unfiles_quiet; [|exact H]. injection H4 as _ <-.
  destruct (entries_removed _ _ _ _ _ _ _ A1 Ha (fun n H => proj2 H) H1) as [A1' U1].
  destruct (entries_removed _ _ _ _ _ _ _ A2 Ha (fun n H => proj2 H) H2) as [A2' U2].
  constructor; try done; [|by eapply remove_key_subset].
  intros n. simpl. split_and!; [other_class..|apply U1|apply U2].
Qed.

Lemma remove_from_trees_unfiles a c w u w' :
  trees_ok w -> w_conns w !! a = Some c -> remove_from_trees c w = Ret (u, w') -> unfiles a w w'.
Proof.
  intros Hok Ha H. unfold remove_from_trees in H.
  assert (Hno : ~ class_ext c -> ~ class_int c -> ~ class_intra c -> unfiled w a).
  { intros Ne Ni Na n. destruct Hok as [E1 E2 I1 I2 A1 A2 _]. split_and!;
      match goal with He : entries ?t _ _ |- ?t !! _ <> _ => eapply not_filed; [exact He|exact Ha|] end;
      unfold in_ext1, in_ext2, in_int1, in_int2, in_intra1, in_intra2; tauto. }
  destruct (cn_initiator c) eqn:Ei, (cn_destination c) eqn:Ed;
    first
    [ by eapply remove_ext_unfiles
    | by eapply remove_int_unfiles; [exact Hok|exact Ha|split; [tauto|done]|exact H]
    | by eapply remove_intra_unfiles; [exact Hok|exact Ha|unfold class_intra; tauto|exact H]
    | injection H as _ <-; constructor; try done; apply Hno;
      unfold class_ext, class_int, class_intra; intuition congruence ].
Qed.

(** [remove_conn] either finds the lock taken and leaves everything, or drops
    the connection and every entry that designates it. *)
Lemma remove_conn_spec a delay w u w' :
  trees_ok w -> remove_conn a delay w = Ret (u, w') ->
  exists c, w_conns w !! a = Some c /\
  ((cn_lock c = true /\ delay <> 0 /\ w' = w) \/
   (cn_lock c = false /\ trees_ok w' /\ w_conns w' = delete a (w_conns w) /\ unfiled w' a)).
Proof.
  intros Hok H. unfold remove_conn in H. srun H as c w1 H1. apply get_conn_inv in H1 as [Ha ->].
  exists c. split; [done|]. destruct (cn_lock c) eqn:El.
  - left. destruct (delay =? 0) eqn:Ed; [done|]. injection H as _ <-. zbool. done.
  - right. split; [done|]. srun H as v1 w1 H1. srun H as v2 w2 H2. srun H as v3 w3 H3.
    srun H as c' w4 H4. apply get_conn_inv in H4 as [_ ->]. srun H as v4 w4 H4.
    set (c1 := c <| cn_lock := true |>) in *.
    assert (Hok1 : trees_ok w1).
    { eapply trees_ok_tracks; [exact Hok|]. by eapply tracks_put_conn; [exact Ha| |exact H1]. }
    injection H1 as _ <-.
    assert (Ha1 : w_conns (w <| w_conns := <[a:=c1]> (w_conns w) |>) !! a = Some c1)
      by apply lookup_insert_eq.
    change (remove_from_trees c) with (remove_from_trees c1) in H2.
    destruct (remove_from_trees_unfiles _ _ _ _ _ Hok1 Ha1 H2) as [Hok2 Hc2 Hu2 _ _ _].
    assert (Hq : quiet w2 w4).
    { etrans; [eapply (quiet_release target_pin_tree set_target_pin_tree); [auto with keeps|exact H3]|].
      by eapply quiet_logged. }
    assert (Hu4 : unfiled w4 a) by (by eapply unfiled_quiet).
    pose proof (trees_ok_quiet _ _ Hok2 Hq) as Hok4.
    destruct (free_conn_trees_ok _ _ _ _ Hok4 Hu4 H) as [Hok' Hc'].
    split; [done|]. split.
    + rewrite Hc', (q_conns _ _ Hq), Hc2. simpl. by rewrite delete_insert_eq.
    + destruct (free_conn_effect _ _ _ _ H) as (w5 & Hq5 & ->). change (unfiled w5 a).
      by eapply unfiled_quiet.
Qed.

(** * Expiration *)

(** Every connection of the list that was unlocked is gone, and every other
    connection is untouched. *)
Definition locked (o : option conn_struct) : bool :=
  match o with Some c => cn_lock c | None => false end.
Record swept (l : list ptr) (m m' : gmap ptr conn_struct) : Prop := {
  sw_gone : forall a, a ∈ l -> locked (m !! a) = false -> m' !! a = None;
  sw_kept : forall a, a ∉ l \/ locked (m !! a) = true -> m' !! a = m !! a;
}.

Lemma remove_conns_spec l delay w u w' :
  trees_ok w -> NoDup l -> remove_conns l delay w = Ret (u, w') ->
  trees_ok w' /\ swept l (w_conns w) (w_conns w').
Proof.
  revert w. induction l as [|a l IH]; intros w Hok Hl H; cbn [remove_conns] in H.
  - injection H as _ <-. split; [done|]. split; [|done]. by intros a ?%elem_of_nil.
  - srun H as v w1 H1. apply NoDup_cons in Hl as [Hal Hl].
    destruct (remove_conn_spec _ _ _ _ _ Hok H1) as (c & Ha & [(Hlk & _ & ->)|(Hlk & Hok1 & Hc1 & _)]).
    + destruct (IH w Hok Hl H) as [Hok' [Hg Hk]]. split; [done|]. split; intros b Hb.
      * intros Hf. apply elem_of_cons in Hb as [->|Hb]; [|by apply Hg].
        rewrite Ha in Hf. simpl in Hf. congruence.
      * apply Hk. rewrite not_elem_of_cons in Hb. tauto.
    + destruct (IH w1 Hok1 Hl H) as [Hok' [Hg Hk]]. split; [done|]. rewrite Hc1 in Hg, Hk. split; intros b Hb.
      * intros Hf. destruct (decide (b = a)) as [->|Hne].
        -- rewrite Hk by (by left). apply lookup_delete_eq.
        -- apply elem_of_cons in Hb as [->|Hb]; [done|]. apply Hg; by rewrite ?lookup_delete_ne.
      * destruct (decide (b = a)) as [->|Hne].
        -- exfalso. rewrite not_elem_of_cons, Ha in Hb. simpl in Hb. destruct Hb as [[]|]; congruence.
        -- rewrite Hk; [by rewrite lookup_delete_ne|]. rewrite lookup_delete_ne by done.
           rewrite not_elem_of_cons in Hb. tauto.
Qed.

(** One traversal adds the expired connections of a tree, in tree order, and
    changes nothing. *)
Definition is_expired (w : world) (clock : ptr -> Z) (delay : Z) (a : ptr) : bool :=
  match w_conns w !! a with Some c => expired c (s32 (clock a)) delay | None => false end.

Lemma expire_foreach clock delay l acc w res w' :
  tree_foreach (expire_conn clock delay) l acc w = Ret (res, w') ->
  w' = w /\ res = acc ++ filter (fun a => is_expired w clock delay a = true) l.*2.
Proof.
  revert acc. induction l as [|[k a] l IH]; intros acc H; cbn [tree_foreach] in H.
  - injection H as <- <-. by rewrite app_nil_r.
  - srun H as [stop acc'] w1 H1. unfold expire_conn in H1. srun H1 as c w2 H2.
    apply get_conn_inv in H2 as [Ha ->]. injection H1 as <- <- <-.
    destruct (IH _ H) as [-> ->]. split; [done|]. rewrite fmap_cons, filter_cons.
    assert (E : is_expired w clock delay a = expired c (s32 (clock a)) delay) by (unfold is_expired; by rewrite Ha).
    simpl. destruct (expired c (s32 (clock a)) delay); case_decide; try congruence; by rewrite <- ?app_assoc.
Qed.

Lemma expire_foreach_ok clock delay l acc w :
  (forall k a, (k, a) ∈ l -> is_Some (w_conns w !! a)) ->
  exists res, tree_foreach (expire_conn clock delay) l acc w = Ret (res, w).
Proof.
  revert acc. induction l as [|[k a] l IH]; intros acc Hl; cbn [tree_foreach]; [by eexists|].
  destruct (Hl k a) as [c Hc]; [by left|].
  destruct (IH (if expired c (s32 (clock a)) delay then acc ++ [a] else acc)) as [res Hres].
  { intros k' a' H'. apply (Hl k' a'). by right. }
  exists res. unfold expire_conn at 1. unfold get_conn. unfold sbind at 1 2.
  rewrite (deref_ok _ _ _ _ Hc). unfold sret. simpl. exact Hres.
Qed.

(** The connections a round finds expired, in the order it finds them. *)
Definition doomed (w : world) (clock : ptr -> Z) (delay : Z) : list ptr :=
  filter (fun a => is_expired w clock delay a = true)
    ((tree_to_list (ext_tree1 w)).*2 ++ (tree_to_list (int_tree2 w)).*2 ++ (tree_to_list (intra_tree1 w)).*2).

(** The trees a round visits each file a connection at most once. *)
Lemma tree_values_NoDup t conns P :
  entries t conns P -> (forall c k k', P c k -> P c k' -> k = k') -> NoDup (tree_to_list t).*2.
Proof.
  intros He HP. apply NoDup_fmap_2_strong.
  - intros [k a] [k' a'] H1 H2 E. simpl in E. subst. apply elem_of_tree_to_list in H1, H2.
    destruct (He _ _ H1) as (c & Hc & H1'). destruct (He _ _ H2) as (c' & Hc' & H2').
    assert (c' = c) as -> by congruence. f_equal. by eapply HP.
  - rewrite tree_to_list_perm. apply NoDup_map_to_list.
Qed.

Lemma tree_values_class t conns P a :
  entries t conns P -> a ∈ (tree_to_list t).*2 -> exists c k, conns !! a = Some c /\ P c k.
Proof.
  intros He ([k b] & -> & Hk%elem_of_tree_to_list)%list_elem_of_fmap. simpl.
  destruct (He _ _ Hk) as (c & ? & ?). eauto.
Qed.

Lemma keyed_inj o k k' : keyed o k -> keyed o k' -> k = k'.
Proof. intros (ck & -> & <-) (ck' & [= <-] & <-). done. Qed.

Lemma doomed_NoDup w clock delay : trees_ok w -> NoDup (doomed w clock delay).
Proof.
  intros [E1 E2 I1 I2 A1 A2 _]. apply NoDup_filter. rewrite !NoDup_app.
  assert (Hinj : forall (o : conn_struct -> option conn_key) (C : conn_struct -> Prop) c k k',
    C c /\ keyed (o c) k -> C c /\ keyed (o c) k' -> k = k').
  { intros o C c k k' [_ H1] [_ H2]. by eapply keyed_inj. }
  split; [by eapply tree_values_NoDup; [exact E1|apply Hinj]|].
  split; [|split; [by eapply tree_values_NoDup; [exact I2|apply Hinj]|split;
    [|by eapply tree_values_NoDup; [exact A1|apply Hinj]]]].
  - intros a (c & k & Hc & Hx & _)%(tree_values_class _ _ _ _ E1) Ha.
    apply elem_of_app in Ha as [(c' & k' & Hc' & Hy & _)%(tree_values_class _ _ _ _ I2)
      |(c' & k' & Hc' & Hy & _)%(tree_values_class _ _ _ _ A1)];
      assert (c' = c) as -> by congruence; unfold class_ext, class_int, class_intra in *; intuition congruence.
  - intros a (c & k & Hc & Hx & _)%(tree_values_class _ _ _ _ I2) (c' & k' & Hc' & Hy & _)%(tree_values_class _ _ _ _ A1).
    assert (c' = c) as -> by congruence. unfold class_int, class_intra in *. intuition congruence.
Qed.

Lemma clean_round_spec clock delay w u w' :
  trees_ok w -> clean_round clock delay w = Ret (u, w') ->
  trees_ok w' /\ swept (doomed w clock delay) (w_conns w) (w_conns w').
Proof.
  intros Hok H. unfold clean_round in H. srun H as wx w1 H1. injection H1 as <- <-.
  srun H as l1 w1 H1. destruct (expire_foreach _ _ _ _ _ _ _ H1) as [-> ->].
  srun H as l2 w2 H2. destruct (expire_foreach _ _ _ _ _ _ _ H2) as [-> ->].
  srun H as l3 w3 H3. destruct (expire_foreach _ _ _ _ _ _ _ H3) as [-> ->].
  replace ((([] ++ _) ++ _) ++ _) with (doomed w clock delay) in H
    by (unfold doomed; by rewrite !filter_app, <- !app_assoc).
  eapply remove_conns_spec; [done|by apply doomed_NoDup|exact H].
Qed.

(** A connection tracked in one of the trees of the round. *)
Definition tracked (w : world) (a : ptr) : Prop :=
  exists k, ext_tree1 w !! k = Some a \/ int_tree2 w !! k = Some a \/ intra_tree1 w !! k = Some a.

Lemma elem_of_tree_values t a : a ∈ (tree_to_list t).*2 <-> exists k, t !! k = Some a.
Proof.
  rewrite list_elem_of_fmap. split.
  - intros ([k b] & -> & Hk%elem_of_tree_to_list). by exists k.
  - intros [k Hk]. exists (k, a). split; [done|]. by apply elem_of_tree_to_list.
Qed.

Lemma elem_of_doomed w clock delay a :
  a ∈ doomed w clock delay <-> tracked w a /\ is_expired w clock delay a = true.
Proof.
  unfold doomed, tracked. rewrite list_elem_of_filter, !elem_of_app, !elem_of_tree_values. naive_solver.
Qed.

(** * Where a new external connection is filed *)

Lemma create_conn_ext_filed conn c t w r c' w' :
  create_conn_ext conn c t w = Ret ((r, c'), w') ->
  exists fh fip, w_handlers w !! default 1%positive (tg_front_handler t) = Some fh /\ hd_ip fh = Some fip /\
  let vid := vlan_vid (hd_vlan fh) in
  let ek := key_of c (cn_first_pkt_src_ip c) (cn_first_pkt_dst_ip c) 0 in
  let ik := reply_key_of c fip (cn_first_pkt_src_ip c) vid in
  r = OK /\ ext_tree1 w' = <[conn_key_word ek := conn]> (ext_tree1 w) /\
  ext_tree2 w' = <[conn_key_word ik := conn]> (ext_tree2 w).
Proof.
  intros H. unfold create_conn_ext in H. srun H as fh w1 H1. srun H as fip w2 H2.
  apply slift_Ret_inv in H2 as [H2 ->]. apply nonnull_Ret_inv in H2.
  unfold get_handler in H1. apply deref_Ret_inv in H1 as (fa & Hfa & Hfh & ->).
  exists fh, fip. rewrite Hfa. split; [done|]. split; [done|].
  srun H as k w3 H3. srun H as u w4 Hins. cbv zeta in Hins.
  apply quiet_new_pin_key in H3 as [_ _ Q1 Q2 _ _ _ _ _]. injection Hins as _ <-.
  lazymatch type of H with ?k ?w0 = _ =>
    assert (Hk : quietly k) by keeps_tac; assert (E1 : r = OK) by (run_inv; done);
    pose proof (Hk _ _ _ H) as [_ _ R1 R2 _ _ _ _ _] end.
  cbv zeta. split; [done|]. rewrite R1, R2. simpl. by rewrite Q1, Q2.
Qed.

(** The fields [conn_init] copies from the packet are those of its key. *)
Lemma conn_init_key p ta id mt c key :
  conn_init p ta id mt = Ret c -> pkt_conn_key p = Ret key ->
  key = key_of c (cn_first_pkt_src_ip c) (cn_first_pkt_dst_ip c) (ck_vlan_id key).
Proof.
  intros Hc Hk. unfold conn_init in Hc. unfold pkt_conn_key in Hk.
  run_inv. unfold key_of. simpl. congruence.
Qed.

(** The reply to a packet: ports exchanged, from the front handler. *)
Definition reply_key (k : conn_key) (fh : handler) (fip : Z) : conn_key :=
  ConnKey (ck_protocol k) fip (ck_dst_port k) (ck_src_ip k) (ck_src_port k) (vlan_vid (hd_vlan fh)).

Lemma create_finish_trees conn c r pkt w1 w' res :
  r = OK ->
  (do_ put_conn conn c;
   match r with
   | OK => do_ upd_pkt pkt (fun p => p <| pt_conn := Some conn |>); sret (Some conn)
   | NOK => do_ free_conn (Some conn); sret None
   end) w1 = Ret (res, w') ->
  res = Some conn /\ ext_tree1 w' = ext_tree1 w1 /\ ext_tree2 w' = ext_tree2 w1.
Proof.
  intros -> H. srun H as u w2 H2. injection H2 as _ <-. srun H as u' w3 H3. injection H as <- <-.
  apply quiet_upd_pkt in H3 as [_ _ Q1 Q2 _ _ _ _ _]. simpl in Q1, Q2. by rewrite Q1, Q2.
Qed.

(** An interface with a fully configured target. *)
Record uplink (w : world) (i : ptr) (fh : handler) (fip : Z) : Prop := {
  up_target : exists ifc ta t fa,
    w_ifaces w !! i = Some ifc /\ if_target ifc = Some ta /\ w_targets w !! ta = Some t /\
    tg_front_handler t = Some fa /\ w_handlers w !! fa = Some fh /\ hd_ip fh = Some fip
}.

Lemma created_ext_trees w pkt p i fh fip key mt res w' :
  w_pkts w !! pkt = Some p -> pt_origin p = EXT -> pt_in p = Some i -> uplink w i fh fip ->
  pkt_conn_key p = Ret key -> ck_vlan_id key = 0 -> create_conn pkt mt w = Ret (res, w') ->
  res = None \/ exists a, res = Some a /\
    conn_lookup_in (ext_tree1 w') key = Some a /\
    conn_lookup_in (ext_tree2 w') (reply_key key fh fip) = Some a.
Proof.
  intros Hp Ho Hin [(ifc & ta & t & fa & Hi & Ht & Hta & Hfa & Hfh & Hfip)] Hkey Hv H.
  unfold create_conn in H. srun H as p0 w1 H1. apply get_pkt_inv in H1 as [E ->].
  assert (p0 = p) as -> by congruence.
  srun H as proto w1 H1. apply slift_Ret_inv in H1 as [_ ->]. srun H as no_syn w1 H1.
  assert (w1 = w) as -> by (destruct (proto =? IPPROTO_TCP); run_inv; done).
  destruct no_syn; [left; by injection H as <- <-|]. right.
  srun H as [tao s] w2 H2. rewrite decide_True in H2 by done. unfold get_iface in H2. rewrite Hin in H2.
  srun H2 as i0 w3 H3. apply deref_Ret_inv in H3 as (? & [= <-] & E' & ->).
  assert (i0 = ifc) as -> by congruence. injection H2 as <- <- <-. rewrite Ht in H.
  srun H as conn w3 H3. injection H3 as <- <-. srun H as p1 w4 H4. apply get_pkt_inv in H4 as [E1 ->].
  assert (p1 = p) as -> by (simpl in E1; congruence).
  srun H as t1 w4 H4. unfold get_target in H4. apply deref_Ret_inv in H4 as (? & [= <-] & E2 & ->).
  assert (t1 = t) as -> by (simpl in E2; congruence).
  srun H as u w4 H4. injection H4 as _ <-. srun H as wx w5 H5. injection H5 as _ <-.
  srun H as c w5 H5. apply slift_Ret_inv in H5 as [Hc ->]. srun H as [r c'] w5 H5. rewrite Ho in H5.
  apply create_conn_ext_filed in H5 as (fh' & fip' & Hfh' & Hfip' & Hr & T1 & T2).
  rewrite Hfa in Hfh'. simpl in Hfh'. assert (fh' = fh) as -> by congruence.
  assert (fip' = fip) as -> by congruence.
  destruct (create_finish_trees _ _ _ _ _ _ _ Hr H) as (-> & F1 & F2).
  eexists. split; [done|]. pose proof (conn_init_key _ _ _ _ _ _ Hc Hkey) as Ek. rewrite Hv in Ek.
  unfold conn_lookup_in. rewrite F1, F2, T1, T2, Ek. unfold reply_key, reply_key_of. simpl.
  by rewrite !lookup_insert_eq.
Qed.

(** * The properties *)

Lemma init_conn_ok pkt mt w res w' :
  trees_ok w -> init_conn pkt mt w = Ret (res, w') ->
  trees_ok w' /\
  match res with
  | Some a => attached pkt a w'
  | None => forall a, is_Some (w_conns w' !! a) <-> is_Some (w_conns w !! a)
  end.
Proof.
  intros Hok H. unfold init_conn in H. srun H as found w1 H1.
  pose proof (conn_lookup_tracks _ _ _ _ H1) as Ht. pose proof (trees_ok_tracks _ _ Hok Ht) as Hok1.
  destruct found as [a|].
  - srun H as r w2 H2. injection H as <- <-. apply update_conn_spec in H2 as (_ & Ht' & Hat).
    split; [by eapply trees_ok_tracks|done].
  - destruct (create_conn_trees_ok _ _ _ _ _ Hok1 H) as [Hok' Hres]. split; [done|].
    destruct res as [a|]; [by eapply create_conn_attached|].
    intros a. rewrite Hres. destruct (w_conns w !! a) as [c|] eqn:E.
    + destruct (tr_conns _ _ Ht _ _ E) as (c' & -> & _). split; eauto.
    + by rewrite (tr_back _ _ Ht _ E).
Qed.

(** C12: [init_conn] keeps the trees sound.  From a state where every entry of
    the six trees designates a live connection filed under one of its own keys,
    looking up, creating or refusing the connection of any packet leads to such
    a state again, on every branch; when it returns a connection, that
    connection is live and the packet points to it; when it refuses one, no
    connection appeared or disappeared. *)
Theorem init_conn_sound pkt mt w res w' :
  trees_ok w -> init_conn pkt mt w = Ret (res, w') ->
  trees_ok w' /\
  match res with
  | Some a => attached pkt a w'
  | None => forall a, is_Some (w_conns w' !! a) <-> is_Some (w_conns w !! a)
  end.
Proof. apply init_conn_ok. Qed.

(** Both directions of a connection opened from outside find it.  When
    [create_conn] accepts the first packet of an attacker, the connection is in
    [ext_tree1] under the packet's own key and in [ext_tree2] under the key of
    the answer of the target's low-interaction honeypot, so [conn_lookup] of
    either reaches it. *)
Lemma created_ext_found w pkt p i fh fip key mt a w' :
  w_pkts w !! pkt = Some p -> pt_origin p = EXT -> pt_in p = Some i -> uplink w i fh fip ->
  pkt_conn_key p = Ret key -> ck_vlan_id key = 0 -> create_conn pkt mt w = Ret (Some a, w') ->
  conn_lookup_in (ext_tree1 w') key = Some a /\
  conn_lookup_in (ext_tree2 w') (reply_key key fh fip) = Some a.
Proof.
  intros Hp Ho Hin Hup Hk Hv H.
  destruct (created_ext_trees _ _ _ _ _ _ _ _ _ _ Hp Ho Hin Hup Hk Hv H) as [?|(b & E & ?)]; [done|].
  by injection E as ->.
Qed.

(** C13: from sound trees, [remove_conn] removes a connection completely.  It either
    finds the lock taken, and leaves everything as it is (with a null delay it
    waits for the lock: it does not return), or it frees the connection, leaves
    all the others, and no tree designates it any more: there is no dangling
    entry.  In sound trees the entries of [intra_tree1] and [intra_tree2] are those of
    connections opened by a HIH or an INTRA host: a connection opened by a LIH that
    [mod_dns_control] switched breaks that, and is left filed
    ([Redirect.switched_lih_dangles]). *)
Theorem remove_conn_complete a delay w u w' :
  trees_ok w -> remove_conn a delay w = Ret (u, w') ->
  exists c, w_conns w !! a = Some c /\
  ((cn_lock c = true /\ delay <> 0 /\ w' = w) \/
   (cn_lock c = false /\ trees_ok w' /\ w_conns w' = delete a (w_conns w) /\ unfiled w' a)).
Proof. apply remove_conn_spec. Qed.

(** C28: what a round of [clean] does.  The connections it finds are the tracked
    ones that are older than the delay (or invalid) when the clock is read at
    them, each found once although the trees share them; those that are not locked are freed, all the other
    connections are untouched, and the trees stay sound. *)
Theorem clean_sweeps clock w u w' :
  trees_ok w -> clean clock w = Ret (u, w') ->
  let delay := clean_delay (expiration_delay w) in
  exists l, NoDup l /\
    (forall a, a ∈ l <-> tracked w a /\ is_expired w clock delay a = true) /\
    swept l (w_conns w) (w_conns w') /\ trees_ok w'.
Proof.
  intros Hok H delay. unfold clean in H. srun H as d w1 H1. injection H1 as <- <-.
  exists (doomed w clock delay). destruct (clean_round_spec _ _ _ _ _ Hok H) as [Hok' Hsw].
  split; [by apply doomed_NoDup|]. split; [intros a; apply elem_of_doomed|done].
Qed.

(** ** Witnesses *)

(** The gateway with the attacker's SYN at address 21; the connection it opens
    gets address 100. *)
Definition syn_received : pkt_struct :=
  PktStruct (Packet (repeat 0 4 ++ syn_frame) 4 18 38 58)
    (Headers (Some (take 14 syn_frame)) None (Some (take 20 (drop 14 syn_frame)))
       (Some (take 20 (drop 34 syn_frame))) None)
    false false EXT EXT 26 80 0 None nat_zero 0 (Some 1%positive) None.
Definition world_syn : world := world0 <| w_pkts := {[ 21%positive := syn_received ]} |>.
Definition world_conn : world := state_after (init_conn 21 1000000) world_syn.
Definition world_idle : world :=
  state_after (upd_conn 100 (fun c => c <| cn_lock := false |>)) world_conn.

Lemma trees_ok_empty w :
  ext_tree1 w = ∅ -> ext_tree2 w = ∅ -> int_tree1 w = ∅ -> int_tree2 w = ∅ -> intra_tree1 w = ∅ ->
  intra_tree2 w = ∅ -> w_conns w = ∅ -> trees_ok w.
Proof.
  intros E1 E2 I1 I2 A1 A2 Hc. constructor; rewrite ?E1, ?E2, ?I1, ?I2, ?A1, ?A2, ?Hc; try by intros ?.
Qed.
Lemma trees_ok_world_syn : trees_ok world_syn.
Proof. by apply trees_ok_empty. Qed.

Lemma world_conn_run : init_conn 21 1000000 world_syn = Ret (Some 100%positive, world_conn).
Proof. vm_compute. reflexivity. Qed.

Lemma trees_ok_world_idle : trees_ok world_idle.
Proof.
  assert (Hok : trees_ok world_conn) by apply (init_conn_ok _ _ _ _ _ trees_ok_world_syn world_conn_run).
  assert (Hc : exists c, w_conns world_conn !! 100%positive = Some c) by (vm_compute; eauto).
  destruct Hc as [c Hc]. eapply trees_ok_tracks; [exact Hok|].
  eapply (tracks_put_conn 100 c (c <| cn_lock := false |>) _ tt); [exact Hc|by repeat split|].
  unfold world_idle, state_after, upd_conn, get_conn, sbind. by rewrite (deref_ok _ _ _ _ Hc).
Qed.

Lemma init_conn_sound_witness : trees_ok world_conn /\ attached 21 100 world_conn.
Proof.
  apply (init_conn_sound 21 1000000 world_syn (Some 100%positive) world_conn).
  - exact trees_ok_world_syn.
  - vm_compute. reflexivity.
Defined.

Definition syn_key : conn_key := ConnKey 6 ip_ext (htons 4321) ip_target (htons 80) 0.
Definition world_created : world := state_after (create_conn 21 1000000) world_syn.

Lemma created_ext_found_witness :
  conn_lookup_in (ext_tree1 world_created) syn_key = Some 100%positive /\
  conn_lookup_in (ext_tree2 world_created) (reply_key syn_key lih_handler ip_lih) = Some 100%positive.
Proof.
  apply (created_ext_found world_syn 21 syn_received 1 lih_handler ip_lih syn_key 1000000 100 world_created).
  - reflexivity.
  - reflexivity.
  - reflexivity.
  - constructor. exists iface_up, 10%positive, the_target, 11%positive. by repeat split.
  - vm_compute. reflexivity.
  - reflexivity.
  - vm_compute. reflexivity.
Defined.

Lemma remove_conn_complete_witness :
  let w' := state_after (remove_conn 100 0) world_idle in
  exists c, w_conns world_idle !! 100%positive = Some c /\
  ((cn_lock c = true /\ 0 <> 0 /\ w' = world_idle) \/
   (cn_lock c = false /\ trees_ok w' /\ w_conns w' = delete 100%positive (w_conns world_idle) /\ unfiled w' 100)).
Proof.
  apply (remove_conn_complete 100 0 world_idle tt (state_after (remove_conn 100 0) world_idle)).
  - exact trees_ok_world_idle.
  - vm_compute. reflexivity.
Defined.

Lemma clean_sweeps_witness :
  let w' := state_after (clean (fun _ => 1000)) world_idle in
  exists l, NoDup l /\
    (forall a, a ∈ l <-> tracked world_idle a /\ is_expired world_idle (fun _ => 1000) 120 a = true) /\
    swept l (w_conns world_idle) (w_conns w') /\ trees_ok w'.
Proof.
  apply (clean_sweeps (fun _ => 1000) world_idle tt (state_after (clean (fun _ => 1000)) world_idle)).
  - exact trees_ok_world_idle.
  - vm_compute. reflexivity.
Defined.

(** In that run the connection is gone and its pin with it. *)
Example clean_example :
  let w' := state_after (clean (fun _ => 1000)) world_idle in
  w_conns w' = ∅ /\ ext_tree1 w' = ∅ /\ ext_tree2 w' = ∅ /\ comm_pin_tree w' = ∅ /\ w_pins w' = ∅.
Proof. vm_compute. done. Qed.
