(* ===== verification/Redirect.v ===== *)
(** The data path and the set-up of a redirection, seen from the connection
    trees: which operations leave every connection alone, which only advance
    the replay, and what [setup_redirection] adds. *)
From S2P Require Import Prelude Mem Types World Samples Keys Checksum TcpOptions Packet Netcode.
From S2P Require Import NatSpec Forward Connections ConnTrees.

(** * The forwarders touch no connection *)

Lemma quiet_inject i f : quietly (pcap_inject i f).
Proof. apply keeps_inject'; [apply _|]. intros w s. by constructor. Qed.
#[export] Hint Resolve quiet_inject : keeps.

Lemma quiet_do_nat p : quietly (do_nat p).
Proof. unfold do_nat, get_pkt, get_iface. keeps_tac. Qed.
Lemma quiet_send_pkt p : quietly (send_pkt p).
Proof. unfold send_pkt, get_pkt, get_iface. keeps_tac. Qed.
Lemma quiet_pkt_conn p : quietly (pkt_conn p).
Proof. unfold pkt_conn, get_conn. keeps_tac. Qed.
Lemma quiet_pin_addr p : quietly (pin_addr p).
Proof. unfold pin_addr, get_pin. keeps_tac. Qed.
#[export] Hint Resolve quiet_do_nat quiet_send_pkt quiet_pkt_conn quiet_pin_addr : keeps.

Lemma quiet_proxy_ext2int p : quietly (proxy_ext2int p).
Proof. unfold proxy_ext2int, get_pkt, get_target, get_handler. keeps_tac. Qed.
Lemma quiet_proxy_int2ext p : quietly (proxy_int2ext p).
Proof. unfold proxy_int2ext, get_pkt, get_target, get_iface. keeps_tac. Qed.
Lemma quiet_proxy_hih2intra p : quietly (proxy_hih2intra p).
Proof. unfold proxy_hih2intra, get_pkt, get_handler. keeps_tac. Qed.
Lemma quiet_proxy_intra2hih p : quietly (proxy_intra2hih p).
Proof. unfold proxy_intra2hih, get_pkt, get_handler. keeps_tac. Qed.
Lemma quiet_forward_ext2hih p : quietly (forward_ext2hih p).
Proof. unfold forward_ext2hih, get_pkt, get_handler, get_iface. keeps_tac. Qed.
Lemma quiet_forward_hih2ext p : quietly (forward_hih2ext p).
Proof. unfold forward_hih2ext, get_pkt, get_target, get_handler, get_iface. keeps_tac. Qed.
Lemma quiet_reply_reset p i : quietly (reply_reset p i).
Proof. unfold reply_reset, get_pkt, get_iface. keeps_tac. Qed.
Lemma quiet_send_arp_reply e i f : quietly (send_arp_reply e i f).
Proof. unfold send_arp_reply, get_iface. keeps_tac. Qed.
Lemma quiet_reset_lih_loop l t p : quietly (reset_lih_loop l t p).
Proof. revert t p. induction l; intros t p; cbn [reset_lih_loop]; unfold get_pkt; keeps_tac. Qed.
#[export] Hint Resolve quiet_proxy_ext2int quiet_proxy_int2ext quiet_proxy_hih2intra quiet_proxy_intra2hih
  quiet_forward_ext2hih quiet_forward_hih2ext quiet_reply_reset quiet_send_arp_reply quiet_reset_lih_loop : keeps.
Lemma quiet_reset_lih c : quietly (reset_lih c).
Proof. unfold reset_lih, get_conn, get_pkt, get_target, get_handler. keeps_tac. Qed.
#[export] Hint Resolve quiet_reset_lih : keeps.

(** * Operations that only advance a replay *)

(** What the replay leaves of a connection: everything but the replay counter,
    the expected data and the problems met. *)
Definition kept (c c' : conn_struct) : Prop :=
  same_id c c' /\ cn_hih c' = cn_hih c /\ cn_BUFFER c' = cn_BUFFER c /\ cn_lock c' = cn_lock c /\
  cn_protocol c' = cn_protocol c /\ cn_target c' = cn_target c.
#[export] Instance kept_refl : Reflexive kept.
Proof. intros c. by repeat split. Qed.
#[export] Instance kept_trans : Transitive kept.
Proof. intros c1 c2 c3 (?&?&?&?&?&?) (?&?&?&?&?&?). split; [by etrans|]. repeat split; congruence. Qed.

Record steady (w w' : world) : Prop := {
  st_tracks : tracks w w';
  st_kept : forall a c, w_conns w !! a = Some c ->
    exists c', w_conns w' !! a = Some c' /\ kept c c' /\ cn_state c' = cn_state c;
}.
#[export] Instance steady_refl : Reflexive steady.
Proof. intros w. split; [done|]. intros a c Ha. by exists c. Qed.
#[export] Instance steady_trans : Transitive steady.
Proof.
  intros w1 w2 w3 [T1 H1] [T2 H2]. split; [by etrans|]. intros a c Ha.
  destruct (H1 a c Ha) as (c' & Hc' & ? & E1). destruct (H2 a c' Hc') as (c'' & ? & ? & E2).
  exists c''. split; [done|]. split; [by etrans|congruence].
Qed.

Lemma quiet_steady w w' : quiet w w' -> steady w w'.
Proof. intros Hq. split; [by apply quiet_tracks|]. intros a c Ha. exists c. by rewrite (q_conns _ _ Hq). Qed.

Lemma steady_put_conn a c c' w u w' :
  w_conns w !! a = Some c -> kept c c' -> cn_state c' = cn_state c -> put_conn a c' w = Ret (u, w') -> steady w w'.
Proof.
  intros Ha Hk Hs H. split; [eapply tracks_put_conn; [exact Ha|by apply Hk|exact H]|].
  injection H as _ <-. intros b cb Hb. simpl. destruct (decide (a = b)) as [<-|].
  - exists c'. rewrite lookup_insert_eq. by simplify_eq.
  - exists cb. by rewrite lookup_insert_ne.
Qed.

Notation steadily := (keeps steady).
Lemma quietly_steadily {A} (m : M A) : quietly m -> steadily m.
Proof. apply keeps_weaken, quiet_steady. Qed.

Lemma steady_incr_replay_id a : steadily (incr_replay_id a).
Proof.
  intros w u w' H. unfold incr_replay_id, upd_conn in H. srun H as c w1 H1. apply get_conn_inv in H1 as [Ha ->].
  by eapply steady_put_conn; [exact Ha| | |exact H].
Qed.

Lemma pkt_conn_inv p w a c w' : pkt_conn p w = Ret ((a, c), w') -> pt_conn p = Some a /\ w_conns w !! a = Some c /\ w' = w.
Proof.
  intros H. unfold pkt_conn in H. srun H as b w1 H1. apply slift_Ret_inv in H1 as [H1 ->].
  apply nonnull_Ret_inv in H1. srun H as d w1 H2. apply get_conn_inv in H2 as [H2 ->]. by injection H as <- <- <-.
Qed.

Lemma steady_define_expected_data pkt : steadily (define_expected_data pkt).
Proof.
  intros w u w' H. unfold define_expected_data in H. srun H as p w1 H1. apply get_pkt_inv in H1 as [_ ->].
  srun H as [a c] w1 H1. apply pkt_conn_inv in H1 as (_ & Ha & ->).
  srun H as proto w1 H1. apply slift_Ret_inv in H1 as [_ ->]. srun H as e w1 H1.
  assert (w1 = w) as -> by (destruct (proto =? IPPROTO_TCP); run_inv; done).
  by eapply steady_put_conn; [exact Ha| | |exact H].
Qed.

Lemma test_headers_kept c p b c' : test_headers c p = Ret (b, c') -> kept c c' /\ cn_state c' = cn_state c.
Proof.
  intros H. unfold test_headers in H. orun H as proto Hp.
  destruct (negb _); [by injection H as <- <-|]. destruct (proto =? IPPROTO_TCP); [|by injection H as <- <-].
  orun H as syn Hs. orun H as bad Hb. destruct bad; [by injection H as <- <-|].
  orun H as ack Ha. destruct (negb _); [by injection H as <- <-|]. orun H as r Hr.
  destruct (test_timestamps _ _ _) as [bit diff]. by injection H as <- <-.
Qed.

Lemma steady_test_expected conn pkt : steadily (test_expected conn pkt).
Proof.
  intros w u w' H. unfold test_expected in H. srun H as c w1 H1. apply get_conn_inv in H1 as [Ha ->].
  srun H as p w1 H1. apply get_pkt_inv in H1 as [_ ->]. srun H as [bad c'] w1 H1.
  apply slift_Ret_inv in H1 as [Hh ->]. apply test_headers_kept in Hh as [Hk Hs]. destruct bad as [bit|].
  - srun H as v w1 H1. injection H as _ <-. by eapply steady_put_conn; [exact Ha| | |exact H1].
  - srun H as [q off] w1 H1. apply slift_Ret_inv in H1 as [_ ->]. srun H as k w1 H1. apply get_pkt_inv in H1 as [_ ->].
    srun H as same w1 H1. apply slift_Ret_inv in H1 as [_ ->]. srun H as v w1 H1. injection H as _ <-.
    by eapply steady_put_conn; [exact Ha| | |exact H1]; destruct same.
Qed.

Definition tracking {A} : M A -> Prop := keeps tracks.
Lemma quietly_tracking {A} (m : M A) : quietly m -> tracking m.
Proof. apply keeps_weaken, quiet_tracks. Qed.
Lemma steadily_tracking {A} (m : M A) : steadily m -> tracking m.
Proof. apply keeps_weaken. by intros w w' []. Qed.

Lemma switch_state_spec conn s w r w' : switch_state conn s w = Ret (r, w') ->
  r = OK /\ tracks w w' /\ exists c, w_conns w !! conn = Some c /\
    w_conns w' = <[conn := c <| cn_state := s |>]> (w_conns w) /\ w_pkts w' = w_pkts w.
Proof.
  intros H. unfold switch_state, upd_conn in H. srun H as u w1 H1. srun H1 as c w2 H2.
  apply get_conn_inv in H2 as [Ha ->]. injection H as <- <-. split; [done|].
  split; [by eapply tracks_put_conn; [exact Ha| |exact H1]|]. exists c. by injection H1 as _ <-.
Qed.

Lemma tracking_switch_state conn s : tracking (switch_state conn s).
Proof. intros w r w' H. by apply switch_state_spec in H as (_ & ? & _). Qed.

Lemma tracking_replay_loop fuel conn current de : tracking (replay_loop fuel conn current de).
Proof.
  revert current de. induction fuel as [|fuel IH]; intros current de w r w' H; cbn [replay_loop] in H; [done|].
  srun H as k w1 H1. apply get_pkt_inv in H1 as [_ ->].
  destruct (_ || _); [|by injection H as _ <-].
  srun H as u w1 H1. assert (Hq : tracks w w1).
  { apply quiet_tracks. destruct (decide _); [|by injection H1 as _ <-].
    srun H1 as v w2 H2. injection H1 as _ <-. by eapply quiet_forward_ext2hih. }
  srun H as c w2 H2. apply get_conn_inv in H2 as [Ha ->]. destruct (_ <=? _).
  - srun H as v w2 H2. injection H as _ <-. apply switch_state_spec in H2 as (_ & ? & _). by etrans.
  - srun H as v w2 H2. assert (tracks w1 w2) by (by eapply tracks_put_conn; [exact Ha| |exact H2]).
    srun H as next w3 H3. apply slift_Ret_inv in H3 as [_ ->]. srun H as k' w3 H3. apply get_pkt_inv in H3 as [_ ->].
    apply IH in H. etrans; [done|]. by etrans.
Qed.

Lemma tracking_replay conn pkt : tracking (replay conn pkt).
Proof.
  unfold replay, tracking. apply keeps_sbind; [apply _|apply quietly_tracking; unfold get_pkt; keeps_tac|].
  intros p. destruct (decide _); [|apply keeps_sret, _].
  apply keeps_sbind; [apply _|apply steadily_tracking, steady_test_expected|]. intros [|]; [apply keeps_sret, _|].
  apply keeps_sbind; [apply _|apply quietly_tracking; unfold get_conn; keeps_tac|]. intros c.
  apply keeps_sbind; [apply _|apply quietly_tracking; keeps_tac|]. intros cur.
  apply keeps_sbind; [apply _|apply quietly_tracking; unfold get_pkt; keeps_tac|]. intros k.
  apply keeps_sbind; [apply _|apply tracking_replay_loop|]. intros [ended cur']. destruct ended; [apply keeps_sret, _|].
  apply keeps_sbind; [apply _|apply steadily_tracking, steady_define_expected_data|]. intros u.
  apply keeps_sbind; [apply _|apply steadily_tracking, steady_incr_replay_id|]. intros v. apply keeps_sret, _.
Qed.

Lemma tracking_store_pkt conn pkt : tracking (store_pkt conn pkt).
Proof.
  intros w r w' H. unfold store_pkt in H. srun H as u w1 H1. apply quiet_upd_pkt, quiet_tracks in H1.
  srun H as c w2 H2. apply get_conn_inv in H2 as [Ha ->]. srun H as mx w2 H2. injection H2 as _ <-.
  destruct (_ <? _); [|by injection H as _ <-]. srun H as v w2 H2. srun H as v' w3 H3.
  apply quiet_upd_pkt, quiet_tracks in H3. injection H as _ <-.
  etrans; [exact H1|]. etrans; [|exact H3]. by eapply tracks_put_conn; [exact Ha| |exact H2].
Qed.

(** * The forwarding loop of a redirection *)

Lemma steady_forward_loop fuel conn : steadily (forward_loop fuel conn).
Proof.
  induction fuel as [|fuel IH]; intros w r w' H; cbn [forward_loop] in H; [done|].
  srun H as c w1 H1. apply get_conn_inv in H1 as [Ha ->]. destruct (buffer_current c) as [cur|]; [|by injection H as _ <-].
  srun H as k w1 H1. apply get_pkt_inv in H1 as [_ ->]. destruct (decide _); [|by injection H as _ <-].
  srun H as st w1 H1. srun H as u w2 H2. apply quiet_forward_ext2hih, quiet_steady in H1.
  apply steady_incr_replay_id in H2. apply IH in H. etrans; [done|]. by etrans.
Qed.

Lemma forward_loop_run fuel conn w c :
  w_conns w !! conn = Some c -> 0 <= cn_replay_id c -> Z.of_nat (length (cn_BUFFER c)) < 2 ^ 32 ->
  Z.of_nat (length (cn_BUFFER c)) - cn_replay_id c < Z.of_nat fuel -> (0 < fuel)%nat ->
  match forward_loop fuel conn w with
  | Fault e => e <> Hangs
  | Ret (current, w') => exists c', w_conns w' !! conn = Some c' /\
      cn_BUFFER c' = cn_BUFFER c /\ cn_replay_id c <= cn_replay_id c' /\ current = buffer_current c' /\
      forall a, current = Some a -> exists k, w_pkts w' !! a = Some k /\ pt_origin k <> EXT
  end.
Proof.
  revert w c. induction fuel as [|fuel IH]; intros w c Hc Hid Hlen Hfuel Hpos; [lia|].
  cbn [forward_loop]. unfold sbind at 1, get_conn at 1. rewrite (deref_ok _ _ _ _ Hc).
  destruct (buffer_current c) as [cur|] eqn:Ecur.
  2:{ exists c. split; [done|]. split; [done|]. split; [lia|]. split; [done|]. by intros. }
  unfold sbind at 1, get_pkt at 1, deref at 1. destruct (w_pkts w !! cur) as [k|] eqn:Hk; [|done].
  destruct (decide (pt_origin k = EXT)) as [E|E].
  2:{ exists c. split; [done|]. split; [done|]. split; [lia|]. split; [done|]. intros a [= <-]. eauto. }
  unfold sbind at 1. pose proof (forward_ext2hih_keeps cur w) as Hfw.
  destruct (forward_ext2hih cur w) as [[st w1]|]; [|done]. rewrite <- Hfw in Hc.
  unfold sbind at 1, incr_replay_id, upd_conn, get_conn at 1, put_conn, smodify, sbind at 1.
  rewrite (deref_ok _ _ _ _ Hc). cbv beta iota.
  set (c1 := c <| cn_replay_id ::= fun i => u32 (i + 1) |>).
  set (w2 := w1 <| w_conns := <[conn := c1]> (w_conns w1) |>).
  apply lookup_lt_Some in Ecur.
  assert (Hrid : cn_replay_id c1 = cn_replay_id c + 1) by (apply u32_small; lia).
  assert (Hc1 : w_conns w2 !! conn = Some c1) by (simpl; by rewrite lookup_insert_eq).
  specialize (IH w2 c1 Hc1). rewrite Hrid in IH. change (cn_BUFFER c1) with (cn_BUFFER c) in IH.
  specialize (IH ltac:(lia) Hlen ltac:(lia) ltac:(lia)).
  destruct (forward_loop fuel conn w2) as [[cur' w']|e]; [|done].
  destruct IH as (c' & H1 & H2 & H3 & H4 & H5). exists c'. split; [done|]. split; [done|]. split; [lia|]. done.
Qed.

(** * The new key of a redirected connection *)

Lemma entries_add t conns P a c k :
  entries t conns P -> conns !! a = Some c -> P c k -> entries (<[k := a]> t) conns P.
Proof.
  intros He Ha HP k' b Hb. destruct (decide (k = k')) as [<-|].
  - rewrite lookup_insert_eq in Hb. injection Hb as <-. eauto.
  - rewrite lookup_insert_ne in Hb by done. by apply He.
Qed.

(** The same connection, redirected under [key]. *)
Definition redirects (c c' : conn_struct) (key : conn_key) : Prop :=
  cn_initiator c' = cn_initiator c /\ cn_destination c' = cn_destination c /\
  cn_ext_key c' = cn_ext_key c /\ cn_int_key c' = cn_int_key c /\ cn_intra_key c' = cn_intra_key c /\
  hih_redirected_int_key (cn_hih c') = Some key /\ cn_lock c' = cn_lock c.

Lemma redirected_trees_ok w a c c' key :
  trees_ok w -> w_conns w !! a = Some c -> class_ext c -> hih_redirected_int_key (cn_hih c) = None ->
  redirects c c' key ->
  trees_ok (w <| w_conns := <[a := c']> (w_conns w) |> <| ext_tree2 ::= <[conn_key_word key := a]> |>).
Proof.
  intros [E1 E2 I1 I2 A1 A2 Hl] Ha Hc Hn (S1 & S2 & S3 & S4 & S5 & S6 & _).
  assert (Hup : forall t P, entries t (w_conns w) P -> (forall k, P c k -> P c' k) ->
    entries t (<[a := c']> (w_conns w)) P) by (intros; by eapply entries_update).
  constructor; simpl;
    try (apply Hup; [assumption|];
         unfold in_ext1, in_ext2, in_int1, in_int2, in_intra1, in_intra2, class_ext, class_int, class_intra;
         rewrite S1, ?S2, ?S3, ?S4, ?S5; done).
  - eapply (entries_add _ _ _ a c'); [|apply lookup_insert_eq|].
    + apply Hup; [done|]. unfold in_ext2, class_ext. intros k [Hk Hor]. rewrite S1, S4, S6. split; [done|].
      destruct Hor as [Hor|(ck & E & _)]; [by left|congruence].
    + unfold in_ext2, class_ext. rewrite S1, S6. split; [done|right; apply keyed_some].
  - intros b cb Hb. destruct (decide (a = b)) as [<-|]; [eauto|]. rewrite lookup_insert_ne in Hb by done. eauto.
Qed.

Lemma bind_exclusive_spec c bh w res w' :
  bind_exclusive c bh w = Ret (res, w') -> quiet w w' /\
  forall c', res = Some c' -> exists k, c' = c <| cn_hih ::= fun h => h <| hih_target_pin_key := Some k |> |>.
Proof.
  intros H. split.
  - assert (Hins : forall k a, quietly (smodify (fun w => w <| target_pin_tree ::= <[k := a]> |>))).
    { intros k a. apply keeps_smodify. intros w0. by constructor. }
    assert (Hk : quietly (bind_exclusive c bh)); [|by apply Hk in H].
    unfold bind_exclusive, get_pin. keeps_tac.
  - unfold bind_exclusive in H. srun H as hip w1 H1. srun H as k w2 H2. srun H as wx w3 H3. srun H as pin w4 H4.
    destruct pin as [pin|].
    + srun H as v w5 H5. destruct (negb _); srun H as u w6 H6; injection H as <- <-; [done|].
      intros c' [= <-]. by exists k.
    + srun H as a w5 H5. srun H as u w6 H6. srun H as k' w7 H7. srun H as u' w8 H8. injection H as <- <-.
      intros c' [= <-]. by exists k'.
Qed.

(** What a successful redirection has set up. *)
Definition redirected_to (w' : world) (conn : ptr) (c : conn_struct) (hih_use : Z) : Prop :=
  exists c' key, w_conns w' !! conn = Some c' /\ cn_state c' = REPLAY /\
    hih_hihID (cn_hih c') = hih_use /\ hih_port (cn_hih c') = cn_first_pkt_dst_port c /\
    hih_redirected_int_key (cn_hih c') = Some key /\ conn_lookup_in (ext_tree2 w') key = Some conn /\
    ck_protocol key = cn_protocol c /\ ck_dst_ip key = cn_first_pkt_src_ip c /\
    ck_dst_port key = cn_first_pkt_src_port c /\ ck_src_port key = cn_first_pkt_dst_port c /\
    cn_ext_key c' = cn_ext_key c /\ cn_int_key c' = cn_int_key c.

Lemma steady_redirected w w' conn c hih_use :
  steady w w' -> redirected_to w conn c hih_use -> redirected_to w' conn c hih_use.
Proof.
  intros [T K] (c1 & key & Hc1 & H2 & H3 & H4 & H5 & H6 & H7). destruct (K _ _ Hc1) as (c' & Hc' & ((_&_&E1&E2&_)&E3&_) & E4).
  exists c', key. unfold conn_lookup_in. rewrite E1, E2, E3, E4, (tr_ext2 _ _ T). done.
Qed.

(** The part of [setup_redirection] after the connection has its key. *)
Definition start_replay (conn : ptr) : M status_t :=
  do_ reset_lih conn;
  do c <- get_conn conn;
  do current <- forward_loop (S (length (cn_BUFFER c))) conn;
  match current with
  | Some pkt => do_ define_expected_data pkt; do_ incr_replay_id conn; sret OK
  | None => sret OK
  end.

Lemma steady_start_replay conn w r w' : start_replay conn w = Ret (r, w') -> r = OK /\ steady w w'.
Proof.
  intros H. unfold start_replay in H. srun H as u w1 H1. apply quiet_reset_lih, quiet_steady in H1.
  srun H as c w2 H2. apply get_conn_inv in H2 as [_ ->]. srun H as cur w2 H2. apply steady_forward_loop in H2.
  destruct cur as [pkt|]; [|injection H as <- <-; split; [done|by etrans]].
  srun H as v w3 H3. apply steady_define_expected_data in H3. srun H as v' w4 H4. apply steady_incr_replay_id in H4.
  injection H as <- <-. split; [done|]. etrans; [done|]. etrans; [done|]. by etrans.
Qed.

(** How [setup_redirection] runs: it refuses and touches nothing the trees care
    about, or it files the new key, switches to [REPLAY] and starts the
    replay. *)
Definition redirection_run (conn : ptr) (c : conn_struct) (hih_use : Z) (w w' : world) : Prop :=
  exists w1 cr key w4,
    quiet w w1 /\ redirects c cr key /\ hih_hihID (cn_hih cr) = hih_use /\
    hih_port (cn_hih cr) = cn_first_pkt_dst_port c /\
    key = ConnKey (cn_protocol c) (ck_src_ip key) (cn_first_pkt_dst_port c) (cn_first_pkt_src_ip c)
            (cn_first_pkt_src_port c) (ck_vlan_id key) /\
    switch_state conn REPLAY
      (w1 <| w_conns := <[conn := cr]> (w_conns w1) |> <| ext_tree2 ::= <[conn_key_word key := conn]> |>) = Ret (OK, w4) /\
    steady w4 w'.

Lemma bound_conn bh w c w1 bound :
  (if exclusive_hih w =? 1 then bind_exclusive c bh else sret (Some c)) w = Ret (bound, w1) ->
  quiet w w1 /\ forall c', bound = Some c' -> exists k, c' = c <| cn_hih ::= fun h => h <| hih_target_pin_key := k |> |>.
Proof.
  intros H1. destruct (exclusive_hih w =? 1).
  - apply bind_exclusive_spec in H1 as [Hq Hc]. split; [done|]. intros c' E'. destruct (Hc c' E') as [k ->]. by exists (Some k).
  - injection H1 as <- <-. split; [done|]. intros c' [= <-]. exists (hih_target_pin_key (cn_hih c)).
    by destruct c as [? ? ? ? ? ? ? ? ? ? ? ? ? ? ? ? ? ? ? ? ? ? ? ? ? [] ? ? ? ? ? ? ? ? ? ?].
Qed.

Lemma setup_redirection_run conn hih_use mt w c r w' :
  w_conns w !! conn = Some c -> setup_redirection conn hih_use mt w = Ret (r, w') ->
  match r with NOK => quiet w w' | OK => redirection_run conn c hih_use w w' end.
Proof.
  intros Ha H. unfold setup_redirection in H. destruct (hih_use =? 0); [by injection H as <- <-|].
  srun H as c0 w1 H1. apply get_conn_inv in H1 as [E ->]. assert (c0 = c) as -> by congruence.
  srun H as t w1 H1. unfold get_target in H1. apply deref_Ret_inv in H1 as (_ & _ & _ & ->).
  srun H as bh w1 H1. unfold get_handler in H1. apply deref_Ret_inv in H1 as (_ & _ & _ & ->).
  destruct (hd_ip bh) as [hip|]; [|by injection H as <- <-].
  srun H as wx w1 H1. injection H1 as <- <-. srun H as bound w1 H1. apply bound_conn in H1 as [Hq Hc].
  destruct bound as [c1|]; [|by injection H as <- <-]. destruct (Hc c1 eq_refl) as [k ->]. clear Hc.
  set (key := ConnKey _ _ _ _ _ _) in H. srun H as u w2 H2. srun H as v w3 H3. srun H as st w4 H4.
  fold (start_replay conn) in H. apply steady_start_replay in H as [-> Hst].
  injection H2 as _ <-. injection H3 as _ <-. pose proof (switch_state_spec _ _ _ _ _ H4) as (-> & _).
  lazymatch type of H4 with context [<[conn := ?cr]> _] => exists w1, cr, key, w4 end.
  split; [exact Hq|]. split; [by repeat split|]. do 3 (split; [done|]). by split.
Qed.

Lemma setup_redirection_ok conn hih_use mt w c r w' :
  trees_ok w -> w_conns w !! conn = Some c -> cn_initiator c = EXT ->
  hih_redirected_int_key (cn_hih c) = None -> setup_redirection conn hih_use mt w = Ret (r, w') ->
  trees_ok w' /\ match r with NOK => quiet w w' | OK => redirected_to w' conn c hih_use end.
Proof.
  intros Hok Ha Hi Hn H. apply (setup_redirection_run _ _ _ _ _ _ _ Ha) in H.
  destruct r; [split; [by eapply trees_ok_quiet|done]|].
  destruct H as (w1 & cr & key & w4 & Hq & Hred & Hid & Hport & Hkey & H4 & Hst).
  pose proof (trees_ok_quiet _ _ Hok Hq) as Hok1. rewrite <- (q_conns _ _ Hq) in Ha.
  pose proof (redirected_trees_ok w1 conn c cr key Hok1 Ha Hi Hn Hred) as Hok3.
  apply switch_state_spec in H4 as (_ & T4 & c4 & Hc4 & Hconns & _).
  simpl in Hc4. rewrite lookup_insert_eq in Hc4. injection Hc4 as <-.
  split; [eapply trees_ok_tracks; [|by apply st_tracks]; by eapply trees_ok_tracks|].
  eapply steady_redirected; [exact Hst|]. eexists _, key. rewrite Hconns. split; [apply lookup_insert_eq|].
  unfold conn_lookup_in. rewrite (tr_ext2 _ _ T4). simpl. rewrite lookup_insert_eq.
  destruct Hred as (_ & _ & E3 & E4 & _ & E6 & _). rewrite Hkey. rewrite Hkey in E6. done.
Qed.

(** The state a redirection leaves the connection in. *)
Lemma setup_redirection_state conn hih_use mt w c r w' :
  w_conns w !! conn = Some c -> setup_redirection conn hih_use mt w = Ret (r, w') ->
  exists c', w_conns w' !! conn = Some c' /\ cn_state c' = match r with OK => REPLAY | NOK => cn_state c end.
Proof.
  intros Ha H. apply (setup_redirection_run _ _ _ _ _ _ _ Ha) in H. destruct r.
  - exists c. by rewrite (q_conns _ _ H).
  - destruct H as (w1 & cr & key & w4 & _ & _ & _ & _ & _ & H4 & Hst).
    apply switch_state_spec in H4 as (_ & _ & c4 & _ & Hconns & _).
    destruct (st_kept _ _ Hst conn (c4 <| cn_state := REPLAY |>)) as (c' & Hc' & _ & Es).
    { rewrite Hconns. apply lookup_insert_eq. }
    by exists c'.
Qed.

(** The operations of the data path: proxying, forwarding, recording and
    replaying the packets of existing connections. *)
Inductive data_path : forall {A}, M A -> Prop :=
  | dp_ext2int p : data_path (proxy_ext2int p)
  | dp_int2ext p : data_path (proxy_int2ext p)
  | dp_hih2intra p : data_path (proxy_hih2intra p)
  | dp_intra2hih p : data_path (proxy_intra2hih p)
  | dp_ext2hih p : data_path (forward_ext2hih p)
  | dp_hih2ext p : data_path (forward_hih2ext p)
  | dp_reply_reset p i : data_path (reply_reset p i)
  | dp_reset_lih c : data_path (reset_lih c)
  | dp_store c p : data_path (store_pkt c p)
  | dp_switch c s : data_path (switch_state c s)
  | dp_replay c p : data_path (replay c p)
  | dp_arp e i f : data_path (send_arp_reply e i f).

Lemma data_path_tracks {A} (m : M A) : data_path m -> tracking m.
Proof.
  intros []; first [by apply quietly_tracking; auto with keeps | apply tracking_store_pkt
    | apply tracking_switch_state | apply tracking_replay].
Qed.

(** * Connections switched to an INTRA host *)

Lemma insert_intra_trees conn ik ak w u w' : insert_intra conn ik ak w = Ret (u, w') ->
  intra_tree1 w' = <[conn_key_word ik := conn]> (intra_tree1 w) /\ w_conns w' = w_conns w.
Proof. by intros [= _ <-]. Qed.

Lemma switch_conn_to_intra_filed conn ih w c k r w' :
  w_conns w !! conn = Some c -> cn_int_key c = Some k -> switch_conn_to_intra conn ih w = Ret (r, w') ->
  r = OK /\ conn_lookup_in (intra_tree1 w') k = Some conn /\
  exists c', w_conns w' !! conn = Some c' /\ cn_initiator c' = cn_initiator c /\
    cn_destination c' = cn_destination c /\ cn_lock c' = cn_lock c.
Proof.
  intros Ha Hk H. unfold switch_conn_to_intra in H. srun H as c0 w1 H1. apply get_conn_inv in H1 as [E ->].
  assert (c0 = c) as -> by congruence. srun H as h w1 H1. unfold get_handler in H1.
  apply deref_Ret_inv in H1 as (_ & _ & _ & ->). srun H as iip w1 H1. apply slift_Ret_inv in H1 as [_ ->].
  srun H as u w1 H1. injection H1 as _ <-. srun H as wx w2 H2. injection H2 as _ <-.
  srun H as t1 w2 H2. apply slift_Ret_inv in H2 as [_ ->]. srun H as t2 w2 H2. apply slift_Ret_inv in H2 as [_ ->].
  srun H as u' w2 H2. injection H2 as _ <-. srun H as k' w2 H2. apply slift_Ret_inv in H2 as [H2 ->].
  rewrite Hk in H2. injection H2 as <-. srun H as v w3 H3. injection H as <- <-.
  apply insert_intra_trees in H3 as [T3 C3]. split; [done|]. unfold conn_lookup_in. rewrite T3, C3.
  split; [apply lookup_insert_eq|]. simpl. rewrite lookup_insert_eq. eauto.
Qed.

(** A connection of the LIH whose destination is INTRA is in no branch of
    [remove_conn]: it is freed without touching the trees. *)
Lemma remove_lih_intra conn delay w c u w' :
  w_conns w !! conn = Some c -> cn_initiator c = LIH -> cn_destination c = INTRA -> cn_lock c = false ->
  remove_conn conn delay w = Ret (u, w') ->
  w_conns w' !! conn = None /\ ext_tree2 w' = ext_tree2 w /\ int_tree1 w' = int_tree1 w /\
  intra_tree1 w' = intra_tree1 w.
Proof.
  intros Ha Hi Hd Hl H. unfold remove_conn in H. srun H as c0 w1 H1. apply get_conn_inv in H1 as [E ->].
  assert (c0 = c) as -> by congruence. rewrite Hl in H. srun H as v1 w1 H1. injection H1 as _ <-.
  srun H as v2 w2 H2. unfold remove_from_trees in H2. rewrite Hi, Hd in H2. injection H2 as _ <-.
  srun H as v3 w3 H3. apply (quiet_release target_pin_tree set_target_pin_tree) in H3; [|auto with keeps].
  srun H as c' w4 H4. apply get_conn_inv in H4 as [_ ->]. srun H as v4 w4 H4. apply quiet_logged in H4.
  apply free_conn_effect in H as (w5 & Hq & ->). assert (Hall : quiet _ w5) by (etrans; [exact H3|by etrans]).
  destruct Hall as [Q1 Q2 Q3 Q4 Q5 Q6 Q7 Q8]. simpl in *. rewrite lookup_delete_eq. done.
Qed.

Lemma conn_lookup_dangling pkt p k conn w :
  w_pkts w !! pkt = Some p -> pt_origin p = INT -> pkt_conn_key p = Ret k ->
  conn_lookup_in (ext_tree2 w) k = None -> conn_lookup_in (int_tree1 w) k = None ->
  conn_lookup_in (intra_tree1 w) k = Some conn -> w_conns w !! conn = None ->
  conn_lookup pkt w = Fault UseAfterFree.
Proof.
  intros Hp Ho Hk H1 H2 H3 Hc. unfold conn_lookup, get_pkt, get_conn, sget. unfold sbind at 1.
  rewrite (deref_ok _ _ _ _ Hp). unfold sbind at 1, slift. rewrite Hk. unfold sbind at 1 2.
  rewrite decide_False by (rewrite Ho; done). rewrite H1, H2, H3. unfold sbind at 1.
  by rewrite (deref_dangling _ _ _ Hc).
Qed.

(** * The properties *)

(** C26: a redirection is set up completely or not at all.  For a tracked
    connection opened from outside and not redirected before,
    [setup_redirection] keeps the trees sound; when it refuses (no such
    honeypot, no address, a honeypot bound to another address) no connection
    and no tree has changed; when it accepts, the connection is in state
    [REPLAY] with the chosen honeypot recorded, it keeps its own keys, and the
    answers of that honeypot are filed in [ext_tree2] under the connection. *)
Theorem setup_redirection_sound conn hih_use mt w c r w' :
  trees_ok w -> w_conns w !! conn = Some c -> cn_initiator c = EXT ->
  hih_redirected_int_key (cn_hih c) = None -> setup_redirection conn hih_use mt w = Ret (r, w') ->
  trees_ok w' /\ match r with NOK => quiet w w' | OK => redirected_to w' conn c hih_use end.
Proof. apply setup_redirection_ok. Qed.

(** The forwarding loop of a redirection ends, whatever the frames: with a
    fuel above the number of packets left it never runs out of it; it stops
    exactly at the recorded packet the replay index designates, which is not
    the attacker's, or past the end of the buffer. *)
Lemma forward_loop_ends fuel conn w c :
  w_conns w !! conn = Some c -> 0 <= cn_replay_id c -> Z.of_nat (length (cn_BUFFER c)) < 2 ^ 32 ->
  Z.of_nat (length (cn_BUFFER c)) - cn_replay_id c < Z.of_nat fuel -> (0 < fuel)%nat ->
  match forward_loop fuel conn w with
  | Fault e => e <> Hangs
  | Ret (current, w') => exists c', w_conns w' !! conn = Some c' /\
      cn_BUFFER c' = cn_BUFFER c /\ cn_replay_id c <= cn_replay_id c' /\ current = buffer_current c' /\
      forall a, current = Some a -> exists k, w_pkts w' !! a = Some k /\ pt_origin k <> EXT
  end.
Proof. apply forward_loop_run. Qed.

(** No operation of the data path can corrupt the connection trees: each
    of them leaves the trees as they are, creates and frees no connection, and
    changes nothing that identifies one. *)
Lemma data_path_keeps_trees A (m : M A) w a w' :
  data_path m -> trees_ok w -> m w = Ret (a, w') -> trees_ok w' /\ tracks w w'.
Proof.
  intros Hd Hok H. apply (data_path_tracks m Hd) in H. split; [by eapply trees_ok_tracks|done].
Qed.

(** A use after free.  A connection opened by the LIH that [mod_dns_control]
    switches to an INTRA host (destination INTRA, then [switch_conn_to_intra])
    is freed by [remove_conn] without leaving the trees: its entry in
    [intra_tree1] survives it, and the next packet with its key makes
    [conn_lookup] read the freed structure. *)
Lemma switched_lih_dangles conn ih delay w c k r w1 u w2 pkt p :
  w_conns w !! conn = Some c -> cn_initiator c = LIH -> cn_destination c = INTRA -> cn_lock c = false ->
  cn_int_key c = Some k -> switch_conn_to_intra conn ih w = Ret (r, w1) ->
  remove_conn conn delay w1 = Ret (u, w2) ->
  w_pkts w2 !! pkt = Some p -> pt_origin p = INT -> pkt_conn_key p = Ret k ->
  conn_lookup_in (ext_tree2 w1) k = None -> conn_lookup_in (int_tree1 w1) k = None ->
  w_conns w2 !! conn = None /\ conn_lookup_in (intra_tree1 w2) k = Some conn /\
  conn_lookup pkt w2 = Fault UseAfterFree.
Proof.
  intros Ha Hi Hd Hl Hk Hs Hr Hp Ho Hpk E2 I1.
  destruct (switch_conn_to_intra_filed _ _ _ _ _ _ _ Ha Hk Hs) as (_ & Hin & c' & Hc' & Ei & Ed & El).
  rewrite Hi in Ei. rewrite Hd in Ed. rewrite Hl in El.
  destruct (remove_lih_intra _ _ _ _ _ _ Hc' Ei Ed El Hr) as (Hgone & T1 & T2 & T3).
  split; [done|]. rewrite T3. split; [done|].
  eapply conn_lookup_dangling; [exact Hp|done|exact Hpk|by rewrite T1|by rewrite T2|by rewrite T3|done].
Qed.

(** ** Witnesses *)

Definition idle_conn : conn_struct :=
  match w_conns world_idle !! 100%positive with Some c => c | None => conn_zero end.

Lemma setup_redirection_sound_witness :
  let w' := state_after (setup_redirection 100 2 2000000) world_idle in
  trees_ok w' /\ redirected_to w' 100 idle_conn 2.
Proof.
  apply (setup_redirection_sound 100 2 2000000 world_idle idle_conn OK
    (state_after (setup_redirection 100 2 2000000) world_idle)).
  - exact trees_ok_world_idle.
  - vm_compute. reflexivity.
  - vm_compute. reflexivity.
  - vm_compute. reflexivity.
  - vm_compute. reflexivity.
Defined.

Lemma forward_loop_ends_witness :
  match forward_loop 2 20 replay_world with
  | Fault e => e <> Hangs
  | Ret (current, w') => exists c', w_conns w' !! 20%positive = Some c' /\
      cn_BUFFER c' = cn_BUFFER replay_conn /\ cn_replay_id replay_conn <= cn_replay_id c' /\
      current = buffer_current c' /\
      forall a, current = Some a -> exists k, w_pkts w' !! a = Some k /\ pt_origin k <> EXT
  end.
Proof. apply (forward_loop_ends 2 20 replay_world replay_conn); [reflexivity|vm_compute; intuition congruence..|lia]. Defined.

Lemma data_path_keeps_trees_witness :
  let w' := state_after (proxy_ext2int 21) world_idle in trees_ok w' /\ tracks world_idle w'.
Proof.
  apply (data_path_keeps_trees _ (proxy_ext2int 21) world_idle OK (state_after (proxy_ext2int 21) world_idle)).
  - constructor.
  - exact trees_ok_world_idle.
  - vm_compute. reflexivity.
Defined.

(** A DNS query of the LIH, and its connection after [mod_dns_control] set its
    destination. *)
Definition ip_dns : Z := ipv4 198 51 100 53.
Definition dns_frame : list Z := tcp_frame mac_down mac_lih ip_lih ip_dns 40000 53 7000 0 2 (repeat 66 26).
Definition dns_pkt : pkt_struct :=
  PktStruct (Packet (repeat 0 4 ++ dns_frame) 4 18 38 58)
    (Headers (Some (take 14 dns_frame)) None (Some (take 20 (drop 14 dns_frame)))
       (Some (take 20 (drop 34 dns_frame))) None)
    false false INT EXT 26 80 0 None nat_zero 0 (Some 2%positive) None.
Definition dns_key : conn_key := ConnKey 6 ip_lih (htons 40000) ip_dns (htons 53) 0.
Definition world_dns : world :=
  let w := state_after (init_conn 31 1000000) (world0 <| w_pkts := {[ 31%positive := dns_pkt ]} |>) in
  state_after (upd_conn 100 (fun c => c <| cn_lock := false |> <| cn_destination := INTRA |>))
    (w <| w_pkts := {[ 31%positive := dns_pkt ]} |>).
Definition dns_conn : conn_struct := match w_conns world_dns !! 100%positive with Some c => c | None => conn_zero end.
Definition world_switched : world := state_after (switch_conn_to_intra 100 12) world_dns.
Definition world_removed : world := state_after (remove_conn 100 120) world_switched.

Lemma switched_lih_dangles_witness :
  w_conns world_removed !! 100%positive = None /\
  conn_lookup_in (intra_tree1 world_removed) dns_key = Some 100%positive /\
  conn_lookup 31 world_removed = Fault UseAfterFree.
Proof.
  apply (switched_lih_dangles 100 12 120 world_dns dns_conn dns_key OK world_switched tt world_removed 31 dns_pkt);
    vm_compute; reflexivity.
Defined.
