(* ===== verification/DecisionEngine.v ===== *)
(** The decision engine ([decision_engine.c]): rules compiled to trees of module
    calls, their evaluation on a packet, and the transitions of the state of a
    connection that follow from a decision.

    The regular-expression library is a parameter: [and_matches] says whether
    an expression contains the AND operator, [and_split] and [or_split] cut an
    expression on the two operators.  The decision modules are reached through
    the class [ModuleRunner]; what the engine needs from them is the class
    [ModuleLaws]. *)
From Stdlib Require Import Ascii.
From S2P Require Import Prelude Mem Types World Samples Keys Checksum TcpOptions Packet Netcode.
From S2P Require Import Connections ConnTrees Redirect.

(** * Modules by name (modules.c) *)

(** A C string: the bytes before the first zero. *)
Fixpoint c_string (bs : list Z) : string :=
  match bs with
  | [] => EmptyString
  | b :: bs => if b =? 0 then EmptyString else String (ascii_of_N (Z.to_N b)) (c_string bs)
  end.

(** The table of modules in the order of [honeybrid_modules_t]; the first entry
    is the invalid one. *)
Definition module_definitions : list (string * option module_function) :=
  [("invalid", None); ("source", Some mod_source); ("source_time", Some mod_source_time);
   ("random", Some mod_random); ("yesno", Some mod_yesno); ("counter", Some mod_counter);
   ("vmi", Some mod_vmi); ("control", Some mod_control); ("backpick_random", Some mod_backpick_random);
   ("dns_control", Some mod_dns_control); ("hash", Some mod_hash)]%string.

(** [!strncmp(modname, name, strlen(name))]: [name] is a prefix of [modname]. *)
Fixpoint has_prefix (name modname : string) : bool :=
  match name, modname with
  | EmptyString, _ => true
  | String a name, String b modname => Ascii.eqb a b && has_prefix name modname
  | String _ _, EmptyString => false
  end.

Fixpoint find_module (l : list (string * option module_function)) (modname : string) :
    option (option module_function) :=
  match l with
  | [] => None
  | (name, f) :: l => if has_prefix name modname then Some f else find_module l modname
  end.

(** [errx] when no entry matches. *)
Definition get_module (modname : string) : outcome (option module_function) :=
  match find_module module_definitions modname with Some f => Ret f | None => Fault Exited end.

(** * Rules to trees *)

Section Trees.
Context (and_matches : string -> bool) (and_split or_split : string -> list string).

(** The module a name stands for: its configuration table, the name of its
    function and the function; anything missing ends the program. *)
Definition module_of (mods : gmap string (gmap string config_value)) (modname : string) :
    outcome (gmap string config_value * string * module_function) :=
  match mods !! modname with
  | None => Fault Exited
  | Some config =>
    match config !! "function"%string with
    | Some (CBlock bs) =>
      let function := c_string bs in
      let! f := get_module function in
      match f with Some f => Ret (config, function, f) | None => Fault Exited end
    | _ => Fault Exited
    end
  end.

(** One recursive call per AND operator: the length of the expression bounds
    their number. *)
Fixpoint DE_build_subtree (fuel : nat) (expr : string) : M ptr :=
  match fuel with
  | O => sfault Hangs
  | S fuel =>
    do node <- malloc;
    do_ put_node node node_zero;
    do '(modname, true_branch) <-
      (if and_matches expr then
         do left <- slift (nonnull (and_split expr !! 0%nat));
         do right <- slift (nonnull (and_split expr !! 1%nat));
         do t <- DE_build_subtree fuel right;
         sret (left, Some t)
       else sret (expr, None));
    do mods <- sgets modules;
    do '(config, function, f) <- slift (module_of mods modname);
    do_ put_node node (Node (Some f) config modname function true_branch None);
    sret node
  end.

Definition build_subtree (expr : string) : M ptr := DE_build_subtree (S (String.length expr)) expr.

(** Every FALSE branch of the chain of [node] is connected to [head]. *)
Fixpoint connect_false (fuel : nat) (node head : ptr) : M unit :=
  match fuel with
  | O => sfault Hangs
  | S fuel =>
    do n <- get_node (Some node);
    do_ put_node node (n <| nd_false_branch := Some head |>);
    match nd_true_branch n with
    | Some next => connect_false fuel next head
    | None => sret tt
    end
  end.

(** The other subgroups, one after the other; the result is the head of the last
    one. *)
Fixpoint connect_groups (node : ptr) (groups : list string) : M ptr :=
  match groups with
  | [] => sret node
  | g :: groups =>
    do head <- build_subtree g;
    do fuel <- sgets (fun w => S (size (w_nodes w)));
    do_ connect_false fuel node head;
    connect_groups head groups
  end.

Definition DE_create_tree (equation : option string) : M (option ptr) :=
  match equation with
  | None => sret None
  | Some eq =>
    do g0 <- slift (nonnull (or_split eq !! 0%nat));
    do node <- build_subtree g0;
    do root <- connect_groups node (drop 1 (or_split eq));
    sret (Some root)
  end.
End Trees.

(** The recursion of [DE_destroy_tree] follows both branches of each node and
    frees it; a branch that was already freed is met again as a dangling
    pointer. *)
Fixpoint DE_destroy_tree (fuel : nat) (clean : option ptr) : M unit :=
  match fuel with
  | O => sfault Hangs
  | S fuel =>
    match clean with
    | None => sret tt
    | Some a =>
      do n <- get_node (Some a);
      do_ DE_destroy_tree fuel (nd_false_branch n);
      do n <- get_node (Some a);
      do_ DE_destroy_tree fuel (nd_true_branch n);
      free_node_block a
    end
  end.

(** * Decisions *)

Class ModuleRunner := run_module : module_function -> mod_args -> M (mod_result_t * mod_args).

Section Decisions.
Context `{ModuleRunner}.

(** The macro [run_module]. *)
Definition call_module (n : node) (args : mod_args) : M (mod_result_t * mod_args) :=
  match nd_module n with
  | Some f => run_module f args
  | None => sfault Exited
  end.

Fixpoint decide_loop (fuel : nat) (node : ptr) (args : mod_args) (d : decision_holder) : M decision_holder :=
  match fuel with
  | O => sfault Hangs
  | S fuel =>
    do n <- get_node (Some node);
    do '(result, args) <- call_module n (args <| ma_node := node |>);
    match result with
    | ACCEPT =>
      let d := if ma_backend_use args =? 0 then d else d <| dh_backend_use := ma_backend_use args |> in
      match nd_true_branch n with
      | Some next => decide_loop fuel next args d
      | None => sret (d <| dh_result := DE_ACCEPT |>)
      end
    | DEFER => sret (d <| dh_result := DE_DEFER |>)
    | REJECT =>
      match nd_false_branch n with
      | Some next => decide_loop fuel next args d
      | None => sret (d <| dh_result := DE_REJECT |>)
      end
    end
  end.

(** [decide]; one iteration per node of the tree. *)
Definition do_decide (d : decision_holder) : M decision_holder :=
  do node <- slift (nonnull (dh_node d));
  do fuel <- sgets (fun w => S (size (w_nodes w)));
  decide_loop fuel node (ModArgs node (dh_pkt d) (dh_backend_test d) 0) (d <| dh_result := DE_DEFER |>).

Definition get_decision (d : decision_holder) : M decision_holder :=
  match dh_node d with
  | None => sret d
  | Some _ =>
    do d <- do_decide d;
    do p <- get_pkt (dh_pkt d);
    do '(a, c) <- pkt_conn p;
    do_ put_conn a (c <| cn_decision_packet_id := s32 (cn_total_packet c) |>);
    sret d
  end.

(** The callback on the backends: the key is read as 32 bits. *)
Definition get_decision_backend (key : Z) (back_handler : ptr) (d : decision_holder) : M (bool * decision_holder) :=
  do h <- get_handler (Some back_handler);
  do d <- get_decision (d <| dh_backend_test := key |> <| dh_node := hd_rule h |>);
  if decide (dh_result d = DE_ACCEPT) then sret (true, d <| dh_backend_use := key |>)
  else sret (false, d).

Definition decision_init (pkt : ptr) : decision_holder := DecisionHolder pkt None 0 0 DE_NO_RULE.

(** The decision on a packet, by the state of its connection. *)
Definition de_decide (pkt : ptr) (c : conn_struct) : M decision_holder :=
  let d := decision_init pkt in
  match cn_state c with
  | INIT =>
    do t <- get_target (cn_target c);
    do fh <- get_handler (tg_front_handler t);
    do d <- get_decision (d <| dh_node := hd_rule fh |>);
    sret (if decide (dh_result d = DE_DEFER) then d <| dh_result := DE_REJECT |> else d)
  | DECISION =>
    do t <- get_target (cn_target c);
    match tg_back_picker t with
    | Some picker =>
      do d <- get_decision (d <| dh_node := Some picker |>);
      if bool_decide (dh_result d = DE_ACCEPT) && negb (dh_backend_use d =? 0) then
        do bh <- get_handler (tg_back_handlers t !! u32 (dh_backend_use d));
        match hd_rule bh with
        | Some rule => get_decision (d <| dh_node := Some rule |>)
        | None => sret d
        end
      else sret d
    | None => tree_foreach get_decision_backend (tree_to_list (tg_back_handlers t)) d
    end
  | CONTROL =>
    match cn_destination c with
    | EXT =>
      do t <- get_target (cn_target c);
      get_decision (d <| dh_node := tg_control_rule t |>)
    | INTRA =>
      do rule <- (match cn_intra_handler c with
                  | Some ih => do h <- get_handler (Some ih); sret (hd_rule h)
                  | None => do t <- get_target (cn_target c); sret (tg_intra_rule t)
                  end);
      do d <- get_decision (d <| dh_node := rule |>);
      sret (if bool_decide (dh_result d = DE_DEFER) || bool_decide (dh_result d = DE_NO_RULE)
            then d <| dh_result := DE_DROP |> else d)
    | _ => sret d
    end
  | _ => sret d
  end.

(** What follows from the decision: the new state of the connection, and whether
    the packet goes on. *)
Definition de_apply (conn : ptr) (d : decision_holder) (microtime : Z) : M status_t :=
  do c <- get_conn conn;
  match dh_result d with
  | DE_NO_RULE =>
    match cn_state c with
    | CONTROL => do _s <- switch_state conn PROXY; sret OK
    | INIT =>
      do t <- get_target (cn_target c);
      do _s <- switch_state conn (if tg_back_handler_count t =? 0 then PROXY else DECISION);
      sret OK
    | _ => sret OK
    end
  | DE_DEFER => sret OK
  | DE_ACCEPT =>
    match cn_state c with
    | INIT =>
      do t <- get_target (cn_target c);
      do _s <- switch_state conn
        (if (tg_back_handler_count t =? 0) && bool_decide (tg_back_picker t = None) then PROXY else DECISION);
      sret OK
    | DECISION => do _s <- setup_redirection conn (dh_backend_use d) microtime; sret NOK
    | CONTROL => sret OK
    | _ => sret NOK
    end
  | DE_REJECT =>
    do _s <- switch_state conn (if decide (cn_state c = DECISION) then PROXY else DROP);
    sret NOK
  | DE_DROP => do _s <- switch_state conn DROP; sret NOK
  end.

Definition DE_process_packet (pkt : ptr) (microtime : Z) : M status_t :=
  do p <- get_pkt pkt;
  do '(conn, c) <- pkt_conn p;
  do d <- de_decide pkt c;
  de_apply conn d microtime.
End Decisions.
