(* ===== verification/DecisionTrees.v ===== *)
(** What rules mean and that their evaluation ends: the trees [DE_create_tree]
    builds, the chain of conjuncts they amount to, termination of [decide]
    against any modules satisfying [ModuleLaws], and the freeing of a tree. *)
From S2P Require Import Prelude Mem Types World Samples Keys Checksum TcpOptions Packet Netcode.
From S2P Require Import Connections ConnTrees Redirect DecisionEngine.

(** What the engine relies on: a module changes no rule, and returns. *)
Class ModuleLaws `{ModuleRunner} : Prop := {
  run_keeps_nodes f args w r w' : run_module f args w = Ret (r, w') -> w_nodes w' = w_nodes w;
  run_no_hang f args w : run_module f args w <> Fault Hangs;
}.

(** * Well-founded rules *)

(** The branches of a node were allocated after it. *)
Definition forward_nodes (nodes : gmap ptr node) : Prop :=
  forall a n b, nodes !! a = Some n -> nd_true_branch n = Some b \/ nd_false_branch n = Some b -> (a < b)%positive.
Record rules_ok (w : world) : Prop := {
  rk_forward : forward_nodes (w_nodes w);
  rk_fresh : forall a n, w_nodes w !! a = Some n -> (a < w_next w)%positive;
}.

(** The nodes an evaluation at [a] can still visit. *)
Definition ahead (nodes : gmap ptr node) (a : ptr) : nat :=
  size (filter (fun kv => (a <= kv.1)%positive) nodes).

Lemma ahead_le nodes a : (ahead nodes a <= size nodes)%nat.
Proof. apply map_size_filter. Qed.

Lemma ahead_lt nodes a b n : nodes !! a = Some n -> (a < b)%positive -> (ahead nodes b < ahead nodes a)%nat.
Proof.
  intros Ha Hab. apply map_subset_size. split.
  - apply map_subseteq_spec. intros k v Hk. apply map_lookup_filter_Some in Hk as [Hk Hle]. simpl in Hle.
    apply map_lookup_filter_Some. simpl. split; [done|lia].
  - intros Hsub. assert (Hb : filter (fun kv => (b <= kv.1)%positive) nodes !! a = Some n).
    { eapply lookup_weaken; [|exact Hsub]. apply map_lookup_filter_Some. simpl. split; [done|lia]. }
    apply map_lookup_filter_Some in Hb as [_ Hb]. simpl in Hb. lia.
Qed.

(** * Termination of [decide] *)

Section Evaluation.
Context `{ModuleLaws}.

Lemma get_node_inv a w n w' : get_node (Some a) w = Ret (n, w') -> w_nodes w !! a = Some n /\ w' = w.
Proof. unfold get_node. rewrite deref_Ret_inv. naive_solver. Qed.

Lemma call_module_keeps n args w r w' : call_module n args w = Ret (r, w') -> w_nodes w' = w_nodes w.
Proof. unfold call_module. destruct (nd_module n); [apply run_keeps_nodes|done]. Qed.

Lemma call_module_no_hang n args w : call_module n args w <> Fault Hangs.
Proof. unfold call_module. destruct (nd_module n); [apply run_no_hang|done]. Qed.

Lemma decide_loop_ends fuel node args d w :
  forward_nodes (w_nodes w) -> (ahead (w_nodes w) node < fuel)%nat ->
  decide_loop fuel node args d w <> Fault Hangs.
Proof.
  revert node args d w. induction fuel as [|fuel IH]; intros node args d w Hf Hlt; [lia|].
  cbn [decide_loop]. unfold sbind at 1, get_node at 1, deref at 1.
  destruct (w_nodes w !! node) as [n|] eqn:En; [|done].
  unfold sbind at 1. pose proof (call_module_no_hang n (args <| ma_node := node |>) w) as Hnh.
  destruct (call_module n (args <| ma_node := node |>) w) as [[[r args'] w1]|e] eqn:Ec; [|congruence].
  pose proof (call_module_keeps _ _ _ _ _ Ec) as Hk.
  assert (Hstep : forall b d', nd_true_branch n = Some b \/ nd_false_branch n = Some b ->
    decide_loop fuel b args' d' w1 <> Fault Hangs).
  { intros b d' Hb. apply IH; rewrite Hk; [done|].
    pose proof (ahead_lt _ _ _ _ En (Hf _ _ _ En Hb)). lia. }
  destruct r; [done| |].
  - destruct (nd_false_branch n); [by apply Hstep; right|done].
  - destruct (nd_true_branch n); [by apply Hstep; left|done].
Qed.

Lemma do_decide_ends d w : rules_ok w -> do_decide d w <> Fault Hangs.
Proof.
  intros [Hf _]. unfold do_decide. destruct (dh_node d) as [node|]; [|done].
  unfold sbind at 1, slift. cbn [nonnull]. unfold sbind at 1, sgets.
  apply decide_loop_ends; [done|]. pose proof (ahead_le (w_nodes w) node). lia.
Qed.

(** * Conjunctions *)

(** The nodes of a conjunction: a chain of TRUE branches with no FALSE branch. *)
Fixpoint chain (nodes : gmap ptr node) (root : option ptr) (l : list (ptr * node)) : Prop :=
  match l with
  | [] => root = None
  | (a, n) :: l => root = Some a /\ nodes !! a = Some n /\ nd_false_branch n = None /\ chain nodes (nd_true_branch n) l
  end.

(** What a conjunction means: its modules are run in order; the first that
    rejects or defers decides, and it is accepted when all accept.  The last
    HIH a module suggested is kept. *)
Fixpoint eval_and (l : list (ptr * node)) (args : mod_args) (d : decision_holder) : M decision_holder :=
  match l with
  | [] => sret (d <| dh_result := DE_ACCEPT |>)
  | (a, n) :: l =>
    do '(result, args) <- call_module n (args <| ma_node := a |>);
    match result with
    | ACCEPT =>
      eval_and l args (if ma_backend_use args =? 0 then d else d <| dh_backend_use := ma_backend_use args |>)
    | DEFER => sret (d <| dh_result := DE_DEFER |>)
    | REJECT => sret (d <| dh_result := DE_REJECT |>)
    end
  end.

Lemma decide_loop_chain l fuel a n args d w :
  chain (w_nodes w) (Some a) ((a, n) :: l) -> (length l < fuel)%nat ->
  decide_loop fuel a args d w = eval_and ((a, n) :: l) args d w.
Proof.
  revert fuel a n args d w. induction l as [|[b m] l IH]; intros fuel a n args d w (_ & Ha & Hn & Hc) Hlt;
    (destruct fuel as [|fuel]; [simpl in Hlt; lia|]);
    cbn [decide_loop]; unfold sbind at 1, get_node at 1; rewrite (deref_ok _ _ _ _ Ha);
    cbn [eval_and]; unfold sbind at 1 2;
    destruct (call_module n (args <| ma_node := a |>) w) as [[[r args'] w1]|e] eqn:Ec; [|done| |done];
    pose proof (call_module_keeps _ _ _ _ _ Ec) as Hk.
  - cbn [chain] in Hc. rewrite Hn, Hc. by destruct r.
  - pose proof Hc as (Hb & Hc'). rewrite Hn, Hb. destruct r; [done|done|].
    assert (Hch : chain (w_nodes w1) (Some b) ((b, m) :: l)) by (rewrite Hk; split; [done|apply Hc']).
    rewrite (IH fuel b m args' _ w1 Hch); [done|simpl in Hlt; lia].
Qed.

Lemma chain_forward nodes l a n : forward_nodes nodes -> chain nodes (Some a) ((a, n) :: l) ->
  (S (length l) <= ahead nodes a)%nat.
Proof.
  intros Hf. revert a n. induction l as [|[b m] l IH]; intros a n (_ & Ha & _ & Hc).
  - pose proof (ahead_lt nodes a (Pos.succ a) n Ha ltac:(lia)). simpl. lia.
  - pose proof Hc as (Hb & Hc'). specialize (IH b m ltac:(split; [done|apply Hc'])).
    pose proof (ahead_lt nodes a b n Ha (Hf _ _ _ Ha (or_introl Hb))). simpl. lia.
Qed.

Lemma do_decide_chain d w a n l :
  rules_ok w -> dh_node d = Some a -> chain (w_nodes w) (Some a) ((a, n) :: l) ->
  do_decide d w =
  eval_and ((a, n) :: l) (ModArgs a (dh_pkt d) (dh_backend_test d) 0) (d <| dh_result := DE_DEFER |>) w.
Proof.
  intros [Hf _] Hd Hc. unfold do_decide. rewrite Hd. unfold sbind at 1, slift. cbn [nonnull].
  unfold sbind at 1, sgets. apply decide_loop_chain; [done|].
  pose proof (chain_forward _ _ _ _ Hf Hc). pose proof (ahead_le (w_nodes w) a). lia.
Qed.
End Evaluation.

(** * The trees rules are compiled to *)

Section Building.
Context (and_matches : string -> bool) (and_split or_split : string -> list string).
Context (Hsplit : forall e right, and_matches e = true -> and_split e !! 1%nat = Some right -> and_matches right = false).

(** The conjuncts of an expression the engine looks at: the pieces of a split
    after the second one are dropped. *)
Definition conjuncts (e : string) : list string := if and_matches e then take 2 (and_split e) else [e].

(** What building adds to the nodes: addresses that were free, and nothing of
    the old nodes changes. *)
Record extends (w w' : world) : Prop := {
  ex_next : (w_next w <= w_next w')%positive;
  ex_old : forall a, (a < w_next w)%positive -> w_nodes w' !! a = w_nodes w !! a;
}.
#[export] Instance extends_refl : Reflexive extends.
Proof. by intros w. Qed.
#[export] Instance extends_trans : Transitive extends.
Proof. intros w1 w2 w3 [N1 O1] [N2 O2]. split; [lia|]. intros a Ha. rewrite O2, O1; [done..|lia]. Qed.

(** A conjunction built at the addresses from [lo] on. *)
Definition conjunction (w' : world) (lo : ptr) (root : ptr) (names : list string) : Prop :=
  exists l, chain (w_nodes w') (Some root) l /\ (fun kv => nd_module_name kv.2) <$> l = names /\
    Forall (fun kv => (lo <= kv.1)%positive) l.

Lemma chain_insert nodes root l a n :
  chain nodes root l -> Forall (fun kv => kv.1 <> a) l -> chain (<[a := n]> nodes) root l.
Proof.
  revert root. induction l as [|[b m] l IH]; intros root Hc Hl; [done|].
  destruct Hc as (-> & Hb & Hn & Hc). apply Forall_cons in Hl as [Hne Hl]. simpl in Hne.
  split; [done|]. rewrite lookup_insert_ne by done. split; [done|]. split; [done|]. by apply IH.
Qed.

Lemma rules_ok_alloc w n :
  rules_ok w -> nd_true_branch n = None -> nd_false_branch n = None ->
  rules_ok (w <| w_next := Pos.succ (w_next w) |> <| w_nodes := <[w_next w := n]> (w_nodes w) |>).
Proof.
  intros [Hf Hl] Ht Hn. split; simpl.
  - intros a m b Ha Hb. destruct (decide (w_next w = a)) as [<-|].
    + rewrite lookup_insert_eq in Ha. injection Ha as <-. rewrite Ht, Hn in Hb. naive_solver.
    + rewrite lookup_insert_ne in Ha by done. by eapply Hf.
  - intros a m Ha. destruct (decide (w_next w = a)) as [<-|]; [lia|].
    rewrite lookup_insert_ne in Ha by done. apply Hl in Ha. lia.
Qed.

Lemma rules_ok_update w a n m :
  rules_ok w -> w_nodes w !! a = Some m ->
  (forall b, nd_true_branch n = Some b \/ nd_false_branch n = Some b -> (a < b)%positive) ->
  rules_ok (w <| w_nodes := <[a := n]> (w_nodes w) |>).
Proof.
  intros [Hf Hl] Ha Hn. split; simpl.
  - intros c k b Hc Hb. destruct (decide (a = c)) as [<-|].
    + rewrite lookup_insert_eq in Hc. injection Hc as <-. by apply Hn.
    + rewrite lookup_insert_ne in Hc by done. by eapply Hf.
  - intros c k Hc. destruct (decide (a = c)) as [<-|]; [by eapply Hl|].
    rewrite lookup_insert_ne in Hc by done. by eapply Hl.
Qed.

Notation build := (DE_build_subtree and_matches and_split).

(** The node itself, once its TRUE branch [t] is built. *)
Lemma build_finish w0 w fuel modname t names config function f node u w' :
  rules_ok w -> w_nodes w !! node = Some node_zero -> extends w0 w -> node = w_next w0 ->
  match t with None => names = [] | Some b => conjunction w (Pos.succ node) b names end ->
  put_node node (Node (Some f) config modname function t None) w = Ret (u, w') -> (0 < fuel)%nat ->
  rules_ok w' /\ extends w0 w' /\ conjunction w' node node (modname :: names).
Proof.
  intros Hok Hz Hext -> Ht [= _ <-] _. split; [|split].
  - eapply rules_ok_update; [done|exact Hz|]. intros b [Hb|Hb]; [|done]. simpl in Hb. subst t.
    destruct Ht as ([|[c m] l] & Hc & _ & Hl); [discriminate Hc|]. destruct Hc as ([= ->] & _).
    apply Forall_cons in Hl as [Hl _]. simpl in Hl. lia.
  - destruct Hext as [Hn Ho]. split; [done|]. intros a Ha. simpl. rewrite lookup_insert_ne; [by apply Ho|lia].
  - destruct t as [b|].
    + destruct Ht as (l & Hc & Hnm & Hl). eexists ((w_next w0, _) :: l). split; [|split].
      * split; [done|]. simpl. split; [apply lookup_insert_eq|]. split; [done|]. simpl.
        apply chain_insert; [done|]. eapply Forall_impl; [exact Hl|]. intros [k v]. simpl. lia.
      * simpl. by f_equal.
      * constructor; [simpl; lia|]. eapply Forall_impl; [exact Hl|]. intros [k v]. simpl. lia.
    + subst names. eexists [(w_next w0, _)]. split; [|split].
      * split; [done|]. simpl. split; [apply lookup_insert_eq|]. done.
      * done.
      * constructor; [simpl; lia|done].
Qed.

Lemma build_spec fuel e w root w' :
  rules_ok w -> build fuel e w = Ret (root, w') ->
  rules_ok w' /\ extends w w' /\ root = w_next w /\ conjunction w' root root (conjuncts e).
Proof.
  revert e w root w'. induction fuel as [|fuel IH]; intros e w root w' Hok H; [done|].
  cbn [DE_build_subtree] in H. srun H as node w1 H1. injection H1 as <- <-. srun H as u w2 H2. injection H2 as _ <-.
  set (w2 := w <| w_next := Pos.succ (w_next w) |> <| w_nodes := <[w_next w := node_zero]> (w_nodes w) |>).
  pose proof (rules_ok_alloc w node_zero Hok eq_refl eq_refl) as Hok2. fold w2 in Hok2.
  assert (Hext2 : extends w w2).
  { split; [simpl; lia|]. intros a Ha. simpl. rewrite lookup_insert_ne; [done|lia]. }
  assert (Hz : w_nodes w2 !! w_next w = Some node_zero) by apply lookup_insert_eq.
  srun H as [modname t] w3 H3. srun H as mods w4 H4. injection H4 as _ <-.
  srun H as [[config function] f] w4 H4. apply slift_Ret_inv in H4 as [_ ->].
  srun H as v w5 H5. injection H as <- <-. unfold conjuncts.
  destruct (and_matches e) eqn:Em.
  - srun H3 as left w6 H6. apply slift_Ret_inv in H6 as [H6 ->]. apply nonnull_Ret_inv in H6.
    srun H3 as right w6 H7. apply slift_Ret_inv in H7 as [H7 ->]. apply nonnull_Ret_inv in H7.
    srun H3 as tb w6 H8. injection H3 as <- <- <-.
    change (build fuel right w2 = Ret (tb, w6)) in H8.
    destruct (IH _ _ _ _ Hok2 H8) as (Hok3 & Hext3 & -> & Hconj).
    pose proof (Hsplit _ _ Em H7) as Er. unfold conjuncts in Hconj. rewrite Er in Hconj.
    assert (Hz3 : w_nodes w6 !! w_next w = Some node_zero) by (rewrite (ex_old _ _ Hext3); [done|simpl; lia]).
    assert (Htake : take 2 (and_split e) = [left; right]).
    { destruct (and_split e) as [|x [|y l]]; simplify_eq/=. done. }
    rewrite Htake.
    destruct (build_finish w w6 (S fuel) left (Some (w_next w2)) [right] config function f (w_next w) v w5
      Hok3 Hz3 ltac:(by etrans) eq_refl Hconj H5 ltac:(lia)) as (? & ? & ?). done.
  - injection H3 as <- <- <-.
    destruct (build_finish w w2 (S fuel) e None [] config function f (w_next w) v w5
      Hok2 Hz Hext2 eq_refl eq_refl H5 ltac:(lia)) as (? & ? & ?). done.
Qed.

(** Following TRUE branches only. *)
Fixpoint tchain (nodes : gmap ptr node) (root : option ptr) (l : list ptr) : Prop :=
  match l with
  | [] => root = None
  | a :: l => root = Some a /\ exists n, nodes !! a = Some n /\ tchain nodes (nd_true_branch n) l
  end.

Lemma chain_tchain nodes root l : chain nodes root l -> tchain nodes root l.*1.
Proof.
  revert root. induction l as [|[a n] l IH]; intros root Hc; [done|].
  destruct Hc as (-> & Ha & _ & Hc). split; [done|]. exists n. split; [done|]. by apply IH.
Qed.

Lemma tchain_update nodes root l a n m :
  nodes !! a = Some n -> nd_true_branch m = nd_true_branch n -> tchain nodes root l -> tchain (<[a := m]> nodes) root l.
Proof.
  intros Ha Hm. revert root. induction l as [|b l IH]; intros root Hc; [done|].
  destruct Hc as (-> & k & Hb & Hc). split; [done|]. destruct (decide (a = b)) as [<-|].
  - exists m. rewrite lookup_insert_eq. split; [done|]. rewrite Hm. assert (k = n) as <- by congruence. by apply IH.
  - exists k. rewrite lookup_insert_ne by done. split; [done|]. by apply IH.
Qed.

Lemma connect_false_spec fuel node head l w u w' :
  rules_ok w -> tchain (w_nodes w) (Some node) l -> Forall (fun a => (a < head)%positive) l ->
  connect_false fuel node head w = Ret (u, w') ->
  rules_ok w' /\ w_next w' = w_next w /\ forall a, a ∉ l -> w_nodes w' !! a = w_nodes w !! a.
Proof.
  revert node l w. induction fuel as [|fuel IH]; intros node l w Hok Hc Hl H; [done|].
  cbn [connect_false] in H. srun H as n w1 H1. apply (get_node_inv node w n w1) in H1 as [Hn ->].
  srun H as v w1 H1. injection H1 as _ <-. destruct l as [|a l]; [discriminate Hc|].
  destruct Hc as ([= <-] & k & Hk & Hc). assert (k = n) as -> by congruence. clear Hk.
  apply Forall_cons in Hl as [Hlt Hl].
  set (m := n <| nd_false_branch := Some head |>) in *.
  set (w1 := w <| w_nodes := <[node := m]> (w_nodes w) |>) in *.
  assert (Hok1 : rules_ok w1).
  { eapply rules_ok_update; [done|exact Hn|]. intros b [Hb|Hb]; [by eapply (rk_forward _ Hok); [exact Hn|left]|].
    injection Hb as <-. done. }
  assert (Hout : forall a, a <> node -> w_nodes w1 !! a = w_nodes w !! a).
  { intros a Ha. simpl. by rewrite lookup_insert_ne. }
  destruct (nd_true_branch n) as [next|] eqn:Et.
  - assert (Hc1 : tchain (w_nodes w1) (Some next) l) by (eapply tchain_update; [exact Hn|done|exact Hc]).
    destruct (IH next l w1 Hok1 Hc1 Hl H) as (H1 & H2 & H3). split; [done|]. split; [done|].
    intros a Ha. apply not_elem_of_cons in Ha as [Ha1 Ha2]. rewrite H3, Hout; done.
  - injection H as _ <-. split; [done|]. split; [done|].
    intros a Ha. apply not_elem_of_cons in Ha as [Ha1 _]. by apply Hout.
Qed.

Lemma chain_agree nodes nodes' root l :
  chain nodes root l -> (forall a, a ∈ l.*1 -> nodes' !! a = nodes !! a) -> chain nodes' root l.
Proof.
  revert root. induction l as [|[a n] l IH]; intros root Hc Ho; [done|].
  destruct Hc as (-> & Ha & Hn & Hc). split; [done|]. rewrite Ho by (by left). split; [done|]. split; [done|].
  apply IH; [done|]. intros b Hb. apply Ho. by right.
Qed.

Lemma connect_groups_spec groups node l w root w' :
  rules_ok w -> tchain (w_nodes w) (Some node) l -> Forall (fun a => (a < w_next w)%positive) l ->
  connect_groups and_matches and_split node groups w = Ret (root, w') ->
  rules_ok w' /\
  match last groups with
  | None => root = node /\ w' = w
  | Some g => conjunction w' root root (conjuncts g)
  end.
Proof.
  revert node l w. induction groups as [|g groups IH]; intros node l w Hok Hc Hl H; cbn [connect_groups] in H.
  { injection H as <- <-. done. }
  srun H as head w1 H1. apply build_spec in H1 as (Hok1 & Hext & -> & (l1 & Hc1 & Hn1 & Hl1)); [|done].
  srun H as fuel w2 H2. injection H2 as _ <-. srun H as u w2 H2.
  assert (Hold : tchain (w_nodes w1) (Some node) l).
  { revert Hc Hl. generalize (Some node). clear -Hext. induction l as [|a l IH]; intros root Hc Hl; [done|].
    apply Forall_cons in Hl as [Ha Hl]. destruct Hc as (-> & n & Hn & Hc). split; [done|]. exists n.
    rewrite (ex_old _ _ Hext) by done. split; [done|]. by apply IH. }
  destruct (connect_false_spec _ _ _ _ _ _ _ Hok1 Hold Hl H2) as (Hok2 & Hnext & Hout).
  assert (Hc2 : chain (w_nodes w2) (Some (w_next w)) l1).
  { eapply chain_agree; [exact Hc1|]. intros a Ha. apply Hout. intros Hin.
    rewrite Forall_forall in Hl. specialize (Hl _ Hin). apply list_elem_of_fmap in Ha as ([b m] & -> & Hb).
    rewrite Forall_forall in Hl1. specialize (Hl1 _ Hb). simpl in *. lia. }
  assert (Hlt2 : Forall (fun a => (a < w_next w2)%positive) l1.*1).
  { apply Forall_forall. intros a Ha. apply chain_tchain in Hc2. clear -Hok2 Hc2 Ha.
    revert Hc2 Ha. generalize (Some (w_next w)). induction l1.*1 as [|b l IH]; intros root Hc Ha; [by apply elem_of_nil in Ha|].
    destruct Hc as (-> & n & Hn & Hc). apply elem_of_cons in Ha as [->|Ha]; [by eapply rk_fresh|by eapply IH]. }
  apply chain_tchain in Hc2 as Ht2.
  destruct (IH _ _ _ Hok2 Ht2 Hlt2 H) as (Hok' & Hres). split; [done|].
  destruct groups as [|g' groups].
  - simpl in *. destruct Hres as [-> ->]. by exists l1.
  - change (last (g :: g' :: groups)) with (last (g' :: groups)).
    destruct (last (g' :: groups)) eqn:E; [done|by apply last_None in E].
Qed.

Lemma create_tree_spec eq w root w' :
  rules_ok w -> DE_create_tree and_matches and_split or_split (Some eq) w = Ret (Some root, w') ->
  rules_ok w' /\ exists g, last (or_split eq) = Some g /\ conjunction w' root root (conjuncts g).
Proof.
  intros Hok H. unfold DE_create_tree in H. srun H as g0 w1 H1. apply slift_Ret_inv in H1 as [H1 ->].
  apply nonnull_Ret_inv in H1. srun H as node w1 H2. apply build_spec in H2 as (Hok1 & Hext & -> & Hconj); [|done].
  srun H as r w2 H3. injection H as <- <-. pose proof Hconj as (l & Hc & Hn & Hl). apply chain_tchain in Hc as Ht.
  assert (Hlt : Forall (fun a => (a < w_next w1)%positive) l.*1).
  { apply Forall_forall. intros a Ha. clear -Hok1 Ht Ha. revert Ht Ha. generalize (Some (w_next w)).
    induction l.*1 as [|b l' IH]; intros root Hc Ha; [by apply elem_of_nil in Ha|].
    destruct Hc as (-> & n & Hn & Hc). apply elem_of_cons in Ha as [->|Ha]; [by eapply rk_fresh|by eapply IH]. }
  destruct (connect_groups_spec _ _ _ _ _ _ Hok1 Ht Hlt H3) as (Hok2 & Hres). split; [done|].
  destruct (or_split eq) as [|g gs]; [done|]. simpl in H1. injection H1 as ->.
  destruct gs as [|g' gs].
  - simpl in *. destruct Hres as [-> ->]. by exists g0.
  - change (drop 1 (g0 :: g' :: gs)) with (g' :: gs) in Hres.
    change (last (g0 :: g' :: gs)) with (last (g' :: gs)).
    destruct (last (g' :: gs)) as [gl|] eqn:El; [by exists gl|by apply last_None in El].
Qed.
End Building.

(** * Freeing a tree *)

(** The addresses of a chain increase. *)
Lemma chain_ge nodes l root x :
  forward_nodes nodes -> chain nodes root l -> root = Some x -> Forall (fun y => (x <= y)%positive) l.*1.
Proof.
  intros Hf. revert root x. induction l as [|[y v] l IH]; intros root x Hc Hx; [constructor|].
  destruct Hc as (-> & Hy & _ & Hc). injection Hx as ->. constructor; [done|].
  destruct (nd_true_branch v) as [z|] eqn:Ez.
  - pose proof (Hf _ _ _ Hy (or_introl Ez)). eapply Forall_impl; [by apply (IH _ z Hc)|].
    intros ? Hz. simpl in *. lia.
  - destruct l as [|[]]; [constructor|]. by destruct Hc.
Qed.

Lemma chain_head_notin nodes l root a n :
  forward_nodes nodes -> chain nodes root ((a, n) :: l) -> a ∉ l.*1.
Proof.
  intros Hf (_ & Ha & _ & Hc) Hin. destruct (nd_true_branch n) as [b|] eqn:Hb.
  - pose proof (chain_ge _ _ _ _ Hf Hc eq_refl) as Hge. rewrite Forall_forall in Hge.
    specialize (Hge _ Hin). pose proof (Hf _ _ _ Ha (or_introl Hb)). simpl in *. lia.
  - destruct l as [|[]]; [by apply elem_of_nil in Hin|]. by destruct Hc.
Qed.

Lemma destroy_chain l fuel root w :
  forward_nodes (w_nodes w) -> chain (w_nodes w) root l -> (length l < fuel)%nat ->
  exists w', DE_destroy_tree fuel root w = Ret (tt, w') /\
    forall a, w_nodes w' !! a = if decide (a ∈ l.*1) then None else w_nodes w !! a.
Proof.
  revert fuel root w. induction l as [|[a n] l IH]; intros fuel root w Hf Hc Hlt;
    (destruct fuel as [|fuel]; [simpl in Hlt; lia|]).
  - simpl in Hc. subst root. exists w. split; [done|]. intros a. by destruct (decide _) as [?%elem_of_nil|].
  - pose proof Hc as (-> & Ha & Hn & Hc'). cbn [DE_destroy_tree]. unfold sbind at 1, get_node at 1.
    rewrite (deref_ok _ _ _ _ Ha), Hn. destruct fuel as [|fuel]; [simpl in Hlt; lia|].
    unfold sbind at 1. cbn [DE_destroy_tree]. unfold sret at 1, sbind at 1, get_node at 1.
    rewrite (deref_ok _ _ _ _ Ha). change (match nd_true_branch n with | Some _ => _ | None => _ end) with
      (DE_destroy_tree (S fuel) (nd_true_branch n)).
    destruct (IH (S fuel) (nd_true_branch n) w Hf Hc' ltac:(simpl in Hlt; lia)) as (w1 & H1 & Hw1).
    unfold sbind at 1. rewrite H1.
    assert (Hnin : a ∉ l.*1) by (eapply chain_head_notin; [exact Hf|exact Hc]).
    unfold free_node_block, free_in. rewrite Hw1, decide_False by done. rewrite Ha.
    eexists. split; [done|]. intros b. simpl. destruct (decide (b = a)) as [->|Hne].
    + rewrite lookup_delete_eq. by rewrite decide_True by (by left).
    + rewrite lookup_delete_ne by done. rewrite Hw1. apply decide_ext. rewrite elem_of_cons. naive_solver.
Qed.

(** * The state of a connection *)

(** The modules that only look: all but [mod_dns_control], which moves the
    connection to other trees. *)
Definition confined (f : module_function) : bool :=
  match f with mod_dns_control => false | _ => true end.
Definition confined_rules (w : world) : Prop :=
  forall a n f, w_nodes w !! a = Some n -> nd_module n = Some f -> confined f = true.

(** Confined modules leave the connections, their trees and the rules alone. *)
Class QuietModules `{ModuleRunner} : Prop :=
  run_quiet f args w r w' : confined f = true -> run_module f args w = Ret (r, w') -> quiet w w'.

Lemma confined_steady w w' : confined_rules w -> steady w w' -> confined_rules w'.
Proof. intros Hr Hs a n f. rewrite (tr_nodes _ _ (st_tracks _ _ Hs)). apply Hr. Qed.

Section Transitions.
Context `{QuietModules}.

Lemma quiet_call_module n args w r w' : (forall f, nd_module n = Some f -> confined f = true) ->
  call_module n args w = Ret (r, w') -> quiet w w'.
Proof. unfold call_module. destruct (nd_module n); [|done]. intros Hf. by apply run_quiet, Hf. Qed.

Lemma quiet_decide_loop fuel node args d w r w' : confined_rules w ->
  decide_loop fuel node args d w = Ret (r, w') -> quiet w w'.
Proof.
  revert node args d w. induction fuel as [|fuel IH]; intros node args d w Hr H1; cbn [decide_loop] in H1; [done|].
  srun H1 as n w1 H2. apply get_node_inv in H2 as [Hn ->]. srun H1 as [r1 args'] w2 H2.
  apply quiet_call_module in H2; [|intros f; by apply (Hr _ _ _ Hn)].
  assert (Hr2 : confined_rules w2) by (by eapply confined_steady, quiet_steady).
  destruct r1; [|destruct (nd_false_branch n)|destruct (nd_true_branch n)];
    first [injection H1 as _ <-; done | etrans; [done|by eapply IH]].
Qed.

(** A rule that is evaluated gives one of three results. *)
Definition decided (r : decision_t) : bool :=
  match r with DE_DEFER | DE_REJECT | DE_ACCEPT => true | _ => false end.

Lemma decide_loop_decided fuel node args d w d' w' :
  decide_loop fuel node args d w = Ret (d', w') -> decided (dh_result d') = true /\ dh_pkt d' = dh_pkt d.
Proof.
  revert node args d w. induction fuel as [|fuel IH]; intros node args d w H1; cbn [decide_loop] in H1; [done|].
  srun H1 as n w1 H2. srun H1 as [r args'] w2 H3. destruct r.
  - by injection H1 as <- <-.
  - destruct (nd_false_branch n); [|by injection H1 as <- <-]. by eapply IH.
  - destruct (nd_true_branch n); [|injection H1 as <- <-; by destruct (ma_backend_use args' =? 0)].
    apply IH in H1. by destruct (ma_backend_use args' =? 0).
Qed.

Lemma steady_decision d w d' w' : confined_rules w -> get_decision d w = Ret (d', w') ->
  steady w w' /\ dh_pkt d' = dh_pkt d /\
  (dh_node d = None -> d' = d) /\ (dh_node d <> None -> decided (dh_result d') = true).
Proof.
  intros Hr H1. unfold get_decision in H1. destruct (dh_node d) as [a|] eqn:En; [|injection H1 as <- <-; done].
  srun H1 as d1 w1 H2. unfold do_decide in H2. srun H2 as node w2 H3. apply slift_Ret_inv in H3 as [_ ->].
  srun H2 as fuel w2 H3. injection H3 as _ <-. pose proof (quiet_decide_loop _ _ _ _ _ _ _ Hr H2) as Hq.
  apply decide_loop_decided in H2 as [Hd Hp]. srun H1 as p w2 H3. apply get_pkt_inv in H3 as [_ ->].
  srun H1 as [b c] w2 H4. apply pkt_conn_inv in H4 as (_ & Hb & ->). srun H1 as u w2 H5. injection H1 as <- <-.
  split; [|done]. etrans; [by apply quiet_steady|]. by eapply steady_put_conn; [exact Hb| | |exact H5].
Qed.

Lemma steady_get_decision d w d' w' : confined_rules w -> get_decision d w = Ret (d', w') -> steady w w'.
Proof. intros Hr H1. by apply steady_decision in H1 as [? _]. Qed.

Lemma decision_cases d w d' w' : confined_rules w -> get_decision d w = Ret (d', w') ->
  dh_result d' = dh_result d \/ decided (dh_result d') = true.
Proof.
  intros Hr H1. apply steady_decision in H1 as (_ & _ & Hn & Hd); [|done].
  destruct (dh_node d) eqn:E; [right; by apply Hd|left; by rewrite Hn].
Qed.

(** The search over the backends never drops. *)
Lemma backends_cases l d w d' w' : confined_rules w ->
  tree_foreach get_decision_backend l d w = Ret (d', w') ->
  steady w w' /\ (dh_result d' = dh_result d \/ decided (dh_result d') = true).
Proof.
  revert d w. induction l as [|[k h] l IH]; intros d w Hr H1; cbn [tree_foreach] in H1; [injection H1 as <- <-; split; [done|by left]|].
  srun H1 as [stop d1] w1 H2. unfold get_decision_backend in H2. srun H2 as bh w2 H3.
  unfold get_handler in H3. apply deref_Ret_inv in H3 as (_ & _ & _ & ->). srun H2 as d2 w2 H3.
  pose proof (steady_get_decision _ _ _ _ Hr H3) as Hs. apply decision_cases in H3; [|done]. simpl in H3.
  assert (Hd : d1 = d2 <| dh_backend_use := dh_backend_use d1 |> /\ w1 = w2).
  { destruct (decide _); injection H2 as <- <- <-; [done|by destruct d2]. }
  destruct Hd as [Hd ->]. assert (Er : dh_result d1 = dh_result d2) by by rewrite Hd.
  destruct stop.
  - injection H1 as <- <-. rewrite Er. auto.
  - destruct (IH _ _ (confined_steady _ _ Hr Hs) H1) as [Hs' Hc]. split; [by etrans|]. rewrite Er in Hc.
    destruct Hc as [->|]; [exact H3|by right].
Qed.

(** The results [DE_process_packet] acts on, by state. *)
Definition possible (c : conn_struct) (r : decision_t) : bool :=
  match cn_state c with
  | INIT => negb (bool_decide (r = DE_DEFER)) && negb (bool_decide (r = DE_DROP))
  | DECISION => negb (bool_decide (r = DE_DROP))
  | CONTROL => true
  | _ => bool_decide (r = DE_NO_RULE)
  end.

Lemma init_results r : r = DE_NO_RULE \/ decided r = true -> r <> DE_DEFER ->
  negb (bool_decide (r = DE_DEFER)) && negb (bool_decide (r = DE_DROP)) = true.
Proof. destruct r; simpl; try done; by intros [|]. Qed.
Lemma decision_results r : r = DE_NO_RULE \/ decided r = true -> negb (bool_decide (r = DE_DROP)) = true.
Proof. destruct r; simpl; try done; by intros [|]. Qed.
Lemma result_trans r r' : r = DE_NO_RULE \/ decided r = true -> r' = r \/ decided r' = true ->
  negb (bool_decide (r' = DE_DROP)) = true.
Proof. intros H1 H2. apply decision_results. destruct H2 as [->|]; [done|by right]. Qed.

Lemma de_decide_spec pkt c w d w' : confined_rules w ->
  de_decide pkt c w = Ret (d, w') -> steady w w' /\ possible c (dh_result d) = true.
Proof.
  intros Hr H1. unfold de_decide in H1. unfold possible.
  destruct (cn_state c); try (injection H1 as <- <-; done).
  - srun H1 as t w1 H2. unfold get_target in H2. apply deref_Ret_inv in H2 as (_ & _ & _ & ->).
    srun H1 as h w1 H2. unfold get_handler in H2. apply deref_Ret_inv in H2 as (_ & _ & _ & ->).
    srun H1 as d1 w1 H2. injection H1 as <- <-. split; [by eapply steady_get_decision|].
    apply decision_cases in H2; [|done]. destruct (decide _); [done|]. simpl in H2.
    by apply init_results.
  - srun H1 as t w1 H2. unfold get_target in H2. apply deref_Ret_inv in H2 as (_ & _ & _ & ->).
    destruct (tg_back_picker t) as [picker|].
    + srun H1 as d1 w1 H2. pose proof (steady_get_decision _ _ _ _ Hr H2) as Hs. apply decision_cases in H2; [|done]. simpl in H2.
      destruct (_ && _).
      * srun H1 as bh w2 H3. unfold get_handler in H3. apply deref_Ret_inv in H3 as (_ & _ & _ & ->).
        destruct (hd_rule bh); [|injection H1 as <- <-; split; [done|]; by apply decision_results].
        pose proof (confined_steady _ _ Hr Hs) as Hr'.
        pose proof (steady_get_decision _ _ _ _ Hr' H1) as Hs'. apply decision_cases in H1; [|done]. simpl in H1.
        split; [by etrans|]. eapply result_trans; [exact H2|exact H1].
      * injection H1 as <- <-. split; [done|]. by apply decision_results.
    + apply backends_cases in H1 as [Hs Hc]; [|done]. split; [done|]. by apply decision_results.
  - split; [|done]. destruct (cn_destination c); try (injection H1 as <- <-; done).
    + srun H1 as t w1 H2. unfold get_target in H2. apply deref_Ret_inv in H2 as (_ & _ & _ & ->).
      by eapply steady_get_decision.
    + srun H1 as rule w1 H2. assert (w1 = w) as ->.
      { destruct (cn_intra_handler c); srun H2 as x w2 H3; injection H2 as _ <-;
          unfold get_handler, get_target in H3; by apply deref_Ret_inv in H3 as (_ & _ & _ & ->). }
      srun H1 as d1 w1 H3. injection H1 as _ <-. by eapply steady_get_decision.
Qed.

(** The allowed transitions: the state, whether the packet goes on, the new
    state. *)
Definition de_allowed (s : conn_status_t) (r : status_t) (s' : conn_status_t) : bool :=
  match s, r with
  | INIT, OK => bool_decide (s' = PROXY) || bool_decide (s' = DECISION)
  | INIT, NOK => bool_decide (s' = DROP)
  | DECISION, OK => bool_decide (s' = DECISION)
  | DECISION, NOK => bool_decide (s' = PROXY) || bool_decide (s' = REPLAY) || bool_decide (s' = DECISION)
  | CONTROL, OK => bool_decide (s' = CONTROL) || bool_decide (s' = PROXY)
  | CONTROL, NOK => bool_decide (s' = DROP)
  | s, OK => bool_decide (s' = s)
  | _, NOK => false
  end.

Lemma switched conn s w r w' : switch_state conn s w = Ret (r, w') ->
  exists c', w_conns w' !! conn = Some c' /\ cn_state c' = s.
Proof.
  intros H1. apply switch_state_spec in H1 as (_ & _ & c & _ & -> & _). eexists. split; [apply lookup_insert_eq|done].
Qed.

Lemma de_apply_spec conn c d mt w r w' :
  w_conns w !! conn = Some c -> possible c (dh_result d) = true -> de_apply conn d mt w = Ret (r, w') ->
  exists c', w_conns w' !! conn = Some c' /\ de_allowed (cn_state c) r (cn_state c') = true.
Proof.
  intros Ha Hp H1. unfold de_apply in H1. srun H1 as c0 w1 H2. apply get_conn_inv in H2 as [E ->].
  assert (c0 = c) as -> by congruence. clear E. unfold possible in Hp.
  assert (Hsw : forall s res, (do _s <- switch_state conn s; sret res) w = Ret (r, w') ->
    de_allowed (cn_state c) res s = true ->
    exists c', w_conns w' !! conn = Some c' /\ de_allowed (cn_state c) r (cn_state c') = true).
  { intros s res Hs Hal. srun Hs as x w2 H2. injection Hs as <- <-. apply switched in H2 as (c' & Hc' & <-). eauto. }
  destruct (dh_result d) eqn:Er.
  - destruct (cn_state c) eqn:Es; try (injection H1 as <- <-; exists c; by rewrite Es).
    + srun H1 as t w2 H2. unfold get_target in H2. apply deref_Ret_inv in H2 as (_ & _ & _ & ->).
      apply Hsw in H1; [done|]. by destruct (_ =? _).
    + by apply Hsw in H1.
  - destruct (cn_state c) eqn:Es; try done; injection H1 as <- <-; exists c; by rewrite Es.
  - destruct (cn_state c) eqn:Es; try done; by apply Hsw in H1.
  - destruct (cn_state c) eqn:Es; try done.
    + srun H1 as t w2 H2. unfold get_target in H2. apply deref_Ret_inv in H2 as (_ & _ & _ & ->).
      apply Hsw in H1; [done|]. destruct (tg_back_handler_count t =? 0), (bool_decide (tg_back_picker t = None)); done.
    + srun H1 as x w2 H2. injection H1 as <- <-.
      destruct (setup_redirection_state _ _ _ _ _ _ _ Ha H2) as (c' & Hc' & Es').
      exists c'. split; [done|]. rewrite Es', ?Es. by destruct x.
    + injection H1 as <- <-. exists c. by rewrite Es.
  - destruct (cn_state c) eqn:Es; try done; by apply Hsw in H1.
Qed.

Lemma process_transitions pkt mt w r w' p conn c :
  confined_rules w -> w_pkts w !! pkt = Some p -> pt_conn p = Some conn -> w_conns w !! conn = Some c ->
  DE_process_packet pkt mt w = Ret (r, w') ->
  exists c', w_conns w' !! conn = Some c' /\ de_allowed (cn_state c) r (cn_state c') = true.
Proof.
  intros Hr Hp Hpc Hc H1. unfold DE_process_packet in H1. srun H1 as p0 w1 H2. apply get_pkt_inv in H2 as [E ->].
  assert (p0 = p) as -> by congruence. srun H1 as [a c0] w1 H2. apply pkt_conn_inv in H2 as (Ea & Hc0 & ->).
  assert (a = conn) as -> by congruence. assert (c0 = c) as -> by congruence.
  srun H1 as d w1 H2. apply de_decide_spec in H2 as [Hs Hpos]; [|done].
  destruct (st_kept _ _ Hs _ _ Hc) as (c1 & Hc1 & _ & Es). unfold possible in Hpos. rewrite <- Es in Hpos |- *.
  by eapply de_apply_spec.
Qed.
End Transitions.

(** * Modules by name *)

Lemma has_prefix_trans p q s : has_prefix p q = true -> has_prefix q s = true -> has_prefix p s = true.
Proof.
  revert q s. induction p as [|a p IH]; intros [|b q] [|c s] H1 H2; try done.
  simpl in *. apply andb_true_iff in H1 as [H1 H1'], H2 as [H2 H2'].
  apply Ascii.eqb_eq in H1, H2. subst. rewrite Ascii.eqb_refl. simpl. by eapply IH.
Qed.

Lemma find_module_source l s : has_prefix "source" s = true -> has_prefix "invalid" s = false ->
  find_module (("invalid", None) :: ("source", Some mod_source) :: l)%string s = Some (Some mod_source).
Proof. intros H1 H2. cbn [find_module]. by rewrite H2, H1. Qed.

Lemma prefix_excludes s : has_prefix "source" s = true -> has_prefix "invalid" s = false.
Proof.
  destruct s as [|c s]; [done|]. cbn [has_prefix]. intros [Hc _]%andb_true_iff. apply Ascii.eqb_eq in Hc. by subst.
Qed.

(** * The properties *)

(** C27: what a rule means.  [DE_create_tree] splits the equation on OR, and each
    group on AND; evaluating the tree it returns, in any later state, amounts
    to running in order the modules named by the first two conjuncts of the
    LAST group: the first that rejects or defers decides, and the packet is
    accepted when they all accept.  The other groups, and the conjuncts after
    the second one, are built but never reached. *)
Theorem rule_meaning `{ModuleLaws} and_matches and_split or_split eq w root w' :
  (forall e right, and_matches e = true -> and_split e !! 1%nat = Some right -> and_matches right = false) ->
  rules_ok w -> DE_create_tree and_matches and_split or_split (Some eq) w = Ret (Some root, w') ->
  exists g n l, last (or_split eq) = Some g /\
    nd_module_name n :: ((fun kv : ptr * node => nd_module_name kv.2) <$> l) =
      (if and_matches g then take 2 (and_split g) else [g]) /\
    forall w1 d, w_nodes w1 = w_nodes w' -> dh_node d = Some root ->
      do_decide d w1 = eval_and ((root, n) :: l) (ModArgs root (dh_pkt d) (dh_backend_test d) 0)
                         (d <| dh_result := DE_DEFER |>) w1.
Proof.
  intros Hsp Hok Hc. destruct (create_tree_spec _ _ _ Hsp _ _ _ _ Hok Hc) as (Hok' & g & Hg & [|[a n] l] & Hch & Hn & _);
    [done|].
  pose proof Hch as ([= <-] & _). exists g, n, l. split; [done|]. split; [done|].
  intros w1 d Hw Hd. unfold do_decide. rewrite Hd. unfold sbind at 1, slift. cbn [nonnull]. unfold sbind at 1, sgets.
  rewrite <- Hw in Hch. apply decide_loop_chain; [done|].
  pose proof (rk_forward _ Hok') as Hf. rewrite <- Hw in Hf.
  pose proof (chain_forward _ _ _ _ Hf Hch). pose proof (ahead_le (w_nodes w1) root). lia.
Qed.

(** C29: the evaluation of rules ends.  Building a rule keeps the rules
    well-founded, whatever they share, and no evaluation of a rule, on any
    modules that return and leave the rules alone, runs out of the fuel of one
    iteration per node. *)
Theorem decide_terminates `{ModuleLaws} and_matches and_split or_split eq w root w' :
  (forall e right, and_matches e = true -> and_split e !! 1%nat = Some right -> and_matches right = false) ->
  rules_ok w -> DE_create_tree and_matches and_split or_split (Some eq) w = Ret (Some root, w') ->
  rules_ok w' /\ forall w1 d, rules_ok w1 -> do_decide d w1 <> Fault Hangs.
Proof.
  intros Hsp Hok Hc. destruct (create_tree_spec _ _ _ Hsp _ _ _ _ Hok Hc) as (Hok' & _).
  split; [done|]. intros w1 d. apply do_decide_ends.
Qed.

(** Freeing a rule.  [DE_destroy_tree] on the tree of a rule that was just
    built frees each node of its chain exactly once: it meets no freed node,
    and the nodes that remain, those of the unreachable groups included, are
    untouched. *)
Lemma destroy_created_tree and_matches and_split or_split eq w root w' :
  (forall e right, and_matches e = true -> and_split e !! 1%nat = Some right -> and_matches right = false) ->
  rules_ok w -> DE_create_tree and_matches and_split or_split (Some eq) w = Ret (Some root, w') ->
  exists (freed : list ptr) w2, DE_destroy_tree (S (S (size (w_nodes w')))) (Some root) w' = Ret (tt, w2) /\
    root ∈ freed /\ forall a, w_nodes w2 !! a = if decide (a ∈ freed) then None else w_nodes w' !! a.
Proof.
  intros Hsp Hok Hc. destruct (create_tree_spec _ _ _ Hsp _ _ _ _ Hok Hc) as (Hok' & g & Hg & [|[a n] l] & Hch & _ & _);
    [done|].
  pose proof Hch as ([= <-] & _). pose proof (rk_forward _ Hok') as Hf.
  destruct (destroy_chain _ (S (S (size (w_nodes w')))) _ _ Hf Hch) as (w2 & H2 & Hw2).
  { pose proof (chain_forward _ _ _ _ Hf Hch). pose proof (ahead_le (w_nodes w') root). simpl. lia. }
  exists ((root, n) :: l).*1, w2. split; [done|]. split; [by left|done].
Qed.

(** C18: the life of a connection in the decision engine.  When no rule calls
    [mod_dns_control] (which moves a controlled connection to [PROXY] although the
    packet is refused), [DE_process_packet] only makes the moves of [de_allowed]: the first packet always decides (from [INIT] the connection
    is proxied, goes on to [DECISION], or is dropped with the packet), a
    connection in [DECISION] waits, is given back to the LIH, or is redirected,
    a controlled one is dropped, proxied, or stays controlled, and in any other
    state nothing changes.  No packet goes on when its connection is dropped. *)
Theorem de_transitions `{QuietModules} pkt mt w r w' p conn c :
  confined_rules w -> w_pkts w !! pkt = Some p -> pt_conn p = Some conn -> w_conns w !! conn = Some c ->
  DE_process_packet pkt mt w = Ret (r, w') ->
  exists c', w_conns w' !! conn = Some c' /\ de_allowed (cn_state c) r (cn_state c') = true.
Proof. apply process_transitions. Qed.

(** Which names reach which modules.  Every module but one is found under
    its own name; [source_time] is not: [get_module] compares prefixes in the
    order of the table and [source] comes first, so no name at all gives
    [mod_source_time]. *)
Lemma get_module_names :
  (forall name f, (name, Some f) ∈ module_definitions -> name <> "source_time"%string ->
     get_module name = Ret (Some f)) /\
  (forall modname, has_prefix "source" modname = true -> get_module modname = Ret (Some mod_source)) /\
  (forall modname, get_module modname <> Ret (Some mod_source_time)).
Proof.
  assert (Hsrc : forall s, has_prefix "source" s = true -> get_module s = Ret (Some mod_source)).
  { intros s Hs. unfold get_module. unfold module_definitions. rewrite find_module_source; [done..|by apply prefix_excludes]. }
  split; [|split; [exact Hsrc|]].
  - intros name f Hin Hne. unfold module_definitions in Hin.
    repeat (apply elem_of_cons in Hin as [Hin|Hin];
      [first [discriminate Hin | injection Hin as -> ->; first [reflexivity | by destruct Hne]]|]).
    by apply elem_of_nil in Hin.
  - intros s Hs. destruct (has_prefix "source" s) eqn:E; [rewrite Hsrc in Hs; done|].
    unfold get_module, module_definitions in Hs. cbn [find_module] in Hs. rewrite E in Hs.
    destruct (has_prefix "source_time" s) eqn:E'.
    { rewrite (has_prefix_trans "source" "source_time" s) in E; done. }
    repeat match goal with Hs : context [has_prefix ?n s] |- _ => destruct (has_prefix n s) end; done.
Qed.

(** * A sample rule *)

(** Modules that decide by their function only: [yesno] accepts, the others
    reject. *)
#[export] Instance sample_runner : ModuleRunner := fun f args w =>
  Ret ((if decide (f = mod_yesno) then ACCEPT else REJECT, args), w).
#[export] Instance sample_laws : ModuleLaws.
Proof. split; [by intros f args w r w' [= _ <-]|done]. Defined.
#[export] Instance sample_quiet : QuietModules.
Proof. intros f args w r w' _ [= _ <-]. reflexivity. Defined.

(** The operators of the expression [dns OR web AND late], cut as the regular
    expressions do. *)
Definition sample_rule : string := "dns OR web AND late".
Definition sample_and (e : string) : bool := String.eqb e "web AND late".
Definition sample_and_split (e : string) : list string :=
  if sample_and e then ["web"; "late"]%string else [e].
Definition sample_or_split (e : string) : list string :=
  if String.eqb e sample_rule then ["dns"; "web AND late"]%string else [e].

Definition yesno_name : config_value := CBlock [121; 101; 115; 110; 111; 0].
Definition counter_name : config_value := CBlock [99; 111; 117; 110; 116; 101; 114; 0].
Definition world_rules : world := world_idle <| modules :=
  {[ "web"%string := {[ "function"%string := yesno_name ]};
     "late"%string := {[ "function"%string := counter_name ]};
     "dns"%string := {[ "function"%string := counter_name ]} ]} |>.
Definition world_ruled : world :=
  state_after (DE_create_tree sample_and sample_and_split sample_or_split (Some sample_rule)) world_rules.

Lemma sample_split e right : sample_and e = true -> sample_and_split e !! 1%nat = Some right -> sample_and right = false.
Proof. unfold sample_and_split. intros ->. by intros [= <-]. Qed.

Lemma world_rules_ok : rules_ok world_rules.
Proof. split; intros a n; by vm_compute (w_nodes world_rules). Qed.

Lemma rule_meaning_witness : exists root n l,
  DE_create_tree sample_and sample_and_split sample_or_split (Some sample_rule) world_rules = Ret (Some root, world_ruled) /\
  nd_module_name n :: ((fun kv : ptr * node => nd_module_name kv.2) <$> l) = ["web"; "late"]%string /\
  do_decide (DecisionHolder 21 (Some root) 0 0 DE_NO_RULE) world_ruled =
  eval_and ((root, n) :: l) (ModArgs root 21 0 0) (DecisionHolder 21 (Some root) 0 0 DE_DEFER) world_ruled.
Proof.
  assert (Hrun : DE_create_tree sample_and sample_and_split sample_or_split (Some sample_rule) world_rules =
    Ret (Some 105%positive, world_ruled)) by (vm_compute; reflexivity).
  destruct (rule_meaning sample_and sample_and_split sample_or_split sample_rule world_rules _ _
    sample_split world_rules_ok Hrun) as (g & n & l & Hg & Hn & Hrest).
  exists 105%positive, n, l. split; [exact Hrun|]. split; [rewrite Hn; injection Hg as <-; reflexivity|].
  apply (Hrest world_ruled (DecisionHolder 21 (Some 105%positive) 0 0 DE_NO_RULE)); reflexivity.
Defined.

Lemma decide_terminates_witness :
  rules_ok world_ruled /\ do_decide (DecisionHolder 21 (Some 105%positive) 0 0 DE_NO_RULE) world_ruled <> Fault Hangs.
Proof.
  destruct (decide_terminates sample_and sample_and_split sample_or_split sample_rule world_rules 105%positive world_ruled
    sample_split world_rules_ok ltac:(vm_compute; reflexivity)) as [Hok Hend].
  split; [exact Hok|apply Hend, Hok].
Defined.

Lemma destroy_created_tree_witness : exists freed w2,
  DE_destroy_tree (S (S (size (w_nodes world_ruled)))) (Some 105%positive) world_ruled = Ret (tt, w2) /\
  105%positive ∈ freed /\
  forall a, w_nodes w2 !! a = if decide (a ∈ (freed : list ptr)) then None else w_nodes world_ruled !! a.
Proof.
  apply (destroy_created_tree sample_and sample_and_split sample_or_split sample_rule world_rules 105%positive world_ruled).
  - exact sample_split.
  - exact world_rules_ok.
  - vm_compute. reflexivity.
Defined.

(** The first packet of the sample connection meets no rule: it is proxied or
    goes on to [DECISION]. *)
Lemma de_transitions_witness : exists c', 
  w_conns (state_after (DE_process_packet 21 1000000) world_conn) !! 100%positive = Some c' /\
  de_allowed INIT OK (cn_state c') = true.
Proof.
  assert (Hp : exists p, w_pkts world_conn !! 21%positive = Some p /\ pt_conn p = Some 100%positive)
    by (vm_compute; eauto).
  destruct Hp as (p & Hp & Hpc).
  assert (Hc : exists c, w_conns world_conn !! 100%positive = Some c /\ cn_state c = INIT) by (vm_compute; eauto).
  destruct Hc as (c & Hc & Hs).
  rewrite <- Hs.
  assert (Hr : confined_rules world_conn) by (intros a n f; by vm_compute (w_nodes world_conn)).
  apply (de_transitions 21 1000000 world_conn OK (state_after (DE_process_packet 21 1000000) world_conn) p 100 c
    Hr Hp Hpc Hc).
  vm_compute. reflexivity.
Defined.
