(* ===== verification/Icmp.v ===== *)
(** The remaining routines of [netcode.c] that build or check packets: the
    "fragmentation needed" message of [send_icmp_frag_needed] and
    [udp_checksum].

    libdnet's macro [icmp_pack_hdr_needfrag] is the parameter [needfrag]: the
    bytes it writes for an MTU and the quoted start of a packet. *)
From S2P Require Import Prelude Mem Types World Samples Keys Checksum TcpOptions Packet.

(** * Fragmentation needed *)

Section Needfrag.
Context (needfrag : Z -> list Z -> list Z).

(** The sizes of [struct icmp_hdr] and [struct icmp_msg_needfrag]. *)
Definition ICMP_HDR_LEN : nat := 4.
Definition NEEDFRAG_LEN : nat := 4.

(** The bytes of [frame[psize]] after the link header. *)
Definition icmp_size : nat := 2 * IP_HDR_SIZE + ICMP_HDR_LEN + NEEDFRAG_LEN + 8.

(** The link header of the message: the frame, the offset of its IP header and
    its size. *)
Definition icmp_link (p : pkt_struct) (mac : list Z) : outcome (list Z * nat * nat) :=
  let f := FRAME (pt_packet p) in
  let eth := p_eth (pt_packet p) in
  let! ty := eth_type f eth in
  let is_vlan := negb (ty =? htons ETHERTYPE_IP) in
  let hlen := if is_vlan then VLAN_ETH_HLEN else ETHER_HDR_LEN in
  let psize := (icmp_size + hlen)%nat in
  let frame := repeat 0 psize in
  let! frame := (if is_vlan then
                   let! frame := st16 frame 12 (htons ETHERTYPE_VLAN) in
                   let! tag := mget f (eth + ETHER_HDR_LEN) VLAN_HLEN in
                   mput frame ETHER_HDR_LEN tag
                 else st16 frame 12 (htons ETHERTYPE_IP)) in
  let! frame := mput frame 6 mac in
  let! shost := mget f (eth + 6) ETH_ALEN in
  let! frame := mput frame 0 shost in
  Ret (frame, hlen, psize).

Definition icmp_ip (frame : list Z) (ip psize : nat) (oip : list Z) : outcome (list Z) :=
  let! frame := st8 frame ip 0x45 in
  let! frame := st16 frame (ip + 2) (ntohs (Z.of_nat psize)) in
  let! frame := st16 frame (ip + 6) (ntohs 0x4000) in
  let! frame := st8 frame (ip + 8) 0x40 in
  let! frame := st8 frame (ip + 9) IPPROTO_TCP in
  let! daddr := mget oip 16 4 in
  let! frame := mput frame (ip + 12) daddr in
  let! saddr := mget oip 12 4 in
  mput frame (ip + 16) saddr.

(** The checksum of the message is taken over [psize] bytes from its ICMP
    header on. *)
Definition icmp_frame (p : pkt_struct) (mac : list Z) (mtu : Z) : outcome (list Z) :=
  let! '(frame, ip, psize) := icmp_link p mac in
  let icmp := (ip + IP_HDR_SIZE)%nat in
  let! oip := nonnull (oh_ip (pt_original_headers p)) in
  let! frame := icmp_ip frame ip psize oip in
  let! quoted := mget (FRAME (pt_packet p)) (p_ip (pt_packet p)) (IP_HDR_SIZE + 8) in
  let! frame := mput frame icmp (needfrag mtu quoted) in
  let! frame := st16 frame (icmp + 2) 0 in
  let! c := in_cksum frame icmp psize in
  let! frame := st16 frame (icmp + 2) c in
  set_ip_checksum frame ip.

Definition send_icmp_frag_needed (pkt : ptr) : M unit :=
  do p <- get_pkt pkt;
  do i <- get_iface (pt_in p);
  do f <- slift (icmp_frame p (if_mac i) (if_mtu i));
  do iface <- slift (nonnull (pt_in p));
  do _ok <- pcap_inject iface f;
  sret tt.
End Needfrag.

(** * [udp_checksum] *)

(** The member [payload] of [struct udp_packet] is a pointer: after the 28 bytes
    of the two headers it is aligned to offset 32. *)
Definition UDP_PACKET_PAYLOAD : nat := 32.

Definition udp_checksum (f : list Z) (ip : nat) : outcome Z :=
  let! hdrdata := hdrdata_size f ip in
  let! saddr := mget f (ip + 12) 4 in
  let! daddr := mget f (ip + 16) 4 in
  let pseudohdr := saddr ++ daddr ++ [0; IPPROTO_UDP] ++ le_encode 2 (htons hdrdata) in
  let! udp := mget f (ip + IP_HDR_SIZE) UDP_HDR_LEN in
  let n := hdrdata - Z.of_nat UDP_HDR_LEN in
  if (n <? 0) || (BUFSIZE <? n) then Fault OutOfBounds
  else
    let! payload := mget f (ip + UDP_PACKET_PAYLOAD) (Z.to_nat n) in
    let chk_p := pseudohdr ++ udp ++ payload ++ repeat 0 (Z.to_nat (BUFSIZE - n)) in
    in_cksum chk_p 0 (12 + Z.to_nat hdrdata).

(** * The message always reads past its frame *)

(** The link header and the IP header fit. *)
Lemma icmp_link_ok p mac :
  (p_eth (pt_packet p) + 18 <= length (FRAME (pt_packet p)))%nat -> length mac = 6%nat ->
  exists frame hlen, icmp_link p mac = Ret (frame, hlen, (icmp_size + hlen)%nat) /\
    length frame = (icmp_size + hlen)%nat.
Proof.
  intros Hf Hmac. unfold icmp_link, eth_type. rewrite ld16_ok by lia. cbn [obind].
  unfold icmp_size, IP_HDR_SIZE, ICMP_HDR_LEN, NEEDFRAG_LEN, VLAN_ETH_HLEN, ETHER_HDR_LEN, VLAN_HLEN, ETH_ALEN.
  destruct (negb _); memstep; (eexists _, _; split; [reflexivity|]; memlen).
Qed.

Lemma icmp_ip_ok frame ip psize oip :
  (ip + 20 <= length frame)%nat -> (20 <= length oip)%nat ->
  exists frame', icmp_ip frame ip psize oip = Ret frame' /\ length frame' = length frame.
Proof. intros Hf Ho. unfold icmp_ip. memstep. eexists. split; [reflexivity|]. memlen. Qed.

(** Whatever comes before the checksum, the checksum reads too far. *)
Lemma in_cksum_overreads f off n : (length f < off + n)%nat -> in_cksum f off n = Fault OutOfBounds.
Proof. intros H. unfold in_cksum, mget. by rewrite decide_False by lia. Qed.

Lemma icmp_frame_overreads needfrag p mac mtu oip :
  (forall mtu quoted, length (needfrag mtu quoted) = (8 + length quoted)%nat) ->
  (p_eth (pt_packet p) + 18 <= length (FRAME (pt_packet p)))%nat ->
  (p_ip (pt_packet p) + 28 <= length (FRAME (pt_packet p)))%nat -> length mac = 6%nat ->
  oh_ip (pt_original_headers p) = Some oip -> (20 <= length oip)%nat ->
  icmp_frame needfrag p mac mtu = Fault OutOfBounds.
Proof.
  intros Hn He Hi Hm Ho Hoip. unfold icmp_frame.
  destruct (icmp_link_ok p mac He Hm) as (frame & ip & -> & Hl). cbn [obind]. rewrite Ho. cbn [nonnull obind].
  assert (Hlip : length frame = (56 + ip)%nat) by exact Hl.
  destruct (icmp_ip_ok frame ip (icmp_size + ip) oip ltac:(lia) Hoip) as (f1 & -> & H1). cbn [obind].
  rewrite mget_ok by (unfold IP_HDR_SIZE; lia). cbn [obind].
  set (msg := needfrag _ _). assert (Hmsg : length msg = 36%nat) by (unfold msg; rewrite Hn, length_sub; unfold IP_HDR_SIZE; lia).
  unfold IP_HDR_SIZE. rewrite mput_ok by lia. cbn [obind]. rewrite st16_ok by (rewrite length_upd; lia). cbn [obind].
  rewrite in_cksum_overreads; [done|]. rewrite !length_upd by (rewrite ?length_upd, ?length_le_encode; lia).
  unfold icmp_size, IP_HDR_SIZE, ICMP_HDR_LEN, NEEDFRAG_LEN. lia.
Qed.

(** Nor does it return whatever the packet and the library are. *)
Lemma st16_length f off v f' : st16 f off v = Ret f' -> length f' = length f.
Proof. apply mput_length. Qed.
Lemma st8_length f off v f' : st8 f off v = Ret f' -> length f' = length f.
Proof. apply mput_length. Qed.

(** [olen] rewrites the lengths of the blocks the stores of the context leave. *)
Ltac olen :=
  repeat match goal with
  | H : st8 _ _ _ = Ret _ |- _ => apply st8_length in H
  | H : st16 _ _ _ = Ret _ |- _ => apply st16_length in H
  | H : mput _ _ _ = Ret _ |- _ => apply mput_length in H
  end.

Lemma icmp_link_length p mac frame ip psize :
  icmp_link p mac = Ret (frame, ip, psize) -> length frame = psize.
Proof.
  unfold icmp_link. intros H. orun H as ty H1. orun H as fr H2. orun H as fr2 H3. orun H as sh H4.
  orun H as fr3 H5. injection H as <- _ <-. olen.
  rewrite H5, H3. destruct (negb _).
  - orun H2 as a H6. orun H2 as b H7. olen. by rewrite H2, H6, repeat_length.
  - olen. by rewrite H2, repeat_length.
Qed.

Lemma icmp_ip_length frame ip psize oip frame' :
  icmp_ip frame ip psize oip = Ret frame' -> length frame' = length frame.
Proof. unfold icmp_ip. intros H. run_inv. olen. congruence. Qed.

Lemma icmp_frame_faults needfrag p mac mtu f : icmp_frame needfrag p mac mtu <> Ret f.
Proof.
  intros H. unfold icmp_frame in H. orun H as [[frame ip] psize] H1. orun H as oip H2. orun H as f1 H3.
  orun H as q H4. orun H as f2 H5. orun H as f3 H6. orun H as c H7.
  unfold in_cksum in H7. orun H7 as bs H8. apply mget_Ret_inv in H8 as [Hb _].
  apply icmp_link_length in H1. apply icmp_ip_length in H3. olen. unfold IP_HDR_SIZE in Hb. lia.
Qed.

Lemma frag_needed_faults needfrag pkt w r w' : send_icmp_frag_needed needfrag pkt w = Ret (r, w') -> False.
Proof.
  intros H. unfold send_icmp_frag_needed in H. srun H as p w1 H1. srun H as i w2 H2. srun H as f w3 H3.
  apply slift_Ret_inv in H3 as [H3 _]. by apply icmp_frame_faults in H3.
Qed.

(** * The properties *)

(** C40: the message of [send_icmp_frag_needed] cannot be built.  Its checksum is
    computed over as many bytes as the whole frame, from the ICMP header on: for
    every packet that the reception accepted, and the library's message of eight
    bytes before the quoted ones, the function reads past the end of its frame
    and sends nothing. *)
Theorem frag_needed_overreads needfrag pkt w p i ifc tgt packet :
  (forall mtu quoted, length (needfrag mtu quoted) = (8 + length quoted)%nat) ->
  w_pkts w !! pkt = Some p -> pkt_wf i tgt packet p -> (46 <= length packet)%nat ->
  w_ifaces w !! i = Some ifc -> length (if_mac ifc) = 6%nat ->
  send_icmp_frag_needed needfrag pkt w = Fault OutOfBounds.
Proof.
  intros Hn Hp Hwf Hlen Hi Hm.
  destruct (wf_header _ _ _ _ Hwf) as (ihl & tot & proto & _ & Hihl & _ & _ & _ & Hoh & _).
  assert (Hf : p_ip (pt_packet p) = 18%nat /\ (p_eth (pt_packet p) <= 4)%nat /\
    (length packet <= length (FRAME (pt_packet p)))%nat).
  { destruct (wf_layout _ _ _ _ Hwf) as [(-> & -> & -> & _)|(-> & -> & -> & _)]; rewrite ?length_app; lia. }
  destruct Hf as (Hip & Heth & Hfl).
  unfold send_icmp_frag_needed. rewrite (sbind_eq _ _ w p w) by (by apply deref_ok). rewrite (wf_in _ _ _ _ Hwf).
  rewrite (sbind_eq _ _ w ifc w) by (by apply deref_ok). unfold sbind at 1, slift at 1.
  erewrite icmp_frame_overreads; [done|exact Hn|lia|lia|exact Hm|exact Hoh|].
  unfold sub. rewrite length_take, length_drop. lia.
Qed.

(** [udp_checksum] does not cover the first four bytes of the payload: two
    datagrams that differ only there get the same checksum. *)
Lemma udp_checksum_skips f ip bs :
  (ip + UDP_PACKET_PAYLOAD <= length f)%nat -> length bs = 4%nat ->
  udp_checksum (upd f (ip + 28) bs) ip = udp_checksum f ip.
Proof.
  intros Hf Hb. unfold UDP_PACKET_PAYLOAD in Hf.
  assert (Hg : forall off n, (off + n <= ip + 28)%nat \/ (ip + 32 <= off)%nat -> mget (upd f (ip + 28) bs) off n = mget f off n).
  { intros off n Hd. unfold mget. rewrite length_upd by lia. case_decide; [|done]. f_equal.
    apply sub_upd_disjoint; lia. }
  assert (Hh : hdrdata_size (upd f (ip + 28) bs) ip = hdrdata_size f ip).
  { unfold hdrdata_size, ip_tot_len, ip_ihl, ld16, ld8. by rewrite !Hg by lia. }
  unfold udp_checksum, IP_HDR_SIZE, UDP_HDR_LEN, UDP_PACKET_PAYLOAD. rewrite Hh.
  destruct (hdrdata_size f ip); [|done]. cbn [obind]. by rewrite !Hg by lia.
Qed.

Lemma udp_checksum_skips_witness :
  udp_checksum (upd (repeat 0 60) 28 [1; 2; 3; 4]) 0 = udp_checksum (repeat 0 60) 0.
Proof. apply (udp_checksum_skips (repeat 0 60) 0 [1; 2; 3; 4]); [vm_compute; lia|reflexivity]. Defined.

(** The SYN of the attacker, as it was received, and a library. *)
Definition needfrag_sample (mtu : Z) (quoted : list Z) : list Z := [3; 4; 0; 0; 0; 0; 5; 220] ++ quoted.
Definition world_received : world := state_after (process_packet 1 80 syn_frame) world0.

Lemma frag_needed_overreads_witness : send_icmp_frag_needed needfrag_sample 100 world_received = Fault OutOfBounds.
Proof.
  assert (Hby : bytes syn_frame) by solve_bytes.
  destruct (process_packet_spec 1 iface_up 80 syn_frame world0 OK (Some 100%positive) world_received Hby eq_refl
    ltac:(vm_compute; reflexivity)) as (_ & _ & p & Hw & Hwf).
  apply (frag_needed_overreads needfrag_sample 100 world_received p 1 iface_up (if_target iface_up) syn_frame).
  - reflexivity.
  - rewrite Hw. apply lookup_insert_eq.
  - exact Hwf.
  - vm_compute. lia.
  - vm_compute. reflexivity.
  - reflexivity.
Defined.
