(* ===== verification/Engine.v ===== *)
(** The packet threads ([honeybrid.c]): [pcap_cb] classifies a captured frame
    and queues it, [de_thread] takes the frames of a queue and drives the
    connections and their packets through everything else.

    A run of the gateway is a sequence of atomic steps ([step]): a frame is
    captured, a decision thread handles the head of its queue, or a round of
    [clean] runs.  An iteration of [de_thread] holds the lock of its
    connection throughout, so that two iterations interleave only on distinct
    connections; the finer interleavings on the trees are not modelled. *)
From S2P Require Import Prelude Mem Types World Samples Keys Checksum TcpOptions Packet Netcode.
From S2P Require Import Connections ConnTrees Redirect DecisionEngine DecisionTrees Icmp.

(** * Captured frames *)

(** [struct raw_pcap]: the frame, its length on the wire, and whether it is the
    message that stops the thread. *)
Record raw_pcap := RawPcap {
  rw_iface : ptr;
  rw_len : Z;
  rw_packet : list Z;
  rw_last : bool;
}.

(** [pcap_cb]: ARP requests are answered at once, IPv4 frames (in a VLAN only
    from inside) are queued, everything else is dropped.  The result is the
    queue and what is pushed on it. *)
Definition pcap_cb (decision_threads : Z) (iface : ptr) (len : Z) (packet : list Z) : M (option (Z * raw_pcap)) :=
  do ty <- slift (eth_type packet 0);
  let ethertype := ntohs ty in
  do i <- get_iface (Some iface);
  do ip <-
    (if ethertype =? ETHERTYPE_ARP then do_ send_arp_reply ethertype iface packet; sret None
     else if ethertype =? ETHERTYPE_IP then sret (Some ETHER_HDR_LEN)
     else if ethertype =? ETHERTYPE_VLAN then
       match if_target i with
       | Some _ => sret None
       | None =>
         do encap <- slift (ld16 packet 16);
         if ntohs encap =? ETHERTYPE_ARP then do_ send_arp_reply ethertype iface packet; sret None
         else sret (if ntohs encap =? ETHERTYPE_IP then Some VLAN_ETH_HLEN else None)
       end
     else sret None);
  match ip with
  | None => sret None
  | Some ip =>
    do q <- slift (IP2QUEUEID (bool_decide (is_Some (if_target i))) packet ip decision_threads);
    sret (Some (q, RawPcap iface len packet false))
  end.

(** * One iteration of [de_thread] *)

Section Thread.
Context `{ModuleRunner} (needfrag : Z -> list Z -> list Z).

(** [pkt->packet.ip->protocol == IPPROTO_TCP]. *)
Definition is_tcp (pkt : ptr) : M bool :=
  do p <- get_pkt pkt;
  do protocol <- slift (ip_protocol (FRAME (pt_packet p)) (p_ip (pt_packet p)));
  sret (protocol =? IPPROTO_TCP).

(** The same, and the SYN flag is set. *)
Definition is_tcp_syn (pkt : ptr) : M bool :=
  do tcp <- is_tcp pkt;
  if tcp : bool then
    do p <- get_pkt pkt;
    slift (tcp_syn (FRAME (pt_packet p)) (p_l4 (pt_packet p)))
  else sret false.

Definition tcp_seq_of (pkt : ptr) : M Z :=
  do p <- get_pkt pkt;
  do seq <- slift (ld32 (FRAME (pt_packet p)) (p_l4 (pt_packet p) + 4));
  sret (ntohl seq).

(** Packets are only stored when there are backends. *)
Definition store_or_free (conn pkt : ptr) : M unit :=
  do c <- get_conn conn;
  do t <- get_target (cn_target c);
  if (0 <? tg_back_handler_count t) || bool_decide (tg_back_picker t <> None) then
    do _st <- store_pkt conn pkt; sret tt
  else free_pkt pkt.

(** The sequence number of the LIH's SYN is remembered. *)
Definition note_syn (conn pkt : ptr) : M unit :=
  do syn <- is_tcp_syn pkt;
  if syn : bool then
    do seq <- tcp_seq_of pkt;
    upd_conn conn (fun c => c <| cn_hih ::= fun h => h <| hih_lih_syn_seq := seq |> |>)
  else sret tt.

(** The difference with the sequence number of the HIH's. *)
Definition note_delta (conn pkt : ptr) : M unit :=
  do syn <- is_tcp_syn pkt;
  if syn : bool then
    do seq <- tcp_seq_of pkt;
    upd_conn conn (fun c => c <| cn_hih ::=
      fun h => h <| hih_delta := u32 (Z.lnot seq + 1 + hih_lih_syn_seq h) |> |>)
  else sret tt.

(** A packet of the low-interaction honeypot. *)
Definition de_lih (conn pkt : ptr) (microtime : Z) : M unit :=
  do c <- get_conn conn;
  match cn_state c with
  | INIT | DECISION =>
    do_ note_syn conn pkt;
    do _st <- proxy_int2ext pkt;
    store_or_free conn pkt
  | PROXY =>
    do _st <- proxy_int2ext pkt;
    free_pkt pkt
  | CONTROL =>
    do_ note_syn conn pkt;
    do st <- DE_process_packet pkt microtime;
    do_ (if decide (st = OK) then do _st <- proxy_int2ext pkt; sret tt else sret tt);
    store_or_free conn pkt
  | _ =>
    do tcp <- is_tcp pkt;
    do_ (if tcp : bool then
           do t <- get_target (cn_target c);
           do fh <- get_handler (tg_front_handler t);
           reply_reset (Some pkt) (hd_iface fh)
         else sret tt);
    free_pkt pkt
  end.

(** A packet of a high-interaction honeypot. *)
Definition de_hih (conn pkt : ptr) (microtime : Z) : M unit :=
  do c <- get_conn conn;
  match cn_state c with
  | REPLAY =>
    do_ note_delta conn pkt;
    do _st <- replay conn pkt;
    free_pkt pkt
  | FORWARD =>
    do _st <- forward_hih2ext pkt;
    free_pkt pkt
  | PROXY =>
    match cn_destination c with
    | EXT => do _st <- proxy_int2ext pkt; free_pkt pkt
    | INTRA => do _st <- proxy_hih2intra pkt; free_pkt pkt
    | _ => sret tt
    end
  | CONTROL =>
    do st <- DE_process_packet pkt microtime;
    do_ (if decide (st = OK) then do _st <- proxy_int2ext pkt; sret tt else sret tt);
    free_pkt pkt
  | _ =>
    do deny <- sgets deny_hih_init;
    if deny =? 1 then
      do tcp <- is_tcp pkt;
      do_ (if tcp : bool then
             do bh <- get_handler (hih_back_handler (cn_hih c));
             reply_reset (Some pkt) (hd_iface bh)
           else sret tt);
      do _st <- switch_state conn DROP;
      free_pkt pkt
    else
      do _st <- switch_state conn CONTROL;
      do st <- DE_process_packet pkt microtime;
      do_ (if decide (st = OK) then
             do c <- get_conn conn;
             match cn_destination c with
             | EXT => do _st <- proxy_int2ext pkt; sret tt
             | INTRA => do _st <- proxy_hih2intra pkt; sret tt
             | _ => sret tt
             end
           else sret tt);
      free_pkt pkt
  end.

Definition de_intra (conn pkt : ptr) : M unit :=
  do c <- get_conn conn;
  match cn_state c with
  | PROXY => do _st <- proxy_intra2hih pkt; free_pkt pkt
  | _ => free_pkt pkt
  end.

(** A packet of the attacker (and any other origin). *)
Definition de_ext (conn pkt : ptr) (microtime : Z) : M unit :=
  do c <- get_conn conn;
  match cn_state c with
  | INIT | DECISION =>
    do st <- DE_process_packet pkt microtime;
    do_ (if decide (st = OK) then do _st <- proxy_ext2int pkt; sret tt else sret tt);
    store_or_free conn pkt
  | FORWARD => do _st <- forward_ext2hih pkt; free_pkt pkt
  | PROXY | CONTROL => do _st <- proxy_ext2int pkt; free_pkt pkt
  | _ => free_pkt pkt
  end.

(** The connection of the packet is invalid or dropped: an attacker gets a
    reset when the configuration says so. *)
Definition refuse (conn pkt : ptr) : M unit :=
  do p <- get_pkt pkt;
  do_ (if decide (pt_origin p = EXT) then
         do tcp <- is_tcp pkt;
         do reset <- sgets reset_ext;
         if tcp && (reset =? 1) then
           do c <- get_conn conn;
           do t <- get_target (cn_target c);
           reply_reset (Some pkt) (tg_default_route t)
         else sret tt
       else sret tt);
  free_pkt pkt.

Definition dispatch (conn pkt : ptr) (microtime : Z) : M unit :=
  do p <- get_pkt pkt;
  do c <- get_conn conn;
  if bool_decide (cn_state c = INVALID) && bool_decide (pt_origin p = EXT) then refuse conn pkt
  else if decide (cn_state c = DROP) then refuse conn pkt
  else
    match pt_origin p with
    | LIH => de_lih conn pkt microtime
    | HIH => de_hih conn pkt microtime
    | INTRA => de_intra conn pkt
    | EXT | INT => de_ext conn pkt microtime
    end.

Definition unlock (conn : ptr) : M unit := upd_conn conn (fun c => c <| cn_lock := false |>).

(** Whether the packet is for the gateway. *)
Definition accepted (pkt : ptr) : M bool :=
  do p <- get_pkt pkt;
  if pt_broadcast p then sgets broadcast_allowed
  else
    do dhost <- slift (mget (FRAME (pt_packet p)) (p_eth (pt_packet p)) ETH_ALEN);
    do i <- get_iface (pt_in p);
    sret (bool_decide (dhost = if_mac i)).

(** The packet structure built by [process_packet] goes through the checks, its
    connection is found or created, and locked until the end. *)
Definition de_packet (pkt : ptr) (microtime : Z) : M unit :=
  do p <- get_pkt pkt;
  if pt_fragmented p then
    do_ send_icmp_frag_needed needfrag pkt;
    free_pkt pkt
  else
    do ok <- accepted pkt;
    if negb ok then free_pkt pkt
    else
      do found <- init_conn pkt microtime;
      match found with
      | None => free_pkt pkt
      | Some conn => do_ dispatch conn pkt microtime; unlock conn
      end.

(** One iteration: [false] when the thread stops. *)
Definition de_iteration (raw : raw_pcap) (microtime : Z) : M bool :=
  if rw_last raw then sret false
  else
    do '(st, pkt) <- process_packet (rw_iface raw) (rw_len raw) (rw_packet raw);
    do_ (match st, pkt with
         | OK, Some pkt => de_packet pkt microtime
         | _, _ => sret tt
         end);
    sret true.

(** The whole thread on the frames of its queue, with the time of each. *)
Fixpoint de_thread (queue : list (raw_pcap * Z)) : M unit :=
  match queue with
  | [] => sret tt
  | (raw, microtime) :: queue =>
    do go <- de_iteration raw microtime;
    if go : bool then de_thread queue else sret tt
  end.
End Thread.
