(* ===== verification/Births.v ===== *)
(** New connections: what [create_conn] returns is locked, in the first state of
    the side that opened it, and attached to its packet, whose origin it
    records; nothing else among the packets and the rules changes. *)
From S2P Require Import Prelude Mem Types World Samples Keys Checksum TcpOptions Packet Netcode.
From S2P Require Import Connections ConnTrees.

(** A component of the world that a computation leaves alone. *)
Definition same {T} (f : world -> T) (w w' : world) : Prop := f w' = f w.
#[export] Instance same_refl {T} (f : world -> T) : Reflexive (same f).
Proof. by intros w. Qed.
#[export] Instance same_trans {T} (f : world -> T) : Transitive (same f).
Proof. unfold same. intros w1 w2 w3 H1 H2. congruence. Qed.

Ltac same_tac :=
  repeat first
    [ apply keeps_smodify; intros ?; reflexivity
    | apply keeps_free_in; intros ?; reflexivity
    | keeps_step ].

Lemma quietly_same_nodes {A} (m : M A) : quietly m -> keeps (same w_nodes) m.
Proof. apply keeps_weaken. by intros w w' []. Qed.

(** A connection that was just created, by who opened it. *)
Definition born (c : conn_struct) : Prop :=
  cn_lock c = true /\ hih_redirected_int_key (cn_hih c) = None /\
  match cn_initiator c with
  | EXT | HIH => cn_state c = INIT
  | LIH => cn_state c = CONTROL
  | INTRA => cn_state c = PROXY
  | INT => False
  end.

(** What a creation starts from. *)
Definition unborn (c : conn_struct) : Prop := cn_lock c = true /\ hih_redirected_int_key (cn_hih c) = None.

(** What the search of an address leaves of a connection. *)
Definition like (c c' : conn_struct) : Prop :=
  cn_lock c' = cn_lock c /\ cn_hih c' = cn_hih c /\ cn_initiator c' = cn_initiator c /\ cn_state c' = cn_state c.

Lemma born_like c c' : born c -> like c c' -> born c'.
Proof. intros (H1 & H2 & H3) (E1 & E2 & E3 & E4). unfold born. by rewrite E1, E2, E3, E4. Qed.

Lemma snat_like t pk tg c w ip c' w' : snat_address t pk tg c w = Ret ((ip, c'), w') -> like c c'.
Proof. intros H. unfold snat_address in H. srun H as k w1 H1. srun H as pin w2 H2. destruct pin; run_inv; done. Qed.

Lemma intra_pin_like c h w c' w' : intra_pin c h w = Ret (Some c', w') -> like c c'.
Proof.
  intros H. unfold intra_pin in H. srun H as iip w1 H1. srun H as k w2 H2. srun H as wx w3 H3.
  srun H as pin w4 H4. destruct pin; [|run_inv; done].
  srun H as v w5 H5. destruct (negb _); run_inv; done.
Qed.

Lemma outgoing_like conn c vid ip w r c' w' : create_outgoing conn c vid ip w = Ret ((r, c'), w') -> like c c'.
Proof. intros H. unfold create_outgoing in H. run_inv. done. Qed.

Lemma born_ext conn c t w r c' w' : unborn c -> cn_initiator c = EXT ->
  create_conn_ext conn c t w = Ret ((r, c'), w') -> born c' /\ cn_initiator c' = EXT.
Proof.
  intros [H1 H2] Hi H. unfold create_conn_ext in H. run_inv. unfold born. simpl. by rewrite Hi.
Qed.

Lemma born_lih conn pkt c t w c' w' : unborn c -> cn_initiator c = LIH ->
  create_conn_lih conn pkt c t w = Ret ((OK, c'), w') -> born c' /\ cn_initiator c' = LIH.
Proof.
  intros [H1 H2] Hi H. unfold create_conn_lih in H. srun H as [ih|] w0 Hi0; [done|].
  srun H as s w1 Hs. destruct (hs_found s); [done|]. srun H as fh w2 Hf. srun H as fip w3 Hg. srun H as wx w4 Hw.
  srun H as [ip cs] w5 Hsn. apply snat_like in Hsn as (E1 & E2 & E3 & E4). apply outgoing_like in H as (F1 & F2 & F3 & F4).
  unfold born. rewrite F1, F2, F3, F4, E1, E2, E3, E4. simpl. by rewrite Hi.
Qed.

Lemma hih_ext_like conn c t bh w r c' w' : create_hih_ext conn c t bh w = Ret ((r, c'), w') -> like c c'.
Proof.
  intros H. unfold create_hih_ext in H. srun H as wx w1 H1. srun H as hip w2 H2. srun H as [ip cs] w3 H3.
  apply outgoing_like in H as (F1 & F2 & F3 & F4). unfold like. rewrite F1, F2, F3, F4.
  destruct (_ =? 1).
  - by apply snat_like in H3.
  - srun H3 as fh w4 H4. srun H3 as fip w5 H5. by apply snat_like in H3.
Qed.

Lemma hih_intra_like conn c bh ih w r c' w' : create_hih_intra conn c bh ih w = Ret ((r, c'), w') -> like c c'.
Proof.
  intros H. unfold create_hih_intra in H. srun H as h w1 H1. srun H as pinned w2 H2.
  destruct pinned as [cs|]; [|injection H as _ <- _; done].
  assert (Hl : like c cs).
  { destruct (hd_exclusive h =? 0); [by injection H2 as <- _|]. by apply intra_pin_like in H2. }
  destruct Hl as (E1 & E2 & E3 & E4). run_inv. unfold like. simpl. by rewrite E1, E2, E3, E4.
Qed.

Lemma born_hih conn pkt c t s w c' w' : unborn c -> cn_initiator c = HIH ->
  create_conn_hih conn pkt c t s w = Ret ((OK, c'), w') -> born c' /\ cn_initiator c' = HIH.
Proof.
  intros [H1 H2] Hi H. unfold create_conn_hih in H. srun H as bha w1 Hb. srun H as bh w2 Hh.
  srun H as intra w2' Hin. srun H as d w3 Hd.
  lazymatch type of H with context [match cn_intra_handler ?c0 with _ => _ end] => set (c1 := c0) in * end.
  assert (Hb1 : born c1 /\ cn_initiator c1 = HIH).
  { unfold born. subst c1. simpl. rewrite Hi. done. }
  assert (Hl : forall c2 c3, like c2 c3 -> c2 = c1 -> born c3 /\ cn_initiator c3 = HIH).
  { intros c2 c3 Hl ->. split; [by eapply born_like; [apply Hb1|]|]. destruct Hl as (_ & _ & -> & _). apply Hb1. }
  destruct d as [| |r|].
  - destruct (cn_intra_handler c1) as [ih|]; [|done]. apply hih_intra_like in H. by eapply Hl.
  - injection H as <- _. split; [eapply born_like; [apply Hb1|done]|apply Hb1].
  - done.
  - apply hih_ext_like in H. by eapply Hl.
Qed.

Lemma born_intra conn pkt c t s w c' w' : unborn c -> cn_initiator c = INTRA ->
  create_conn_intra conn pkt c t s w = Ret ((OK, c'), w') -> born c' /\ cn_initiator c' = INTRA.
Proof.
  intros [H1 H2] Hi H. unfold create_conn_intra in H. srun H as [ih|] w0 Hi0; [done|].
  srun H as fh w1 Hf. srun H as fip w2 Hg. destruct (_ =? _); [done|].
  srun H as hs w3 Hh. destruct (hs_found hs); [|done]. run_inv. case_match; run_inv.
  unfold born. simpl. by rewrite Hi.
Qed.

(** The creations leave the packets and the rules alone. *)
Definition creation (conn pkt : ptr) (c : conn_struct) (t : target) (s : target_search) (r : role_t) :
    M (status_t * conn_struct) :=
  match r with
  | EXT => create_conn_ext conn c t
  | LIH => create_conn_lih conn pkt c t
  | HIH => create_conn_hih conn pkt c t (ts_hih s)
  | INTRA => create_conn_intra conn pkt c t s
  | INT => sret (NOK, c)
  end.

Ltac creation_tac :=
  unfold creation, create_conn_ext, create_conn_lih, create_conn_hih, create_conn_intra, create_outgoing,
    create_hih_ext, create_hih_intra, hih_destination_of, snat_address, intra_pin, insert_ext, insert_int, insert_intra,
    find_hih_dst, find_pin, new_pin_key, incr_pin, upd_pin, free_pin_key, put_pin, put_pin_key, malloc,
    get_handler, get_pin, get_pin_key, get_iface, get_pkt;
  repeat first [ by intros ? ? ? [= <- <-] | progress same_tac ].

Lemma creation_pkts conn pkt c t s r : keeps (same w_pkts) (creation conn pkt c t s r).
Proof. destruct r; creation_tac. Qed.
Lemma creation_nodes conn pkt c t s r : keeps (same w_nodes) (creation conn pkt c t s r).
Proof. destruct r; creation_tac. Qed.

Lemma creation_born conn pkt c t s w c' w' : unborn c ->
  creation conn pkt c t s (cn_initiator c) w = Ret ((OK, c'), w') -> born c' /\ cn_initiator c' = cn_initiator c.
Proof.
  intros Hu. unfold creation. destruct (cn_initiator c) eqn:E;
    [by apply born_ext|done|by apply born_lih|by apply born_hih|by apply born_intra].
Qed.

Lemma conn_init_unborn p ta id mt c : conn_init p ta id mt = Ret c -> unborn c /\ cn_initiator c = pt_origin p.
Proof. intros H. unfold conn_init in H. run_inv. done. Qed.

(** A connection [create_conn] returns is new, and its packet comes from the
    side that opened it. *)
Lemma create_conn_born pkt mt w a w' : create_conn pkt mt w = Ret (Some a, w') ->
  exists c p, (w_next w <= a)%positive /\ w_conns w' !! a = Some c /\ born c /\
    w_pkts w' !! pkt = Some p /\ pt_conn p = Some a /\ pt_origin p = cn_initiator c.
Proof.
  intros H. unfold create_conn in H. srun H as p w1 H1. apply get_pkt_inv in H1 as [_ ->].
  srun H as proto w2 H2. apply slift_Ret_inv in H2 as [_ ->]. srun H as no_syn w3 H3.
  assert (w3 = w) as -> by (destruct (proto =? IPPROTO_TCP); run_inv; done).
  destruct no_syn; [done|]. srun H as [ta s] w4 H4. apply (quiet_select_target pkt p), q_next in H4.
  destruct ta as [ta|]; [|done].
  srun H as conn w5 H5. injection H5 as Hcn <-. srun H as p' w6 H6. apply get_pkt_inv in H6 as [Hp ->].
  srun H as t w6 H7. unfold get_target in H7. apply deref_Ret_inv in H7 as (_ & _ & _ & ->).
  srun H as u w8 H8. injection H8 as _ <-. srun H as wx w9 H9. injection H9 as _ <-.
  srun H as c w10 H10. apply slift_Ret_inv in H10 as [Hc ->]. apply conn_init_unborn in Hc as [Hu Hi].
  srun H as [r c'] w11 H11. rewrite <- Hi in H11. fold (creation conn pkt c t s (cn_initiator c)) in H11.
  pose proof (creation_pkts _ _ _ _ _ _ _ _ _ H11) as Hpk. unfold same in Hpk. simpl in Hpk.
  srun H as v w12 H12. injection H12 as _ <-. destruct r; srun H as v' w13 H13; [done|].
  apply creation_born in H11 as [Hb Hi']; [|done]. injection H as <- <-.
  unfold upd_pkt in H13. srun H13 as p2 w14 H14. apply get_pkt_inv in H14 as [Hp2 ->]. injection H13 as _ <-.
  simpl in Hp, Hp2. rewrite Hpk in Hp2. assert (p2 = p') as -> by congruence.
  eexists c', _. simpl. rewrite !lookup_insert_eq. split; [lia|]. split; [done|]. split; [done|]. split; [done|]. simpl.
  split; [done|congruence].
Qed.

Lemma create_conn_nodes pkt mt w res w' : create_conn pkt mt w = Ret (res, w') -> w_nodes w' = w_nodes w.
Proof.
  intros H. unfold create_conn in H. srun H as p w1 H1. apply get_pkt_inv in H1 as [_ ->].
  srun H as proto w1 H1. apply slift_Ret_inv in H1 as [_ ->]. srun H as no_syn w1 H1.
  assert (w1 = w) as -> by (destruct (proto =? IPPROTO_TCP); run_inv; done).
  destruct no_syn; [by injection H as _ <-|]. srun H as [ta s] w2 H2. apply (quiet_select_target pkt p) in H2.
  rewrite <- (q_nodes _ _ H2). destruct ta as [ta|]; [|by injection H as _ <-].
  srun H as conn w3 H3. injection H3 as _ <-. srun H as p' w4 H4. apply get_pkt_inv in H4 as [_ ->].
  srun H as t w4 H4. unfold get_target in H4. apply deref_Ret_inv in H4 as (_ & _ & _ & ->).
  srun H as u w4 H4. injection H4 as _ <-. srun H as wx w5 H5. injection H5 as _ <-. srun H as c w5 H5.
  apply slift_Ret_inv in H5 as [_ ->]. srun H as [r c'] w5 H5.
  fold (creation conn pkt c t s (pt_origin p')) in H5. apply creation_nodes in H5. unfold same in H5. simpl in H5.
  rewrite <- H5. srun H as v w6 H6. injection H6 as _ <-. destruct r; srun H as v' w7 H7; injection H as _ <-.
  - apply free_conn_effect in H7 as (w8 & Hq & ->). apply q_nodes in Hq. exact Hq.
  - apply quiet_upd_pkt in H7. apply q_nodes in H7. exact H7.
Qed.

Definition grows (w w' : world) : Prop := (w_next w <= w_next w')%positive.
#[export] Instance grows_refl : Reflexive grows.
Proof. intros w. unfold grows. lia. Qed.
#[export] Instance grows_trans : Transitive grows.
Proof. unfold grows. intros w1 w2 w3. lia. Qed.

Lemma create_conn_next pkt mt w res w' : create_conn pkt mt w = Ret (res, w') -> grows w w'.
Proof.
  intros H. unfold create_conn in H. srun H as p w1 H1. apply get_pkt_inv in H1 as [_ ->].
  srun H as proto w1 H1. apply slift_Ret_inv in H1 as [_ ->]. srun H as no_syn w1 H1.
  assert (w1 = w) as -> by (destruct (proto =? IPPROTO_TCP); run_inv; done).
  destruct no_syn; [by injection H as _ <-|]. srun H as [ta s] w2 H2. apply (quiet_select_target pkt p) in H2.
  assert (grows w w2) by apply H2. destruct ta as [ta|]; [|by injection H as _ <-]. etrans; [done|].
  srun H as conn w3 H3. injection H3 as _ <-. srun H as p' w4 H4. apply get_pkt_inv in H4 as [_ ->].
  srun H as t w4 H4. unfold get_target in H4. apply deref_Ret_inv in H4 as (_ & _ & _ & ->).
  srun H as u w4 H4. injection H4 as _ <-. srun H as wx w5 H5. injection H5 as _ <-. srun H as c w5 H5.
  apply slift_Ret_inv in H5 as [Hc ->]. apply conn_init_origin in Hc. srun H as [r c'] w5 H5.
  destruct (files_dispatch _ _ p' _ _ _ Hc _ _ _ _ H5) as [Hfil _].
  assert (Hg : grows w2 w5).
  { unfold grows. destruct Hfil as [Hq|? ? ? ? Hq Hi Hq'|? ? ? ? Hq Hi Hq'|? ? ? ? Hq Hi Hq'];
      [apply q_next in Hq; simpl in Hq; lia|..]; injection Hi as <-; apply q_next in Hq, Hq'; simpl in *; lia. }
  etrans; [exact Hg|]. unfold grows. srun H as v w6 H6. injection H6 as _ <-. destruct r; srun H as v' w7 H7; injection H as _ <-.
  - apply free_conn_effect in H7 as (w8 & Hq & ->). apply q_next in Hq. exact Hq.
  - apply quiet_upd_pkt in H7. apply q_next in H7. exact H7.
Qed.
