(* ===== verification/EngineOk.v ===== *)
(** The invariant of the packet threads: whatever frames arrive, the trees stay
    sound, the states of the connections only advance, and each iteration of
    [de_thread] releases the lock it took. *)
From S2P Require Import Prelude Mem Types World Samples Keys Checksum TcpOptions Packet Netcode.
From S2P Require Import Connections ConnTrees Redirect DecisionEngine DecisionTrees Icmp Engine Births.

(** * How connections age *)

(** The states only advance: a connection that left the LIH, was given back to
    it or was dropped never comes back to a decision. *)
Definition advances (s s' : conn_status_t) : bool :=
  match s with
  | INVALID => bool_decide (s' ∈ [INVALID; CONTROL; PROXY; DROP])
  | INIT => bool_decide (s' <> INVALID)
  | DECISION => bool_decide (s' ∉ [INVALID; INIT])
  | REPLAY => bool_decide (s' ∈ [REPLAY; FORWARD])
  | CONTROL => bool_decide (s' ∈ [CONTROL; PROXY; DROP])
  | FORWARD | PROXY | DROP => bool_decide (s' = s)
  end.

Lemma advances_refl s : advances s s = true.
Proof. by destruct s. Qed.
Lemma advances_trans s1 s2 s3 : advances s1 s2 = true -> advances s2 s3 = true -> advances s1 s3 = true.
Proof. by destruct s1, s2, s3. Qed.

(** A connection waiting for a decision was opened from outside and is not
    redirected; while it is locked, one in [INIT] may also be that of a HIH
    about to be controlled. *)
Definition phase_ok (c : conn_struct) : Prop :=
  match cn_state c with
  | INIT => hih_redirected_int_key (cn_hih c) = None /\
            (cn_initiator c = EXT \/ (cn_initiator c = HIH /\ cn_lock c = true))
  | DECISION => hih_redirected_int_key (cn_hih c) = None /\ cn_initiator c = EXT
  | _ => True
  end.

Definition ages (c c' : conn_struct) : Prop :=
  cn_lock c' = cn_lock c /\ cn_initiator c' = cn_initiator c /\
  advances (cn_state c) (cn_state c') = true /\ (phase_ok c -> phase_ok c').
#[export] Instance ages_refl : Reflexive ages.
Proof. intros c. repeat split; auto using advances_refl. Qed.
#[export] Instance ages_trans : Transitive ages.
Proof.
  intros c1 c2 c3 (L1 & I1 & A1 & P1) (L2 & I2 & A2 & P2). repeat split; try congruence; [|auto].
  by eapply advances_trans.
Qed.

Record ok_world (w : world) : Prop := {
  ow_trees : trees_ok w;
  ow_rules : confined_rules w;
  ow_phase : forall a c, w_conns w !! a = Some c -> phase_ok c;
}.

(** What every part of an iteration does to the connections it does not
    create. *)
Record evolves (w w' : world) : Prop := {
  ev_ok : ok_world w -> ok_world w';
  ev_ages : forall a c, w_conns w !! a = Some c -> exists c', w_conns w' !! a = Some c' /\ ages c c';
  ev_back : forall a, w_conns w !! a = None -> w_conns w' !! a = None;
  ev_next : (w_next w <= w_next w')%positive;
}.
#[export] Instance evolves_refl : Reflexive evolves.
Proof. intros w. split; try done. intros a c Ha. by exists c. Qed.
#[export] Instance evolves_trans : Transitive evolves.
Proof.
  intros w1 w2 w3 [O1 H1 B1 N1] [O2 H2 B2 N2]. split; [auto| |auto|lia]. intros a c Ha.
  destruct (H1 a c Ha) as (c' & Hc' & A1). destruct (H2 a c' Hc') as (c'' & ? & A2). exists c''. split; [done|by etrans].
Qed.

Lemma tracks_evolves w w' : tracks w w' ->
  (forall a c, w_conns w !! a = Some c -> exists c', w_conns w' !! a = Some c' /\ ages c c') -> evolves w w'.
Proof.
  intros Ht Ha. split; [|done|apply Ht|apply Ht]. intros [Hok Hr Hp]. split.
  - by eapply trees_ok_tracks.
  - intros a n f. rewrite (tr_nodes _ _ Ht). apply Hr.
  - intros a c' Hc'. destruct (w_conns w !! a) as [c|] eqn:E; [|by rewrite (tr_back _ _ Ht _ E) in Hc'].
    destruct (Ha _ _ E) as (c'' & E' & _ & _ & _ & Hage). assert (c'' = c') as -> by congruence. eauto.
Qed.

Lemma kept_ages c c' : kept c c' -> cn_state c' = cn_state c -> ages c c'.
Proof.
  intros ((Ei & _ & _ & _ & _ & Er) & _ & _ & El & _) Es. unfold ages, phase_ok.
  rewrite Ei, Er, El, Es. repeat split; auto using advances_refl.
Qed.

Lemma steady_evolves w w' : steady w w' -> evolves w w'.
Proof.
  intros [Ht Hk]. apply tracks_evolves; [done|]. intros a c Ha. destruct (Hk _ _ Ha) as (c' & Hc' & Hk' & Es).
  exists c'. split; [done|by apply kept_ages].
Qed.
Lemma quiet_evolves w w' : quiet w w' -> evolves w w'.
Proof. intros Hq. by apply steady_evolves, quiet_steady. Qed.

Lemma put_conn_evolves a c c' w u w' :
  w_conns w !! a = Some c -> same_id c c' -> ages c c' -> put_conn a c' w = Ret (u, w') -> evolves w w'.
Proof.
  intros Ha Hs Hage H. apply tracks_evolves; [by eapply tracks_put_conn|]. injection H as _ <-.
  intros b cb Hb. simpl. destruct (decide (a = b)) as [<-|].
  - exists c'. rewrite lookup_insert_eq. split; [done|congruence].
  - exists cb. by rewrite lookup_insert_ne.
Qed.

(** [switch_state] on a connection that may take the step. *)
Lemma switch_evolves conn s c w r w' :
  w_conns w !! conn = Some c -> advances (cn_state c) s = true ->
  (phase_ok c -> phase_ok (c <| cn_state := s |>)) -> switch_state conn s w = Ret (r, w') ->
  evolves w w' /\ exists c', w_conns w' !! conn = Some c' /\ cn_state c' = s /\ cn_initiator c' = cn_initiator c.
Proof.
  intros Ha Hadv Hp H. apply switch_state_spec in H as (_ & Ht & c0 & E & Hc & _).
  assert (c0 = c) as -> by congruence. split; [|exists (c <| cn_state := s |>); rewrite Hc, lookup_insert_eq; done].
  apply tracks_evolves; [done|]. intros b cb Hb. rewrite Hc. destruct (decide (conn = b)) as [<-|].
  - eexists. rewrite lookup_insert_eq. split; [done|]. assert (cb = c) as -> by congruence. done.
  - exists cb. by rewrite lookup_insert_ne.
Qed.

Definition waiting (s : conn_status_t) : bool := match s with INIT | DECISION => true | _ => false end.

Lemma phase_switch c s : waiting s = false -> phase_ok c -> phase_ok (c <| cn_state := s |>).
Proof. intros Hs _. unfold phase_ok. simpl. by destruct s. Qed.
Lemma phase_waiting c : waiting (cn_state c) = false -> phase_ok c.
Proof. unfold phase_ok. by destruct (cn_state c). Qed.

(** * The parts of an iteration *)

Section Parts.
Context `{QuietModules}.

Lemma evolves_conn w w' a c : evolves w w' -> w_conns w !! a = Some c ->
  exists c', w_conns w' !! a = Some c' /\ ages c c'.
Proof. intros Hv. apply (ev_ages _ _ Hv). Qed.

(** [note_syn] and [note_delta] change sequence numbers only. *)
Lemma quiet_is_tcp pkt : quietly (is_tcp pkt).
Proof. unfold is_tcp, get_pkt. keeps_tac. Qed.
Lemma quiet_is_tcp_syn pkt : quietly (is_tcp_syn pkt).
Proof. pose proof quiet_is_tcp. unfold is_tcp_syn, get_pkt. keeps_tac. Qed.
Lemma quiet_tcp_seq_of pkt : quietly (tcp_seq_of pkt).
Proof. unfold tcp_seq_of, get_pkt. keeps_tac. Qed.

Lemma upd_hih_evolves conn g w u w' :
  (forall h, hih_redirected_int_key (g h) = hih_redirected_int_key h) ->
  upd_conn conn (fun c => c <| cn_hih ::= g |>) w = Ret (u, w') -> evolves w w'.
Proof.
  intros Hg H1. unfold upd_conn in H1. srun H1 as c w1 H2. apply get_conn_inv in H2 as [Ha ->].
  assert (Hi : same_id c (c <| cn_hih ::= g |>)) by (repeat split; apply Hg).
  eapply put_conn_evolves; [exact Ha|exact Hi| |exact H1].
  repeat split; [apply advances_refl|]. unfold phase_ok. simpl. by rewrite Hg.
Qed.

Lemma note_syn_evolves conn pkt : keeps evolves (note_syn conn pkt).
Proof.
  intros w u w' H1. unfold note_syn in H1. srun H1 as syn w1 H2. apply quiet_is_tcp_syn, quiet_evolves in H2.
  destruct syn; [|by injection H1 as _ <-]. srun H1 as seq w2 H3. apply quiet_tcp_seq_of, quiet_evolves in H3.
  apply upd_hih_evolves in H1; [|done]. etrans; [done|]. by etrans.
Qed.

Lemma note_delta_evolves conn pkt : keeps evolves (note_delta conn pkt).
Proof.
  intros w u w' H1. unfold note_delta in H1. srun H1 as syn w1 H2. apply quiet_is_tcp_syn, quiet_evolves in H2.
  destruct syn; [|by injection H1 as _ <-]. srun H1 as seq w2 H3. apply quiet_tcp_seq_of, quiet_evolves in H3.
  apply upd_hih_evolves in H1; [|done]. etrans; [done|]. by etrans.
Qed.

Lemma store_evolves conn pkt : keeps evolves (store_pkt conn pkt).
Proof.
  intros w r w' H1. unfold store_pkt in H1. srun H1 as u w1 H2. apply quiet_upd_pkt, quiet_evolves in H2.
  srun H1 as c w2 H3. apply get_conn_inv in H3 as [Ha ->]. srun H1 as mx w2 H3. injection H3 as _ <-.
  destruct (_ <? _); [|by injection H1 as _ <-]. srun H1 as v w2 H3. srun H1 as v' w3 H4.
  apply quiet_upd_pkt, quiet_evolves in H4. injection H1 as _ <-. etrans; [exact H2|]. etrans; [|exact H4].
  refine (put_conn_evolves _ _ _ _ _ _ Ha _ _ H3); [by repeat split|]. repeat split; [apply advances_refl|done].
Qed.

Lemma store_or_free_evolves conn pkt : keeps evolves (store_or_free conn pkt).
Proof.
  intros w u w' H1. unfold store_or_free in H1. srun H1 as c w1 H2. apply get_conn_inv in H2 as [_ ->].
  srun H1 as t w1 H2. unfold get_target in H2. apply deref_Ret_inv in H2 as (_ & _ & _ & ->). destruct (_ || _).
  - srun H1 as st w1 H2. injection H1 as _ <-. by apply store_evolves in H2.
  - by apply quiet_free_pkt, quiet_evolves in H1.
Qed.

(** ** Replay *)

Definition replaying (conn : ptr) (w : world) : Prop :=
  exists c, w_conns w !! conn = Some c /\ (cn_state c = REPLAY \/ cn_state c = FORWARD).

Lemma replaying_evolves conn w w' : replaying conn w -> evolves w w' -> replaying conn w'.
Proof.
  intros (c & Ha & Hs) Hv. destruct (ev_ages _ _ Hv _ _ Ha) as (c' & Ha' & _ & _ & Hadv & _). exists c'. split; [done|].
  destruct Hs as [E|E]; rewrite E in Hadv; revert Hadv; destruct (cn_state c'); auto; done.
Qed.

Lemma replay_loop_evolves fuel conn current de w r w' : replaying conn w ->
  replay_loop fuel conn current de w = Ret (r, w') -> evolves w w'.
Proof.
  revert current de w. induction fuel as [|fuel IH]; intros current de w Hr H1; cbn [replay_loop] in H1; [done|].
  srun H1 as k w1 H2. apply get_pkt_inv in H2 as [_ ->]. destruct (_ || _); [|by injection H1 as _ <-].
  srun H1 as u w1 H2. assert (Hv : evolves w w1).
  { apply quiet_evolves. destruct (decide _); [|by injection H2 as _ <-].
    srun H2 as v w2 H3. injection H2 as _ <-. by eapply quiet_forward_ext2hih. }
  pose proof (replaying_evolves _ _ _ Hr Hv) as Hr1.
  srun H1 as c w2 H3. apply get_conn_inv in H3 as [Ha ->]. destruct (_ <=? _).
  - srun H1 as v w2 H3. injection H1 as _ <-. etrans; [done|].
    destruct Hr1 as (c0 & E & Hs). assert (c0 = c) as -> by congruence.
    refine (proj1 (switch_evolves _ _ _ _ _ _ Ha _ _ H3)); [|by apply phase_switch]. by destruct Hs as [-> | ->].
  - srun H1 as v w2 H3. assert (Hv2 : evolves w1 w2).
    { refine (put_conn_evolves _ _ _ _ _ _ Ha _ _ H3); [by repeat split|]. repeat split; [apply advances_refl|done]. }
    srun H1 as next w3 H4. apply slift_Ret_inv in H4 as [_ ->]. srun H1 as k' w3 H4. apply get_pkt_inv in H4 as [_ ->].
    etrans; [done|]. etrans; [done|]. eapply IH; [|exact H1]. by eapply replaying_evolves.
Qed.

Lemma replay_evolves conn pkt w r w' : replaying conn w -> replay conn pkt w = Ret (r, w') -> evolves w w'.
Proof.
  intros Hr H1. unfold replay in H1. srun H1 as p w1 H2. apply get_pkt_inv in H2 as [_ ->].
  destruct (decide _); [|by injection H1 as _ <-]. srun H1 as st w1 H2.
  apply steady_test_expected, steady_evolves in H2. destruct st; [by injection H1 as _ <-|].
  srun H1 as c w2 H3. apply get_conn_inv in H3 as [_ ->]. srun H1 as cur w2 H3. apply slift_Ret_inv in H3 as [_ ->].
  srun H1 as k w2 H3. apply get_pkt_inv in H3 as [_ ->]. srun H1 as [ended cur'] w2 H3.
  apply replay_loop_evolves in H3; [|by eapply replaying_evolves].
  destruct ended; [injection H1 as _ <-; by etrans|].
  srun H1 as u w3 H4. apply steady_define_expected_data, steady_evolves in H4.
  srun H1 as u' w4 H5. apply steady_incr_replay_id, steady_evolves in H5. injection H1 as _ <-.
  etrans; [done|]. etrans; [done|]. by etrans.
Qed.

(** ** Decisions *)

Lemma redirection_evolves conn hih_use mt w c r w' :
  w_conns w !! conn = Some c -> cn_state c = DECISION -> phase_ok c ->
  setup_redirection conn hih_use mt w = Ret (r, w') -> evolves w w'.
Proof.
  intros Ha Hs Hp H1. unfold phase_ok in Hp. rewrite Hs in Hp. destruct Hp as [Hn Hi].
  pose proof (fun Hok => proj1 (setup_redirection_ok _ _ _ _ _ _ _ Hok Ha Hi Hn H1)) as Htrees.
  apply (setup_redirection_run _ _ _ _ _ _ _ Ha) in H1. destruct r; [by apply quiet_evolves|].
  destruct H1 as (w1 & cr & key & w4 & Hq & Hred & _ & _ & _ & H4 & Hst).
  destruct Hred as (Ei & _ & _ & _ & _ & _ & El).
  apply switch_state_spec in H4 as (_ & T4 & c4 & Hc4 & Hconns & _). simpl in Hc4, Hconns.
  rewrite lookup_insert_eq in Hc4. injection Hc4 as <-. rewrite insert_insert_eq in Hconns.
  pose proof (tr_nodes _ _ T4) as N4. simpl in N4. apply quiet_evolves in Hq as Hvq.
  assert (Hages : forall a ca, w_conns w !! a = Some ca -> exists c', w_conns w4 !! a = Some c' /\ ages ca c').
  { intros a ca Hca. rewrite Hconns, (q_conns _ _ Hq). destruct (decide (conn = a)) as [<-|].
    - eexists. rewrite lookup_insert_eq. split; [done|]. assert (ca = c) as -> by congruence.
      unfold ages, phase_ok. simpl. rewrite Ei, El, Hs. done.
    - rewrite lookup_insert_ne by done. by exists ca. }
  apply steady_evolves in Hst as Hv. split.
  - intros [Hok Hr Hph]. split; [by apply Htrees| |].
    + intros a n f. rewrite (tr_nodes _ _ (st_tracks _ _ Hst)), N4, (q_nodes _ _ Hq). apply Hr.
    + intros a c' Ha'. destruct (w_conns w4 !! a) as [ca|] eqn:E;
        [|by rewrite (tr_back _ _ (st_tracks _ _ Hst) _ E) in Ha'].
      destruct (ev_ages _ _ Hv _ _ E) as (c'' & E' & _ & _ & _ & Hage). assert (c'' = c') as -> by congruence.
      apply Hage. rewrite Hconns, (q_conns _ _ Hq) in E. destruct (decide (conn = a)) as [<-|].
      * rewrite lookup_insert_eq in E. injection E as <-. done.
      * rewrite lookup_insert_ne in E by done. eauto.
  - intros a ca Hca. destruct (Hages _ _ Hca) as (c' & Hc' & Hag). destruct (ev_ages _ _ Hv _ _ Hc') as (c'' & ? & ?).
    exists c''. split; [done|by etrans].
  - intros a Ea. apply (tr_back _ _ (st_tracks _ _ Hst)). rewrite Hconns, (q_conns _ _ Hq).
    rewrite lookup_insert_ne by (intros <-; congruence). done.
  - pose proof (q_next _ _ Hq). pose proof (tr_next _ _ T4) as N. simpl in N.
    pose proof (tr_next _ _ (st_tracks _ _ Hst)). lia.
Qed.

Lemma get_target_inv p w t w' : get_target p w = Ret (t, w') -> w' = w.
Proof. unfold get_target. intros H1. by apply deref_Ret_inv in H1 as (_ & _ & _ & ->). Qed.
Lemma get_handler_inv p w h w' : get_handler p w = Ret (h, w') -> w' = w.
Proof. unfold get_handler. intros H1. by apply deref_Ret_inv in H1 as (_ & _ & _ & ->). Qed.

Lemma de_apply_evolves conn c d mt w r w' :
  w_conns w !! conn = Some c -> phase_ok c -> (cn_state c = INIT -> cn_initiator c = EXT) ->
  possible c (dh_result d) = true -> de_apply conn d mt w = Ret (r, w') -> evolves w w'.
Proof.
  intros Ha Hp Hi Hpos H1. unfold de_apply in H1. srun H1 as c0 w1 H2. apply get_conn_inv in H2 as [E ->].
  assert (c0 = c) as -> by congruence. clear E.
  assert (Hsw : forall s res, advances (cn_state c) s = true -> (phase_ok c -> phase_ok (c <| cn_state := s |>)) ->
    (do _s <- switch_state conn s; sret res) w = Ret (r, w') -> evolves w w').
  { intros s res Hadv Hph Hs. srun Hs as x w2 H2. injection Hs as _ <-.
    exact (proj1 (switch_evolves _ _ _ _ _ _ Ha Hadv Hph H2)). }
  assert (Hph : forall s, (s = DECISION -> cn_state c = INIT) -> s <> INIT ->
    phase_ok c -> phase_ok (c <| cn_state := s |>)).
  { intros s Hd Hn Hph. unfold phase_ok in *. simpl. destruct s; try done. rewrite (Hd eq_refl) in Hph, Hi. naive_solver. }
  unfold possible in Hpos. destruct (dh_result d) eqn:Er, (cn_state c) eqn:Es; try done;
    try (injection H1 as _ <-; done);
    try (srun H1 as t w2 H2; apply get_target_inv in H2 as ->);
    try (apply Hsw in H1; [done| |apply Hph]; repeat case_match; done).
  srun H1 as x w2 H2. injection H1 as _ <-. by eapply redirection_evolves.
Qed.

Lemma process_evolves pkt mt w r w' p conn c : ok_world w ->
  w_pkts w !! pkt = Some p -> pt_conn p = Some conn -> w_conns w !! conn = Some c ->
  (cn_state c = INIT -> cn_initiator c = EXT) ->
  DE_process_packet pkt mt w = Ret (r, w') -> evolves w w'.
Proof.
  intros Hok Hp Hpc Hc Hi H1. unfold DE_process_packet in H1. srun H1 as p0 w1 H2. apply get_pkt_inv in H2 as [E ->].
  assert (p0 = p) as -> by congruence. srun H1 as [a c0] w1 H2. apply pkt_conn_inv in H2 as (Ea & Hc0 & ->).
  assert (a = conn) as -> by congruence. assert (c0 = c) as -> by congruence.
  srun H1 as d w1 H2. apply de_decide_spec in H2 as [Hs Hpos]; [|apply Hok].
  destruct (st_kept _ _ Hs _ _ Hc) as (c1 & Hc1 & Hk & Es). pose proof (kept_ages _ _ Hk Es) as (_ & Ei & _ & Hph).
  etrans; [by apply steady_evolves|]. eapply de_apply_evolves; [exact Hc1| | | |exact H1].
  - apply Hph. by apply (ow_phase _ Hok conn).
  - rewrite Es, Ei. done.
  - unfold possible. by rewrite Es.
Qed.

(** ** Packets by origin *)

Lemma then_proxy_evolves (m : M status_t) st : quietly m ->
  keeps evolves (if decide (st = OK) then do _st <- m; sret tt else sret tt).
Proof.
  intros Hm w u w' H1. destruct (decide _); [|by injection H1 as _ <-]. srun H1 as x w1 H2. injection H1 as _ <-.
  by apply quiet_evolves, (Hm _ _ _ H2).
Qed.

Lemma quiet_then_free {A} (m : M A) pkt w u w' : quietly m ->
  (do _st <- m; free_pkt pkt) w = Ret (u, w') -> evolves w w'.
Proof.
  intros Hm H1. srun H1 as x w1 H2. apply Hm, quiet_evolves in H2. apply quiet_free_pkt, quiet_evolves in H1. by etrans.
Qed.

(** What the handler of a packet starts from. *)
Definition carries (pkt conn : ptr) (p : pkt_struct) (c : conn_struct) (w : world) : Prop :=
  ok_world w /\ w_pkts w !! pkt = Some p /\ pt_conn p = Some conn /\ w_conns w !! conn = Some c.

Lemma note_syn_pkts conn pkt : keeps (same w_pkts) (note_syn conn pkt).
Proof. unfold note_syn, is_tcp_syn, is_tcp, tcp_seq_of, upd_conn, get_pkt, get_conn, put_conn. same_tac. Qed.

Lemma note_syn_carries pkt conn p c w u w' : carries pkt conn p c w -> note_syn conn pkt w = Ret (u, w') ->
  evolves w w' /\ exists c', carries pkt conn p c' w' /\ ages c c'.
Proof.
  intros (Hok & Hp & Hpc & Hc) H1. pose proof (note_syn_evolves _ _ _ _ _ H1) as Hv. split; [done|].
  destruct (ev_ages _ _ Hv _ _ Hc) as (c' & Hc' & Ha). exists c'. split; [|done]. split; [by apply (ev_ok _ _ Hv)|].
  split; [|done]. apply note_syn_pkts in H1. unfold same in H1. by rewrite H1.
Qed.

Lemma switch_carries pkt conn p c s w r w' : carries pkt conn p c w -> waiting s = false -> advances (cn_state c) s = true ->
  switch_state conn s w = Ret (r, w') ->
  evolves w w' /\ carries pkt conn p (c <| cn_state := s |>) w'.
Proof.
  intros (Hok & Hp & Hpc & Hc) Hs Hadv H1. destruct (switch_evolves _ _ _ _ _ _ Hc Hadv (phase_switch c s Hs) H1) as [Hv _].
  split; [done|]. apply switch_state_spec in H1 as (_ & _ & c0 & E & Hcs & Hpk). assert (c0 = c) as -> by congruence.
  split; [by apply (ev_ok _ _ Hv)|]. rewrite Hpk, Hcs, lookup_insert_eq. done.
Qed.

Lemma carries_process pkt conn p c mt w r w' : carries pkt conn p c w -> (cn_state c = INIT -> cn_initiator c = EXT) ->
  DE_process_packet pkt mt w = Ret (r, w') -> evolves w w'.
Proof. intros (Hok & Hp & Hpc & Hc) Hi. by eapply process_evolves. Qed.

Lemma free_evolves pkt : keeps evolves (free_pkt pkt).
Proof. intros w u w' H1. by apply quiet_free_pkt, quiet_evolves in H1. Qed.

Lemma de_ext_evolves conn pkt mt p c w u w' : carries pkt conn p c w -> (cn_state c = INIT -> cn_initiator c = EXT) ->
  de_ext conn pkt mt w = Ret (u, w') -> evolves w w'.
Proof.
  intros Hcar Hi H1. unfold de_ext in H1. srun H1 as c0 w1 H2. apply get_conn_inv in H2 as [E ->].
  assert (c0 = c) as -> by (destruct Hcar as (_ & _ & _ & ?); congruence).
  assert (Hd : (do st <- DE_process_packet pkt mt;
    do_ (if decide (st = OK) then do _st <- proxy_ext2int pkt; sret tt else sret tt);
    store_or_free conn pkt) w = Ret (u, w') -> evolves w w').
  { intros H2. srun H2 as st w1 H3. eapply carries_process in H3; [|done..].
    srun H2 as v w2 H4. apply then_proxy_evolves in H4; [|auto with keeps].
    apply store_or_free_evolves in H2. etrans; [done|]. by etrans. }
  destruct (cn_state c); auto; try (by apply free_evolves in H1);
    (apply quiet_then_free in H1; [done|auto with keeps]).
Qed.

Lemma reset_then_free pkt (m : M unit) w u w' : quietly m ->
  (do tcp <- is_tcp pkt; do_ (if tcp : bool then m else sret tt); free_pkt pkt) w = Ret (u, w') -> evolves w w'.
Proof.
  intros Hm H1. srun H1 as tcp w1 H2. apply quiet_is_tcp, quiet_evolves in H2. srun H1 as v w2 H3.
  assert (evolves w1 w2) by (destruct tcp; [by apply Hm, quiet_evolves in H3|by injection H3 as _ <-]).
  apply free_evolves in H1. etrans; [done|]. by etrans.
Qed.

Lemma de_lih_evolves conn pkt mt p c w u w' : carries pkt conn p c w ->
  de_lih conn pkt mt w = Ret (u, w') -> evolves w w'.
Proof.
  intros Hcar H1. unfold de_lih in H1. srun H1 as c0 w1 H2. apply get_conn_inv in H2 as [E ->].
  assert (c0 = c) as -> by (destruct Hcar as (_ & _ & _ & ?); congruence).
  assert (Hd : (do_ note_syn conn pkt; do _st <- proxy_int2ext pkt; store_or_free conn pkt) w = Ret (u, w') -> evolves w w').
  { intros H2. srun H2 as v w1 H3. apply note_syn_evolves in H3. srun H2 as st w2 H4.
    apply quiet_proxy_int2ext, quiet_evolves in H4. apply store_or_free_evolves in H2. etrans; [done|]. by etrans. }
  assert (Hr : quietly (do t <- get_target (cn_target c); do fh <- get_handler (tg_front_handler t);
    reply_reset (Some pkt) (hd_iface fh))) by (unfold get_target, get_handler; keeps_tac).
  destruct (cn_state c) eqn:Es; auto; try (by apply (reset_then_free _ _ _ _ _ Hr) in H1).
  - apply quiet_then_free in H1; [done|auto with keeps].
  - srun H1 as v w1 H2. destruct (note_syn_carries _ _ _ _ _ _ _ Hcar H2) as (Hv & c' & Hcar' & _ & _ & Hadv & _).
    srun H1 as st w2 H3. eapply carries_process in H3; [|done|].
    + srun H1 as v' w3 H4. apply then_proxy_evolves in H4; [|auto with keeps].
      apply store_or_free_evolves in H1. etrans; [done|]. etrans; [done|]. by etrans.
    + rewrite Es in Hadv. revert Hadv. by destruct (cn_state c').
Qed.

(** The state [s] is out of reach of [INIT]. *)
Definition left_init (conn : ptr) (w : world) : Prop :=
  forall c, w_conns w !! conn = Some c -> cn_state c <> INIT.

Lemma left_evolves conn c w w' : w_conns w !! conn = Some c -> cn_state c <> INIT -> evolves w w' -> left_init conn w'.
Proof.
  intros Hc Hs Hv c' Hc'. destruct (ev_ages _ _ Hv _ _ Hc) as (c'' & E & _ & _ & Hadv & _).
  assert (c'' = c') as -> by congruence. intros Es. rewrite Es in Hadv. by destruct (cn_state c).
Qed.

(** A HIH that opens a connection: dropped or controlled. *)
Definition hih_opens (conn pkt : ptr) (mt : Z) (c : conn_struct) : M unit :=
  do deny <- sgets deny_hih_init;
  if deny =? 1 then
    do tcp <- is_tcp pkt;
    do_ (if tcp : bool then
           do bh <- get_handler (hih_back_handler (cn_hih c));
           reply_reset (Some pkt) (hd_iface bh)
         else sret tt);
    do _st <- switch_state conn DROP;
    free_pkt pkt
  else
    do _st <- switch_state conn CONTROL;
    do st <- DE_process_packet pkt mt;
    do_ (if decide (st = OK) then
           do c <- get_conn conn;
           match cn_destination c with
           | EXT => do _st <- proxy_int2ext pkt; sret tt
           | INTRA => do _st <- proxy_hih2intra pkt; sret tt
           | _ => sret tt
           end
         else sret tt);
    free_pkt pkt.

Lemma hih_opens_evolves conn pkt mt p c w u w' : carries pkt conn p c w ->
  advances (cn_state c) CONTROL = true -> hih_opens conn pkt mt c w = Ret (u, w') -> evolves w w' /\ left_init conn w'.
Proof.
  intros Hcar Hadv H1. unfold hih_opens in H1. srun H1 as deny w1 H2. injection H2 as _ <-.
  destruct (deny =? 1).
  - srun H1 as tcp w1 H2. apply quiet_is_tcp in H2. srun H1 as v w2 H3.
    assert (Hq : quiet w w2).
    { etrans; [done|]. destruct tcp; [|by injection H3 as _ <-]. srun H3 as bh w3 H4. apply get_handler_inv in H4 as ->.
      by eapply quiet_reply_reset. }
    srun H1 as st w3 H4. destruct Hcar as (Hok & Hp & Hpc & Hc). rewrite <- (q_conns _ _ Hq) in Hc.
    assert (Hd : advances (cn_state c) DROP = true) by (revert Hadv; by destruct (cn_state c)).
    destruct (switch_evolves _ _ _ _ _ _ Hc Hd (phase_switch c DROP eq_refl) H4) as (Hv & c' & Hc' & Es & _).
    apply free_evolves in H1. split; [etrans; [by apply quiet_evolves|by etrans]|].
    eapply left_evolves; [exact Hc'| |done]. by rewrite Es.
  - srun H1 as st w1 H2. destruct (switch_carries _ _ _ _ CONTROL _ _ _ Hcar eq_refl Hadv H2) as [Hv Hcar'].
    srun H1 as st' w2 H3. eapply carries_process in H3; [|done..]. srun H1 as v w3 H4.
    assert (Hq : evolves w2 w3).
    { destruct (decide _); [|by injection H4 as _ <-]. srun H4 as c' w4 H5. apply get_conn_inv in H5 as [_ ->].
      destruct (cn_destination c'); try (by injection H4 as _ <-); srun H4 as x w4 H5; injection H4 as _ <-;
        apply quiet_evolves; [by eapply quiet_proxy_int2ext|by eapply quiet_proxy_hih2intra]. }
    apply free_evolves in H1. assert (evolves w1 w') by (etrans; [done|by etrans]).
    split; [by etrans|]. eapply left_evolves; [apply Hcar'|done|done].
Qed.

Lemma de_hih_evolves conn pkt mt p c w u w' : carries pkt conn p c w ->
  (cn_state c = INVALID \/ cn_state c = DROP -> advances (cn_state c) CONTROL = true) ->
  de_hih conn pkt mt w = Ret (u, w') -> evolves w w' /\ left_init conn w'.
Proof.
  intros Hcar Hadv H1. unfold de_hih in H1. srun H1 as c0 w1 H2. apply get_conn_inv in H2 as [E ->].
  assert (c0 = c) as -> by (destruct Hcar as (_ & _ & _ & ?); congruence). clear E. fold (hih_opens conn pkt mt c) in H1.
  assert (Hleft : cn_state c <> INIT -> evolves w w' -> evolves w w' /\ left_init conn w').
  { intros Hs Hv. split; [done|]. by eapply left_evolves; [apply Hcar| |]. }
  destruct (cn_state c) eqn:Es; try (eapply hih_opens_evolves; [done| |done]; rewrite Es; auto; done);
    apply Hleft; try done.
  - srun H1 as v w1 H2. apply note_delta_evolves in H2 as Hv. srun H1 as st w2 H3.
    assert (Hr : replaying conn w1).
    { eapply replaying_evolves; [|done]. exists c. split; [apply Hcar|auto]. }
    apply replay_evolves in H3; [|done]. apply free_evolves in H1. etrans; [done|]. by etrans.
  - apply quiet_then_free in H1; [done|auto with keeps].
  - destruct (cn_destination c); try (by injection H1 as _ <-);
      (apply quiet_then_free in H1; [done|auto with keeps]).
  - srun H1 as st w1 H2. eapply carries_process in H2; [|done|by rewrite Es].
    srun H1 as v w2 H3. apply then_proxy_evolves in H3; [|auto with keeps]. apply free_evolves in H1.
    etrans; [done|]. by etrans.
Qed.

Lemma de_intra_evolves conn pkt : keeps evolves (de_intra conn pkt).
Proof.
  intros w u w' H1. unfold de_intra in H1. srun H1 as c w1 H2. apply get_conn_inv in H2 as [_ ->].
  destruct (cn_state c); try (by apply free_evolves in H1). apply quiet_then_free in H1; [done|auto with keeps].
Qed.

Lemma refuse_evolves conn pkt : keeps evolves (refuse conn pkt).
Proof.
  intros w u w' H1. unfold refuse in H1. srun H1 as p w1 H2. apply get_pkt_inv in H2 as [_ ->].
  srun H1 as v w1 H2. apply free_evolves in H1. etrans; [|done]. destruct (decide _); [|by injection H2 as _ <-].
  srun H2 as tcp w2 H3. apply quiet_is_tcp in H3. srun H2 as rst w3 H4. injection H4 as _ <-.
  apply quiet_evolves. destruct (_ && _); [|by injection H2 as _ <-]. srun H2 as c w3 H4.
  apply get_conn_inv in H4 as [_ ->]. srun H2 as t w3 H4. apply get_target_inv in H4 as ->.
  apply quiet_reply_reset in H2. by etrans.
Qed.

(** A connection that may be handed to a handler: one in [INIT] was opened from
    outside, or by the HIH that sent the packet. *)
Definition entered (p : pkt_struct) (c : conn_struct) : Prop :=
  cn_state c = INIT -> cn_initiator c = EXT \/ (cn_initiator c = HIH /\ pt_origin p = HIH).

Lemma dispatch_evolves conn pkt mt p c w u w' : carries pkt conn p c w -> entered p c ->
  dispatch conn pkt mt w = Ret (u, w') ->
  evolves w w' /\ exists c', w_conns w' !! conn = Some c' /\ ages c c' /\ (cn_state c' = INIT -> cn_initiator c' = EXT).
Proof.
  intros Hcar Hent H1.
  assert (Hgoal : evolves w w' -> (cn_state c = INIT -> cn_initiator c <> EXT -> left_init conn w') ->
    evolves w w' /\ exists c', w_conns w' !! conn = Some c' /\ ages c c' /\ (cn_state c' = INIT -> cn_initiator c' = EXT)).
  { intros Hv Hl. split; [done|]. destruct Hcar as (_ & _ & _ & Hc).
    destruct (ev_ages _ _ Hv _ _ Hc) as (c' & Hc' & Ha). exists c'. split; [done|]. split; [done|]. intros Es.
    destruct Ha as (_ & -> & Hadv & _). destruct (decide (cn_initiator c = EXT)) as [|Hne]; [done|exfalso].
    destruct (decide (cn_state c = INIT)) as [Ei|Ei]; [by apply (Hl Ei Hne _ Hc')|].
    rewrite Es in Hadv. by destruct (cn_state c). }
  unfold dispatch in H1. srun H1 as p0 w1 H2. apply get_pkt_inv in H2 as [E ->].
  assert (p0 = p) as -> by (destruct Hcar as (_ & ? & _); congruence). clear E.
  srun H1 as c0 w1 H2. apply get_conn_inv in H2 as [E ->].
  assert (c0 = c) as -> by (destruct Hcar as (_ & _ & _ & ?); congruence). clear E.
  destruct (bool_decide (cn_state c = INVALID) && _) eqn:E1.
  { apply andb_true_iff in E1 as [E1%bool_decide_eq_true _]. apply refuse_evolves in H1.
    apply Hgoal; [done|]. by rewrite E1. }
  destruct (decide (cn_state c = DROP)) as [E2|E2].
  { apply refuse_evolves in H1. apply Hgoal; [done|]. by rewrite E2. }
  assert (Hno : pt_origin p <> HIH -> cn_state c = INIT -> cn_initiator c = EXT).
  { intros Hne Ei. destruct (Hent Ei) as [|[_ ?]]; done. }
  destruct (pt_origin p) eqn:Eo.
  - apply Hgoal; [eapply de_ext_evolves; [done|by apply Hno|done]|]. intros ? []. by apply Hno.
  - apply Hgoal; [eapply de_ext_evolves; [done|by apply Hno|done]|]. intros ? []. by apply Hno.
  - apply Hgoal; [by eapply de_lih_evolves|]. intros ? []. by apply Hno.
  - eapply de_hih_evolves in H1 as [Hv Hl]; [|done|]; [by apply Hgoal|]. intros [->|]; done.
  - apply Hgoal; [by apply de_intra_evolves in H1|]. intros ? []. by apply Hno.
Qed.

(** ** The connection of a packet *)

(** Between two iterations no connection is locked. *)
Record loop_ok (w : world) : Prop := {
  lo_world : ok_world w;
  lo_free : forall a c, w_conns w !! a = Some c -> cn_lock c = false;
}.

(** The same without what is asked of the rules: none of them calls
    [mod_dns_control], which switches connections to INTRA hosts and leaves the
    removal of one opened by a LIH incomplete ([switched_lih_dangles] of
    [Redirect]). *)
Record gateway_sound (w : world) : Prop := {
  gs_trees : trees_ok w;
  gs_phase : forall a c, w_conns w !! a = Some c -> phase_ok c;
  gs_free : forall a c, w_conns w !! a = Some c -> cn_lock c = false;
}.

Lemma loop_ok_split w : loop_ok w <-> gateway_sound w /\ confined_rules w.
Proof.
  split; [intros [[Ht Hr Hp] Hl]; split; [by constructor|done]|].
  intros [[Ht Hp Hl] Hr]. constructor; [by constructor|done].
Qed.

Lemma quiet_ok_world w w' : ok_world w -> quiet w w' -> ok_world w'.
Proof. intros Hok Hq. by apply (ev_ok _ _ (quiet_evolves _ _ Hq)). Qed.

Lemma conn_lookup_found pkt w res w' : conn_lookup pkt w = Ret (res, w') ->
  exists w1, quiet w w1 /\
  match res with
  | None => w' = w1
  | Some a => exists c, w_conns w !! a = Some c /\ put_conn a (c <| cn_lock := true |>) w1 = Ret (tt, w')
  end.
Proof.
  intros H1. unfold conn_lookup in H1. srun H1 as p w1 H2. apply get_pkt_inv in H2 as [_ ->].
  srun H1 as key w1 H2. apply slift_Ret_inv in H2 as [_ ->].
  srun H1 as wx w1 H2. injection H2 as <- <-. srun H1 as found w1 H2. exists w1.
  assert (Hq : quiet w w1).
  { lazymatch type of H2 with ?k _ = _ => assert (Hk : quietly k) by (unfold get_conn; keeps_tac) end.
    by apply Hk in H2. }
  split; [done|]. destruct found as [conn|]; [|by injection H1 as <- <-].
  srun H1 as c w2 H3. apply get_conn_inv in H3 as [Hc ->]. destruct (cn_lock c); [done|].
  srun H1 as [] w2 H3. injection H1 as <- <-. exists c. by rewrite <- (q_conns _ _ Hq).
Qed.

(** The connection an iteration works on: locked, ready for its handler; the
    others are as they were. *)
Definition working (a pkt : ptr) (w w' : world) : Prop :=
  exists c p, carries pkt a p c w' /\ entered p c /\ cn_lock c = true /\
    (forall b, b <> a -> w_conns w' !! b = w_conns w !! b) /\ (w_next w <= w_next w')%positive /\
    match w_conns w !! a with
    | Some c0 => cn_initiator c = cn_initiator c0 /\ cn_state c = cn_state c0
    | None => (w_next w <= a)%positive
    end.

Lemma born_phase c : born c -> phase_ok c.
Proof.
  intros (Hl & Hr & Hs). unfold phase_ok. destruct (cn_initiator c) eqn:Ei; try done; rewrite Hs; auto.
Qed.

Lemma found_ok w a c : loop_ok w -> w_conns w !! a = Some c ->
  forall w' w1, quiet w w1 -> put_conn a (c <| cn_lock := true |>) w1 = Ret (tt, w') -> ok_world w'.
Proof.
  intros [Hok Hfree] Ha w' w1 Hq H1. pose proof (quiet_ok_world _ _ Hok Hq) as [Ht Hr Hp].
  rewrite <- (q_conns _ _ Hq) in Ha. pose proof (tracks_put_conn a c (c <| cn_lock := true |>) w1 tt w' Ha ltac:(done) H1) as T.
  split; [by eapply trees_ok_tracks| |].
  - intros b n f. rewrite (tr_nodes _ _ T). apply Hr.
  - injection H1 as <-. intros b cb Hb. simpl in Hb. destruct (decide (a = b)) as [<-|].
    + rewrite lookup_insert_eq in Hb. injection Hb as <-. specialize (Hp _ _ Ha). unfold phase_ok in *. simpl.
      destruct (cn_state c); naive_solver.
    + rewrite lookup_insert_ne in Hb by done. eauto.
Qed.

Lemma update_conn_ages pkt conn c mt w r w' : w_conns w !! conn = Some c -> update_conn pkt conn mt w = Ret (r, w') ->
  evolves w w' /\ exists c' p, w_conns w' = <[conn := c']> (w_conns w) /\ ages c c' /\ cn_state c' = cn_state c /\
    w_pkts w' !! pkt = Some p /\ pt_conn p = Some conn.
Proof.
  intros Ha H1. unfold update_conn in H1. srun H1 as p w1 H2. apply get_pkt_inv in H2 as [_ ->].
  srun H1 as c0 w1 H2. apply get_conn_inv in H2 as [E ->]. assert (c0 = c) as -> by congruence.
  srun H1 as u w1 H2. srun H1 as u' w2 H3. injection H1 as _ <-.
  assert (Hage : ages c (update_conn_struct p c mt)) by (repeat split; [apply advances_refl|done]).
  split.
  - etrans; [by refine (put_conn_evolves _ _ _ _ _ _ Ha _ Hage H2)|]. by apply quiet_evolves, (quiet_put_pkt _ _ _ _ _ H3).
  - injection H2 as _ <-. injection H3 as _ <-. eexists _, _. simpl. rewrite lookup_insert_eq. done.
Qed.

Lemma init_conn_working pkt mt w res w' : loop_ok w -> init_conn pkt mt w = Ret (res, w') ->
  match res with
  | None => ok_world w' /\ w_conns w' = w_conns w /\ (w_next w <= w_next w')%positive
  | Some a => working a pkt w w'
  end.
Proof.
  intros Hlo H1. pose proof (lo_world _ Hlo) as Hok. unfold init_conn in H1. srun H1 as found w1 H2.
  apply conn_lookup_found in H2 as (w2 & Hq & Hf). destruct found as [a|].
  - destruct Hf as (c & Ha & Hput). pose proof (found_ok _ _ _ Hlo Ha _ _ Hq Hput) as Hok1.
    injection Hput as <-. srun H1 as r w3 H3. injection H1 as <- <-.
    eapply update_conn_ages in H3 as (Hv & c' & p & Hcs & Hage & Es & Hp & Hpc); [|simpl; apply lookup_insert_eq].
    destruct Hage as (El & Ei & _ & _). simpl in *. exists c', p.
    split; [split; [by apply (ev_ok _ _ Hv)|]; rewrite Hcs, lookup_insert_eq; done|].
    split; [|split; [by rewrite El|split; [|split]]].
    + intros Es'. rewrite Es in Es'. pose proof (ow_phase _ Hok _ _ Ha) as Hph. unfold phase_ok in Hph.
      rewrite Es' in Hph. rewrite (lo_free _ Hlo _ _ Ha) in Hph. rewrite Ei. naive_solver.
    + intros b Hb. rewrite Hcs, !lookup_insert_ne by done. by rewrite (q_conns _ _ Hq).
    + pose proof (q_next _ _ Hq). pose proof (ev_next _ _ Hv) as N. simpl in N. lia.
    + by rewrite Ha.
  - subst w2. pose proof (quiet_ok_world _ _ Hok Hq) as [Ht Hr Hp].
    pose proof (create_conn_nodes _ _ _ _ _ H1) as Hn. pose proof (create_conn_trees_ok _ _ _ _ _ Ht H1) as [Ht' Hres].
    pose proof (create_conn_next _ _ _ _ _ H1) as Hnx. unfold grows in Hnx. pose proof (q_next _ _ Hq) as Hnq.
    assert (Hr' : confined_rules w') by (intros b n f; rewrite Hn; apply Hr).
    destruct res as [a|].
    + apply create_conn_born in H1 as (c & p & Hle & Hc & Hb & Hp' & Hpc & Ho). destruct Hres as [Hnone (c1 & Hcs)].
      rewrite Hcs, lookup_insert_eq in Hc. injection Hc as <-. exists c1, p.
      rewrite (q_conns _ _ Hq) in Hnone, Hcs.
      assert (Hok' : ok_world w').
      { split; [done..|]. intros b cb. rewrite Hcs. destruct (decide (a = b)) as [<-|].
        - rewrite lookup_insert_eq. intros [= <-]. by apply born_phase.
        - rewrite lookup_insert_ne by done. rewrite (q_conns _ _ Hq) in Hp. apply Hp. }
      split; [split; [done|]; rewrite Hcs, lookup_insert_eq; done|].
      split; [|split; [by destruct Hb|split; [|split; [lia|by rewrite Hnone; lia]]]].
      * intros Es. destruct Hb as (_ & _ & Hs). rewrite Ho. destruct (cn_initiator c1) eqn:Ei; try done; try congruence; auto.
      * intros b Hb'. by rewrite Hcs, lookup_insert_ne.
    + split; [|split; [by rewrite Hres, (q_conns _ _ Hq)|lia]]. split; [done..|]. intros b cb. rewrite Hres. apply Hp.
Qed.

(** * An iteration *)

(** What a step of the gateway does to the connections: those that survive keep
    the side that opened them and advance, and the new ones are at new
    addresses. *)
Record lives (w w' : world) : Prop := {
  lv_next : (w_next w <= w_next w')%positive;
  lv_conns : forall a c c', w_conns w !! a = Some c -> w_conns w' !! a = Some c' ->
    cn_initiator c' = cn_initiator c /\ advances (cn_state c) (cn_state c') = true;
  lv_new : forall a, (a < w_next w)%positive -> w_conns w !! a = None -> w_conns w' !! a = None;
}.

(** No connection is lost in between. *)
Definition preserves (w w' : world) : Prop :=
  forall a, is_Some (w_conns w !! a) -> is_Some (w_conns w' !! a).

Lemma evolves_lives w w' : evolves w w' -> lives w w' /\ preserves w w'.
Proof.
  intros Hv. split; [split; [apply Hv| |intros a _; apply Hv]|].
  - intros a c c' Ha Ha'. destruct (ev_ages _ _ Hv _ _ Ha) as (c'' & E & _ & ? & ? & _).
    assert (c'' = c') as -> by congruence. done.
  - intros a [c Ha]. destruct (ev_ages _ _ Hv _ _ Ha) as (c' & -> & _). eauto.
Qed.

Lemma evolves_loop w w' : loop_ok w -> evolves w w' -> loop_ok w'.
Proof.
  intros [Hok Hl] Hv. split; [by apply (ev_ok _ _ Hv)|]. intros a c' Ha'.
  destruct (w_conns w !! a) as [c|] eqn:E; [|by rewrite (ev_back _ _ Hv _ E) in Ha'].
  destruct (ev_ages _ _ Hv _ _ E) as (c'' & E' & El & _). assert (c'' = c') as -> by congruence.
  rewrite El. eauto.
Qed.

(** The end of an iteration: the lock is released. *)
Lemma unlock_spec conn w u w' : unlock conn w = Ret (u, w') ->
  exists c, w_conns w !! conn = Some c /\ tracks w w' /\ w_conns w' = <[conn := c <| cn_lock := false |>]> (w_conns w).
Proof.
  intros H1. unfold unlock, upd_conn in H1. srun H1 as c w1 H2. apply get_conn_inv in H2 as [Ha ->].
  exists c. split; [done|]. split; [by eapply tracks_put_conn; [exact Ha| |exact H1]|]. by injection H1 as _ <-.
Qed.

Lemma unlock_ok conn w c u w' : ok_world w -> w_conns w !! conn = Some c ->
  (cn_state c = INIT -> cn_initiator c = EXT) -> unlock conn w = Ret (u, w') -> ok_world w'.
Proof.
  intros [Ht Hr Hp] Ha Hi H1. apply unlock_spec in H1 as (c0 & E & T & Hcs). assert (c0 = c) as -> by congruence.
  split; [by eapply trees_ok_tracks|by intros a n f; rewrite (tr_nodes _ _ T); apply Hr|].
  intros a ca. rewrite Hcs. destruct (decide (conn = a)) as [<-|].
  - rewrite lookup_insert_eq. intros [= <-]. specialize (Hp _ _ Ha). unfold phase_ok in *. simpl.
    destruct (cn_state c); naive_solver.
  - rewrite lookup_insert_ne by done. apply Hp.
Qed.

(** The handling of a packet whose connection was found. *)
Lemma worked conn pkt mt w w1 w2 w' u v : loop_ok w -> working conn pkt w w1 ->
  dispatch conn pkt mt w1 = Ret (u, w2) -> unlock conn w2 = Ret (v, w') ->
  loop_ok w' /\ lives w w' /\ preserves w w'.
Proof.
  intros Hlo (c & p & Hcar & Hent & Hlock & Hoth & Hnext & Hself) H1 H2.
  destruct (dispatch_evolves _ _ _ _ _ _ _ _ Hcar Hent H1) as (Hv & c' & Hc' & (_ & Ei & Hadv & _) & Hinit).
  pose proof (unlock_ok _ _ _ _ _ (ev_ok _ _ Hv (proj1 Hcar)) Hc' Hinit H2) as Hok'.
  apply unlock_spec in H2 as (c0 & E & T & Hcs). assert (c0 = c') as -> by congruence.
  assert (Hb : forall b, b <> conn ->
    match w_conns w !! b with
    | Some cb => exists cb', w_conns w' !! b = Some cb' /\ ages cb cb'
    | None => w_conns w' !! b = None
    end).
  { intros b Hb. rewrite Hcs, lookup_insert_ne by done. rewrite <- (Hoth b Hb).
    destruct (w_conns w1 !! b) as [cb|] eqn:Eb; [by apply (ev_ages _ _ Hv)|by apply (ev_back _ _ Hv)]. }
  assert (Hc : w_conns w' !! conn = Some (c' <| cn_lock := false |>)) by (by rewrite Hcs, lookup_insert_eq).
  split; [split; [done|]|split; [split|]].
  - intros b cb Hcb. destruct (decide (b = conn)) as [->|Hne];
      [rewrite Hc in Hcb; by injection Hcb as <-|]. specialize (Hb b Hne).
    destruct (w_conns w !! b) as [cb0|] eqn:Eb; [|congruence]. destruct Hb as (cb' & E' & El & _).
    assert (cb' = cb) as -> by congruence. rewrite El. by apply (lo_free _ Hlo _ _ Eb).
  - pose proof (ev_next _ _ Hv). pose proof (tr_next _ _ T). lia.
  - intros b cb cb' Ecb Ecb'. destruct (decide (b = conn)) as [->|Hne].
    + rewrite Hc in Ecb'. injection Ecb' as <-. rewrite Ecb in Hself. destruct Hself as [Ei0 Es0]. simpl.
      split; [congruence|]. by rewrite <- Es0.
    + specialize (Hb b Hne). rewrite Ecb in Hb. destruct Hb as (cb'' & E' & _ & ? & ? & _).
      assert (cb'' = cb') as -> by congruence. done.
  - intros b Hlt En. destruct (decide (b = conn)) as [->|Hne]; [rewrite En in Hself; lia|].
    specialize (Hb b Hne). by rewrite En in Hb.
  - intros b [cb Ecb]. destruct (decide (b = conn)) as [->|Hne]; [by rewrite Hc|].
    specialize (Hb b Hne). rewrite Ecb in Hb. destruct Hb as (cb' & -> & _). eauto.
Qed.

Lemma quiet_accepted pkt : quietly (accepted pkt).
Proof. unfold accepted, get_pkt, get_iface. keeps_tac. Qed.

Lemma quiet_process_packet i len f : quietly (process_packet i len f).
Proof.
  unfold process_packet, init_pkt, get_iface. keeps_tac.
Qed.

Lemma de_packet_loop needfrag pkt mt w u w' : loop_ok w -> de_packet needfrag pkt mt w = Ret (u, w') ->
  loop_ok w' /\ lives w w' /\ preserves w w'.
Proof.
  intros Hlo H1.
  assert (Hev : evolves w w' -> loop_ok w' /\ lives w w' /\ preserves w w').
  { intros Hv. split; [by eapply evolves_loop|by apply evolves_lives]. }
  unfold de_packet in H1. srun H1 as p w1 H2. apply get_pkt_inv in H2 as [_ ->].
  destruct (pt_fragmented p).
  { srun H1 as v w1 H2. by apply frag_needed_faults in H2. }
  srun H1 as ok w1 H2. apply quiet_accepted in H2. destruct (negb ok).
  { apply free_evolves in H1. apply Hev. etrans; [by apply quiet_evolves|done]. }
  assert (Hlo1 : loop_ok w1) by (by eapply evolves_loop, quiet_evolves).
  destruct (evolves_lives _ _ (quiet_evolves _ _ H2)) as [Hl1 Hp1].
  srun H1 as found w2 H3. pose proof (init_conn_working _ _ _ _ _ Hlo1 H3) as Hw.
  assert (Hq : forall w0, lives w1 w0 -> lives w w0).
  { intros w0 [Hn Hc Hnew]. split.
    - pose proof (q_next _ _ H2). lia.
    - intros a c c'. rewrite <- (q_conns _ _ H2). apply Hc.
    - intros a Hlt. rewrite <- (q_conns _ _ H2). apply Hnew. pose proof (q_next _ _ H2). lia. }
  assert (Hqp : forall w0, preserves w1 w0 -> preserves w w0) by (intros w0 Hp a Ha; by apply Hp, Hp1).
  destruct found as [conn|].
  - srun H1 as v w3 H4. destruct (worked _ _ _ _ _ _ _ _ _ Hlo1 Hw H4 H1) as (? & ? & ?). auto.
  - destruct Hw as (Hok2 & Hcs & Hn). apply quiet_free_pkt in H1.
    assert (Hcs' : w_conns w' = w_conns w1) by (by rewrite (q_conns _ _ H1)).
    split; [split; [by eapply quiet_ok_world|]|split; [apply Hq|apply Hqp]].
    + intros a c. rewrite Hcs'. apply (lo_free _ Hlo1).
    + split; [pose proof (q_next _ _ H1); lia|..].
      * intros a c c'. rewrite Hcs'. intros Ec Ec'. assert (c' = c) as -> by congruence. by rewrite advances_refl.
      * intros a _. by rewrite Hcs'.
    + intros a. by rewrite Hcs'.
Qed.

Lemma iteration_loop needfrag raw mt w go w' : loop_ok w -> de_iteration needfrag raw mt w = Ret (go, w') ->
  loop_ok w' /\ lives w w' /\ preserves w w'.
Proof.
  intros Hlo H1.
  assert (Hrefl : forall w0, quiet w w0 -> loop_ok w0 /\ lives w w0 /\ preserves w w0).
  { intros w0 Hq%quiet_evolves. split; [by eapply evolves_loop|by apply evolves_lives]. }
  unfold de_iteration in H1. destruct (rw_last raw); [injection H1 as _ <-; by apply Hrefl|].
  srun H1 as [st pkt] w1 H2. apply quiet_process_packet in H2. srun H1 as u w2 H3. injection H1 as _ <-.
  destruct st; [injection H3 as _ <-; by apply Hrefl|]. destruct pkt as [pkt|]; [|injection H3 as _ <-; by apply Hrefl].
  destruct (Hrefl _ H2) as (Hlo1 & Hl1 & Hp1).
  destruct (de_packet_loop _ _ _ _ _ _ Hlo1 H3) as (Hlo2 & [Hn Hc Hnew] & Hp2).
  pose proof (q_next _ _ H2). split; [done|]. split; [split; [lia|..]|].
  - intros a c c'. rewrite <- (q_conns _ _ H2). apply Hc.
  - intros a Hlt. rewrite <- (q_conns _ _ H2). apply Hnew. lia.
  - intros a Ha. by apply Hp2, Hp1.
Qed.
End Parts.
