(* ===== verification/Management.v ===== *)
(** Targets and honeypots added and removed at run time ([management.c]), and
    the release of their structures ([structs.c]: [free_handler],
    [free_target]).

    The trees [targets] and [back_handlers] own their values: [g_tree_remove]
    and [g_tree_insert] over an existing key call [free_target] or
    [free_handler] on the value they drop.  The mutexes [target->lock] and
    [targetlock] are not represented. *)
From S2P Require Import Prelude Mem Types World Samples Keys Checksum TcpOptions Packet Netcode.
From S2P Require Import Connections ConnTrees Redirect DecisionEngine.

(** * Release *)

Definition destroy_rule (rule : option ptr) : M unit :=
  do fuel <- sgets (fun w => S (S (size (w_nodes w))));
  DE_destroy_tree fuel rule.

Definition free_handler (handler : option ptr) : M unit :=
  match handler with
  | None => sret tt
  | Some a =>
    do h <- get_handler (Some a);
    do_ destroy_rule (hd_rule h);
    free_handler_block a
  end.

Fixpoint free_handlers (l : list ptr) : M unit :=
  match l with [] => sret tt | a :: l => do_ free_handler (Some a); free_handlers l end.

Definition free_target (t : ptr) : M unit :=
  do tg <- get_target (Some t);
  do_ free_handler (tg_front_handler tg);
  do_ free_handlers (tree_to_list (tg_back_handlers tg)).*2;
  do_ free_handlers (tg_intra_handlers_list tg);
  do_ destroy_rule (tg_control_rule tg);
  do_ destroy_rule (tg_intra_rule tg);
  free_target_block t.

(** * Targets *)

Definition upd_target (t : ptr) (g : target -> target) : M unit :=
  do tg <- get_target (Some t); put_target t (g tg).

Definition s64 (z : Z) : Z := let w := u64 z in if w <? 2 ^ 63 then w else w - 2 ^ 64.

Definition add_target (target : option ptr) : M status_t :=
  match target with
  | None => sret NOK
  | Some t =>
    do_ smodify (fun w => w <| target_counter := s64 (target_counter w + 1) |>);
    do id <- sgets target_counter;
    do_ upd_target t (fun tg => tg <| tg_targetID := id |>);
    do ts <- sgets targets;
    match ts !! u32 id with
    | Some _ => sret NOK
    | None => do_ smodify (fun w => w <| targets ::= <[u32 id := t]> |>); sret OK
    end
  end.

(** [g_tree_remove] frees the target; it is then used, and freed again. *)
Definition remove_target (targetID : Z) : M status_t :=
  do ts <- sgets targets;
  match ts !! u32 targetID with
  | None => sret NOK
  | Some t =>
    do_ smodify (fun w => w <| targets ::= delete (u32 targetID) |>);
    do_ free_target t;
    do tg <- get_target (Some t);
    do_ (match tg_default_route tg with
         | Some i => do iface <- get_iface (Some i);
                     put_iface i (iface <| if_target := None |>)
         | None => sret tt
         end);
    do_ free_target t;
    sret OK
  end.

(** * Backends *)

Definition add_back_handler (target handler : option ptr) : M status_t :=
  match target, handler with
  | Some t, Some h =>
    do tg <- get_target (Some t);
    let id := s64 (tg_back_handler_count tg + 1) in
    do hd <- get_handler (Some h);
    do_ put_handler h (hd <| hd_ID := id |>);
    do_ free_handler (tg_back_handlers tg !! u32 id);
    do_ put_target t (tg <| tg_back_handler_count := id |> <| tg_back_handlers ::= <[u32 id := h]> |>);
    sret OK
  | _, _ => sret NOK
  end.

Definition remove_back_handler (target : ptr) (backendID : Z) : M status_t :=
  do tg <- get_target (Some target);
  match tg_back_handlers tg !! u32 backendID with
  | None => sret NOK
  | Some h =>
    do_ put_target target (tg <| tg_back_handlers ::= delete (u32 backendID) |>);
    do_ free_handler (Some h);
    do_ free_handler (Some h);
    sret OK
  end.

(** * INTRA hosts *)

(** The address may be null: finding a place for it compares it with the keys of
    the tree, and its own place is only safe in an empty tree. *)
Definition intra_find (tg : target) (target_ip : option Z) : outcome (option ptr) :=
  match target_ip with
  | Some ip => intra_lookup tg ip
  | None =>
    if decide (tg_intra_null tg = None /\ tg_intra_handlers tg = ∅) then Ret None else Fault NullDeref
  end.
Definition intra_insert (tg : target) (target_ip : option Z) (h : ptr) : target :=
  match target_ip with
  | Some ip => tg <| tg_intra_handlers ::= <[ip := h]> |>
  | None => tg <| tg_intra_null := Some h |>
  end.

Definition add_intra_handler (target : option ptr) (target_ip : option Z) (handler : option ptr) : M status_t :=
  match target, handler with
  | Some t, Some h =>
    do hd <- get_handler (Some h);
    match hd_iface hd, hd_ip hd, hd_mac hd with
    | Some _, Some _, Some _ =>
      do tg <- get_target (Some t);
      do found <- slift (intra_find tg target_ip);
      match found with
      | Some _ => sret NOK
      | None =>
        do_ put_handler h (hd <| hd_intra_target_ips ::= fun l => l ++ [target_ip] |>);
        do_ put_target t (intra_insert (tg <| tg_intra_handlers_list ::= fun l => l ++ [h] |>) target_ip h);
        sret OK
      end
    | _, _, _ => sret NOK
    end
  | _, _ => sret NOK
  end.

(** The first bytes of a [struct handler], its [ID], read as a [struct addr]: a
    type and a number of bits of 16 bits each, then an address.  The keys of
    [intra_handlers] have type 2 ([ADDR_TYPE_IP]) and 32 bits. *)
Definition handler_as_addr (h : handler) : option Z :=
  let id := u64 (hd_ID h) in
  if (u16 id =? 2) && (u16 (Z.shiftr id 16) =? 32) then Some (Z.shiftr id 32) else None.

(** The inner loop removes the key [loop->data], which is the handler itself,
    once per address of the handler. *)
Fixpoint remove_intra_keys (t : ptr) (test : ptr) (ips : list (option Z)) : M unit :=
  match ips with
  | [] => sret tt
  | _ :: ips =>
    do hd <- get_handler (Some test);
    do tg <- get_target (Some t);
    do_ (if decide (tg_intra_null tg = None) then sret tt else sfault NullDeref);
    do_ put_target t (match handler_as_addr hd with
                      | Some key => tg <| tg_intra_handlers ::= delete key |>
                      | None => tg
                      end);
    remove_intra_keys t test ips
  end.

Fixpoint remove_intra_loop (t : ptr) (intraID : Z) (l : list ptr) : M unit :=
  match l with
  | [] => sret tt
  | test :: l =>
    do hd <- get_handler (Some test);
    if hd_ID hd =? intraID then
      do_ remove_intra_keys t test (hd_intra_target_ips hd);
      free_handler (Some test)
    else remove_intra_loop t intraID l
  end.

(** The status is [NOK] on every path. *)
Definition remove_intra_handler (target : ptr) (intraID : Z) : M status_t :=
  do tg <- get_target (Some target);
  do_ remove_intra_loop target intraID (tg_intra_handlers_list tg);
  sret NOK.

(** * Lemmas *)

Lemma destroy_tree_keeps {T} (f : world -> T) (Hf : forall w m, f (w <| w_nodes := m |>) = f w) fuel r w u w' :
  DE_destroy_tree fuel r w = Ret (u, w') -> f w' = f w.
Proof.
  revert r w u w'. induction fuel as [|fuel IH]; intros r w u w' H; cbn [DE_destroy_tree] in H; [done|].
  destruct r as [a|]; [|by injection H as _ <-]. srun H as n w1 H1. unfold get_node in H1.
  apply deref_Ret_inv in H1 as (_ & _ & _ & ->). srun H as u1 w2 H2. apply IH in H2. srun H as n2 w3 H3.
  unfold get_node in H3. apply deref_Ret_inv in H3 as (_ & _ & _ & ->). srun H as u2 w4 H4. apply IH in H4.
  unfold free_node_block, free_in in H. case_match; simplify_eq. rewrite Hf. congruence.
Qed.

Lemma destroy_rule_keeps {T} (f : world -> T) (Hf : forall w m, f (w <| w_nodes := m |>) = f w) r w u w' :
  destroy_rule r w = Ret (u, w') -> f w' = f w.
Proof. intros H. unfold destroy_rule in H. srun H as fuel w1 H1. injection H1 as _ <-. by eapply destroy_tree_keeps. Qed.

(** A freed handler is gone, and nothing but it and its rule changes. *)
Lemma free_handler_spec a w u w' : free_handler (Some a) w = Ret (u, w') ->
  w_handlers w' = delete a (w_handlers w) /\ is_Some (w_handlers w !! a) /\ w_targets w' = w_targets w.
Proof.
  intros H. unfold free_handler in H. srun H as h w1 H1. unfold get_handler in H1.
  apply deref_Ret_inv in H1 as (b & [= <-] & Ha & ->). srun H as v w2 H2.
  pose proof (destroy_rule_keeps w_handlers (fun _ _ => eq_refl) _ _ _ _ H2) as E1.
  pose proof (destroy_rule_keeps w_targets (fun _ _ => eq_refl) _ _ _ _ H2) as E2.
  unfold free_handler_block, free_in in H. case_match; simplify_eq. simpl. rewrite E1, E2. eauto.
Qed.

Lemma free_handler_targets h w u w' : free_handler h w = Ret (u, w') -> w_targets w' = w_targets w.
Proof. destruct h; [by intros (_ & _ & ?)%free_handler_spec|by intros [= _ <-]]. Qed.

Lemma free_handlers_targets l w u w' : free_handlers l w = Ret (u, w') -> w_targets w' = w_targets w.
Proof.
  revert w. induction l as [|a l IH]; intros w H; cbn [free_handlers] in H; [by injection H as _ <-|].
  srun H as v w1 H1. apply IH in H as ->. by eapply free_handler_targets.
Qed.

Lemma free_target_spec t w u w' : free_target t w = Ret (u, w') -> w_targets w' !! t = None.
Proof.
  intros H. unfold free_target in H. srun H as tg w1 H1. srun H as v2 w2 H2. srun H as v3 w3 H3.
  srun H as v4 w4 H4. srun H as v5 w5 H5. srun H as v6 w6 H6.
  unfold free_target_block, free_in in H. case_match; simplify_eq. apply lookup_delete_eq.
Qed.

(** * Backends are numbered *)

(** The identifiers of the backends of a target are [1], [2], .., up to their
    count, each the [ID] of a live handler. *)
Record backends_ok (w : world) (tg : target) : Prop := {
  bk_keys : forall k, is_Some (tg_back_handlers tg !! k) <-> 1 <= k <= tg_back_handler_count tg;
  bk_ids : forall k h, tg_back_handlers tg !! k = Some h -> exists hd, w_handlers w !! h = Some hd /\ hd_ID hd = k;
}.

Lemma s64_small z : 0 <= z < 2 ^ 63 -> s64 z = z.
Proof. intros Hz. unfold s64, u64. rewrite Z.mod_small by lia. by rewrite (proj2 (Z.ltb_lt _ _)) by lia. Qed.

(** Adding a backend.  On a target whose backends are numbered without a
    gap, [add_back_handler] gives a new handler the next number and files it
    under it; the other backends are untouched, and the numbering stays
    without a gap. *)
Lemma add_back_handler_numbers w t tg h hd :
  w_targets w !! t = Some tg -> backends_ok w tg -> w_handlers w !! h = Some hd ->
  0 <= tg_back_handler_count tg < 2 ^ 32 - 1 -> (forall k, tg_back_handlers tg !! k <> Some h) ->
  exists w' tg', add_back_handler (Some t) (Some h) w = Ret (OK, w') /\ w_targets w' !! t = Some tg' /\
    tg_back_handler_count tg' = tg_back_handler_count tg + 1 /\
    tg_back_handlers tg' = <[tg_back_handler_count tg + 1 := h]> (tg_back_handlers tg) /\ backends_ok w' tg'.
Proof.
  intros Ht [Hk Hi] Hh Hn Hnew. set (id := tg_back_handler_count tg + 1).
  assert (Es : s64 (tg_back_handler_count tg + 1) = id) by (apply s64_small; lia).
  assert (Eu : u32 id = id) by (apply u32_small; lia).
  assert (Hnone : tg_back_handlers tg !! id = None).
  { apply eq_None_not_Some. rewrite Hk. lia. }
  unfold add_back_handler. erewrite sbind_eq by by apply deref_ok. erewrite sbind_eq by by apply deref_ok.
  rewrite Es, Eu, Hnone. eexists _, _. split; [reflexivity|]. simpl. rewrite lookup_insert_eq.
  split; [done|]. split; [done|]. split; [done|]. split; simpl.
  - intros k. destruct (decide (id = k)) as [<-|Hne].
    + rewrite lookup_insert_eq. split; [lia|eauto].
    + rewrite lookup_insert_ne by done. rewrite Hk. lia.
  - intros k h'. destruct (decide (id = k)) as [<-|Hne].
    + rewrite lookup_insert_eq. intros [= <-]. eexists. by rewrite lookup_insert_eq.
    + rewrite lookup_insert_ne by done. intros Hk'. rewrite lookup_insert_ne by (intros ->; by apply (Hnew k)). eauto.
Qed.

(** Removing frees twice.  [remove_target] on a registered target and
    [remove_back_handler] on a registered backend never return: the tree frees
    the structure when the entry is removed, and the code then uses and frees
    it again. *)
Lemma removal_frees_twice w :
  (forall targetID t r w', targets w !! u32 targetID = Some t -> remove_target targetID w <> Ret (r, w')) /\
  (forall t tg backendID h r w', w_targets w !! t = Some tg -> tg_back_handlers tg !! u32 backendID = Some h ->
     remove_back_handler t backendID w <> Ret (r, w')).
Proof.
  split.
  - intros id t r w' Ht H. unfold remove_target in H. srun H as ts w1 H1. injection H1 as <- <-. rewrite Ht in H.
    srun H as v w2 H2. injection H2 as _ <-. srun H as v' w3 H3. apply free_target_spec in H3.
    srun H as tg w4 H4. unfold get_target in H4. apply deref_Ret_inv in H4 as (b & [= <-] & E & _). congruence.
  - intros t tg id h r w' Ht Hh H. unfold remove_back_handler in H. srun H as tg' w1 H1. unfold get_target in H1.
    apply deref_Ret_inv in H1 as (b & [= <-] & E & ->). assert (tg' = tg) as -> by congruence. rewrite Hh in H.
    srun H as v w2 H2. srun H as v1 w3 H3. apply free_handler_spec in H3 as (E3 & _ & _). srun H as v2 w4 H4.
    apply free_handler_spec in H4 as (_ & [x Hx] & _). rewrite E3, lookup_delete_eq in Hx. done.
Qed.

(** No key of [intra_handlers] is a handler read as an address. *)
Lemma remove_intra_keys_none t tg h hd ips w u w' :
  w_targets w !! t = Some tg -> w_handlers w !! h = Some hd -> handler_as_addr hd = None ->
  remove_intra_keys t h ips w = Ret (u, w') -> w_targets w' !! t = Some tg /\ w_handlers w' = w_handlers w.
Proof.
  revert w. induction ips as [|x ips IH]; intros w Ht Hh Ha H; cbn [remove_intra_keys] in H; [by injection H as _ <-|].
  srun H as hd1 w1 H1. unfold get_handler in H1. apply deref_Ret_inv in H1 as (b & [= <-] & E & ->).
  assert (hd1 = hd) as -> by congruence. rewrite Ha in H. srun H as tg1 w2 H2. unfold get_target in H2.
  apply deref_Ret_inv in H2 as (b & [= <-] & E' & ->). assert (tg1 = tg) as -> by congruence. srun H as v w1 H1.
  case_decide; [|done]. injection H1 as _ <-. srun H as v' w1 H1. injection H1 as _ <-.
  apply IH in H; [done| |done|done]. simpl. apply lookup_insert_eq.
Qed.

(** Removing an INTRA handler answers [NOK] and leaves its addresses bound to
    the freed structure. *)
Lemma removed_intra_dangles w t tg h hd l ip id r w' :
  w_targets w !! t = Some tg -> tg_intra_handlers_list tg = h :: l -> w_handlers w !! h = Some hd -> hd_ID hd = id ->
  handler_as_addr hd = None -> tg_intra_handlers tg !! ip = Some h -> remove_intra_handler t id w = Ret (r, w') ->
  r = NOK /\ w_handlers w' !! h = None /\
  exists tg', w_targets w' !! t = Some tg' /\ tg_intra_handlers tg' !! ip = Some h.
Proof.
  intros Ht Hl Hh Hid Ha Hip H. unfold remove_intra_handler in H. srun H as tg0 w1 H1. unfold get_target in H1.
  apply deref_Ret_inv in H1 as (b & [= <-] & E & ->). assert (tg0 = tg) as -> by congruence. clear E.
  srun H as u w1 H1. injection H as <- <-. rewrite Hl in H1. cbn [remove_intra_loop] in H1.
  srun H1 as hd0 w2 H2. unfold get_handler in H2. apply deref_Ret_inv in H2 as (b & [= <-] & E & ->).
  assert (hd0 = hd) as -> by congruence. clear E. rewrite Hid, Z.eqb_refl in H1. srun H1 as v w2 H2.
  destruct (remove_intra_keys_none _ _ _ _ _ _ _ _ Ht Hh Ha H2) as [Ht2 Hh2].
apply free_handler_spec in H1 as (E1 & _ & E2).
  split; [done|]. split; [by rewrite E1, lookup_delete_eq|]. exists tg. by rewrite E2.
Qed.

(** ** Witnesses *)

Definition target_empty : target := the_target <| tg_back_handlers := ∅ |> <| tg_back_handler_count := 0 |>.
Definition world_empty_target : world := world0 <| w_targets := {[ 10%positive := target_empty ]} |>.

Lemma add_back_handler_numbers_witness : exists w' tg',
  add_back_handler (Some 10%positive) (Some 12%positive) world_empty_target = Ret (OK, w') /\
  w_targets w' !! 10%positive = Some tg' /\ tg_back_handler_count tg' = 1 /\
  tg_back_handlers tg' = <[1 := 12%positive]> ∅ /\ backends_ok w' tg'.
Proof.
  apply (add_back_handler_numbers world_empty_target 10 target_empty 12 hih_handler).
  - reflexivity.
  - split; simpl; [intros k; rewrite lookup_empty; split; [by intros [x Hx]|lia]|done].
  - reflexivity.
  - simpl. lia.
  - intros k. change (tg_back_handlers target_empty) with (∅ : gmap Z ptr). by rewrite lookup_empty.
Defined.

Lemma removal_frees_twice_witness :
  remove_target 0 world0 <> Ret (OK, world0) /\ remove_back_handler 10 2 world0 <> Ret (OK, world0).
Proof.
  destruct (removal_frees_twice world0) as [Ht Hb]. split.
  - apply (Ht 0 10%positive OK world0). reflexivity.
  - apply (Hb 10%positive the_target 2 12%positive OK world0); reflexivity.
Defined.

(** The faults are uses after free. *)
Example remove_target_fault : remove_target 0 world0 = Fault UseAfterFree.
Proof. vm_compute. reflexivity. Qed.
Example remove_back_handler_fault : remove_back_handler 10 2 world0 = Fault UseAfterFree.
Proof. vm_compute. reflexivity. Qed.
