(* ===== verification/ModVmi.v ===== *)
(** The module that picks honeypots by virtual machine introspection
    ([mod_vmi.c], built with the XML-RPC library): its initialisation, the mode
    that picks a clone and the mode that watches it.

    The call to the introspection server is the parameter [echo_test] (whether
    it succeeds), the timers of the clones the parameter [outlived] (whether a
    clone is older than [MAX_LIFE]).  The body of [get_new_clone] is commented
    out in the source: what is left takes the lock of the target, never releases
    it, and returns no value.  The mutexes are not represented. *)
From S2P Require Import Prelude Mem CString Types World Samples Keys Checksum TcpOptions Packet Netcode.
From S2P Require Import Connections ConnTrees Redirect DecisionEngine DecisionTrees.

Definition upd_vmi (g : vmi_state -> vmi_state) : M unit := smodify (fun w => w <| w_vmi ::= g |>).

(** [g_tree_lookup], also on a null tree. *)
Definition tree_lookup {V} (t : option (gmap Z V)) (key : Z) : option V :=
  match t with Some t => t !! key | None => None end.

(** * Start-up *)

(** The value of [vmi_server->str] is needed whatever [g_string_printf] does with
    a null pointer. *)
Definition init_mod_vmi (echo_test : list Z -> bool) (config : gmap string config_value) : M Z :=
  match config !! "vmi_server_ip"%string with
  | None => do_ upd_vmi (fun v => v <| vmi_initialized := false |>); sret 0
  | Some (CKeyFile _) => sfault OutOfBounds
  | Some (CBlock ip) =>
    match config !! "vmi_server_port"%string with
    | None => sfault Exited
    | Some (CKeyFile _) => sfault OutOfBounds
    | Some (CBlock port) =>
      do _port <- slift (ld32 port 0);
      do v <- sgets w_vmi;
      do _server <- slift (nonnull (vmi_server v));
      if echo_test ip then
        do_ upd_vmi (fun v => v <| bannedIPs := Some ∅ |> <| vmi_initialized := true |>);
        sret 0
      else sfault Exited
    end
  end.

(** * The modes *)

Section Modes.
Context (outlived : ptr -> bool).

Definition get_new_clone (conn : conn_struct) : M ptr :=
  do _vm <- malloc;
  do _t <- get_target (cn_target conn);
  sfault Uninitialised.

Definition mod_vmi_pick (args : mod_args) : M (mod_result_t * mod_args) :=
  do v <- sgets w_vmi;
  if negb (vmi_initialized v) then sret (ACCEPT, args)
  else
    do p <- get_pkt (ma_pkt args);
    do '(_, c) <- pkt_conn p;
    do t <- get_target (cn_target c);
    if decide (pt_in p <> tg_default_route t) then sret (REJECT, args)
    else
      do saddr <- slift (ip_saddr (FRAME (pt_packet p)) (p_ip (pt_packet p)));
      match tree_lookup (bannedIPs v) (u32 saddr) with
      | Some (Some _) => sret (REJECT, args)
      | _ =>
        do vm <- (match tree_lookup (vmi_vms_ext v) (u32 saddr) with
                  | Some vm => sret vm
                  | None => get_new_clone c
                  end);
        do m <- deref (fun w => vmi_vms (w_vmi w)) (Some vm);
        do_ upd_vmi (fun v => v <| vmi_vms ::= <[vm := m <| vm_conn_keys ::= fun l => l ++ [cn_ext_key c] |>]> |>);
        sret (ACCEPT, args <| ma_backend_use := vm_backendID m |>)
      end.

Definition mod_vmi_control (args : mod_args) : M mod_result_t :=
  do p <- get_pkt (ma_pkt args);
  if decide (pt_origin p <> HIH) then sret ACCEPT
  else
    do v <- sgets w_vmi;
    if negb (vmi_initialized v) then sret ACCEPT
    else
      do '(_, c) <- pkt_conn p;
      match tree_lookup (vmi_vms_int v) (u32 (hih_hihID (cn_hih c))) with
      | None => sret ACCEPT
      | Some vm =>
        do m <- deref (fun w => vmi_vms (w_vmi w)) (Some vm);
        let put m := upd_vmi (fun v => v <| vmi_vms ::= <[vm := m]> |>) in
        if outlived vm then do_ put (m <| vm_close := true |>); sret REJECT
        else
          do daddr <- slift (ip_daddr (FRAME (pt_packet p)) (p_ip (pt_packet p)));
          if (daddr =? cn_first_pkt_src_ip c) || (vm_key_ext m =? daddr) then
            do_ put (m <| vm_signal := true |>); sret ACCEPT
          else do_ put (m <| vm_close := true |> <| vm_signal := true |>); sret REJECT
      end.

Definition mod_vmi (args : mod_args) : M (mod_result_t * mod_args) :=
  do n <- get_node (Some (ma_node args));
  match nd_config n !! "mode"%string with
  | None => sret (DEFER, args)
  | Some (CKeyFile _) => sfault OutOfBounds
  | Some (CBlock mode) =>
    let mode := c_string mode in
    if decide (mode = "pick"%string) then mod_vmi_pick args
    else if decide (mode = "control"%string) then do r <- mod_vmi_control args; sret (r, args)
    else sret (DEFER, args)
  end.

(** * The timer of a clone *)

(** A turn of the loop of [vm_timer]: whether the thread waits once more after
    its wait ended, by a time-out or by a signal. *)
Definition vm_timer_turn (vm : ptr) (timed_out : bool) : M bool :=
  do m <- deref (fun w => vmi_vms (w_vmi w)) (Some vm);
  if vm_close m then sret false
  else if timed_out then sret false
  else if vm_signal m then
    do_ upd_vmi (fun v => v <| vmi_vms ::= <[vm := m <| vm_signal := false |>]> |>); sret true
  else sret true.

(** * The module is never initialised *)

(** Nothing sets [vmi_server]. *)
Definition vmi_dormant (w : world) : Prop := vmi_server (w_vmi w) = None /\ vmi_initialized (w_vmi w) = false.

Lemma init_mod_vmi_dormant echo_test config w r w' :
  vmi_dormant w -> init_mod_vmi echo_test config w = Ret (r, w') -> vmi_dormant w' /\ config !! "vmi_server_ip"%string = None.
Proof.
  intros [Hs Hi] H. unfold init_mod_vmi in H. destruct (config !! "vmi_server_ip"%string) as [[ip|]|]; [|discriminate H|].
  - destruct (config !! "vmi_server_port"%string) as [[port|]|]; try discriminate H. srun H as x w1 H1.
    apply slift_Ret_inv in H1 as [_ ->]. srun H as v w1 H1. injection H1 as <- <-. srun H as s w2 H2.
    apply slift_Ret_inv in H2 as [H2 _]. rewrite Hs in H2. discriminate H2.
  - injection H as _ <-. done.
Qed.

Lemma mod_vmi_dormant args w r w' : vmi_dormant w -> mod_vmi args w = Ret (r, w') ->
  w' = w /\ r.2 = args /\ (r.1 = ACCEPT \/ r.1 = DEFER).
Proof.
  intros [_ Hi] H. unfold mod_vmi in H. srun H as n w1 H1. unfold get_node in H1.
  apply deref_Ret_inv in H1 as (a & _ & _ & ->). destruct (nd_config n !! "mode"%string) as [[mode|]|];
    [|discriminate H|injection H as <- <-; by auto].
  cbn zeta in H. case_decide; [|case_decide].
  - unfold mod_vmi_pick in H. srun H as v w1 Hv. injection Hv as <- <-. rewrite Hi in H. injection H as <- <-. by auto.
  - srun H as x w1 Hx. injection H as <- <-. unfold mod_vmi_control in Hx. srun Hx as p w2 Hp.
    unfold get_pkt in Hp. apply deref_Ret_inv in Hp as (b & _ & _ & ->). case_decide; [injection Hx as <- <-; by auto|].
    srun Hx as v w2 Hv. injection Hv as <- <-. rewrite Hi in Hx. injection Hx as <- <-. by auto.
  - injection H as <- <-. by auto.
Qed.
End Modes.
