(* ===== verification/Modules.v ===== *)
(** The decision modules ([mod_yesno.c], [mod_counter.c], [mod_random.c],
    [mod_backpick_random.c], [mod_control.c], [mod_source.c],
    [mod_source_time.c], [mod_dns_control.c], [mod_hash.c]) and the saving of
    their tables ([modules.c]); with [mod_vmi] they implement [ModuleRunner].

    What is outside the program is a parameter: the capacity of the string
    buffers GLib returns, libdnet's
    [addr_pton], the digest of OpenSSL and the replacement of addresses by the
    regular expression of [mod_hash], the byte its [malloc] leaves
    uninitialised, and the timers of [mod_vmi]. *)
From Stdlib Require Import Ascii String.
From S2P Require Import Prelude Mem CString Types World Samples Keys Checksum TcpOptions Packet Netcode.
From S2P Require Import Connections ConnTrees Redirect DecisionEngine DecisionTrees Management ModVmi.

(** * Parameters of a module *)

Definition str (s : string) : list Z := (fun a => Z.of_N (N_of_ascii a)) <$> String.list_ascii_of_string s.

Section Modules.
Context (cap : list Z -> Z).
Context (addr_pton_ip : list Z -> Z) (addr_pton_mac : list Z -> list Z).
Context (sha1 : list Z -> list Z) (replace_ip : list Z -> option (list Z)) (junk : Z).
Context (outlived : ptr -> bool).

(** The block or the key file a parameter points to; one read as the other is
    outside the program's memory model. *)
Definition config_block (n : node) (key : string) : M (option (list Z)) :=
  match nd_config n !! key with
  | None => sret None
  | Some (CBlock bs) => sret (Some bs)
  | Some (CKeyFile _) => sfault OutOfBounds
  end.
Definition config_file (n : node) (key : string) : M (option ptr) :=
  match nd_config n !! key with
  | None => sret None
  | Some (CKeyFile f) => sret (Some f)
  | Some (CBlock _) => sfault OutOfBounds
  end.

(** [atoi] of an optional parameter. *)
Definition config_atoi (n : node) (key : string) (default : Z) : M Z :=
  do bs <- config_block n key;
  match bs with Some bs => slift (atoi bs) | None => sret default end.

(** * Modules without a memory *)

Definition mod_yesno (args : mod_args) : M mod_result_t :=
  do n <- get_node (Some (ma_node args));
  do param <- config_block n "value";
  match param with
  | None => sret DEFER
  | Some bs => do v <- slift (ld32 bs 0); sret (if s32 v =? 0 then ACCEPT else REJECT)
  end.

Definition mod_counter (args : mod_args) : M mod_result_t :=
  do n <- get_node (Some (ma_node args));
  do param <- config_block n "counter";
  match param with
  | None => sret DEFER
  | Some bs =>
    do v <- slift (atoi bs);
    do p <- get_pkt (ma_pkt args);
    do '(_, c) <- pkt_conn p;
    sret (if u32 v <=? cn_count_data_pkt_from_intruder c then ACCEPT else REJECT)
  end.

(** [(int) (value * (rand() / (RAND_MAX + 1.0)))] with [RAND_MAX] 2^31 - 1: the
    products that decide whether the result is [1] are exact in a [double]. *)
Definition random_proba (value draw : Z) : Z := value * draw / 2 ^ 31.
Definition mod_random (args : mod_args) : M mod_result_t :=
  do n <- get_node (Some (ma_node args));
  do param <- config_block n "value";
  match param with
  | None => sret DEFER
  | Some bs =>
    do value <- slift (ld32 bs 0);
    if value <? 1 then sret REJECT
    else
      do rand <- sgets w_rand;
      sret (if random_proba value (rand args) =? 1 then ACCEPT else REJECT)
  end.

(** The identifier picked is the only argument a module changes. *)
Definition mod_backpick_random (args : mod_args) : M (mod_result_t * mod_args) :=
  do p <- get_pkt (ma_pkt args);
  do '(_, c) <- pkt_conn p;
  do t <- get_target (cn_target c);
  let n_backends := Z.of_nat (size (tg_back_handlers t)) in
  if n_backends <=? 0 then sret (REJECT, args)
  else
    do rand <- sgets w_rand;
    sret (ACCEPT, args <| ma_backend_use := rand args mod n_backends + 1 |>).

(** * The tables of sources and hashes *)

Definition get_key_file (f : ptr) : M key_file := deref w_key_files (Some f).
Definition put_key_file (f : ptr) (k : key_file) : M unit :=
  smodify (fun w => w <| w_key_files ::= <[f := k]> |>).

(** [save_backup]: [1] for a new entry, [0] for a replaced one. *)
Definition save_backup (data : ptr) (filename : list Z) : M Z :=
  do m <- sgets module_to_save;
  do_ smodify (fun w => w <| module_to_save ::= <[filename := data]> |>);
  sret (match m !! filename with None => 1 | Some _ => 0 end).

(** [info[i]] of a list of strings that ends with a null pointer. *)
Definition info_at (info : list (list Z)) (i : nat) : outcome (list Z) :=
  match info !! i with
  | Some s => Ret s
  | None => if decide (i = length info) then Fault NullDeref else Fault OutOfBounds
  end.
Definition atoi_at (info : list (list Z)) (i : nat) : outcome Z :=
  let! s := info_at info i in atoi (s ++ [0]).

(** [g_snprintf(info[i], 20, ..)] over a string GLib returned. *)
Definition print_at (info : list (list Z)) (i : nat) (s : list Z) : outcome (list (list Z)) :=
  let! old := info_at info i in
  let! new := snprintf20 (cap old) s in
  Ret (<[i := new]> info).

(** A new entry: counter, date and duration in buffers of 20 bytes. *)
Definition new_entry (now : Z) : outcome (list (list Z)) :=
  let! counter := snprintf20 20 (print_d 1) in
  let! seen := snprintf20 20 (print_d now) in
  let! duration := snprintf20 20 (print_d 0) in
  Ret [counter; seen; duration].

(** The same in the buffers of an expired entry. *)
Definition renew_entry (now : Z) (info : list (list Z)) : outcome (list (list Z)) :=
  let! info := print_at info 0 (print_d 1) in
  let! info := print_at info 1 (print_d now) in
  print_at info 2 (print_d 0).

(** One more packet, and the time since the first one. *)
Definition update_entry (now : Z) (info : list (list Z)) : outcome (list (list Z)) :=
  let! n := atoi_at info 0 in
  let! info := print_at info 0 (print_d (s32 (n + 1))) in
  let! seen := atoi_at info 1 in
  print_at info 2 (print_d (s32 (now - seen))).

(** The files of a module: its table and the path it is saved to. *)
Definition with_backup (n : node) (k : ptr -> list Z -> M mod_result_t) : M mod_result_t :=
  do backup <- config_file n "backup";
  match backup with
  | None => sret DEFER
  | Some backup =>
    do path <- config_block n "backup_file";
    match path with
    | None => sret DEFER
    | Some path => k backup path
    end
  end.

(** [g_key_file_set_string_list], which stops at a null pointer, and
    [save_backup]. *)
Definition store_entry (backup : ptr) (path group key : list Z) (n : nat) (info : list (list Z)) : M unit :=
  do kf <- get_key_file backup;
  do_ put_key_file backup (<[(group, key) := take n info]> kf);
  do path <- slift (c_bytes path);
  do _r <- save_backup backup path;
  sret tt.

Definition pkt_saddr (pkt : ptr) : M Z :=
  do p <- get_pkt pkt; slift (ip_saddr (FRAME (pt_packet p)) (p_ip (pt_packet p))).

Definition mod_control (args : mod_args) : M mod_result_t :=
  do now <- sgets w_now;
  do saddr <- pkt_saddr (ma_pkt args);
  let src := inet_ntop saddr in
  do n <- get_node (Some (ma_node args));
  with_backup n (fun backup path =>
    do expiration <- config_atoi n "expiration" 600;
    do max_packet <- config_atoi n "max_packet" 1000;
    do kf <- get_key_file backup;
    do info <- slift (match kf !! (str "source", src) with
                      | None => new_entry now
                      | Some info =>
                        let! age := atoi_at info 2 in
                        if expiration <? age then renew_entry now info else update_entry now info
                      end);
    do count <- slift (atoi_at info 0);
    do_ store_entry backup path (str "source") src 3 info;
    sret (if max_packet <? count then REJECT else ACCEPT)).

Definition mod_source (args : mod_args) : M mod_result_t :=
  do now <- sgets w_now;
  do saddr <- pkt_saddr (ma_pkt args);
  let key_src := print_u saddr in
  do n <- get_node (Some (ma_node args));
  with_backup n (fun backup path =>
    do kf <- get_key_file backup;
    do '(result, info) <- slift (match kf !! (str "source", key_src) with
                      | None => let! info := new_entry now in Ret (ACCEPT, info)
                      | Some info =>
                        let! age := atoi_at info 2 in
                        if 86400 <? age then let! info := renew_entry now info in Ret (ACCEPT, info)
                        else let! info := update_entry now info in Ret (REJECT, info)
                      end);
    do_ store_entry backup path (str "source") key_src 3 info;
    sret result).

Definition mod_source_time (args : mod_args) : M mod_result_t :=
  do now <- sgets w_now;
  do saddr <- pkt_saddr (ma_pkt args);
  let key_src := print_u saddr in
  do n <- get_node (Some (ma_node args));
  with_backup n (fun backup path =>
    do expiration <- config_atoi n "expiration" 86400;
    do deny_after <- config_atoi n "deny_after" 1200;
    do allow_after <- config_atoi n "allow_after" 0;
    if deny_after <=? allow_after then sret DEFER
    else
      let first := if allow_after =? 0 then ACCEPT else REJECT in
      do kf <- get_key_file backup;
      do '(result, info) <- slift (match kf !! (str "source", key_src) with
                        | None => let! info := new_entry now in Ret (first, info)
                        | Some info =>
                          let! age := atoi_at info 2 in
                          if expiration <? age then let! info := renew_entry now info in Ret (first, info)
                          else
                            let! seen := atoi_at info 1 in
                            let inside := (now <=? s32 (seen + deny_after)) && (s32 (seen + allow_after) <=? now) in
                            let! info := update_entry now info in
                            Ret (if inside then ACCEPT else REJECT, info)
                        end);
      do_ store_entry backup path (str "source") key_src 3 info;
      sret result).

(** * [mod_dns_control] *)

(** The packet carries a DNS query: [qr] and [opcode] are in the third byte of
    the header, [q_count] at offset 4; [ntohs] of a four-bit [opcode] is less
    than 6 only when it is zero. *)
Definition is_dns_query (p : pkt_struct) : outcome bool :=
  let f := FRAME (pt_packet p) in
  let! protocol := ip_protocol f (p_ip (pt_packet p)) in
  let! other_port := (if (protocol =? IPPROTO_TCP) || (protocol =? IPPROTO_UDP) then
                        let! dest := l4_dest f (p_l4 (pt_packet p)) in Ret (negb (ntohs dest =? 53))
                      else Ret false) in
  if other_port || (pt_data p <? 12) then Ret false
  else
    let! flags := ld8 f (p_payload (pt_packet p) + 2) in
    let! q_count := ld16 f (p_payload (pt_packet p) + 4) in
    Ret (negb (Z.testbit flags 7) && (0 <? q_count) && (ntohs (Z.land (Z.shiftr flags 3) 15) <? 6)).

(** The connection leaves for the INTRA host that stands for the address it was
    sent to, a new one (the configured DNS server) when there is none. *)
Definition dns_redirect (conn : ptr) (daddr : Z) (iface ip mac vlan : list Z) : M unit :=
  do _st <- switch_state conn PROXY;
  do_ upd_conn conn (fun c => c <| cn_destination := INTRA |>);
  do c <- get_conn conn;
  do t <- get_target (cn_target c);
  do found <- slift (intra_lookup t daddr);
  do ih <- (match found with
            | Some ih => sret ih
            | None =>
              do h <- malloc;
              do ls <- sgets links;
              do vlan <- slift (ld32 vlan 0);
              do_ put_handler h (Handler 0 (Some (addr_pton_mac mac)) (Some (addr_pton_ip ip)) None
                                   (htons (Z.land vlan 4095)) (ls !! c_string iface) None 0 []);
              do _st <- add_intra_handler (cn_target c) (Some daddr) (Some h);
              sret h
            end);
  do _st <- switch_conn_to_intra conn ih;
  sret tt.

Definition mod_dns_control (args : mod_args) : M mod_result_t :=
  do p <- get_pkt (ma_pkt args);
  do query <- slift (is_dns_query p);
  if negb query then sret ACCEPT
  else
    do n <- get_node (Some (ma_node args));
    do iface <- config_block n "interface";
    do ip <- config_block n "ip";
    do mac <- config_block n "mac";
    do vlan <- config_block n "vlan_id";
    match iface, ip, mac, vlan with
    | Some iface, Some ip, Some mac, Some vlan =>
      do '(conn, _) <- pkt_conn p;
      do daddr <- slift (ip_daddr (FRAME (pt_packet p)) (p_ip (pt_packet p)));
      do_ dns_redirect conn daddr iface ip mac vlan;
      sret ACCEPT
    | _, _, _, _ => sret ACCEPT
    end.

(** * [mod_hash] *)

(** The copy of the payload: [data - 1] bytes, one byte that is never written,
    and a zero; addresses in it are replaced, in a new block. *)
Definition hash_payload (p : pkt_struct) : outcome (list Z) :=
  let! bs := mget (FRAME (pt_packet p)) (p_payload (pt_packet p)) (Z.to_nat (pt_data p - 1)) in
  let payload := bs ++ [junk; 0] in
  let! text := c_bytes payload in
  match replace_ip text with
  | Some text => Ret (text ++ [0])
  | None => Ret payload
  end.

(** The first characters, at most 64, the unprintable ones as dots. *)
Definition hash_ascii (text : list Z) : list Z :=
  (fun b => if (32 <=? b) && (b <=? 126) then b else 46) <$> take 64 text.

Definition hex_digit (d : Z) : Z := if d <? 10 then 48 + d else 87 + d.
Definition hex (bs : list Z) : list Z := bs ≫= (fun b => [hex_digit (b / 16); hex_digit (b mod 16)]).

(** The digest covers [data - 2] bytes, a [size_t]; the payload is given in hexadecimal. *)
Definition hash_key (p : pkt_struct) (payload : list Z) : outcome (list Z) :=
  let! digested := mget payload 0 (Z.to_nat (u32 (pt_data p - 2))) in
  Ret (hex (sha1 digested)).

(** A new entry; the text is cut to fit its buffer, which is a null pointer when
    the text is empty: the list then ends before it. *)
Definition new_hash (now : Z) (p : pkt_struct) (c : conn_struct) (ascii : list Z) : outcome (list (list Z)) :=
  let! entry := new_entry now in
  let! packet := snprintf20 20 (print_d (s32 (cn_count_data_pkt_from_intruder c))) in
  let! byte := snprintf20 20 (print_d (s32 (pt_data p))) in
  let text := match ascii with [] => [] | _ => [removelast ascii] end in
  Ret (entry ++ [packet; byte] ++ text).

(** An entry already known: the duration is computed from the duration. *)
Definition update_hash (now : Z) (c : conn_struct) (info : list (list Z)) : outcome (mod_result_t * list (list Z)) :=
  let! age := atoi_at info 2 in
  let! '(result, info) :=
    (if 86400 <? age then let! info := renew_entry now info in Ret (ACCEPT, info)
     else
       let! n := atoi_at info 0 in
       let! info := print_at info 0 (print_d (s32 (n + 1))) in
       let! duration := atoi_at info 2 in
       let! info := print_at info 2 (print_d (s32 (now - duration))) in
       Ret (REJECT, info)) in
  let! info := print_at info 3 (print_d (s32 (cn_count_data_pkt_from_intruder c))) in
  Ret (result, info).

Definition mod_hash (args : mod_args) : M mod_result_t :=
  do p <- get_pkt (ma_pkt args);
  if pt_data p =? 0 then sret DEFER
  else
    do n <- get_node (Some (ma_node args));
    with_backup n (fun backup path =>
      do dest <- slift (l4_dest (FRAME (pt_packet p)) (p_l4 (pt_packet p)));
      let port := print_u dest in
      do now <- sgets w_now;
      do payload <- slift (hash_payload p);
      do text <- slift (c_bytes payload);
      do key <- slift (hash_key p payload);
      do '(_, c) <- pkt_conn p;
      do kf <- get_key_file backup;
      do '(result, info) <- slift (match kf !! (port, key) with
                        | None => let! info := new_hash now p c (hash_ascii text) in Ret (ACCEPT, info)
                        | Some info => update_hash now c info
                        end);
      do_ store_entry backup path port key 6 info;
      sret result).

(** * The runner *)

Definition modules_runner : ModuleRunner := fun f args =>
  let keep (m : M mod_result_t) : M (mod_result_t * mod_args) := do r <- m; sret (r, args) in
  match f with
  | Types.mod_source => keep (mod_source args)
  | Types.mod_source_time => keep (mod_source_time args)
  | Types.mod_random => keep (mod_random args)
  | Types.mod_yesno => keep (mod_yesno args)
  | Types.mod_counter => keep (mod_counter args)
  | Types.mod_vmi => mod_vmi outlived args
  | Types.mod_control => keep (mod_control args)
  | Types.mod_backpick_random => mod_backpick_random args
  | Types.mod_dns_control => keep (mod_dns_control args)
  | Types.mod_hash => keep (mod_hash args)
  end.
End Modules.

(** * Saving the tables *)

(** [write_backup]: the contents written to the file, when it can be opened. *)
Definition write_backup (can_open : list Z -> bool) (filename : list Z) (data : ptr) : M (option key_file) :=
  do kf <- get_key_file data;
  sret (if can_open filename then Some kf else None).

(** One turn of [save_backup_handler]: [g_hash_table_foreach_steal] takes out of
    [module_to_save] the entries whose file was written. *)
Fixpoint write_backups (can_open : list Z -> bool) (l : list (list Z * ptr)) : M (list (list Z * key_file)) :=
  match l with
  | [] => sret []
  | (filename, data) :: l =>
    do r <- write_backup can_open filename data;
    match r with
    | None => write_backups can_open l
    | Some kf =>
      do_ smodify (fun w => w <| module_to_save ::= delete filename |>);
      do written <- write_backups can_open l;
      sret ((filename, kf) :: written)
    end
  end.
Definition save_backup_round (can_open : list Z -> bool) : M (list (list Z * key_file)) :=
  do m <- sgets module_to_save; write_backups can_open (map_to_list m).
