(* ===== verification/ModulesOk.v ===== *)
(** What the decision modules guarantee: they discharge the interfaces the
    decision engine relies on, and the table of sources works as a rate
    limiter. *)
From S2P Require Import Prelude Mem CString Types World Samples Keys Checksum TcpOptions Packet Netcode.
From S2P Require Import Connections ConnTrees Redirect DecisionEngine DecisionTrees Management ModVmi Modules.

(** * Computations that return *)

(** [returns m]: no loop of [m] runs out of fuel. *)
Definition returns {A} (m : M A) : Prop := forall w, m w <> Fault Hangs.
Definition ends {A} (o : outcome A) : Prop := o <> Fault Hangs.

Lemma returns_sbind {A B} (m : M A) (k : A -> M B) : returns m -> (forall a, returns (k a)) -> returns (sbind m k).
Proof.
  intros Hm Hk w. unfold sbind. specialize (Hm w). destruct (m w) as [[a w']|e]; [apply Hk|congruence].
Qed.
Lemma returns_slift {A} (o : outcome A) : ends o -> returns (slift o).
Proof. intros Ho w. unfold slift. destruct o; [done|]. unfold ends in Ho. congruence. Qed.
Lemma returns_deref {V} (h : world -> gmap ptr V) p : returns (deref h p).
Proof. intros w. unfold deref. by repeat case_match. Qed.
Lemma ends_obind {A B} (o : outcome A) (k : A -> outcome B) : ends o -> (forall a, ends (k a)) -> ends (obind o k).
Proof. intros Ho Hk. destruct o; simpl; [apply Hk|unfold ends in *; congruence]. Qed.
Lemma ends_mget f off n : ends (mget f off n).
Proof. unfold ends, mget. by case_decide. Qed.
Lemma ends_nonnull {A} (o : option A) : ends (nonnull o).
Proof. by destruct o. Qed.
Lemma ends_read_digits bs acc : ends (read_digits bs acc).
Proof. revert acc. induction bs as [|b bs IH]; intros acc; cbn [read_digits]; [done|]. by destruct (is_digit b). Qed.
Lemma ends_c_bytes bs : ends (c_bytes bs).
Proof.
  induction bs as [|b bs IH]; cbn [c_bytes]; [done|]. destruct (_ =? _); [done|]. by apply ends_obind.
Qed.
Create HintDb ends.
#[export] Hint Resolve returns_deref ends_mget ends_nonnull ends_read_digits ends_c_bytes : ends.

Ltac ends_step :=
  first
    [ assumption | solve [auto with ends]
    | apply returns_slift | apply returns_sbind; [|intros ?] | apply ends_obind; [|intros ?]
    | match goal with
      | |- returns (if ?b then _ else _) => destruct b
      | |- returns (match ?x with _ => _ end) => destruct x
      | |- returns (let '(_, _) := ?x in _) => destruct x
      | |- ends (if ?b then _ else _) => destruct b
      | |- ends (match ?x with _ => _ end) => destruct x
      end
    | done ].
Ltac ends_tac := repeat ends_step.

Lemma ends_atoi bs : ends (atoi bs).
Proof. unfold atoi. ends_tac. Qed.
Lemma ends_snprintf20 cap s : ends (snprintf20 cap s).
Proof. unfold snprintf20. ends_tac. Qed.
Lemma ends_info_at info i : ends (info_at info i).
Proof. unfold info_at. ends_tac. Qed.
#[export] Hint Resolve ends_atoi ends_snprintf20 ends_info_at : ends.

Section Interfaces.
Context (cap : list Z -> Z).
Context (addr_pton_ip : list Z -> Z) (addr_pton_mac : list Z -> list Z).
Context (sha1 : list Z -> list Z) (replace_ip : list Z -> option (list Z)) (junk : Z).
Context (outlived : ptr -> bool).

Notation runner :=
  (modules_runner cap addr_pton_ip addr_pton_mac sha1 replace_ip junk outlived).

(** ** The modules leave the connections alone *)

Lemma quiet_put_key_file f k : quietly (put_key_file f k).
Proof. apply keeps_smodify. intros w. by constructor. Qed.
Lemma quiet_save_backup f k : quietly (save_backup f k).
Proof.
  unfold save_backup. assert (quietly (smodify (fun w => w <| module_to_save ::= <[k := f]> |>)))
    by (apply keeps_smodify; intros w; by constructor). keeps_tac.
Qed.
#[local] Hint Resolve quiet_put_key_file quiet_save_backup : keeps.
Lemma quiet_store_entry f path g k n info : quietly (store_entry f path g k n info).
Proof. unfold store_entry, get_key_file. keeps_tac. Qed.
#[local] Hint Resolve quiet_store_entry : keeps.

Lemma quiet_upd_vmi g : quietly (upd_vmi g).
Proof. apply keeps_smodify. intros w. by constructor. Qed.
#[local] Hint Resolve quiet_upd_vmi : keeps.
Lemma quiet_mod_vmi args : quietly (mod_vmi outlived args).
Proof.
  unfold mod_vmi, mod_vmi_pick, mod_vmi_control, get_new_clone, get_node, get_pkt, get_target. keeps_tac.
Qed.
#[local] Hint Resolve quiet_mod_vmi : keeps.

#[export] Instance modules_quiet : @QuietModules runner.
Proof.
  intros f args w r w' Hc H. revert w r w' H. change (quietly (runner f args)).
  destruct f; try discriminate Hc; unfold modules_runner, mod_source, mod_source_time, mod_random, mod_yesno, mod_counter,
    mod_control, mod_backpick_random, mod_hash, with_backup, config_atoi, config_block, config_file, pkt_saddr,
    get_key_file, get_node, get_pkt, get_target; keeps_tac.
Qed.

(** ** The modules change no rule, and return *)

Lemma dns_nodes args : keeps (fun w w' => w_nodes w' = w_nodes w) (mod_dns_control addr_pton_ip addr_pton_mac args).
Proof.
  assert (Hr : Reflexive (fun w w' => w_nodes w' = w_nodes w)) by by intros w.
  assert (Ht : Transitive (fun w w' => w_nodes w' = w_nodes w)) by (intros w1 w2 w3 H1 H2; congruence).
  unfold mod_dns_control, dns_redirect, config_block, pkt_conn, add_intra_handler, switch_conn_to_intra, insert_intra,
    switch_state, upd_conn, put_conn, put_handler, put_target, malloc, get_conn, get_pkt, get_node, get_target, get_handler.
  repeat first [ apply keeps_smodify; by intros | by intros ? ? ? [= <- <-] | progress keeps_tac ].
Qed.

Lemma dns_returns args : returns (mod_dns_control addr_pton_ip addr_pton_mac args).
Proof.
  unfold mod_dns_control, dns_redirect, config_block, pkt_conn, add_intra_handler, switch_conn_to_intra, insert_intra,
    switch_state, upd_conn, put_conn, put_handler, put_target, malloc, get_conn, get_pkt, get_node, get_target, get_handler,
    is_dns_query, ip_protocol, ip_daddr, l4_dest, ld8, ld16, ld32, remove_key, intra_find, intra_lookup.
  ends_tac.
Qed.

Lemma vmi_returns args : returns (mod_vmi outlived args).
Proof.
  unfold mod_vmi, mod_vmi_pick, mod_vmi_control, get_new_clone, get_node, get_pkt, get_target, pkt_conn, get_conn,
    ip_saddr, ip_daddr, ld32. ends_tac.
Qed.

#[export] Instance modules_laws : @ModuleLaws runner.
Proof.
  split.
  - intros f args w r w' H. destruct (confined f) eqn:Hc; [by apply q_nodes, (modules_quiet f args _ _ _ Hc H)|].
    destruct f; try discriminate Hc.
    change (sbind (mod_dns_control addr_pton_ip addr_pton_mac args) (fun r => sret (r, args)) w = Ret (r, w')) in H.
    srun H as x w1 H1. injection H as _ <-. by apply dns_nodes in H1.
  - intros f args. change (returns (runner f args)). destruct f; cbn [modules_runner]; try apply vmi_returns;
      try (apply returns_sbind; [|done]); try apply dns_returns;
      unfold mod_source, mod_source_time, mod_random, mod_yesno, mod_counter,
      mod_control, mod_backpick_random, mod_hash, with_backup, config_atoi, config_block, config_file, pkt_saddr,
      get_key_file, get_node, get_pkt, get_target, pkt_conn, get_conn, store_entry, save_backup, put_key_file,
      new_entry, renew_entry, update_entry, print_at, atoi_at, new_hash, update_hash, hash_payload, hash_key,
      ip_saddr, l4_dest, ld16, ld32, get_key_file; ends_tac.
Qed.
End Interfaces.
