(* ===== verification/Gateway.v ===== *)
(** Runs of the gateway: its queues and its state, the atomic steps of its
    threads, and what holds of every run. *)
From S2P Require Import Prelude Mem Types World Samples Keys Checksum TcpOptions Packet Netcode.
From S2P Require Import Connections ConnTrees Redirect DecisionEngine DecisionTrees Icmp Engine Births EngineOk.
From S2P Require Import Management ModVmi Modules ModulesOk.

(** * Steps *)

(** The state of the gateway and the queues of its decision threads. *)
Record gateway := GatewayState {
  gw_world : world;
  gw_queues : gmap Z (list raw_pcap);
}.

Section Steps.
Context `{ModuleRunner} (needfrag : Z -> list Z -> list Z) (decision_threads : Z).

(** A frame of bytes is captured and perhaps queued; the thread of a queue handles its
    first frame; the cleaning thread runs a round; the thread of
    [save_backup_handler] saves the tables of the modules; time passes, and
    [rand] moves on.  A step that faults is the end of the program: there is no
    step. *)
Inductive step (g : gateway) : gateway -> Prop :=
  | step_capture iface len packet r w' :
      bytes packet -> pcap_cb decision_threads iface len packet (gw_world g) = Ret (r, w') ->
      step g (GatewayState w'
        (match r with
         | Some (q, raw) => <[q := default [] (gw_queues g !! q) ++ [raw]]> (gw_queues g)
         | None => gw_queues g
         end))
  | step_handle q raw rest microtime go w' :
      gw_queues g !! q = Some (raw :: rest) ->
      de_iteration needfrag raw microtime (gw_world g) = Ret (go, w') ->
      step g (GatewayState w' (<[q := rest]> (gw_queues g)))
  | step_clean clock w' :
      clean clock (gw_world g) = Ret (tt, w') ->
      step g (GatewayState w' (gw_queues g))
  | step_save can_open files w' :
      save_backup_round can_open (gw_world g) = Ret (files, w') ->
      step g (GatewayState w' (gw_queues g))
  | step_tick now rand :
      step g (GatewayState ((gw_world g) <| w_now := now |> <| w_rand := rand |>) (gw_queues g)).
End Steps.

(** * Cleaning *)

Definition still (w w' : world) : Prop := w_nodes w' = w_nodes w /\ (w_next w <= w_next w')%positive.
#[export] Instance still_refl : Reflexive still.
Proof. intros w. split; [done|lia]. Qed.
#[export] Instance still_trans : Transitive still.
Proof. intros w1 w2 w3 [E1 N1] [E2 N2]. split; [congruence|lia]. Qed.

Lemma quietly_still {A} (m : M A) : quietly m -> keeps still m.
Proof. apply keeps_weaken. by intros w w' []. Qed.

Lemma smodify_still g : (forall w, w_nodes (g w) = w_nodes w) -> (forall w, w_next (g w) = w_next w) -> keeps still (smodify g).
Proof. intros Hn Hx. apply keeps_smodify. intros w. split; [by rewrite Hn|by rewrite Hx]. Qed.

Lemma release_still get set k k' : (forall t, quietly (smodify (set t))) -> keeps still (release_pin get set k k').
Proof. intros Hs. by apply quietly_still, quiet_release. Qed.

Lemma remove_trees_still c : keeps still (remove_from_trees c).
Proof.
  assert (Hr : keeps still (release_pin comm_pin_tree set_comm_pin_tree (cn_pin_key c) (cn_pin_key c)))
    by (apply release_still; auto with keeps).
  assert (Hr' : keeps still (release_pin intra_pin_tree set_intra_pin_tree (cn_pin_key c) (cn_pin_key c)))
    by (apply release_still; auto with keeps).
  unfold remove_from_trees, remove_ext, remove_int, remove_intra. keeps_tac; by apply smodify_still.
Qed.

Lemma remove_conn_still a delay : keeps still (remove_conn a delay).
Proof.
  intros w u w' H1. unfold remove_conn in H1. srun H1 as c w1 H2. apply get_conn_inv in H2 as [_ ->].
  destruct (cn_lock c); [destruct (_ =? _); [done|by injection H1 as _ <-]|].
  srun H1 as v1 w1 H2. apply smodify_still in H2; [|done..]. srun H1 as v2 w2 H3. apply remove_trees_still in H3.
  srun H1 as v3 w3 H4. apply release_still in H4; [|auto with keeps]. srun H1 as c' w4 H5.
  apply get_conn_inv in H5 as [_ ->]. srun H1 as v4 w4 H5. apply smodify_still in H5; [|done..].
  apply free_conn_effect in H1 as (w5 & Hq & ->). assert (still w4 w5) by (split; apply Hq).
  etrans; [done|]. etrans; [done|]. etrans; [done|]. by etrans.
Qed.

Lemma clean_still clock : keeps still (clean clock).
Proof.
  assert (Hl : forall l d, keeps still (remove_conns l d)).
  { intros l d. induction l as [|a l IH]; cbn [remove_conns]; [apply keeps_sret, _|].
    apply keeps_sbind; [apply _|apply remove_conn_still|by intros _]. }
  unfold clean, clean_round, expire_conn, get_conn. keeps_tac; apply Hl.
Qed.

Section Runs.
Context `{QuietModules} (needfrag : Z -> list Z -> list Z) (decision_threads : Z).

Lemma clean_loop clock w u w' : loop_ok w -> clean clock w = Ret (u, w') -> loop_ok w' /\ lives w w'.
Proof.
  intros [[Ht Hr Hp] Hl] H1. destruct (clean_still _ _ _ _ H1) as [Hn Hx]. unfold clean in H1.
  srun H1 as d w1 H2. injection H2 as <- <-. destruct (clean_round_spec _ _ _ _ _ Ht H1) as [Ht' [Hgone Hkept]].
  assert (Hsub : forall a c, w_conns w' !! a = Some c -> w_conns w !! a = Some c).
  { intros a c Ha. destruct (decide (a ∈ doomed w clock (clean_delay (expiration_delay w)))) as [Hin|Hin];
      [|rewrite Hkept in Ha by auto; done].
    destruct (locked (w_conns w !! a)) eqn:E; [rewrite Hkept in Ha by auto; done|by rewrite Hgone in Ha]. }
  split; [split; [split|]|split].
  - done.
  - intros a n f. rewrite Hn. apply Hr.
  - intros a c Ha. eauto.
  - intros a c Ha. eauto.
  - done.
  - intros a c c' Ha Ha'. apply Hsub in Ha'. assert (c' = c) as -> by congruence. by rewrite advances_refl.
  - intros a _ Ha. destruct (w_conns w' !! a) eqn:E; [|done]. apply Hsub in E. congruence.
Qed.

Lemma quiet_pcap_cb i len f : quietly (pcap_cb decision_threads i len f).
Proof. unfold pcap_cb, get_iface. keeps_tac. Qed.

Lemma quiet_save_round can_open : quietly (save_backup_round can_open).
Proof.
  unfold save_backup_round. apply keeps_sbind; [apply _|apply keeps_sgets, _|]. intros m.
  induction (map_to_list m) as [|[k a] l IH]; cbn [write_backups]; [apply keeps_sret, _|].
  assert (quietly (smodify (fun w => w <| module_to_save ::= delete k |>))) by (apply keeps_smodify; by constructor).
  unfold write_backup, get_key_file. keeps_tac.
Qed.

Lemma step_loop g g' : loop_ok (gw_world g) -> step needfrag decision_threads g g' ->
  loop_ok (gw_world g') /\ lives (gw_world g) (gw_world g').
Proof.
  intros Hlo [iface len packet r w' _ H1|q raw rest mt go w' _ H1|clock w' H1|can_open files w' H1|now rand]; simpl.
  - apply quiet_pcap_cb, quiet_evolves in H1. split; [by eapply evolves_loop|by apply evolves_lives].
  - by destruct (iteration_loop _ _ _ _ _ _ Hlo H1) as (? & ? & _).
  - by eapply clean_loop.
  - apply quiet_save_round, quiet_evolves in H1. split; [by eapply evolves_loop|by apply evolves_lives].
  - assert (Hq : quiet (gw_world g) ((gw_world g) <| w_now := now |> <| w_rand := rand |>)) by by constructor.
    apply quiet_evolves in Hq. split; [by eapply evolves_loop|by apply evolves_lives].
Qed.

(** [lives] composes on the states a run goes through. *)
Lemma lives_trans w1 w2 w3 : loop_ok w1 -> lives w1 w2 -> lives w2 w3 -> lives w1 w3.
Proof.
  intros [[Ht _ _] _] [N1 C1 B1] [N2 C2 B2]. split; [lia| |].
  - intros a c c'' Ha Ha''. pose proof (ok_fresh _ Ht _ _ Ha) as Hlt.
    destruct (w_conns w2 !! a) as [c'|] eqn:E; [|rewrite B2 in Ha''; [done|lia|done]].
    destruct (C1 _ _ _ Ha E) as [E1 A1]. destruct (C2 _ _ _ E Ha'') as [E2 A2].
    split; [congruence|by eapply advances_trans].
  - intros a Hlt Ha. apply B2; [lia|]. by apply B1.
Qed.

Lemma run_loop g g' : loop_ok (gw_world g) -> rtc (step needfrag decision_threads) g g' ->
  loop_ok (gw_world g') /\ lives (gw_world g) (gw_world g').
Proof.
  intros Hlo Hrun. revert Hlo. induction Hrun as [g|g g1 g' Hstep _ IH]; intros Hlo.
  - split; [done|]. by apply evolves_lives.
  - destruct (step_loop _ _ Hlo Hstep) as [Hlo1 Hl1]. destruct (IH Hlo1) as [Hlo' Hl'].
    split; [done|by eapply lives_trans].
Qed.
End Runs.

(** * What becomes of a packet *)

Section Packets.
Context `{ModuleRunner} (pkt conn : ptr).

(** The packet was freed. *)
Definition freed (w : world) : Prop := w_pkts w !! pkt = None.
(** The connection holds it, or has no room for it; when its target has no
    honeypot to replay it to, the packet was freed. *)
Definition replayable (t : target) : Prop := 0 < tg_back_handler_count t \/ tg_back_picker t <> None.
Definition recorded (w : world) : Prop :=
  exists c ta t, w_conns w !! conn = Some c /\ cn_target c = Some ta /\ w_targets w !! ta = Some t /\
    (replayable t -> pkt ∈ cn_BUFFER c \/ max_packet_buffer w <= Z.of_nat (length (cn_BUFFER c))) /\
    (~ replayable t -> freed w).

Definition frees {A} (m : M A) : Prop := forall w a w', m w = Ret (a, w') -> freed w'.
Definition records {A} (m : M A) : Prop := forall w a w', m w = Ret (a, w') -> recorded w'.

Lemma frees_bind {A B} (m : M A) (k : A -> M B) : (forall a, frees (k a)) -> frees (sbind m k).
Proof. intros Hk w b w' H1. srun H1 as a w1 H2. by eapply Hk. Qed.
Lemma records_bind {A B} (m : M A) (k : A -> M B) : (forall a, records (k a)) -> records (sbind m k).
Proof. intros Hk w b w' H1. srun H1 as a w1 H2. by eapply Hk. Qed.

Lemma frees_free : frees (free_pkt pkt).
Proof.
  intros w u w' H1. unfold free_pkt, free_pkt_block, free_in in H1. case_match; simplify_eq. apply lookup_delete_eq.
Qed.

Lemma upd_pkt_inv a g w u w' : upd_pkt a g w = Ret (u, w') -> exists p, w' = w <| w_pkts := <[a := p]> (w_pkts w) |>.
Proof. intros H1. unfold upd_pkt in H1. srun H1 as p w1 H2. apply get_pkt_inv in H2 as [_ ->]. injection H1 as _ <-. by eexists. Qed.

Lemma records_store_or_free : records (store_or_free conn pkt).
Proof.
  intros w u w' H1. unfold store_or_free in H1. srun H1 as c w1 H2. apply get_conn_inv in H2 as [Hc ->].
  srun H1 as t w1 H2. unfold get_target in H2. apply deref_Ret_inv in H2 as (ta & Eta & Ht & ->).
  assert (Hdec : (0 <? tg_back_handler_count t) || bool_decide (tg_back_picker t <> None) = true <-> replayable t)
    by (unfold replayable; rewrite orb_true_iff, Z.ltb_lt, bool_decide_eq_true; done).
  destruct (_ || _).
  - assert (Hr : replayable t) by by apply Hdec. srun H1 as st w1 H2. injection H1 as _ <-. unfold store_pkt in H2.
    srun H2 as u1 w2 H3. apply upd_pkt_inv in H3 as [p ->]. srun H2 as c1 w3 H4. apply get_conn_inv in H4 as [Hc1 ->].
    simpl in Hc1. assert (c1 = c) as -> by congruence.
    srun H2 as mx w3 H4. injection H4 as <- <-. destruct (_ <? _) eqn:E; zbool.
    + srun H2 as v w3 H4. srun H2 as v' w4 H5. injection H2 as _ <-. injection H4 as _ <-. apply upd_pkt_inv in H5 as [p' ->].
      eexists _, ta, t. simpl. rewrite lookup_insert_eq.
      split; [done|]. split; [done|]. split; [done|]. split; [|done]. intros _. left. simpl. apply elem_of_app. right. by left.
    + injection H2 as _ <-. exists c, ta, t. split_and!; auto; done.
  - assert (Hr : ~ replayable t) by (intros Hr; apply Hdec in Hr; done). pose proof H1 as H2. apply frees_free in H2.
    unfold free_pkt, free_pkt_block, free_in in H1. case_match; simplify_eq. exists c, ta, t. by split_and!.
Qed.

(** What the handlers do with a packet, by where it comes from and where its
    connection is: those that may be replayed are recorded, one sent by a HIH on
    a proxied connection that goes neither outside nor to an INTRA host is left
    alone, and all the others are freed. *)
Inductive packet_fate := Freed | Recorded | Leaked.
Definition fate (origin : role_t) (state : conn_status_t) (destination : role_t) : packet_fate :=
  match origin, state with
  | _, DROP => Freed
  | (EXT | INT | LIH), (INIT | DECISION) => Recorded
  | LIH, CONTROL => Recorded
  | HIH, PROXY => match destination with EXT | INTRA => Freed | _ => Leaked end
  | _, _ => Freed
  end.

Definition meets (f : packet_fate) (w : world) : Prop :=
  match f with Freed => freed w | Recorded => recorded w | Leaked => is_Some (w_pkts w !! pkt) end.

Ltac freeing :=
  repeat first
    [ apply frees_free
    | apply frees_bind; intros ?
    | match goal with |- frees (if ?b then _ else _) => destruct b end ].
Ltac recording := repeat first [apply records_store_or_free | apply records_bind; intros ?].

(** A handler reads its connection first. *)
Lemma read_conn {A} (k : conn_struct -> M A) w c r : w_conns w !! conn = Some c ->
  (do c <- get_conn conn; k c) w = Ret r -> k c w = Ret r.
Proof. intros Hc H1. unfold get_conn in H1. by rewrite (sbind_eq _ _ _ _ _ (deref_ok _ _ _ _ Hc)) in H1. Qed.

(** One case of the origin and the state. *)
Ltac fate_case H :=
  simpl; match type of H with
  | _ = Ret _ =>
    first [ revert H; apply (fun (K : frees _) => K _ _ _); solve [freeing]
          | revert H; apply (fun (K : records _) => K _ _ _); solve [recording]
          | injection H as _ <-; eexists; eassumption ]
  end.

Lemma dispatch_fate mt w p c u w' : w_pkts w !! pkt = Some p -> w_conns w !! conn = Some c ->
  dispatch conn pkt mt w = Ret (u, w') -> meets (fate (pt_origin p) (cn_state c) (cn_destination c)) w'.
Proof.
  intros Hp Hc H1. unfold dispatch in H1. srun H1 as p0 w1 H2. apply get_pkt_inv in H2 as [E ->].
  assert (p0 = p) as -> by congruence. apply (read_conn _ _ _ _ Hc) in H1. unfold refuse, de_ext, de_lih, de_hih, de_intra in H1.
  destruct (cn_state c) eqn:Es, (pt_origin p) eqn:Eo; cbn [bool_decide andb] in H1;
    repeat match type of H1 with context [bool_decide ?P] => first [rewrite (bool_decide_eq_true_2 P) in H1 by done | rewrite (bool_decide_eq_false_2 P) in H1 by done] end;
    repeat match type of H1 with context [decide (?x = ?y)] => first [rewrite (decide_True _ _ (eq_refl : x = y)) in H1 | rewrite (decide_False (P := x = y)) in H1 by done] end;
    cbn [andb] in H1; try (apply (read_conn _ _ _ _ Hc) in H1; cbv beta in H1; rewrite Es in H1); try fate_case H1.
  simpl. destruct (cn_destination c); fate_case H1.
Qed.

Lemma unlock_meets f w u w' : meets f w -> unlock conn w = Ret (u, w') -> meets f w'.
Proof.
  intros Hm H1. unfold unlock, upd_conn in H1. srun H1 as c w1 H2. apply get_conn_inv in H2 as [Hc ->].
  injection H1 as _ <-. destruct f; simpl in *; [done| |done].
  destruct Hm as (c0 & ta & t & E & Hr). assert (c0 = c) as -> by congruence. eexists _, ta, t. simpl. rewrite lookup_insert_eq.
  split; [done|]. exact Hr.
Qed.

(** [de_packet] up to the connection of the packet. *)
Definition packet_conn (mt : Z) : M (option ptr) :=
  do p <- get_pkt pkt;
  if pt_fragmented p then sret None
  else do ok <- accepted pkt; if negb ok then sret None else init_conn pkt mt.
End Packets.

(** * The properties *)

(** C14: an iteration of [de_thread] releases what it locked.  From a state whose
    trees are sound, whose waiting connections were opened from outside and
    where no connection is locked, one iteration on any frame, whatever branch
    it takes, leads to such a state again: no connection stays locked, none is
    lost, and those that were there keep the side that opened them and move
    forward in the order of [advances]. *)
Theorem de_iteration_sound `{QuietModules} needfrag raw microtime w go w' :
  loop_ok w -> de_iteration needfrag raw microtime w = Ret (go, w') ->
  loop_ok w' /\ lives w w' /\ preserves w w'.
Proof. apply iteration_loop. Qed.

(** C1: the invariant of the gateway, when no rule calls [mod_dns_control].
    Whatever frames are captured and in whatever order the decision threads and
    the cleaning thread take their steps, the trees stay sound (no dangling
    entry, each under its own key), the waiting connections stay unredirected
    connections from outside, and no lock is left behind; and the rules still do
    not call that module. *)
Theorem gateway_invariant `{QuietModules} needfrag decision_threads g g' :
  confined_rules (gw_world g) -> gateway_sound (gw_world g) -> rtc (step needfrag decision_threads) g g' ->
  gateway_sound (gw_world g') /\ confined_rules (gw_world g').
Proof.
  intros Hr Hs Hrun. apply loop_ok_split. apply (run_loop needfrag decision_threads g g'); [|done].
  by apply loop_ok_split.
Qed.

(** C2: connections only move forward, when no rule calls [mod_dns_control].  In
    any run of the gateway, a connection that exists at both ends kept the side
    that opened it, and its state advanced: in particular a dropped, proxied or
    forwarded connection stays so, and a redirected one never comes back to a
    decision or to the LIH. *)
Theorem states_advance `{QuietModules} needfrag decision_threads g g' a c c' :
  confined_rules (gw_world g) -> gateway_sound (gw_world g) -> rtc (step needfrag decision_threads) g g' ->
  w_conns (gw_world g) !! a = Some c -> w_conns (gw_world g') !! a = Some c' ->
  cn_initiator c' = cn_initiator c /\ advances (cn_state c) (cn_state c') = true.
Proof.
  intros Hr Hs Hrun. apply (run_loop needfrag decision_threads g g'); [|done]. by apply loop_ok_split.
Qed.

(** C19: what becomes of a packet.  When the handling of a packet returns, a packet
    that got no connection was freed; for the others, [fate] tells by the origin
    of the packet and by the state and the destination of its connection, as they
    are when it was found or created, which packets are freed, and which are
    recorded: these are in the buffer of the connection, or lost when it is full, if
    the target has a honeypot to replay them to, and freed if it has none.  The only
    other packets that are not freed are those a HIH sends on a proxied connection
    whose destination is neither outside nor an INTRA host. *)
Theorem packet_released `{ModuleRunner} needfrag pkt microtime w u w' :
  de_packet needfrag pkt microtime w = Ret (u, w') ->
  match packet_conn pkt microtime w with
  | Ret (Some conn, w1) => exists p c, w_pkts w1 !! pkt = Some p /\ w_conns w1 !! conn = Some c /\
      meets pkt conn (fate (pt_origin p) (cn_state c) (cn_destination c)) w'
  | _ => freed pkt w'
  end.
Proof.
  intros H1. unfold de_packet in H1. unfold packet_conn. srun H1 as p w1 H2. apply get_pkt_inv in H2 as [Hp ->].
  unfold get_pkt. rewrite (sbind_eq _ _ _ _ _ (deref_ok _ _ _ _ Hp)).
  destruct (pt_fragmented p); [srun H1 as v w2 H3; by eapply frees_free|].
  srun H1 as ok w2 H3. rewrite (sbind_eq _ _ _ _ _ H3). destruct (negb ok); [by eapply frees_free|].
  srun H1 as found w3 H4. rewrite H4. destruct found as [conn|]; [|by eapply frees_free].
  srun H1 as v w4 H5. pose proof H5 as H6. unfold dispatch in H6. srun H6 as p1 w5 H7. apply get_pkt_inv in H7 as [Hp1 ->].
  srun H6 as c w5 H7. apply get_conn_inv in H7 as [Hc ->]. exists p1, c. split; [done|]. split; [done|].
  eapply unlock_meets; [|exact H1]. by eapply dispatch_fate.
Qed.

(** ** Witnesses *)

(** The program's own modules, with buffers of the size of their contents. *)
#[local] Instance program_modules : ModuleRunner :=
  modules_runner (fun s => Z.of_nat (length s) + 1) (fun _ => 0) (fun _ => []) (fun bs => bs) (fun _ => None) 0 (fun _ => false).
#[local] Instance program_quiet : QuietModules.
Proof. apply modules_quiet. Defined.

(** The attacker's SYN is captured on the uplink, handled, and the first round of
    [clean] comes five minutes later. *)
Definition no_needfrag (_ : Z) (_ : list Z) : list Z := [].
Definition raw_syn : raw_pcap := RawPcap 1 80 syn_frame false.
Definition gateway0 : gateway := GatewayState world0 ∅.
Definition captured : gateway := GatewayState world0 {[ 2 := [raw_syn] ]}.
Definition world_handled : world := state_after (de_iteration no_needfrag raw_syn 1000000) world0.
Definition handled : gateway := GatewayState world_handled {[ 2 := [] ]}.

Lemma rtc_eq {A} (R : relation A) a b : a = b -> rtc R a b.
Proof. intros ->. apply rtc_refl. Qed.

Lemma loop_ok_world0 : loop_ok world0.
Proof.
  split; [split; [by apply trees_ok_empty|by intros a n f; vm_compute (w_nodes world0)|]|];
    by intros a c; vm_compute (w_conns world0).
Qed.

Lemma handled_run : de_iteration no_needfrag raw_syn 1000000 world0 = Ret (true, world_handled).
Proof. vm_compute. reflexivity. Qed.

Lemma gateway0_run : rtc (step no_needfrag 5) gateway0 handled.
Proof.
  eapply rtc_l; [apply (step_capture _ _ gateway0 1 80 syn_frame (Some (2, raw_syn)) world0);
    [solve_bytes|vm_compute; reflexivity]|].
  eapply rtc_l; [eapply (step_handle _ _ (GatewayState world0 _) 2 raw_syn [] 1000000 true world_handled)|].
  - vm_compute. reflexivity.
  - exact handled_run.
  - apply rtc_eq. vm_compute. reflexivity.
Qed.

Lemma de_iteration_sound_witness : loop_ok world_handled /\ lives world0 world_handled /\ preserves world0 world_handled.
Proof.
  apply (de_iteration_sound no_needfrag raw_syn 1000000 world0 true world_handled).
  - exact loop_ok_world0.
  - exact handled_run.
Defined.

Lemma gateway_invariant_witness : gateway_sound world_handled /\ confined_rules world_handled.
Proof.
  apply (gateway_invariant no_needfrag 5 gateway0 handled).
  - exact (proj2 (proj1 (loop_ok_split _) loop_ok_world0)).
  - exact (proj1 (proj1 (loop_ok_split _) loop_ok_world0)).
  - exact gateway0_run.
Defined.

Definition raw_reply : raw_pcap := RawPcap 2 80 reply_frame false.
Definition replied : gateway :=
  GatewayState (state_after (de_iteration no_needfrag raw_reply 2000000) world_handled) {[ 2 := [] ]}.

Lemma replied_run :
  rtc (step no_needfrag 5) (GatewayState world_handled {[ 2 := [raw_reply] ]}) replied.
Proof.
  eapply rtc_l; [eapply (step_handle _ _ (GatewayState world_handled _) 2 raw_reply [] 2000000 true (gw_world replied))|].
  - reflexivity.
  - vm_compute. reflexivity.
  - apply rtc_eq. vm_compute. reflexivity.
Qed.

Lemma loop_ok_handled : loop_ok world_handled.
Proof. by destruct (iteration_loop _ _ _ _ _ _ loop_ok_world0 handled_run). Qed.

Lemma states_advance_witness : exists a c c',
  w_conns world_handled !! a = Some c /\ w_conns (gw_world replied) !! a = Some c' /\
  cn_initiator c' = cn_initiator c /\ advances (cn_state c) (cn_state c') = true.
Proof.
  assert (Hc : exists c, w_conns world_handled !! 101%positive = Some c) by (vm_compute; eauto).
  destruct Hc as (c & Hc).
  assert (Hc' : exists c', w_conns (gw_world replied) !! 101%positive = Some c') by (vm_compute; eauto).
  destruct Hc' as (c' & Hc').
  exists 101%positive, c, c'. split; [exact Hc|]. split; [exact Hc'|].
  apply (states_advance no_needfrag 5 (GatewayState world_handled {[ 2 := [raw_reply] ]}) replied 101 c c').
  - exact (proj2 (proj1 (loop_ok_split _) loop_ok_handled)).
  - exact (proj1 (proj1 (loop_ok_split _) loop_ok_handled)).
  - exact replied_run.
  - exact Hc.
  - exact Hc'.
Defined.

(** The SYN of the attacker is recorded. *)
Lemma packet_released_witness : recorded 21 100 (state_after (de_packet no_needfrag 21 1000000) world_syn).
Proof.
  pose proof (packet_released no_needfrag 21 1000000 world_syn tt (state_after (de_packet no_needfrag 21 1000000) world_syn)
    ltac:(vm_compute; reflexivity)) as H.
  assert (E : exists w1, packet_conn 21 1000000 world_syn = Ret (Some 100%positive, w1) /\
    (exists p, w_pkts w1 !! 21%positive = Some p /\ pt_origin p = EXT) /\
    exists c, w_conns w1 !! 100%positive = Some c /\ cn_state c = INIT)
    by (vm_compute; eexists; split; [reflexivity|]; split; eexists; split; reflexivity).
  destruct E as (w1 & E & (p0 & Hp0 & Ho) & (c0 & Hc0 & Hs)). rewrite E in H. destruct H as (p & c & Hp & Hc & H).
  rewrite Hp0 in Hp. injection Hp as <-. rewrite Hc0 in Hc. injection Hc as <-. rewrite Ho, Hs in H. exact H.
Defined.
