(* ===== verification/Containment.v ===== *)
(** What the gateway lets out: a connection that is refused sends nothing, from
    the packet that has it refused on. *)
From S2P Require Import Prelude Mem CString Types World Samples Keys Checksum TcpOptions Packet Netcode.
From S2P Require Import Connections ConnTrees Redirect DecisionEngine DecisionTrees Icmp Engine Births EngineOk.
From S2P Require Import Management ModVmi Modules ModulesOk Gateway.

(** * Computations that send nothing *)

(** The frames sent, with the two settings that make the gateway answer. *)
Definition wire (w : world) : list (ptr * list Z) * Z * Z := (w_sent w, reset_ext w, deny_hih_init w).
Notation silent := (keeps (same wire)).

(** Every module only looks, writes its tables, or moves connections. *)
Class SilentModules `{ModuleRunner} : Prop := run_silent f args : silent (run_module f args).

Lemma silent_malloc : silent malloc.
Proof. by intros w a w' [= <- <-]. Qed.
#[export] Hint Resolve silent_malloc : keeps.
Lemma silent_free_pkt p : silent (free_pkt p).
Proof. unfold free_pkt, free_pkt_block. same_tac. Qed.
Lemma silent_upd_conn a g : silent (upd_conn a g).
Proof. unfold upd_conn, get_conn, put_conn. same_tac. Qed.
Lemma silent_upd_pkt a g : silent (upd_pkt a g).
Proof. unfold upd_pkt, get_pkt, put_pkt. same_tac. Qed.
Lemma silent_is_tcp pkt : silent (is_tcp pkt).
Proof. unfold is_tcp, get_pkt. same_tac. Qed.
#[export] Hint Resolve silent_free_pkt silent_upd_conn silent_upd_pkt silent_is_tcp : keeps.
Lemma silent_switch a s : silent (switch_state a s).
Proof. unfold switch_state. same_tac. Qed.
Lemma silent_store conn pkt : silent (store_pkt conn pkt).
Proof. unfold store_pkt, get_conn, put_conn, get_pkt, put_pkt. same_tac. Qed.
#[export] Hint Resolve silent_switch silent_store : keeps.
Lemma silent_store_or_free conn pkt : silent (store_or_free conn pkt).
Proof. unfold store_or_free, get_conn, get_target. same_tac. Qed.
Lemma silent_note_syn conn pkt : silent (note_syn conn pkt).
Proof. unfold note_syn, is_tcp_syn, tcp_seq_of, get_pkt. same_tac. Qed.
Lemma silent_unlock conn : silent (unlock conn).
Proof. apply silent_upd_conn. Qed.
Lemma silent_accepted pkt : silent (accepted pkt).
Proof. unfold accepted, get_pkt, get_iface. same_tac. Qed.
Lemma silent_process_packet i len f : silent (process_packet i len f).
Proof. unfold process_packet, init_pkt, get_iface, put_pkt. same_tac. Qed.
#[export] Hint Resolve silent_store_or_free silent_note_syn silent_unlock silent_accepted silent_process_packet : keeps.

(** [init_conn]. *)
Lemma silent_find_target pkt k t s : silent (find_target pkt k t s).
Proof. unfold find_target, find_hih_src, find_intra, set_origin, get_target, get_pkt, get_handler. same_tac. Qed.
Lemma silent_creation conn pkt c t s r : silent (creation conn pkt c t s r).
Proof. destruct r; creation_tac. Qed.
#[export] Hint Resolve silent_find_target silent_creation : keeps.
Lemma silent_free_pkts l : silent (free_pkts l).
Proof. induction l; cbn [free_pkts]; same_tac. Qed.
#[export] Hint Resolve silent_free_pkts : keeps.
Lemma silent_create_conn pkt mt : silent (create_conn pkt mt).
Proof.
  pose proof (fun conn c t s => silent_creation conn pkt c t s EXT). pose proof (fun conn c t s => silent_creation conn pkt c t s LIH).
  pose proof (fun conn c t s => silent_creation conn pkt c t s HIH). pose proof (fun conn c t s => silent_creation conn pkt c t s INTRA).
  cbn [creation] in *.
  unfold create_conn, free_conn, free_0_pin_key, free_pin_key, free_conn_block, put_conn, get_conn, get_pkt, get_target, get_iface.
  same_tac; eauto using target_search_init.
Qed.
#[export] Hint Resolve silent_create_conn : keeps.
Lemma silent_init_conn pkt mt : silent (init_conn pkt mt).
Proof.
  unfold init_conn, conn_lookup, update_conn, lookup_origin, put_conn, put_pkt, set_origin, get_conn, get_pkt, get_target,
    get_handler. same_tac.
Qed.
#[export] Hint Resolve silent_init_conn : keeps.

(** * Decisions *)

Section Decisions.
Context `{QuietModules} {Hsilent : SilentModules}.

Lemma silent_decide_loop fuel node args d : silent (decide_loop fuel node args d).
Proof.
  revert node args d. induction fuel as [|fuel IH]; intros node args d; cbn [decide_loop]; [same_tac|].
  pose proof run_silent. unfold call_module, get_node. same_tac; apply IH.
Qed.
#[local] Hint Resolve silent_decide_loop : keeps.
Lemma silent_get_decision d : silent (get_decision d).
Proof. unfold get_decision, do_decide, pkt_conn, get_pkt, get_conn, put_conn. same_tac. Qed.
#[local] Hint Resolve silent_get_decision : keeps.
Lemma silent_de_decide pkt c : silent (de_decide pkt c).
Proof. unfold de_decide, get_decision_backend, get_target, get_handler. same_tac. Qed.

(** Whether a connection is dropped. *)
Definition dropped (conn : ptr) (w : world) : Prop :=
  exists c, w_conns w !! conn = Some c /\ cn_state c = DROP.

(** Nothing is sent on the way to a state where [conn] is dropped. *)
Definition mutes (conn : ptr) (w w' : world) : Prop := dropped conn w' -> same wire w w'.

Definition state_of (conn : ptr) (w : world) : option conn_status_t := cn_state <$> w_conns w !! conn.
Notation still conn := (keeps (same (state_of conn))).

Lemma undropped conn w s : state_of conn w = Some s -> s <> DROP -> ~ dropped conn w.
Proof. unfold state_of. intros Hs Hn (c & Hc & E). rewrite Hc in Hs. simpl in Hs. congruence. Qed.
Lemma conn_state conn c w : w_conns w !! conn = Some c -> state_of conn w = Some (cn_state c).
Proof. unfold state_of. by intros ->. Qed.
Lemma alive_mutes conn w w' s : state_of conn w = Some s -> s <> DROP -> same (state_of conn) w w' -> mutes conn w w'.
Proof. intros Hs Hn Hk Hd. destruct (undropped conn w' s); [by rewrite Hk|done|done]. Qed.
Lemma silent_mutes conn w w' : same wire w w' -> mutes conn w w'.
Proof. by intros Hw _. Qed.
Lemma mutes_then conn w w1 w' : mutes conn w w1 -> same wire w1 w' -> same (state_of conn) w1 w' -> mutes conn w w'.
Proof.
  intros Hm Hw Hk (c & Hc & E). etrans; [|exact Hw]. apply Hm. unfold same, state_of in Hk. rewrite Hc in Hk. simpl in Hk.
  destruct (w_conns w1 !! conn) as [c1|] eqn:E1; [|done]. exists c1. split; [done|]. simpl in Hk. congruence.
Qed.
Lemma mutes_after conn w w1 w' : same wire w w1 -> mutes conn w1 w' -> mutes conn w w'.
Proof. intros Hw Hm Hd. etrans; [exact Hw|by apply Hm]. Qed.

(** ** Computations that change no state *)

Lemma still_steady conn {A} (m : M A) : keeps steady m -> still conn m.
Proof.
  apply keeps_weaken. intros w w' [Ht Hk]. unfold same, state_of. destruct (w_conns w !! conn) as [c|] eqn:E.
  - destruct (Hk _ _ E) as (c' & -> & _ & Es). simpl. by rewrite Es.
  - by rewrite (tr_back _ _ Ht _ E).
Qed.
Lemma still_quiet conn {A} (m : M A) : quietly m -> still conn m.
Proof. intros Hq. by apply still_steady, quietly_steadily. Qed.
Lemma still_put conn a c c' w u w' : w_conns w !! a = Some c -> cn_state c' = cn_state c ->
  put_conn a c' w = Ret (u, w') -> same (state_of conn) w w'.
Proof.
  intros Ha Es [= _ <-]. unfold same, state_of. simpl. destruct (decide (a = conn)) as [->|].
  - rewrite lookup_insert_eq, Ha. simpl. by rewrite Es.
  - by rewrite lookup_insert_ne.
Qed.
Lemma still_upd_conn conn a g : (forall c, cn_state (g c) = cn_state c) -> still conn (upd_conn a g).
Proof.
  intros Hg w u w' H1. unfold upd_conn in H1. srun H1 as c w1 H2. apply get_conn_inv in H2 as [Ha ->].
  by eapply still_put; [exact Ha| |exact H1].
Qed.
Lemma still_note_syn conn a pkt : still conn (note_syn a pkt).
Proof.
  assert (still conn (is_tcp_syn pkt)) by apply still_quiet, quiet_is_tcp_syn.
  assert (still conn (tcp_seq_of pkt)) by apply still_quiet, quiet_tcp_seq_of.
  unfold note_syn. apply keeps_sbind; [apply _|done|]. intros [|]; [|apply keeps_sret, _].
  apply keeps_sbind; [apply _|done|]. intros seq. by apply still_upd_conn.
Qed.
Lemma still_store conn a pkt : still conn (store_pkt a pkt).
Proof.
  intros w r w' H1. unfold store_pkt in H1. srun H1 as u w1 H2. apply (still_quiet conn _ (quiet_upd_pkt _ _)) in H2.
  etrans; [exact H2|]. srun H1 as c w2 H3. apply get_conn_inv in H3 as [Ha ->]. srun H1 as mx w2 H3. injection H3 as _ <-.
  destruct (_ <? _); [|by injection H1 as _ <-]. srun H1 as v w2 H3.
  etrans; [by eapply (still_put conn); [exact Ha| |exact H3]|]. srun H1 as v' w3 H4. injection H1 as _ <-.
  exact (still_quiet conn _ (quiet_upd_pkt _ _) _ _ _ H4).
Qed.
Lemma still_free conn pkt : still conn (free_pkt pkt).
Proof. apply still_quiet. auto with keeps. Qed.
#[local] Hint Resolve still_note_syn still_store still_free : keeps.
Lemma still_store_or_free conn a pkt : still conn (store_or_free a pkt).
Proof. unfold store_or_free, get_conn, get_target. keeps_tac. Qed.
Lemma still_unlock conn a : still conn (unlock a).
Proof. by apply still_upd_conn. Qed.
#[local] Hint Resolve still_store_or_free still_unlock : keeps.

(** ** [DE_process_packet] *)

(** A decision sends only when it redirects. *)
Lemma de_apply_mutes conn c d mt w r w' : w_conns w !! conn = Some c -> cn_state c <> DROP ->
  de_apply conn d mt w = Ret (r, w') -> mutes conn w w'.
Proof.
  intros Hc Hs H1. unfold de_apply in H1. srun H1 as c0 w1 H2. apply get_conn_inv in H2 as [E ->].
  assert (c0 = c) as -> by congruence. clear E.
  assert (Hk : forall m : M status_t, silent m -> m w = Ret (r, w') -> mutes conn w w').
  { intros m Hm Hr. apply silent_mutes. by apply Hm in Hr. }
  destruct (dh_result d); destruct (cn_state c) eqn:Es; try done;
    try (revert H1; apply Hk; unfold get_target; same_tac; fail).
  srun H1 as st w1 H2. injection H1 as _ <-.
  apply (setup_redirection_state _ _ _ _ _ _ _ Hc) in H2 as (c' & Hc' & Es').
  intros Hd. destruct (undropped conn w1 (cn_state c')); [by apply conn_state| |done]. rewrite Es', Es. by destruct st.
Qed.

Lemma process_mutes pkt conn p c mt w st w' : carries pkt conn p c w -> cn_state c <> DROP ->
  DE_process_packet pkt mt w = Ret (st, w') -> mutes conn w w'.
Proof.
  intros (Hok & Hp & Hpc & Hc) Hs H1. unfold DE_process_packet in H1. srun H1 as p0 w1 H2.
  apply get_pkt_inv in H2 as [E ->]. assert (p0 = p) as -> by congruence. srun H1 as [a c0] w1 H2.
  apply pkt_conn_inv in H2 as (Ea & Hc0 & ->). assert (a = conn) as -> by congruence. assert (c0 = c) as -> by congruence.
  srun H1 as d w1 H2. pose proof (silent_de_decide _ _ _ _ _ H2) as Hw.
  apply de_decide_spec in H2 as [Hst _]; [|apply Hok]. destruct (st_kept _ _ Hst _ _ Hc) as (c1 & Hc1 & _ & Es).
  eapply mutes_after; [exact Hw|]. eapply de_apply_mutes; [exact Hc1|by rewrite Es|exact H1].
Qed.

(** A decision, and what follows from it: the packet goes on only when the
    connection is not dropped. *)
Lemma process_then pkt conn p c mt (rest : status_t -> M unit) w u w' :
  carries pkt conn p c w -> cn_state c <> DROP ->
  (forall st, still conn (rest st)) -> silent (rest NOK) ->
  (do st <- DE_process_packet pkt mt; rest st) w = Ret (u, w') -> mutes conn w w'.
Proof.
  intros Hcar Hs Hrest Hnok H1. srun H1 as st w1 H2. pose proof (process_mutes _ _ _ _ _ _ _ _ Hcar Hs H2) as Hm.
  pose proof (Hrest st _ _ _ H1) as Hk. destruct st.
  - apply Hnok in H1. by eapply mutes_then.
  - destruct Hcar as (Hok & Hp & Hpc & Hc).
    destruct (process_transitions _ _ _ _ _ _ _ _ (ow_rules _ Hok) Hp Hpc Hc H2) as (c1 & Hc1 & Ha).
    intros Hd. destruct (undropped conn w' (cn_state c1)); [by rewrite Hk; apply conn_state| |done].
    intros E. rewrite E in Ha. by destruct (cn_state c).
Qed.

Lemma still_proxied conn (m : M status_t) st pkt : quietly m ->
  still conn (do_ (if decide (st = OK) then do _st <- m; sret tt else sret tt); free_pkt pkt).
Proof. intros Hm. apply (still_quiet conn) in Hm. keeps_tac. Qed.

(** ** The handlers *)

Lemma proxied_mutes conn (m : M status_t) (k : M unit) w u w' s : quietly m -> still conn k ->
  state_of conn w = Some s -> s <> DROP -> (do _st <- m; k) w = Ret (u, w') -> mutes conn w w'.
Proof.
  intros Hm Hk Hs Hn H1. eapply alive_mutes; [exact Hs|done|]. srun H1 as st w1 H2. apply (still_quiet conn) in Hm.
  etrans; [by eapply Hm|by eapply Hk].
Qed.

Lemma de_ext_mutes conn pkt mt p c w u w' : carries pkt conn p c w -> cn_state c <> DROP ->
  de_ext conn pkt mt w = Ret (u, w') -> mutes conn w w'.
Proof.
  intros Hcar Hn H1. pose proof Hcar as (_ & _ & _ & Hc). pose proof (conn_state _ _ _ Hc) as Hs.
  unfold de_ext in H1. srun H1 as c0 w1 H2. apply get_conn_inv in H2 as [E ->]. assert (c0 = c) as -> by congruence.
  pose proof (still_quiet conn _ (quiet_proxy_ext2int pkt)) as Hx.
  destruct (cn_state c) eqn:Es; try done;
    try (eapply proxied_mutes in H1; [exact H1|auto with keeps..|exact Hs|done]);
    try (apply silent_mutes; revert H1; apply silent_free_pkt);
    (eapply process_then in H1; [exact H1|exact Hcar|by rewrite Es|intros st; keeps_tac|cbn; same_tac]).
Qed.

Lemma de_intra_mutes conn pkt p c w u w' : carries pkt conn p c w -> cn_state c <> DROP ->
  de_intra conn pkt w = Ret (u, w') -> mutes conn w w'.
Proof.
  intros (_ & _ & _ & Hc) Hn H1. eapply alive_mutes; [by apply conn_state|exact Hn|]. revert H1.
  pose proof (still_quiet conn _ (quiet_proxy_intra2hih pkt)). assert (still conn (de_intra conn pkt)) as Hk; [|apply Hk].
  unfold de_intra, get_conn. keeps_tac.
Qed.

(** A reset changes no state. *)
Lemma still_reset conn (m : M unit) pkt : quietly m ->
  still conn (do tcp <- is_tcp pkt; do_ (if tcp : bool then m else sret tt); free_pkt pkt).
Proof. intros Hm. apply (still_quiet conn) in Hm. pose proof (still_quiet conn _ (quiet_is_tcp pkt)). keeps_tac. Qed.

Lemma de_lih_mutes conn pkt mt p c w u w' : carries pkt conn p c w -> cn_state c <> DROP ->
  de_lih conn pkt mt w = Ret (u, w') -> mutes conn w w'.
Proof.
  intros Hcar Hn H1. pose proof Hcar as (_ & _ & _ & Hc). pose proof (conn_state _ _ _ Hc) as Hs.
  pose proof (still_quiet conn _ (quiet_proxy_int2ext pkt)) as Hx.
  assert (Hq : forall m : M unit, quietly m -> (do tcp <- is_tcp pkt; do_ (if tcp : bool then m else sret tt); free_pkt pkt) w = Ret (u, w') ->
    mutes conn w w').
  { intros m Hm H2. eapply alive_mutes; [exact Hs|done|]. by eapply (still_reset conn); [|exact H2]. }
  assert (Hk : still conn (do_ note_syn conn pkt; do _st <- proxy_int2ext pkt; store_or_free conn pkt)) by keeps_tac.
  unfold de_lih in H1. srun H1 as c0 w1 H2. apply get_conn_inv in H2 as [E ->]. assert (c0 = c) as -> by congruence.
  assert (Hreset : quietly (do t <- get_target (cn_target c); do fh <- get_handler (tg_front_handler t); reply_reset (Some pkt) (hd_iface fh)))
    by (unfold get_target, get_handler; keeps_tac).
  destruct (cn_state c) eqn:Es; try done; try (by eapply Hq).
  - by eapply alive_mutes, Hk, H1.
  - by eapply alive_mutes, Hk, H1.
  - eapply proxied_mutes in H1; [exact H1|auto with keeps..|exact Hs|done].
  - srun H1 as v w1 H2. pose proof (silent_note_syn _ _ _ _ _ H2) as Hw.
    pose proof (still_note_syn conn _ _ _ _ _ H2) as Hks. apply (note_syn_carries _ _ _ _ _ _ _ Hcar) in H2 as (_ & c1 & Hcar1 & _).
    eapply mutes_after; [exact Hw|].
    assert (Hn1 : cn_state c1 = CONTROL).
    { pose proof (conn_state conn c1 w1 ltac:(apply Hcar1)) as E1. rewrite Hks, Hs in E1. congruence. }
    eapply process_then in H1; [exact H1|exact Hcar1|by rewrite Hn1|intros st; keeps_tac|cbn; same_tac].
Qed.

Lemma hih_opens_mutes conn pkt mt p c w u w' : carries pkt conn p c w -> advances (cn_state c) CONTROL = true ->
  deny_hih_init w <> 1 -> hih_opens conn pkt mt c w = Ret (u, w') -> mutes conn w w'.
Proof.
  intros Hcar Hadv Hdeny H1. unfold hih_opens in H1. srun H1 as deny w1 H2. injection H2 as <- <-.
  rewrite (proj2 (Z.eqb_neq _ _) Hdeny) in H1. srun H1 as st w1 H2. pose proof (silent_switch _ _ _ _ _ H2) as Hw.
  destruct (switch_carries _ _ _ _ CONTROL _ _ _ Hcar eq_refl Hadv H2) as [_ Hcar1]. eapply mutes_after; [exact Hw|].
  pose proof (still_quiet conn _ (quiet_proxy_int2ext pkt)). pose proof (still_quiet conn _ (quiet_proxy_hih2intra pkt)).
  eapply process_then in H1; [exact H1|exact Hcar1|done|intros st'; unfold get_conn; keeps_tac|cbn; same_tac].
Qed.

Lemma de_hih_mutes conn pkt mt p c w u w' : carries pkt conn p c w -> cn_state c <> DROP -> deny_hih_init w <> 1 ->
  de_hih conn pkt mt w = Ret (u, w') -> mutes conn w w'.
Proof.
  intros Hcar Hn Hdeny H1. pose proof Hcar as (_ & _ & _ & Hc). pose proof (conn_state _ _ _ Hc) as Hs.
  unfold de_hih in H1. srun H1 as c0 w1 H2. apply get_conn_inv in H2 as [E ->].
  assert (c0 = c) as -> by congruence. clear E. fold (hih_opens conn pkt mt c) in H1.
  destruct (cn_state c) eqn:Es; try done; try (eapply hih_opens_mutes; [exact Hcar|by rewrite Es|exact Hdeny|exact H1]).
  - intros (c' & Hc' & Es'). exfalso.
    assert (Hv : evolves w w').
    { srun H1 as v w1 H2. apply note_delta_evolves in H2. srun H1 as st w2 H3.
      apply replay_evolves in H3; [|by eapply replaying_evolves; [exists c; split; [exact Hc|auto]|]].
      apply free_evolves in H1. etrans; [done|by etrans]. }
    destruct (ev_ages _ _ Hv _ _ Hc) as (c1 & Hc1 & _ & _ & Ha & _). assert (c1 = c') as -> by congruence.
    by rewrite Es, Es' in Ha.
  - eapply proxied_mutes in H1; [exact H1|auto with keeps..|exact Hs|done].
  - destruct (cn_destination c); try (by injection H1 as _ <-);
      (eapply proxied_mutes in H1; [exact H1|auto with keeps..|exact Hs|done]).
  - pose proof (still_quiet conn _ (quiet_proxy_int2ext pkt)).
    eapply process_then in H1; [exact H1|exact Hcar|by rewrite Es|intros st; keeps_tac|cbn; same_tac].
Qed.

Lemma refuse_silent conn pkt w u w' : reset_ext w <> 1 -> refuse conn pkt w = Ret (u, w') -> same wire w w'.
Proof.
  intros Hr H1. unfold refuse in H1. srun H1 as p w1 H2. apply get_pkt_inv in H2 as [_ ->]. srun H1 as v w1 H2.
  apply silent_free_pkt in H1. etrans; [|exact H1]. destruct (decide _); [|by injection H2 as _ <-].
  srun H2 as tcp w2 H3. pose proof (silent_is_tcp _ _ _ _ H3) as Hw. srun H2 as reset w3 H4. injection H4 as <- <-.
  injection Hw as _ Er _. rewrite Er, (proj2 (Z.eqb_neq _ _) Hr), andb_false_r in H2. injection H2 as _ <-.
  by apply silent_is_tcp in H3.
Qed.

Lemma dispatch_mutes conn pkt mt p c w u w' : carries pkt conn p c w -> reset_ext w <> 1 -> deny_hih_init w <> 1 ->
  dispatch conn pkt mt w = Ret (u, w') -> mutes conn w w'.
Proof.
  intros Hcar Hr Hd H1. unfold dispatch in H1. srun H1 as p0 w1 H2. apply get_pkt_inv in H2 as [_ ->].
  srun H1 as c0 w1 H2. apply get_conn_inv in H2 as [E ->]. assert (c0 = c) as -> by (destruct Hcar as (_ & _ & _ & ?); congruence).
  destruct (_ && _); [by apply silent_mutes; eapply refuse_silent|].
  destruct (decide _) as [|Hn]; [by apply silent_mutes; eapply refuse_silent|].
  destruct (pt_origin p0); eauto using de_ext_mutes, de_lih_mutes, de_hih_mutes, de_intra_mutes.
Qed.
End Decisions.

(** * The modules of the program *)

Section Modules.
Context (cap : list Z -> Z).
Context (addr_pton_ip : list Z -> Z) (addr_pton_mac : list Z -> list Z).
Context (sha1 : list Z -> list Z) (replace_ip : list Z -> option (list Z)) (junk : Z).
Context (outlived : ptr -> bool).

Lemma silent_store_entry f path g k n info : silent (store_entry f path g k n info).
Proof. unfold store_entry, save_backup, put_key_file, get_key_file. same_tac. Qed.
#[local] Hint Resolve silent_store_entry : keeps.
Lemma silent_mod_vmi args : silent (mod_vmi outlived args).
Proof.
  unfold mod_vmi, mod_vmi_pick, mod_vmi_control, get_new_clone, upd_vmi, pkt_conn, get_conn, get_node, get_pkt, get_target.
  same_tac.
Qed.
Lemma silent_dns args : silent (mod_dns_control addr_pton_ip addr_pton_mac args).
Proof.
  unfold mod_dns_control, dns_redirect, config_block, pkt_conn, add_intra_handler, switch_conn_to_intra, insert_intra,
    put_conn, put_handler, put_target, get_conn, get_pkt, get_node, get_target, get_handler.
  same_tac.
Qed.
#[local] Hint Resolve silent_mod_vmi silent_dns : keeps.

#[export] Instance modules_silent :
  @SilentModules (modules_runner cap addr_pton_ip addr_pton_mac sha1 replace_ip junk outlived).
Proof.
  intros f args. unfold run_module.
  destruct f; unfold modules_runner, mod_source, mod_source_time, mod_random, mod_yesno, mod_counter,
    mod_control, mod_backpick_random, mod_hash, with_backup, config_atoi, config_block, config_file, pkt_saddr,
    save_backup, put_key_file, pkt_conn, get_conn, get_key_file, get_node, get_pkt, get_target; same_tac.
Qed.
End Modules.

(** * Runs *)

(** The part of an iteration of [de_thread] that finds the connection of a frame:
    [process_packet], the check of the destination, [init_conn]. *)
Definition received (raw : raw_pcap) (microtime : Z) : M (option ptr) :=
  if rw_last raw then sret None
  else
    do '(st, pkt) <- process_packet (rw_iface raw) (rw_len raw) (rw_packet raw);
    match st, pkt with
    | OK, Some pkt =>
      do p <- get_pkt pkt;
      if pt_fragmented p then sret None
      else
        do ok <- accepted pkt;
        if negb ok then sret None else init_conn pkt microtime
    | _, _ => sret None
    end.

Section Refused.
Context `{QuietModules} {Hsilent : SilentModules} (needfrag : Z -> list Z -> list Z).

(** What an iteration does with the connection it found. *)
Lemma received_dispatch raw mt w conn w1 go w' : loop_ok w ->
  received raw mt w = Ret (Some conn, w1) -> de_iteration needfrag raw mt w = Ret (go, w') ->
  same wire w w1 /\ exists pkt p c w2, carries pkt conn p c w1 /\ dispatch conn pkt mt w1 = Ret (tt, w2) /\ unlock conn w2 = Ret (tt, w') /\
    match w_conns w !! conn with
    | Some c0 => cn_state c = cn_state c0
    | None => (w_next w <= conn)%positive
    end.
Proof.
  intros Hlo H1 H2. unfold received in H1. unfold de_iteration in H2. destruct (rw_last raw); [done|].
  srun H1 as [st pkt] w2 H3. unfold sbind at 1 in H2. rewrite H3 in H2. srun H2 as u w3 H4. injection H2 as _ <-.
  pose proof (silent_process_packet _ _ _ _ _ _ H3) as Hw1. apply quiet_process_packet in H3.
  destruct st; [done|]. destruct pkt as [pkt|]; [|done]. unfold de_packet in H4. srun H1 as p w4 H5.
  unfold sbind at 1 in H4. rewrite H5 in H4. apply get_pkt_inv in H5 as [_ ->]. destruct (pt_fragmented p); [done|].
  srun H1 as ok w4 H5. unfold sbind at 1 in H4. rewrite H5 in H4. pose proof (silent_accepted _ _ _ _ H5) as Hw2.
  apply quiet_accepted in H5. destruct (negb ok); [done|]. unfold sbind at 1 in H4. rewrite H1 in H4.
  pose proof (silent_init_conn _ _ _ _ _ H1) as Hw3. assert (Hq : quiet w w4) by (by etrans).
  split; [etrans; [exact Hw1|by etrans]|].
  assert (Hlo4 : loop_ok w4) by (by eapply evolves_loop, quiet_evolves).
  destruct (init_conn_working _ _ _ _ _ Hlo4 H1) as (c & p' & Hcar & _ & _ & _ & _ & Hc).
  srun H4 as [] w5 H6. destruct u. exists pkt, p', c, w5. split; [done|]. split; [done|]. split; [done|].
  rewrite <- (q_conns _ _ Hq). destruct (w_conns w4 !! conn); [apply Hc|]. pose proof (q_next _ _ Hq). lia.
Qed.

Lemma refused_iteration raw mt w conn w1 go w' : loop_ok w -> reset_ext w <> 1 -> deny_hih_init w <> 1 ->
  received raw mt w = Ret (Some conn, w1) -> de_iteration needfrag raw mt w = Ret (go, w') ->
  dropped conn w' -> w_sent w' = w_sent w.
Proof.
  intros Hlo Hr Hd H1 H2 Hdr. destruct (received_dispatch _ _ _ _ _ _ _ Hlo H1 H2) as (Hw & pkt & p & c & w2 & Hcar & H3 & H4 & _).
  pose proof Hw as Hw'. injection Hw' as _ Er Ed.
  assert (Hm : mutes conn w1 w') by
    (eapply mutes_then; [eapply dispatch_mutes; [exact Hcar|by rewrite Er|by rewrite Ed|exact H3]|
                         exact (silent_unlock _ _ _ _ H4)|exact (still_unlock conn _ _ _ _ H4)]).
  apply Hm in Hdr. assert (same wire w w') as E by (by etrans). by injection E.
Qed.
End Refused.

(** * The property *)

(** C4: what is refused is not let out.  In any run of the gateway in which no rule
    calls [mod_dns_control], and with the settings [main] leaves (no reset to
    attackers, [reset_ext], and HIH connections not denied beforehand,
    [deny_hih_init]; with either the code answers by a reset), when a frame is
    handled and its connection was dropped by an earlier packet, or is dropped by
    this one - whoever sent it, whatever rule refused it - the connection stays
    dropped and nothing is sent for it, neither the frame nor an answer. *)
Theorem refused_sends_nothing `{QuietModules} {Hsilent : SilentModules} needfrag n g0 g raw mt conn w1 go w' :
  confined_rules (gw_world g0) -> gateway_sound (gw_world g0) -> rtc (step needfrag n) g0 g ->
  reset_ext (gw_world g) <> 1 -> deny_hih_init (gw_world g) <> 1 ->
  received raw mt (gw_world g) = Ret (Some conn, w1) -> de_iteration needfrag raw mt (gw_world g) = Ret (go, w') ->
  dropped conn (gw_world g0) \/ dropped conn w' ->
  dropped conn w' /\ w_sent w' = w_sent (gw_world g).
Proof.
  intros Hcr Hs. pose proof (proj2 (loop_ok_split _) (conj Hs Hcr)) as Hlo0. clear Hcr Hs.
  intros Hrun Hr Hd H1 H2 Hdr. destruct (run_loop needfrag n g0 g Hlo0 Hrun) as [Hlo Hl].
  assert (Hdr' : dropped conn w'); [|split; [done|by eapply refused_iteration]].
  destruct Hdr as [(c0 & Hc0 & Es0)|]; [|done].
  destruct (received_dispatch needfrag _ _ _ _ _ _ _ Hlo H1 H2) as (_ & pkt & p & c & w2 & _ & _ & _ & Hc).
  destruct (iteration_loop _ _ _ _ _ _ Hlo H2) as (_ & Hl2 & Hp2).
  destruct (w_conns (gw_world g) !! conn) as [c1|] eqn:E.
  - destruct (lv_conns _ _ Hl _ _ _ Hc0 E) as [_ A1]. destruct (Hp2 conn) as [c2 Hc2]; [by eexists|].
    destruct (lv_conns _ _ Hl2 _ _ _ E Hc2) as [_ A2]. exists c2. split; [done|].
    pose proof (advances_trans _ _ _ A1 A2) as A. rewrite Es0 in A. by apply bool_decide_eq_true in A.
  - pose proof (ok_fresh _ (ow_trees _ (lo_world _ Hlo0)) _ _ Hc0). pose proof (lv_next _ _ Hl). lia.
Qed.

(** ** Witness *)

(** The program's own modules, as in [Gateway]. *)
#[local] Instance contained_modules : ModuleRunner :=
  modules_runner (fun s => Z.of_nat (length s) + 1) (fun _ => 0) (fun _ => []) (fun bs => bs) (fun _ => None) 0 (fun _ => false).
#[local] Instance contained_quiet : QuietModules.
Proof. apply modules_quiet. Defined.
#[local] Instance contained_silent : SilentModules.
Proof. apply modules_silent. Defined.

(** The HIH of [Samples] opens a connection to a host outside; the control rule
    rejects it, and the second packet comes after. *)
Definition reject_node : node := Node (Some Types.mod_yesno) {[ "value"%string := CBlock [1; 0; 0; 0] ]} "no" "yesno" None None.
Definition world_watched : world :=
  world0 <| w_targets := {[ 10%positive := the_target <| tg_control_rule := Some 20%positive |> ]} |>
    <| w_nodes := {[ 20%positive := reject_node ]} |>.
Definition hih_out (flags : Z) : raw_pcap :=
  RawPcap 2 80 (tcp_frame mac_down mac_hih ip_hih (ipv4 192 0 2 80) 40000 80 7000 0 flags (repeat 66 26)) false.
Definition world_refused : world := state_after (de_iteration no_needfrag (hih_out 2) 1000000) world_watched.
Definition world_silenced : world := state_after (de_iteration no_needfrag (hih_out 16) 2000000) world_refused.

Lemma loop_ok_watched : loop_ok world_watched.
Proof.
  split; [split; [by apply trees_ok_empty| |]|].
  - intros a n f Ha Hf. change (w_nodes world_watched) with ({[ 20%positive := reject_node ]} : gmap ptr node) in Ha.
    apply lookup_singleton_Some in Ha as [_ <-]. by injection Hf as <-.
  - intros a c. by vm_compute (w_conns world_watched).
  - intros a c. by vm_compute (w_conns world_watched).
Qed.

Lemma refused_run : de_iteration no_needfrag (hih_out 2) 1000000 world_watched = Ret (true, world_refused).
Proof. vm_compute. reflexivity. Qed.

Lemma refused_sends_nothing_witness : dropped 101 world_refused /\ dropped 101 world_silenced /\ w_sent world_silenced = [].
Proof.
  assert (Hd : dropped 101 world_refused) by (vm_compute; eexists; split; reflexivity).
  split; [exact Hd|].
  change (@nil (ptr * list Z)) with (w_sent world_watched).
  assert (Hw : w_sent world_refused = w_sent world_watched) by (vm_compute; reflexivity). rewrite <- Hw.
  apply (refused_sends_nothing no_needfrag 3 (GatewayState world_refused ∅) (GatewayState world_refused ∅) (hih_out 16) 2000000 101
    (state_after (received (hih_out 16) 2000000) world_refused) true world_silenced).
  - exact (proj2 (proj1 (loop_ok_split _) (proj1 (iteration_loop _ _ _ _ _ _ loop_ok_watched refused_run)))).
  - exact (proj1 (proj1 (loop_ok_split _) (proj1 (iteration_loop _ _ _ _ _ _ loop_ok_watched refused_run)))).
  - apply rtc_refl.
  - vm_compute. discriminate.
  - vm_compute. discriminate.
  - vm_compute. reflexivity.
  - vm_compute. reflexivity.
  - left. exact Hd.
Defined.
