(* ===== verification/Affinity.v ===== *)
(** A flow keeps its connection: every live connection that was opened from
    outside is filed in [ext_tree1], as long as it lives and under the key of
    the packets of its attacker, so that all of them reach it. *)
From S2P Require Import Prelude Mem CString Types World Samples Keys Checksum TcpOptions Packet Netcode.
From S2P Require Import Forward Connections ConnTrees Redirect DecisionEngine DecisionTrees Icmp Engine Births EngineOk.
From S2P Require Import Management ModVmi Modules ModulesOk Gateway.

(** * Computations that leave the outside alone *)

(** The tree of the packets from outside, and the interfaces. *)
Definition outside (w : world) : gmap Z ptr * gmap ptr interface := (ext_tree1 w, w_ifaces w).
Notation apart := (keeps (same outside)).

(** The modules neither file connections under an outside key nor touch the
    interfaces. *)
Class LinkModules `{ModuleRunner} : Prop := run_links f args : apart (run_module f args).

Lemma apart_malloc : apart malloc.
Proof. by intros w a w' [= <- <-]. Qed.
Lemma apart_inject i f : apart (pcap_inject i f).
Proof. apply keeps_inject'; [apply _|]. by intros w s. Qed.
#[export] Hint Resolve apart_malloc apart_inject : keeps.
Lemma apart_upd_conn a g : apart (upd_conn a g).
Proof. unfold upd_conn, get_conn, put_conn. same_tac. Qed.
Lemma apart_upd_pkt a g : apart (upd_pkt a g).
Proof. unfold upd_pkt, get_pkt, put_pkt. same_tac. Qed.
Lemma apart_free_pkt p : apart (free_pkt p).
Proof. unfold free_pkt, free_pkt_block. same_tac. Qed.
#[export] Hint Resolve apart_upd_conn apart_upd_pkt apart_free_pkt : keeps.

(** ** The data path *)

Ltac apart_tac :=
  unfold pkt_conn, pin_addr, get_conn, get_pkt, get_target, get_handler, get_iface, get_pin, put_pkt, put_conn; same_tac.

Lemma apart_do_nat pkt : apart (do_nat pkt).
Proof. unfold do_nat. apart_tac. Qed.
Lemma apart_send_pkt pkt : apart (send_pkt pkt).
Proof. unfold send_pkt. apart_tac. Qed.
Lemma apart_is_tcp pkt : apart (is_tcp pkt).
Proof. unfold is_tcp. apart_tac. Qed.
Lemma apart_reply_reset p i : apart (reply_reset p i).
Proof. unfold reply_reset. apart_tac. Qed.
Lemma apart_switch a s : apart (switch_state a s).
Proof. unfold switch_state. apart_tac. Qed.
Lemma apart_store conn pkt : apart (store_pkt conn pkt).
Proof. unfold store_pkt. apart_tac. Qed.
#[export] Hint Resolve apart_do_nat apart_send_pkt apart_is_tcp apart_reply_reset apart_switch apart_store : keeps.
Lemma apart_proxy_ext2int pkt : apart (proxy_ext2int pkt).
Proof. unfold proxy_ext2int. apart_tac. Qed.
Lemma apart_proxy_int2ext pkt : apart (proxy_int2ext pkt).
Proof. unfold proxy_int2ext. apart_tac. Qed.
Lemma apart_proxy_hih2intra pkt : apart (proxy_hih2intra pkt).
Proof. unfold proxy_hih2intra. apart_tac. Qed.
Lemma apart_proxy_intra2hih pkt : apart (proxy_intra2hih pkt).
Proof. unfold proxy_intra2hih. apart_tac. Qed.
Lemma apart_forward_ext2hih pkt : apart (forward_ext2hih pkt).
Proof. unfold forward_ext2hih. apart_tac. Qed.
Lemma apart_forward_hih2ext pkt : apart (forward_hih2ext pkt).
Proof. unfold forward_hih2ext. apart_tac. Qed.
Lemma apart_define_expected pkt : apart (define_expected_data pkt).
Proof. unfold define_expected_data. apart_tac. Qed.
Lemma apart_test_expected conn pkt : apart (test_expected conn pkt).
Proof. unfold test_expected. apart_tac. Qed.
Lemma apart_incr_replay conn : apart (incr_replay_id conn).
Proof. apply apart_upd_conn. Qed.
#[export] Hint Resolve apart_proxy_ext2int apart_proxy_int2ext apart_proxy_hih2intra apart_proxy_intra2hih
  apart_forward_ext2hih apart_forward_hih2ext apart_define_expected apart_test_expected apart_incr_replay : keeps.
Lemma apart_store_or_free conn pkt : apart (store_or_free conn pkt).
Proof. unfold store_or_free. apart_tac. Qed.
Lemma apart_note_syn conn pkt : apart (note_syn conn pkt).
Proof. unfold note_syn, is_tcp_syn, tcp_seq_of. apart_tac. Qed.
Lemma apart_note_delta conn pkt : apart (note_delta conn pkt).
Proof. unfold note_delta, is_tcp_syn, tcp_seq_of. apart_tac. Qed.
Lemma apart_replay_loop fuel conn current de : apart (replay_loop fuel conn current de).
Proof.
  revert current de. induction fuel as [|fuel IH]; intros current de; cbn [replay_loop]; [same_tac|].
  apart_tac; apply IH.
Qed.
#[export] Hint Resolve apart_store_or_free apart_note_syn apart_note_delta apart_replay_loop : keeps.
Lemma apart_replay conn pkt : apart (replay conn pkt).
Proof. unfold replay. apart_tac. Qed.
Lemma apart_reset_loop l t p : apart (reset_lih_loop l t p).
Proof. revert t p. induction l; intros t p; cbn [reset_lih_loop]; apart_tac. Qed.
Lemma apart_forward_loop fuel conn : apart (forward_loop fuel conn).
Proof. induction fuel as [|fuel IH]; cbn [forward_loop]; [same_tac|]. apart_tac; apply IH. Qed.
Lemma apart_bind_exclusive c bh : apart (bind_exclusive c bh).
Proof.
  unfold bind_exclusive, new_pin_key, find_pin, incr_pin, upd_pin, put_pin, put_pin_key, free_pin_key, get_pin_key.
  apart_tac.
Qed.
#[export] Hint Resolve apart_replay apart_reset_loop apart_forward_loop apart_bind_exclusive : keeps.
Lemma apart_redirection conn h mt : apart (setup_redirection conn h mt).
Proof. unfold setup_redirection, reset_lih. apart_tac. Qed.
#[export] Hint Resolve apart_redirection : keeps.

(** ** The decisions and the handlers *)

Section Dispatch.
Context `{ModuleRunner} {Hlinks : LinkModules}.

Lemma apart_decide_loop fuel node args d : apart (decide_loop fuel node args d).
Proof.
  revert node args d. induction fuel as [|fuel IH]; intros node args d; cbn [decide_loop]; [same_tac|].
  pose proof run_links. unfold call_module, get_node. same_tac; apply IH.
Qed.
#[local] Hint Resolve apart_decide_loop : keeps.
Lemma apart_get_decision d : apart (get_decision d).
Proof. unfold get_decision, do_decide. apart_tac. Qed.
#[local] Hint Resolve apart_get_decision : keeps.
Lemma apart_process pkt mt : apart (DE_process_packet pkt mt).
Proof. unfold DE_process_packet, de_decide, de_apply, get_decision_backend. apart_tac. Qed.
#[local] Hint Resolve apart_process : keeps.
Lemma apart_dispatch conn pkt mt : apart (dispatch conn pkt mt).
Proof. unfold dispatch, refuse, de_ext, de_lih, de_hih, de_intra. apart_tac. Qed.
End Dispatch.

(** ** The modules of the program *)

Section Modules.
Context (cap : list Z -> Z).
Context (addr_pton_ip : list Z -> Z) (addr_pton_mac : list Z -> list Z).
Context (sha1 : list Z -> list Z) (replace_ip : list Z -> option (list Z)) (junk : Z).
Context (outlived : ptr -> bool).

Lemma apart_store_entry f path g k n info : apart (store_entry f path g k n info).
Proof. unfold store_entry, save_backup, put_key_file, get_key_file. same_tac. Qed.
#[local] Hint Resolve apart_store_entry : keeps.
Lemma apart_mod_vmi args : apart (mod_vmi outlived args).
Proof. unfold mod_vmi, mod_vmi_pick, mod_vmi_control, get_new_clone, upd_vmi, get_node. apart_tac. Qed.
Lemma apart_dns args : apart (mod_dns_control addr_pton_ip addr_pton_mac args).
Proof.
  unfold mod_dns_control, dns_redirect, config_block, add_intra_handler, switch_conn_to_intra, insert_intra,
    put_handler, put_target, get_node. apart_tac.
Qed.
#[local] Hint Resolve apart_mod_vmi apart_dns : keeps.

#[export] Instance modules_links :
  @LinkModules (modules_runner cap addr_pton_ip addr_pton_mac sha1 replace_ip junk outlived).
Proof.
  intros f args. unfold run_module.
  destruct f; unfold modules_runner, mod_source, mod_source_time, mod_random, mod_yesno, mod_counter,
    mod_control, mod_backpick_random, mod_hash, with_backup, config_atoi, config_block, config_file, pkt_saddr,
    save_backup, put_key_file, get_key_file, get_node; apart_tac.
Qed.
End Modules.

(** * The invariant *)

(** Every live connection opened from outside is filed in [ext_tree1]. *)
Definition complete (w : world) : Prop :=
  forall a c, w_conns w !! a = Some c -> cn_initiator c = EXT -> exists k, ext_tree1 w !! k = Some a.

(** What a step of the gateway does to it: it holds, and a connection that
    survives keeps its place. *)
Record files_on (w w' : world) : Prop := {
  fo_complete : complete w';
  fo_filed : forall a k, ext_tree1 w !! k = Some a -> is_Some (w_conns w' !! a) -> ext_tree1 w' !! k = Some a;
}.

(** A step that leaves [ext_tree1] and opens no connection. *)
Lemma files_on_same w w' : complete w -> ext_tree1 w' = ext_tree1 w ->
  (forall a c', w_conns w' !! a = Some c' -> exists c, w_conns w !! a = Some c /\ cn_initiator c' = cn_initiator c) ->
  files_on w w'.
Proof.
  intros Hc He Hi. split; [|intros a k; by rewrite He]. intros a c' Ha' Hx. rewrite He.
  destruct (Hi _ _ Ha') as (c & Ha & Ei). apply (Hc a c Ha). congruence.
Qed.
Lemma files_on_tracks w w' : complete w -> tracks w w' -> files_on w w'.
Proof.
  intros Hc Ht. apply files_on_same; [done|apply Ht|]. intros a c' Ha'.
  destruct (w_conns w !! a) as [c|] eqn:E; [|by rewrite (tr_back _ _ Ht _ E) in Ha'].
  destruct (tr_conns _ _ Ht _ _ E) as (c1 & E1 & Ei & _). exists c. split; [done|congruence].
Qed.
Lemma files_on_quiet w w' : complete w -> quiet w w' -> files_on w w'.
Proof. intros Hc Hq. by apply files_on_tracks, quiet_tracks. Qed.
Lemma files_on_evolves w w' : complete w -> evolves w w' -> same outside w w' -> files_on w w'.
Proof.
  intros Hc Hv Ho. injection Ho as He _. apply files_on_same; [done..|]. intros a c' Ha'.
  destruct (w_conns w !! a) as [c|] eqn:E; [|by rewrite (ev_back _ _ Hv _ E) in Ha'].
  destruct (ev_ages _ _ Hv _ _ E) as (c1 & E1 & _ & Ei & _). exists c. split; [done|congruence].
Qed.

(** The place of a connection is that of its key. *)
Lemma filed_under w a c key : trees_ok w -> complete w -> w_conns w !! a = Some c -> cn_initiator c = EXT ->
  cn_ext_key c = Some key -> ext_tree1 w !! conn_key_word key = Some a.
Proof.
  intros Hok Hc Ha Hx Hk. destruct (Hc _ _ Ha Hx) as [k Hf].
  destruct (ok_ext1 _ Hok _ _ Hf) as (c0 & E & _ & key0 & Ek & <-). congruence.
Qed.

(** The steps compose as long as addresses are not used again. *)
Lemma files_on_trans w w1 w' :
  (forall a k, ext_tree1 w !! k = Some a -> w_conns w1 !! a = None -> w_conns w' !! a = None) ->
  files_on w w1 -> files_on w1 w' -> files_on w w'.
Proof.
  intros Hgone [C1 F1] [C2 F2]. split; [done|]. intros a k Hk Ha. apply F2; [|done]. apply F1; [done|].
  destruct (w_conns w1 !! a) eqn:E; [done|]. rewrite (Hgone a k) in Ha by done. by destruct Ha.
Qed.

Lemma files_on_after w w1 w' : quiet w w1 -> files_on w1 w' -> files_on w w'.
Proof. intros Hq [C F]. split; [done|]. intros a k Hk. apply F. by rewrite (q_ext1 _ _ Hq). Qed.

(** ** Creation *)

(** The search of the target of a packet gives no packet an outside origin. *)
Definition origin_kept (pkt : ptr) (w w' : world) : Prop :=
  forall p', w_pkts w' !! pkt = Some p' -> exists p, w_pkts w !! pkt = Some p /\
    pt_packet p' = pt_packet p /\ (pt_origin p' = EXT -> pt_origin p = EXT).
#[export] Instance origin_kept_refl pkt : Reflexive (origin_kept pkt).
Proof. intros w p Hp. by exists p. Qed.
#[export] Instance origin_kept_trans pkt : Transitive (origin_kept pkt).
Proof.
  intros w1 w2 w3 H1 H2 p3 Hp3. destruct (H2 _ Hp3) as (p2 & Hp2 & P2 & O2). destruct (H1 _ Hp2) as (p1 & Hp1 & P1 & O1).
  exists p1. split; [done|]. split; [congruence|auto].
Qed.
Lemma origin_kept_set pkt r : r <> EXT -> keeps (origin_kept pkt) (set_origin pkt r).
Proof.
  intros Hr w u w' H1. unfold set_origin, upd_pkt in H1. srun H1 as p w1 H2. apply get_pkt_inv in H2 as [Hp ->].
  injection H1 as _ <-. intros p' Hp'. simpl in Hp'. rewrite lookup_insert_eq in Hp'. injection Hp' as <-. exists p. done.
Qed.
Lemma origin_kept_select pkt p : keeps (origin_kept pkt) (select_target pkt p).
Proof.
  assert (keeps (origin_kept pkt) (set_origin pkt LIH)) by by apply origin_kept_set.
  assert (keeps (origin_kept pkt) (set_origin pkt HIH)) by by apply origin_kept_set.
  assert (keeps (origin_kept pkt) (set_origin pkt INTRA)) by by apply origin_kept_set.
  unfold select_target, find_target, find_hih_src, find_intra, get_target, get_pkt, get_handler, get_iface. keeps_tac.
Qed.

(** Only a packet from outside files a connection under an outside key. *)
Lemma creation_apart conn pkt c t s r : r <> EXT -> apart (creation conn pkt c t s r).
Proof. destruct r; try done; intros _; creation_tac. Qed.

(** What [create_conn] does once it has a target: the packet it reads again, the
    creation of its side, and the end. *)
Record creates (pkt : ptr) (w : world) (res : option ptr) (w' : world) : Prop := {
  cr_run : exists p p' ta t s id mt conn c r c' w4 w5,
    w_pkts w !! pkt = Some p /\ pt_packet p' = pt_packet p /\ (pt_origin p' = EXT -> pt_origin p = EXT) /\
    quiet w w4 /\ conn_init p' ta id mt = Ret c /\ creation conn pkt c t s (pt_origin p') w4 = Ret ((r, c'), w5) /\
    ext_tree1 w' = ext_tree1 w5 /\ (r = OK -> cn_initiator c' = pt_origin p') /\
    match r with OK => res = Some conn /\ w_conns w' !! conn = Some c' | NOK => res = None end
}.

Lemma create_conn_run pkt mt w res w' : create_conn pkt mt w = Ret (res, w') ->
  (res = None /\ quiet w w') \/ creates pkt w res w'.
Proof.
  intros H1. unfold create_conn in H1. srun H1 as p w1 H2. apply get_pkt_inv in H2 as [Hp ->].
  srun H1 as proto w1 H2. apply slift_Ret_inv in H2 as [_ ->]. srun H1 as no_syn w1 H2.
  assert (w1 = w) as -> by (destruct (proto =? IPPROTO_TCP); run_inv; done).
  destruct no_syn; [injection H1 as <- <-; by left|]. clear H2. srun H1 as [ta s] w2 H2.
  pose proof (quiet_select_target pkt p _ _ _ H2) as Hq. pose proof (origin_kept_select pkt p _ _ _ H2) as Ho.
  destruct ta as [ta|]; [|injection H1 as <- <-; by left]. right.
  srun H1 as conn w3 H3. pose proof (quiet_malloc _ _ _ H3) as Hq3. injection H3 as <- <-.
  srun H1 as p' w4 H4. apply get_pkt_inv in H4 as [Hp' ->]. destruct (Ho _ Hp') as (p0 & E & Hpk & Hor).
  assert (p0 = p) as -> by congruence. srun H1 as t w4 H4. unfold get_target in H4.
  apply deref_Ret_inv in H4 as (_ & _ & _ & ->). srun H1 as u w4 H4. apply quiet_c_id in H4.
  srun H1 as wx w5 H5. injection H5 as _ <-. srun H1 as c w5 H5. apply slift_Ret_inv in H5 as [Hc ->].
  destruct (conn_init_unborn _ _ _ _ _ Hc) as [Hu Hi]. srun H1 as [r c'] w5 H5. fold (creation (w_next w2) pkt c t s (pt_origin p')) in H5.
  split. exists p, p', ta, t, s, (c_id wx), mt, (w_next w2), c, r, c', w4, w5.
  split; [done|]. split; [done|]. split; [done|]. split; [by etrans; [|etrans]|]. split; [done|]. split; [done|].
  assert (Hb : r = OK -> cn_initiator c' = pt_origin p').
  { intros ->. rewrite <- Hi in *. by apply creation_born in H5 as [_ ->]. }
  srun H1 as v w6 H6. injection H6 as _ <-. destruct r; srun H1 as v' w7 H7; injection H1 as <- <-.
  - apply free_conn_effect in H7 as (w8 & Q & ->). split; [apply Q|]. by split.
  - apply quiet_upd_pkt in H7. split; [apply H7|]. split; [done|]. split; [done|].
    rewrite (q_conns _ _ H7). simpl. apply lookup_insert_eq.
Qed.

(** A new connection at a free key. *)
Lemma files_on_filed w w' conn c key : complete w -> conn_lookup_in (ext_tree1 w) key = None ->
  ext_tree1 w' = <[conn_key_word key := conn]> (ext_tree1 w) -> w_conns w' = <[conn := c]> (w_conns w) -> files_on w w'.
Proof.
  unfold conn_lookup_in. intros Hc Hnone He Hcs.
  assert (Hold : forall b k, ext_tree1 w !! k = Some b -> ext_tree1 w' !! k = Some b).
  { intros b k Hk. rewrite He, lookup_insert_ne; [done|]. intros <-. congruence. }
  split; [|by intros a k Hk _; apply Hold]. intros b cb Hb Hib. rewrite Hcs in Hb.
  destruct (decide (conn = b)) as [<-|Hne].
  - exists (conn_key_word key). rewrite He. apply lookup_insert_eq.
  - rewrite lookup_insert_ne in Hb by done. destruct (Hc _ _ Hb Hib) as [k Hk]. exists k. by apply Hold.
Qed.

Lemma create_conn_files pkt mt w p key res w' : trees_ok w -> complete w ->
  w_pkts w !! pkt = Some p -> pkt_conn_key p = Ret key ->
  (pt_origin p = EXT -> ck_vlan_id key = 0 /\ conn_lookup_in (ext_tree1 w) key = None) ->
  create_conn pkt mt w = Ret (res, w') -> files_on w w'.
Proof.
  intros Hok Hc Hp Hkey Hx H1. destruct (create_conn_trees_ok _ _ _ _ _ Hok H1) as [Hok' Hres].
  destruct (create_conn_run _ _ _ _ _ H1) as [[-> Hq]|[Hrun]]; [by apply files_on_quiet|]. clear H1.
  destruct Hrun as (p0 & p' & ta & t & s & id & mt' & conn & c & r & c' & w4 & w5 & E & Hpk & Hor & Hq & Hi & Hcr & He & Hb & Hr).
  assert (p0 = p) as -> by congruence. destruct (decide (pt_origin p' = EXT)) as [Ho|Ho].
  - destruct (Hx (Hor Ho)) as [Hv Hnone]. rewrite Ho in Hcr. cbn [creation] in Hcr.
    apply create_conn_ext_filed in Hcr as (fh & fip & _ & _ & -> & T1 & _). destruct Hr as [-> Hconn].
    assert (Hk' : pkt_conn_key p' = Ret key) by (rewrite <- Hkey; unfold pkt_conn_key, pkt_vlan_id; by rewrite Hpk).
    pose proof (conn_init_key _ _ _ _ _ _ Hi Hk') as Ek. rewrite Hv in Ek. rewrite <- Ek, (q_ext1 _ _ Hq) in T1.
    rewrite T1 in He. destruct Hres as [Hfresh [c1 Hcs]]. by eapply files_on_filed.
  - assert (E1 : ext_tree1 w' = ext_tree1 w).
    { apply creation_apart in Hcr; [|done]. injection Hcr as E1 _. by rewrite He, E1, (q_ext1 _ _ Hq). }
    split; [|intros a k; by rewrite E1]. intros b cb Hcb Hib. rewrite E1. destruct r; [subst res|destruct Hr as [-> Hconn]].
    + rewrite Hres in Hcb. by eapply Hc.
    + destruct Hres as [_ [c1 Hcs]]. rewrite Hcs in Hcb, Hconn. rewrite lookup_insert_eq in Hconn. injection Hconn as ->.
      destruct (decide (conn = b)) as [<-|Hne]; [|rewrite lookup_insert_ne in Hcb by done; by eapply Hc].
      rewrite lookup_insert_eq in Hcb. injection Hcb as <-. rewrite Hb in Hib by done. done.
Qed.

(** ** The connection of a packet *)

(** A packet from outside is untagged: [pcap_cb] queues no other. *)
Definition plain (p : pkt_struct) : Prop :=
  pt_origin p = EXT -> eth_type (FRAME (pt_packet p)) (p_eth (pt_packet p)) = Ret (htons ETHERTYPE_IP).

Lemma plain_key p key : plain p -> pt_origin p = EXT -> pkt_conn_key p = Ret key -> ck_vlan_id key = 0.
Proof.
  intros Hp Ho Hk. unfold pkt_conn_key in Hk. orun Hk as pr E1. orun Hk as src E2. orun Hk as sp E3.
  orun Hk as dst E4. orun Hk as dp E5. orun Hk as vlan E6. injection Hk as <-. unfold pkt_vlan_id in E6.
  rewrite (Hp Ho) in E6. cbn [obind] in E6. rewrite Z.eqb_refl in E6. by injection E6.
Qed.

Lemma conn_lookup_none pkt w w' : conn_lookup pkt w = Ret (None, w') ->
  w' = w /\ exists p key, w_pkts w !! pkt = Some p /\ pkt_conn_key p = Ret key /\
    (pt_origin p = EXT -> conn_lookup_in (ext_tree1 w) key = None).
Proof.
  intros H1. unfold conn_lookup in H1. srun H1 as p w1 H2. apply get_pkt_inv in H2 as [Hp ->].
  srun H1 as key w1 H2. apply slift_Ret_inv in H2 as [Hk ->]. srun H1 as wx w1 H2. injection H2 as <- <-.
  srun H1 as found w1 H2. destruct found as [conn|].
  { srun H1 as c w2 H3. destruct (cn_lock c); [done|]. by srun H1 as u w3 H4. }
  injection H1 as <-. destruct (decide _) as [Ho|Ho].
  - destruct (conn_lookup_in (ext_tree1 w) key) eqn:E; [done|]. injection H2 as _ <-. split; [done|]. by exists p, key.
  - split; [|by exists p, key]. repeat case_match; run_inv; done.
Qed.

Lemma init_conn_files pkt mt w p res w' : trees_ok w -> complete w -> w_pkts w !! pkt = Some p -> plain p ->
  init_conn pkt mt w = Ret (res, w') -> files_on w w'.
Proof.
  intros Hok Hc Hp Hpl H1. unfold init_conn in H1. srun H1 as found w1 H2. destruct found as [a|].
  - apply conn_lookup_tracks in H2. srun H1 as r w2 H3. injection H1 as _ <-. apply update_conn_spec in H3 as (_ & Ht & _).
    apply files_on_tracks; [done|by etrans].
  - apply conn_lookup_none in H2 as (-> & p0 & key & E & Hk & Hn). assert (p0 = p) as -> by congruence.
    eapply create_conn_files; [done|done|exact Hp|exact Hk| |exact H1]. intros Ho. eauto using plain_key.
Qed.

Lemma init_conn_filed pkt mt w a c p key : w_pkts w !! pkt = Some p -> pt_origin p = EXT -> pkt_conn_key p = Ret key ->
  ext_tree1 w !! conn_key_word key = Some a -> w_conns w !! a = Some c -> cn_lock c = false ->
  exists w', init_conn pkt mt w = Ret (Some a, w').
Proof.
  intros Hp Ho Hk Hf Ha Hl.
  assert (Hlk : conn_lookup pkt w = Ret (Some a, with_conns w (<[a := c <| cn_lock := true |>]> (w_conns w)))).
  { unfold conn_lookup, get_pkt, get_conn, slift, sget, sret, put_conn, smodify, sbind. rewrite (deref_ok _ _ _ _ Hp), Hk.
    rewrite decide_True by done. unfold conn_lookup_in. by rewrite Hf, (deref_ok _ _ _ _ Ha), Hl. }
  unfold init_conn. unfold sbind at 1. rewrite Hlk.
  unfold update_conn, get_pkt, get_conn, sret, put_conn, put_pkt, smodify, sbind.
  set (w1 := with_conns w _). assert (Hp1 : w_pkts w1 !! pkt = Some p) by done.
  assert (Ha1 : w_conns w1 !! a = Some (c <| cn_lock := true |>)) by apply lookup_insert_eq.
  rewrite (deref_ok _ _ _ _ Hp1), (deref_ok _ _ _ _ Ha1). by eexists.
Qed.

(** ** An iteration *)

Section Iterations.
Context `{QuietModules} {Hlinks : LinkModules} (needfrag : Z -> list Z -> list Z).

Lemma unlock_apart conn : apart (unlock conn).
Proof. apply apart_upd_conn. Qed.

Lemma de_packet_files pkt mt w p u w' : loop_ok w -> complete w -> w_pkts w !! pkt = Some p -> plain p ->
  de_packet needfrag pkt mt w = Ret (u, w') -> files_on w w'.
Proof.
  intros Hlo Hc Hp Hpl H1. unfold de_packet in H1. srun H1 as p0 w1 H2. apply get_pkt_inv in H2 as [E ->].
  assert (p0 = p) as -> by congruence. destruct (pt_fragmented p).
  { srun H1 as v w1 H2. by apply frag_needed_faults in H2. }
  srun H1 as ok w1 H2. assert (keeps (same w_pkts) (accepted pkt)) as Hk by (unfold accepted, get_pkt, get_iface; same_tac).
  apply Hk in H2 as Hpk. apply quiet_accepted in H2. destruct (negb ok).
  { apply quiet_free_pkt in H1. apply files_on_quiet; [done|by etrans]. }
  assert (Hlo1 : loop_ok w1) by (by eapply evolves_loop, quiet_evolves).
  assert (Hc1 : complete w1) by (by apply (files_on_quiet _ _ Hc H2)).
  srun H1 as found w2 H3. rewrite <- Hpk in Hp. pose proof (init_conn_working _ _ _ _ _ Hlo1 H3) as Hw.
  pose proof (init_conn_files _ _ _ _ _ _ (ow_trees _ (lo_world _ Hlo1)) Hc1 Hp Hpl H3) as Hf.
  eapply files_on_after; [exact H2|].
  destruct found as [conn|].
  - srun H1 as v w3 H4. destruct Hw as (c & p' & Hcar & Hent & _).
    destruct (dispatch_evolves _ _ _ _ _ _ _ _ Hcar Hent H4) as (Hv & _).
    apply apart_dispatch in H4. apply unlock_spec in H1 as (cu & _ & Ht & _).
    pose proof (files_on_evolves _ _ (fo_complete _ _ Hf) Hv H4) as Hf2.
    pose proof (files_on_tracks _ _ (fo_complete _ _ Hf2) Ht) as Hf3.
    eapply files_on_trans; [|eapply files_on_trans; [|exact Hf|exact Hf2]|exact Hf3].
    + intros a k _ Ha. by apply (tr_back _ _ Ht).
    + intros a k _ Ha. by apply (ev_back _ _ Hv).
  - apply quiet_free_pkt in H1. eapply files_on_trans; [|exact Hf|apply files_on_quiet; [apply Hf|done]].
    intros a k _ Ha. by rewrite (q_conns _ _ H1).
Qed.

(** A frame that was queued: bytes, from a known interface, and untagged when it
    comes from outside. *)
Definition untagged (ifs : gmap ptr interface) (raw : raw_pcap) : Prop :=
  bytes (rw_packet raw) /\ exists i, ifs !! rw_iface raw = Some i /\
    (is_Some (if_target i) -> eth_type (rw_packet raw) 0 <> Ret (htons ETHERTYPE_VLAN)).

Lemma received_plain raw w pkt w' : untagged (w_ifaces w) raw ->
  process_packet (rw_iface raw) (rw_len raw) (rw_packet raw) w = Ret ((OK, Some pkt), w') ->
  exists p, w_pkts w' !! pkt = Some p /\ plain p.
Proof.
  intros (Hb & i & Hi & Ht) H1. apply (process_packet_spec _ _ _ _ _ _ _ _ Hb Hi) in H1 as (_ & -> & p & Hp & Hwf).
  exists p. rewrite Hp, lookup_insert_eq. split; [done|]. intros Ho. rewrite (wf_origin _ _ _ _ Hwf) in Ho.
  destruct (wf_layout _ _ _ _ Hwf) as [(He & _ & Hf & Hty & _)|(_ & _ & _ & Hty & _)].
  - rewrite He, Hf. rewrite <- Hty. unfold eth_type, ld16. change (4 + 12)%nat with (length (repeat 0 4) + (0 + 12))%nat.
    by rewrite mget_shift.
  - destruct (if_target i) eqn:E; [|done]. destruct Ht; [by eexists|done].
Qed.

Lemma iteration_files raw mt w go w' : loop_ok w -> complete w -> untagged (w_ifaces w) raw ->
  de_iteration needfrag raw mt w = Ret (go, w') -> files_on w w'.
Proof.
  intros Hlo Hc Hun H1. unfold de_iteration in H1. destruct (rw_last raw); [injection H1 as _ <-; by apply files_on_quiet|].
  srun H1 as [st pkt] w1 H2. srun H1 as u w2 H3. injection H1 as _ <-. pose proof H2 as Hq. apply quiet_process_packet in Hq.
  destruct st; [injection H3 as _ <-; by apply files_on_quiet|]. destruct pkt as [pkt|]; [|injection H3 as _ <-; by apply files_on_quiet].
  destruct (received_plain _ _ _ _ Hun H2) as (p & Hp & Hpl). eapply files_on_after; [exact Hq|].
  eapply de_packet_files; [by eapply evolves_loop, quiet_evolves|by apply (files_on_quiet _ _ Hc Hq)|exact Hp|exact Hpl|exact H3].
Qed.

(** The interfaces stay what they are. *)
Notation linked := (keeps (same w_ifaces)).
Lemma apart_linked {A} (m : M A) : apart m -> linked m.
Proof. apply keeps_weaken. intros w w' E. by injection E. Qed.
Lemma linked_malloc : linked malloc.
Proof. apply apart_linked, apart_malloc. Qed.
#[local] Hint Resolve linked_malloc : keeps.
Lemma linked_creation conn pkt c t s r : linked (creation conn pkt c t s r).
Proof. destruct r; creation_tac. Qed.
Lemma linked_free_pkts l : linked (free_pkts l).
Proof. induction l; cbn [free_pkts]; same_tac. Qed.
#[local] Hint Resolve linked_free_pkts : keeps.
Lemma linked_init_conn pkt mt : linked (init_conn pkt mt).
Proof.
  pose proof (fun conn c t s => linked_creation conn pkt c t s EXT). pose proof (fun conn c t s => linked_creation conn pkt c t s LIH).
  pose proof (fun conn c t s => linked_creation conn pkt c t s HIH). pose proof (fun conn c t s => linked_creation conn pkt c t s INTRA).
  cbn [creation] in *.
  assert (forall k t s, linked (find_target pkt k t s)) by
    (intros; unfold find_target, find_hih_src, find_intra, set_origin, get_target, get_pkt, get_handler; same_tac).
  unfold init_conn, conn_lookup, update_conn, lookup_origin, set_origin, create_conn, free_conn, free_0_pin_key, free_pin_key,
    free_conn_block, put_conn, put_pkt, get_conn, get_pkt, get_target, get_handler, get_iface.
  same_tac; eauto using target_search_init.
Qed.
Lemma linked_iteration raw mt : linked (de_iteration needfrag raw mt).
Proof.
  pose proof (fun conn pkt => apart_linked _ (apart_dispatch conn pkt mt)). pose proof (fun conn => apart_linked _ (unlock_apart conn)).
  pose proof linked_init_conn. pose proof (fun pkt => apart_linked _ (apart_free_pkt pkt)).
  assert (Hf : forall pkt, linked (send_icmp_frag_needed needfrag pkt)) by (intros pkt w v w' Hr; by apply frag_needed_faults in Hr).
  unfold de_iteration, de_packet, accepted, process_packet, init_pkt, get_iface, get_pkt, put_pkt. same_tac.
Qed.
End Iterations.

(** ** Cleaning *)

(** The removal of a connection takes no other out of [ext_tree1]. *)
Lemma remove_trees_ext1 a c w u w' : trees_ok w -> complete w -> w_conns w !! a = Some c ->
  remove_from_trees c w = Ret (u, w') -> forall b k, b <> a -> ext_tree1 w !! k = Some b -> ext_tree1 w' !! k = Some b.
Proof.
  intros Hok Hc Ha H1 b k Hne Hk. assert (Hsame : ext_tree1 w' = ext_tree1 w -> ext_tree1 w' !! k = Some b) by by intros ->.
  assert (Hint : remove_int c w = Ret (u, w') -> ext_tree1 w' = ext_tree1 w).
  { intros H2. unfold remove_int in H2. srun H2 as wx w1 H3. injection H3 as <- <-. srun H2 as t2 w1 H3. apply slift_Ret_inv in H3 as [_ ->].
    srun H2 as t1 w1 H3. apply slift_Ret_inv in H3 as [_ ->]. srun H2 as v w1 H3. injection H3 as _ <-.
    apply (quiet_release comm_pin_tree set_comm_pin_tree) in H2; [|auto with keeps]. apply H2. }
  assert (Hintra : remove_intra c w = Ret (u, w') -> ext_tree1 w' = ext_tree1 w).
  { intros H2. unfold remove_intra in H2. srun H2 as wx w1 H3. injection H3 as <- <-. srun H2 as t1 w1 H3. apply slift_Ret_inv in H3 as [_ ->].
    srun H2 as t2 w1 H3. apply slift_Ret_inv in H3 as [_ ->]. srun H2 as v w1 H3. injection H3 as _ <-.
    apply (quiet_release intra_pin_tree set_intra_pin_tree) in H2; [|auto with keeps]. apply H2. }
  unfold remove_from_trees in H1. destruct (cn_initiator c) eqn:Ei, (cn_destination c) eqn:Ed; auto;
    try (by injection H1 as _ <-); clear Hint Hintra.
  all: unfold remove_ext in H1; srun H1 as wx w1 H2; injection H2 as <- <-; srun H1 as t1 w1 H2; apply slift_Ret_inv in H2 as [H2 ->].
  all: srun H1 as t2 w1 H3; apply slift_Ret_inv in H3 as [_ ->]; srun H1 as t3 w1 H3; apply slift_Ret_inv in H3 as [_ ->].
  all: srun H1 as v w1 H3; injection H3 as _ <-; apply (quiet_release comm_pin_tree set_comm_pin_tree) in H1; [|auto with keeps].
  all: rewrite (q_ext1 _ _ H1); simpl; apply remove_key_inv in H2 as [(ck & Eck & ->)|(_ & E & ->)]; [|by rewrite E in Hk].
  all: destruct (Hc _ _ Ha Ei) as [k0 Hk0]; destruct (ok_ext1 _ Hok _ _ Hk0) as (c0 & Ec0 & _ & ck0 & Eck0 & <-).
  all: assert (c0 = c) as -> by congruence; assert (ck0 = ck) as -> by congruence.
  all: rewrite lookup_delete_ne; [done|congruence].
Qed.

Lemma remove_conn_files a delay w u w' : trees_ok w -> complete w -> remove_conn a delay w = Ret (u, w') -> files_on w w'.
Proof.
  intros Hok Hc H1. destruct (remove_conn_spec _ _ _ _ _ Hok H1) as (c & Ha & [(_ & _ & ->)|(Hl & _ & Hcs & _)]);
    [by apply files_on_quiet|].
  assert (Hold : forall b k, b <> a -> ext_tree1 w !! k = Some b -> ext_tree1 w' !! k = Some b).
  { intros b k Hne Hk. unfold remove_conn in H1. srun H1 as c0 w1 H2. apply get_conn_inv in H2 as [E ->].
    assert (c0 = c) as -> by congruence. rewrite Hl in H1. srun H1 as v1 w1 H2.
    assert (Ht : tracks w w1) by by eapply tracks_put_conn; [exact Ha| |exact H2].
    pose proof (trees_ok_tracks _ _ Hok Ht) as Hok1. pose proof (fo_complete _ _ (files_on_tracks _ _ Hc Ht)) as Hc1.
    assert (Ha1 : w_conns w1 !! a = Some (c <| cn_lock := true |>)) by (injection H2 as _ <-; apply lookup_insert_eq).
    rewrite <- (tr_ext1 _ _ Ht) in Hk. srun H1 as v2 w2 H3.
    change (remove_from_trees c) with (remove_from_trees (c <| cn_lock := true |>)) in H3.
    pose proof (remove_trees_ext1 _ _ _ _ _ Hok1 Hc1 Ha1 H3 b k Hne Hk) as Hk2. srun H1 as v3 w3 H4.
    apply (quiet_release target_pin_tree set_target_pin_tree) in H4; [|auto with keeps]. srun H1 as c' w4 H5.
    apply get_conn_inv in H5 as [_ ->]. srun H1 as v4 w4 H5. apply quiet_logged in H5.
    apply free_conn_effect in H1 as (w5 & Q & ->). simpl. by rewrite (q_ext1 _ _ Q), (q_ext1 _ _ H5), (q_ext1 _ _ H4). }
  split.
  - intros b cb Hb Hib. rewrite Hcs in Hb. apply lookup_delete_Some in Hb as [Hne Hb].
    destruct (Hc _ _ Hb Hib) as [k Hk]. exists k. by apply Hold.
  - intros b k Hk Hb. apply Hold; [|done]. intros ->. rewrite Hcs, lookup_delete_eq in Hb. by destruct Hb.
Qed.

Lemma remove_conns_files l delay w u w' : trees_ok w -> complete w -> remove_conns l delay w = Ret (u, w') ->
  files_on w w' /\ forall a, w_conns w !! a = None -> w_conns w' !! a = None.
Proof.
  revert w. induction l as [|a l IH]; intros w Hok Hc H1; cbn [remove_conns] in H1.
  { injection H1 as _ <-. split; [by apply files_on_quiet|done]. }
  srun H1 as v w1 H2. pose proof (remove_conn_files _ _ _ _ _ Hok Hc H2) as Hf.
  assert (trees_ok w1 /\ forall b, w_conns w !! b = None -> w_conns w1 !! b = None) as [Hok1 Hb1].
  { destruct (remove_conn_spec _ _ _ _ _ Hok H2) as (c & _ & [(_ & _ & ->)|(_ & Hok1 & Hcs & _)]); [done|]. split; [done|].
    intros b Hb. rewrite Hcs. apply lookup_delete_None. by right. }
  destruct (IH _ Hok1 (fo_complete _ _ Hf) H1) as [Hf' Hb']. split; [|auto].
  eapply files_on_trans; [|exact Hf|exact Hf']. auto.
Qed.

Lemma clean_files clock w u w' : trees_ok w -> complete w -> clean clock w = Ret (u, w') -> files_on w w'.
Proof.
  intros Hok Hc H1. unfold clean, clean_round in H1. srun H1 as d w1 H2. injection H2 as _ <-.
  srun H1 as wx w1 H2. injection H2 as _ <-. srun H1 as l1 w1 H2. apply expire_foreach in H2 as [-> _].
  srun H1 as l2 w1 H2. apply expire_foreach in H2 as [-> _]. srun H1 as l3 w1 H2. apply expire_foreach in H2 as [-> _].
  by apply remove_conns_files in H1 as [? _].
Qed.

Lemma linked_clean clock : keeps (same w_ifaces) (clean clock).
Proof.
  assert (Hl : forall l d, keeps (same w_ifaces) (remove_conns l d)).
  { assert (forall l, keeps (same w_ifaces) (free_pkts l)) by (intros l; induction l; cbn [free_pkts]; same_tac).
    intros l d. induction l as [|a l IH]; cbn [remove_conns]; [apply keeps_sret, _|].
    apply keeps_sbind; [apply _| |by intros _].
    unfold remove_conn, remove_from_trees, remove_ext, remove_int, remove_intra, release_pin, find_pin, remove_pin_key, free_conn,
      free_0_pin_key, free_pin, free_pin_key, free_pin_block, free_conn_block, upd_pin, put_pin, put_conn, get_conn, get_pin,
      get_pin_key. same_tac. }
  unfold clean, clean_round, expire_conn, get_conn. same_tac; apply Hl.
Qed.

(** ** Runs *)

Definition queues_untagged (g : gateway) : Prop :=
  forall q l raw, gw_queues g !! q = Some l -> raw ∈ l -> untagged (w_ifaces (gw_world g)) raw.

(** [pcap_cb] queues no tagged frame from outside. *)
Lemma pcap_cb_untagged n iface len packet w q raw w' : bytes packet ->
  pcap_cb n iface len packet w = Ret (Some (q, raw), w') -> untagged (w_ifaces w) raw.
Proof.
  intros Hb H1. unfold pcap_cb in H1. srun H1 as ty w1 H2. apply slift_Ret_inv in H2 as [Hty ->].
  srun H1 as i w1 H2. unfold get_iface in H2. apply deref_Ret_inv in H2 as (b & [= <-] & Hi & ->).
  srun H1 as ip w1 H2. destruct ip as [ip|]; [|done]. srun H1 as q' w2 H3. injection H1 as _ <- _.
  split; [done|]. exists i. split; [done|]. intros [t Ht] E. simpl in E. assert (ty = htons ETHERTYPE_VLAN) as -> by congruence.
  rewrite Ht in H2. by vm_compute in H2.
Qed.

Lemma linked_pcap_cb n iface len packet : keeps (same w_ifaces) (pcap_cb n iface len packet).
Proof.
  assert (forall i f, keeps (same w_ifaces) (pcap_inject i f)) by (intros; by apply apart_linked, apart_inject).
  unfold pcap_cb, send_arp_reply, get_iface. same_tac.
Qed.

Lemma linked_save_round can_open : keeps (same w_ifaces) (save_backup_round can_open).
Proof.
  unfold save_backup_round. apply keeps_sbind; [apply _|apply keeps_sgets, _|]. intros m.
  induction (map_to_list m) as [|[k a] l IH]; cbn [write_backups]; [apply keeps_sret, _|].
  unfold write_backup, get_key_file. same_tac.
Qed.

Section Runs.
Context `{QuietModules} {Hlinks : LinkModules} (needfrag : Z -> list Z -> list Z) (decision_threads : Z).

Lemma step_files g g' : loop_ok (gw_world g) -> complete (gw_world g) -> queues_untagged g ->
  step needfrag decision_threads g g' -> files_on (gw_world g) (gw_world g') /\ queues_untagged g'.
Proof.
  intros Hlo Hc Hq [iface len packet r w' Hb H1|q raw rest mt go w' Hraw H1|clock w' H1|can_open files w' H1|now rand]; simpl.
  - split; [by eapply files_on_quiet, quiet_pcap_cb|]. pose proof (linked_pcap_cb _ _ _ _ _ _ _ H1) as Hi.
    destruct r as [[q raw]|]; [|intros q l raw Hl Hin; simpl; rewrite Hi; by eapply Hq].
    intros q' l raw' Hl Hin. simpl in *. rewrite Hi. destruct (decide (q = q')) as [<-|];
      [|rewrite lookup_insert_ne in Hl by done; by eapply Hq].
    rewrite lookup_insert_eq in Hl. injection Hl as <-. apply elem_of_app in Hin as [Hin| ->%list_elem_of_singleton].
    + destruct (gw_queues g !! q) eqn:E; [by eapply Hq|by apply elem_of_nil in Hin].
    + by eapply pcap_cb_untagged.
  - split; [eapply iteration_files; [done|done| |exact H1]; eapply Hq; [exact Hraw|by left]|].
    pose proof (linked_iteration _ _ _ _ _ _ H1) as Hi. intros q' l raw' Hl Hin. simpl in *. rewrite Hi.
    destruct (decide (q = q')) as [<-|]; [|rewrite lookup_insert_ne in Hl by done; by eapply Hq].
    rewrite lookup_insert_eq in Hl. injection Hl as <-. eapply Hq; [exact Hraw|by right].
  - split; [eapply clean_files; [apply Hlo|done|exact H1]|]. intros q l raw Hl Hin. simpl in *.
    rewrite (linked_clean _ _ _ _ H1). by eapply Hq.
  - split; [by eapply files_on_quiet, quiet_save_round|]. intros q l raw Hl Hin. simpl in *.
    rewrite (linked_save_round _ _ _ _ H1). by eapply Hq.
  - split; [by apply files_on_same; [..|eauto]|]. intros q l raw Hl Hin. simpl. by eapply Hq.
Qed.

Lemma run_files g g' : loop_ok (gw_world g) -> complete (gw_world g) -> queues_untagged g ->
  rtc (step needfrag decision_threads) g g' -> files_on (gw_world g) (gw_world g').
Proof.
  intros Hlo Hc Hq Hrun. revert Hlo Hc Hq. induction Hrun as [g|g g1 g' Hstep Hrest IH]; intros Hlo Hc Hq;
    [by apply files_on_quiet|].
  destruct (step_files _ _ Hlo Hc Hq Hstep) as [Hf Hq1]. destruct (step_loop _ _ _ _ Hlo Hstep) as [Hlo1 Hl1].
  destruct (run_loop _ _ _ _ Hlo1 Hrest) as [_ Hl]. eapply files_on_trans; [|exact Hf|by apply IH; [|apply Hf|]].
  intros a k Hk Ha. apply (lv_new _ _ Hl); [|done]. destruct (ok_ext1 _ (ow_trees _ (lo_world _ Hlo)) _ _ Hk) as (c & Hca & _).
  pose proof (ok_fresh _ (ow_trees _ (lo_world _ Hlo)) _ _ Hca). pose proof (lv_next _ _ Hl1). lia.
Qed.
End Runs.

(** * The property *)

(** C3: a flow keeps its connection, when no rule calls [mod_dns_control].  In any
    run of the gateway, as long as a connection opened from outside lives, every
    frame of its attacker - every accepted frame from outside whose packet has
    its key - is given that very connection by [init_conn], whatever other frames
    were handled and whatever was cleaned in between, and no other live
    connection opened from outside has that key: the frames of an attacker are
    never split between two connections.  (One opened by a honeypot may have the
    same key, towards the same address; it is looked up second.) *)
Theorem attacker_affinity `{QuietModules} {Hlinks : LinkModules} needfrag n g g' a c key iface len packet pkt w1 p mt :
  confined_rules (gw_world g) -> gateway_sound (gw_world g) -> complete (gw_world g) -> queues_untagged g ->
  rtc (step needfrag n) g g' -> w_conns (gw_world g) !! a = Some c -> cn_initiator c = EXT -> cn_ext_key c = Some key ->
  is_Some (w_conns (gw_world g') !! a) ->
  process_packet iface len packet (gw_world g') = Ret ((OK, Some pkt), w1) ->
  w_pkts w1 !! pkt = Some p -> pt_origin p = EXT -> pkt_conn_key p = Ret key ->
  (exists w2, init_conn pkt mt w1 = Ret (Some a, w2)) /\
  (forall b cb, w_conns (gw_world g') !! b = Some cb -> cn_initiator cb = EXT -> cn_ext_key cb = Some key -> b = a).
Proof.
  intros Hr Hs. pose proof (proj2 (loop_ok_split _) (conj Hs Hr)) as Hlo. clear Hr Hs.
  intros Hc Hq Hrun Ha Hx Hkey [c' Ha'] Hpp Hp Ho Hk. pose proof (run_files _ _ _ _ Hlo Hc Hq Hrun) as [Hc' Hf].
  destruct (run_loop _ _ _ _ Hlo Hrun) as [[[Ht _ _] Hfree] _]. apply quiet_process_packet in Hpp.
  assert (Hfiled : ext_tree1 (gw_world g') !! conn_key_word key = Some a).
  { apply Hf; [|by eexists]. by eapply filed_under; [apply Hlo|..]. }
  split; [|intros b cb Hb Hib Hkb; pose proof (filed_under _ _ _ _ Ht Hc' Hb Hib Hkb); congruence].
  rewrite <- (q_ext1 _ _ Hpp) in Hfiled. pose proof (Hfree _ _ Ha') as Hl. rewrite <- (q_conns _ _ Hpp) in Ha'.
  by eapply init_conn_filed.
Qed.

(** ** Witness *)

(** The program's own modules, as in [Gateway]. *)
#[local] Instance affine_modules : ModuleRunner :=
  modules_runner (fun s => Z.of_nat (length s) + 1) (fun _ => 0) (fun _ => []) (fun bs => bs) (fun _ => None) 0 (fun _ => false).
#[local] Instance affine_quiet : QuietModules.
Proof. apply modules_quiet. Defined.
#[local] Instance affine_links : LinkModules.
Proof. apply modules_links. Defined.

(** After the SYN of the attacker and the answer of the LIH, the SYN is sent
    again. *)
Definition handled_reply : gateway := GatewayState world_handled {[ 2 := [raw_reply] ]}.
Definition world_resent : world := state_after (process_packet 1 80 syn_frame) (gw_world replied).
Definition resent : ptr := w_next (gw_world replied).

Lemma complete_empty w : w_conns w = ∅ -> complete w.
Proof. intros E a c. by rewrite E. Qed.

Lemma handled_complete : complete world_handled.
Proof.
  apply (fo_complete _ _ (run_files _ 5 gateway0 handled loop_ok_world0 (complete_empty world0 eq_refl) ltac:(by intros q l raw) gateway0_run)).
Qed.

Lemma handled_untagged : queues_untagged handled_reply.
Proof.
  intros q l raw Hl Hin. simpl in Hl. apply lookup_singleton_Some in Hl as [_ <-]. apply list_elem_of_singleton in Hin as ->.
  split; [solve_bytes|]. eexists. split; [vm_compute; reflexivity|]. by intros [t Ht].
Qed.

Lemma attacker_affinity_witness : exists c p w2,
  w_conns world_handled !! 101%positive = Some c /\ w_pkts world_resent !! resent = Some p /\
  pkt_conn_key p = Ret syn_key /\ init_conn resent 3000000 world_resent = Ret (Some 101%positive, w2).
Proof.
  assert (Hc : exists c, w_conns world_handled !! 101%positive = Some c /\ cn_initiator c = EXT /\ cn_ext_key c = Some syn_key)
    by (vm_compute; eexists; split; [reflexivity|split; reflexivity]).
  assert (Hp : exists p, w_pkts world_resent !! resent = Some p /\ pt_origin p = EXT /\ pkt_conn_key p = Ret syn_key)
    by (vm_compute; eexists; split; [reflexivity|split; reflexivity]).
  destruct Hc as (c & Hc & Hx & Hkey), Hp as (p & Hp & Ho & Hk).
  assert (Hw : exists w2, init_conn resent 3000000 world_resent = Ret (Some 101%positive, w2)).
  { eapply (attacker_affinity no_needfrag 5 handled_reply replied 101 c syn_key 1 80 syn_frame resent world_resent p 3000000).
    - exact (proj2 (proj1 (loop_ok_split _) loop_ok_handled)).
    - exact (proj1 (proj1 (loop_ok_split _) loop_ok_handled)).
    - exact handled_complete.
    - exact handled_untagged.
    - exact replied_run.
    - exact Hc.
    - exact Hx.
    - exact Hkey.
    - vm_compute. eexists. reflexivity.
    - vm_compute. reflexivity.
    - exact Hp.
    - exact Ho.
    - exact Hk. }
  destruct Hw as [w2 Hw]. exists c, p, w2. split; [exact Hc|]. split; [exact Hp|]. split; [exact Hk|exact Hw].
Defined.
