(* ===== verification/RateLimit.v ===== *)
(** [mod_control] as a rate limiter: the entry of a source in the table is the
    printed form of a counter, a date and a duration, a call of the module is a
    step on these numbers, and a source gets the configured number of packets
    through before it is refused. *)
From S2P Require Import Prelude Mem CString Types World Samples Keys Checksum TcpOptions Packet Netcode.
From S2P Require Import Connections ConnTrees Redirect DecisionEngine DecisionTrees Management ModVmi Modules.

(** * The numbers of an entry *)

Record source_entry := SourceEntry { se_count : Z; se_seen : Z; se_duration : Z }.

Definition int32 (z : Z) : Prop := - 2 ^ 31 <= z < 2 ^ 31.
Definition entry_ok (e : source_entry) : Prop := int32 (se_count e) /\ int32 (se_seen e) /\ int32 (se_duration e).
Definition entry_bytes (e : source_entry) : list (list Z) :=
  [print_d (se_count e); print_d (se_seen e); print_d (se_duration e)].

Definition fresh_entry (now : Z) : source_entry := SourceEntry 1 now 0.
(** The date of the first packet stays until the entry expires, on the duration
    computed at the packet before. *)
Definition control_next (now expiration : Z) (e : option source_entry) : source_entry :=
  match e with
  | None => fresh_entry now
  | Some e =>
    if expiration <? se_duration e then fresh_entry now
    else SourceEntry (s32 (se_count e + 1)) (se_seen e) (s32 (now - se_seen e))
  end.
Definition control_verdict (max_packet : Z) (e : source_entry) : mod_result_t :=
  if max_packet <? se_count e then REJECT else ACCEPT.

Lemma s32_int32 z : int32 (s32 z).
Proof. unfold int32, s32. pose proof (u32_range z). split_if; zbool; lia. Qed.
Lemma s32_id z : int32 z -> s32 z = z.
Proof.
  unfold int32, s32, u32. intros Hz. destruct (decide (0 <= z)).
  - rewrite Z.mod_small by lia. split_if; zbool; lia.
  - rewrite <- (Z.mod_add z 1) by done. rewrite Z.mod_small by lia. split_if; zbool; lia.
Qed.
Lemma control_next_ok now E e : int32 now -> (forall e', e = Some e' -> entry_ok e') -> entry_ok (control_next now E e).
Proof.
  intros Hn He. assert (Hf : entry_ok (fresh_entry now)) by (repeat split; simpl; unfold int32 in *; lia).
  destruct e as [e|]; [|done]. simpl. split_if; [done|]. destruct (He e eq_refl) as (_ & Hs & _).
  repeat split; simpl; try apply s32_int32; apply Hs.
Qed.

Lemma alter_insert_of {V} (g : V -> V) (k : ptr) (m : gmap ptr V) v : m !! k = Some v -> alter g k m = <[k := g v]> m.
Proof.
  intros H. apply map_eq. intros i. destruct (decide (i = k)) as [->|].
  - by rewrite lookup_insert_eq, lookup_alter_eq, H.
  - by rewrite lookup_insert_ne, lookup_alter_ne by done.
Qed.

(** * A call of the module *)

(** The surroundings of a call: the packet is from [src], and the node names the
    table [f], the file it is saved to, and the two parameters. *)
Record controlled (args : mod_args) (src : list Z) (E max : Z) (f : ptr) (path : list Z) (w : world) : Prop := {
  ct_src : exists saddr, pkt_saddr (ma_pkt args) w = Ret (saddr, w) /\ inet_ntop saddr = src;
  ct_node : exists n block, w_nodes w !! ma_node args = Some n /\
    nd_config n !! "backup"%string = Some (CKeyFile f) /\
    nd_config n !! "backup_file"%string = Some (CBlock block) /\ c_bytes block = Ret path /\
    config_atoi n "expiration" 600 w = Ret (E, w) /\ config_atoi n "max_packet" 1000 w = Ret (max, w);
}.

(** The entry of [src] in the table [f]. *)
Definition entry_of (f : ptr) (src : list Z) (e : option source_entry) (w : world) : Prop :=
  (forall e', e = Some e' -> entry_ok e') /\
  exists kf, w_key_files w !! f = Some kf /\ kf !! (str "source", src) = entry_bytes <$> e.

(** What a call changes. *)
Definition stored (f : ptr) (src path : list Z) (e : source_entry) (w : world) : world :=
  w <| w_key_files ::= alter <[(str "source", src) := entry_bytes e]> f |> <| module_to_save ::= <[path := f]> |>.

Lemma stored_eq f src path e w kf : w_key_files w !! f = Some kf ->
  stored f src path e w =
  w <| w_key_files := <[f := <[(str "source", src) := entry_bytes e]> kf]> (w_key_files w) |> <| module_to_save ::= <[path := f]> |>.
Proof.
  intros Hf. unfold stored. cbv beta delta [field_upd].
  by rewrite (alter_insert_of (<[(str "source", src) := entry_bytes e]> : key_file -> key_file) _ _ _ Hf).
Qed.
Lemma config_atoi_stored n key d E w w' : config_atoi n key d w = Ret (E, w) -> config_atoi n key d w' = Ret (E, w').
Proof.
  unfold config_atoi, config_block. destruct (nd_config n !! key) as [[bs|]|]; [|done|].
  - unfold sbind, sret, slift. destruct (atoi bs); [|done]. by intros [= ->].
  - unfold sbind, sret. by intros [= ->].
Qed.
Lemma pkt_saddr_pkts pkt a w w' : w_pkts w' = w_pkts w -> pkt_saddr pkt w = Ret (a, w) -> pkt_saddr pkt w' = Ret (a, w').
Proof.
  intros Ew Hs. unfold pkt_saddr in *. srun Hs as p w1 Hp. unfold get_pkt in *.
  apply deref_Ret_inv in Hp as (b & [= <-] & Eb & ->). apply slift_Ret_inv in Hs as [Hs _].
  erewrite sbind_eq; [|apply deref_ok; by rewrite Ew]. unfold slift. by rewrite Hs.
Qed.
Lemma controlled_stored args src E max f path e w :
  controlled args src E max f path w -> controlled args src E max f path (stored f src path e w).
Proof.
  intros [(saddr & Hs & Es) (n & block & Hn & Hb & Hp & Ep & HE & Hm)]. split.
  - exists saddr. split; [|done]. by apply (pkt_saddr_pkts _ _ w).
  - exists n, block. repeat (split; [done|]). split; by eapply config_atoi_stored.
Qed.
Lemma entry_stored f src path e e0 w : entry_ok e -> entry_of f src e0 w -> entry_of f src (Some e) (stored f src path e w).
Proof.
  intros He (_ & kf & Hf & _). split; [by intros e' [= <-]|]. exists (<[(str "source", src) := entry_bytes e]> kf).
  split; [simpl; by rewrite lookup_alter_eq, Hf|]. apply lookup_insert_eq.
Qed.

(** The parts of a call: the entry it computes, and what it does with it. *)
Definition control_info (now : Z) (cap : list Z -> Z) (E : Z) (info : option (list (list Z))) : outcome (list (list Z)) :=
  match info with
  | None => new_entry now
  | Some info =>
    let! age := atoi_at info 2 in
    if E <? age then renew_entry cap now info else update_entry cap now info
  end.
Definition control_close (f : ptr) (block src : list Z) (max : Z) (info : list (list Z)) : M mod_result_t :=
  do count <- slift (atoi_at info 0);
  do_ store_entry f block (str "source") src 3 info;
  sret (if max <? count then REJECT else ACCEPT).

Lemma control_opens cap args src E max f path e w :
  controlled args src E max f path w -> entry_of f src e w -> exists block, c_bytes block = Ret path /\
  mod_control cap args w =
  sbind (slift (control_info (w_now w) cap E (entry_bytes <$> e))) (control_close f block src max) w.
Proof.
  intros [(saddr & Hs & Es) (n & block & Hn & Hb & Hp & Ep & HE & Hm)] (_ & kf & Hf & Hk). exists block. split; [done|].
  unfold mod_control, with_backup, get_node. rewrite (sbind_eq _ _ w (w_now w) w eq_refl), (sbind_eq _ _ _ _ _ Hs), Es.
  rewrite (sbind_eq _ _ _ _ _ (deref_ok _ _ _ _ Hn)).
  assert (Hcf : config_file n "backup" w = Ret (Some f, w)) by (unfold config_file; by rewrite Hb).
  assert (Hcb : config_block n "backup_file" w = Ret (Some block, w)) by (unfold config_block; by rewrite Hp).
  rewrite (sbind_eq _ _ _ _ _ Hcf), (sbind_eq _ _ _ _ _ Hcb), (sbind_eq _ _ _ _ _ HE), (sbind_eq _ _ _ _ _ Hm).
  unfold get_key_file. rewrite (sbind_eq _ _ _ _ _ (deref_ok _ _ _ _ Hf)), Hk. by destruct e.
Qed.

Lemma atoi_at_ok info i n : int32 n -> info !! i = Some (print_d n) -> atoi_at info i = Ret n.
Proof. intros Hn Hi. unfold atoi_at, info_at. rewrite Hi. cbn [obind]. by apply atoi_print_d. Qed.

(** * What fits in the strings *)

Section Limiter.
Context (cap : list Z -> Z).
(** The strings GLib returns have room for their contents and the terminating
    zero; how much more is the allocator's choice. *)
Hypothesis holds_contents : forall s, Z.of_nat (length s) + 1 <= cap s.

(** A number fits where another one was; an entry where the one before was. *)
Definition fits (old new : Z) : bool := Z.of_nat (length (print_d new)) + 1 <=? cap (print_d old).
Definition entry_fits (e e' : source_entry) : bool :=
  fits (se_count e) (se_count e') && fits (se_seen e) (se_seen e') && fits (se_duration e) (se_duration e').

Lemma fits_same n : fits n n = true.
Proof. by apply Z.leb_le. Qed.
Lemma print_u_nonempty n : 0 <= n -> (1 <= length (print_u n))%nat.
Proof. intros Hn. destruct (print_u_head n Hn) as (b & l & -> & _). simpl. lia. Qed.
Lemma print_d_nonempty n : (1 <= length (print_d n))%nat.
Proof. unfold print_d. destruct (Z.ltb_spec n 0); [simpl; lia|]. by apply print_u_nonempty. Qed.
Lemma fits_digit old n : 0 <= n < 10 -> fits old n = true.
Proof.
  intros Hn. apply Z.leb_le. pose proof (print_d_nonempty old). pose proof (holds_contents (print_d old)).
  assert (length (print_d n) = 1%nat) as ->; [|lia].
  unfold print_d. rewrite (proj2 (Z.ltb_ge _ _)) by lia. unfold print_u. cbn [digits]. by rewrite (proj2 (Z.ltb_lt _ _)) by lia.
Qed.

Lemma snprintf_int c n : int32 n ->
  snprintf20 c (print_d n) = if Z.of_nat (length (print_d n)) + 1 <=? c then Ret (print_d n) else Fault OutOfBounds.
Proof. intros Hn. pose proof (print_d_length n Hn). unfold snprintf20. by rewrite take_ge by lia. Qed.
Lemma print_at_eq info i old n : int32 n -> info !! i = Some (print_d old) ->
  print_at cap info i (print_d n) = if fits old n then Ret (<[i := print_d n]> info) else Fault OutOfBounds.
Proof.
  intros Hn Hi. unfold print_at, info_at. rewrite Hi. cbn [obind]. rewrite snprintf_int by done. unfold fits. by destruct (_ <=? _).
Qed.

Lemma snprintf_new n : int32 n -> snprintf20 20 (print_d n) = Ret (print_d n).
Proof. intros Hn. rewrite snprintf_int by done. pose proof (print_d_length n Hn). by rewrite (proj2 (Z.leb_le _ _)) by lia. Qed.
Lemma new_entry_ok now : int32 now -> new_entry now = Ret (entry_bytes (fresh_entry now)).
Proof. intros Hn. unfold new_entry. rewrite !snprintf_new by (unfold int32 in *; lia). done. Qed.

(** Writing the three numbers of an entry over those of another one. *)
Definition written (e e' : source_entry) : outcome (list (list Z)) :=
  if entry_fits e e' then Ret (entry_bytes e') else Fault OutOfBounds.

Lemma renew_entry_eq now e : int32 now -> renew_entry cap now (entry_bytes e) = written e (fresh_entry now).
Proof.
  intros Hn. unfold renew_entry, entry_bytes, written, entry_fits. cbn [se_count se_seen se_duration fresh_entry].
  rewrite (fits_digit (se_count e) 1), (fits_digit (se_duration e) 0), andb_true_r by lia. cbn [andb].
  rewrite (print_at_eq _ 0 (se_count e)), (fits_digit (se_count e) 1) by (unfold int32 in *; done || lia). cbn [obind insert list_insert].
  rewrite (print_at_eq _ 1 (se_seen e)) by done. destruct (fits (se_seen e) now); [|done]. cbn [obind insert list_insert].
  by rewrite (print_at_eq _ 2 (se_duration e)), (fits_digit (se_duration e) 0) by (unfold int32 in *; done || lia).
Qed.
Lemma update_entry_eq now e : entry_ok e -> update_entry cap now (entry_bytes e) =
  written e (SourceEntry (s32 (se_count e + 1)) (se_seen e) (s32 (now - se_seen e))).
Proof.
  intros (Hc & Hs & _). unfold update_entry, entry_bytes, written, entry_fits. cbn [se_count se_seen se_duration].
  rewrite (atoi_at_ok _ 0 _ Hc) by done. cbn [obind]. rewrite (print_at_eq _ 0 (se_count e)) by (apply s32_int32 || done).
  rewrite fits_same, andb_true_r. destruct (fits (se_count e) _); [|done]. cbn [obind insert list_insert andb].
  rewrite (atoi_at_ok _ 1 _ Hs) by done. cbn [obind]. rewrite (print_at_eq _ 2 (se_duration e)) by (apply s32_int32 || done).
  by destruct (fits (se_duration e) _).
Qed.

(** The entry a call leaves, if it fits. *)
Definition step_fits (e : option source_entry) (e' : source_entry) : bool :=
  match e with Some e => entry_fits e e' | None => true end.

Lemma control_info_eq now E e : int32 now -> (forall e', e = Some e' -> entry_ok e') ->
  control_info now cap E (entry_bytes <$> e) =
  if step_fits e (control_next now E e) then Ret (entry_bytes (control_next now E e)) else Fault OutOfBounds.
Proof.
  intros Hnow He. unfold control_info. destruct e as [e|]; cbn [fmap option_fmap option_map]; [|by apply new_entry_ok].
  pose proof (He e eq_refl) as Hok. rewrite (atoi_at_ok _ 2 (se_duration e)) by (done || apply Hok). cbn [obind control_next step_fits].
  split_if; [by rewrite renew_entry_eq|by rewrite update_entry_eq].
Qed.

Lemma control_call args src E max f path e w :
  controlled args src E max f path w -> entry_of f src e w -> int32 (w_now w) ->
  let e' := control_next (w_now w) E e in
  mod_control cap args w =
  if step_fits e e' then Ret (control_verdict max e', stored f src path e' w) else Fault OutOfBounds.
Proof.
  intros Hc He Hnow e'. destruct (control_opens cap args src E max f path e w Hc He) as (block & Ep & ->).
  destruct He as (He & kf & Hf & Hk). pose proof (control_next_ok _ E e Hnow He) as He'. fold e' in He'.
  unfold sbind, slift at 1. rewrite control_info_eq by done. fold e'. destruct (step_fits e e'); [|done].
  unfold control_close. rewrite (sbind_eq _ _ w (se_count e') w).
  2:{ unfold slift. by rewrite (atoi_at_ok _ 0 (se_count e')) by (done || apply He'). }
  erewrite (sbind_eq _ _ w tt (stored f src path e' w)); [done|].
  unfold store_entry, get_key_file, save_backup. rewrite (sbind_eq _ _ _ _ _ (deref_ok _ _ _ _ Hf)).
  unfold sbind, slift, sret, sgets, smodify, put_key_file. rewrite Ep.
  by rewrite (stored_eq _ _ _ _ _ _ Hf).
Qed.

(** * A sequence of calls *)

(** The time [now] comes. *)
Definition at_time (now : Z) (w : world) : world := w <| w_now := now |>.
Lemma controlled_at_time args src E max f path now w :
  controlled args src E max f path w -> controlled args src E max f path (at_time now w).
Proof.
  intros [(saddr & Hs & Es) (n & block & Hn & Hb & Hp & Ep & HE & Hm)]. split.
  - exists saddr. split; [|done]. by apply (pkt_saddr_pkts _ _ w).
  - exists n, block. repeat (split; [done|]). split; by eapply config_atoi_stored.
Qed.

(** The packets of one source, by the time they come. *)
Fixpoint control_run (args : mod_args) (times : list Z) : M (list mod_result_t) :=
  match times with
  | [] => sret []
  | now :: times =>
    do_ smodify (at_time now); do r <- mod_control cap args; do rs <- control_run args times; sret (r :: rs)
  end.
Fixpoint abstract_run (E max : Z) (e : option source_entry) (times : list Z) : list mod_result_t :=
  match times with
  | [] => []
  | now :: times =>
    let e' := control_next now E e in control_verdict max e' :: abstract_run E max (Some e') times
  end.

(** Every number that the calls write fits where the one before it was. *)
Fixpoint run_fits (E : Z) (e : option source_entry) (times : list Z) : bool :=
  match times with
  | [] => true
  | now :: times => let e' := control_next now E e in step_fits e e' && run_fits E (Some e') times
  end.

(** The calls compute what the abstract entries say, as long as they fit. *)
Lemma control_run_refines args src E max f path times e w :
  controlled args src E max f path w -> entry_of f src e w -> Forall int32 times ->
  if run_fits E e times then exists w', control_run args times w = Ret (abstract_run E max e times, w')
  else control_run args times w = Fault OutOfBounds.
Proof.
  revert e w. induction times as [|now times IH]; intros e w Hc He Ht; cbn [control_run abstract_run run_fits]; [by eexists|].
  apply Forall_cons in Ht as [Hn Ht]. set (e' := control_next now E e).
  assert (He' : entry_ok e') by (apply control_next_ok; [done|apply He]).
  apply (controlled_at_time _ _ _ _ _ _ now) in Hc. change (entry_of f src e (at_time now w)) in He.
  rewrite (sbind_eq _ _ w tt (at_time now w) eq_refl).
  pose proof (control_call _ _ _ _ _ _ _ _ Hc He Hn) as Hcall. simpl w_now in Hcall. fold e' in Hcall.
  unfold sbind. rewrite !Hcall. destruct (step_fits e e'); [|done]. cbn [andb].
  specialize (IH (Some e') (stored f src path e' (at_time now w))).
  specialize (IH ltac:(by apply controlled_stored) ltac:(by eapply entry_stored) Ht).
  destruct (run_fits E (Some e') times); [|by rewrite IH].
  destruct IH as [w' Hw']. exists w'. by rewrite Hw'.
Qed.

(** They all fit when every string has room for a printed [int]. *)
Lemma run_fits_roomy E e times : (forall s, 12 <= cap s) -> (forall e', e = Some e' -> entry_ok e') -> Forall int32 times ->
  run_fits E e times = true.
Proof.
  intros Hroom. revert e. induction times as [|now times IH]; intros e He Ht; [done|]. cbn [run_fits].
  apply Forall_cons in Ht as [Hn Ht]. pose proof (control_next_ok now E e Hn He) as He'.
  rewrite IH by first [done|intros e0 [= <-]; done]. rewrite andb_true_r. destruct e as [e|]; [|done].
  assert (Hf : forall old n, int32 n -> fits old n = true).
  { intros old n Hi. apply Z.leb_le. pose proof (print_d_length n Hi). pose proof (Hroom (print_d old)). lia. }
  destruct He' as (? & ? & ?). cbn [step_fits]. unfold entry_fits. by rewrite !Hf.
Qed.

(** Within the expiration the entry counts the packets. *)
Lemma abstract_run_counts E max t0 k d times rest :
  0 <= k -> k + Z.of_nat (length times) < 2 ^ 31 -> d <= E -> E < 2 ^ 31 -> Forall (fun t => t0 <= t <= t0 + E) times ->
  exists d', d' <= E /\
  abstract_run E max (Some (SourceEntry k t0 d)) (times ++ rest) =
  ((fun i => if max <? i then REJECT else ACCEPT) <$> seqZ (k + 1) (Z.of_nat (length times))) ++
  abstract_run E max (Some (SourceEntry (k + Z.of_nat (length times)) t0 d')) rest.
Proof.
  intros Hk Hl Hd HE Ht. revert k d Hk Hl Hd. induction times as [|t times IH]; intros k d Hk Hl Hd.
  { exists d. split; [done|]. simpl. by rewrite Z.add_0_r. }
  apply Forall_cons in Ht as [Ht Hts]. cbn [app abstract_run control_next se_duration se_count se_seen length] in *.
  rewrite (proj2 (Z.ltb_ge _ _) Hd). rewrite !s32_id by (unfold int32; lia).
  destruct (IH Hts (k + 1) (t - t0)) as (d' & Hd' & ->); [lia|lia|lia|]. exists d'. split; [done|].
  rewrite (seqZ_cons (k + 1)) by lia. cbn [fmap list_fmap]. simpl app. do 2 f_equal.
  - by replace (Z.succ (k + 1)) with (k + 1 + 1) by lia; replace (Z.pred (Z.of_nat (S (length times)))) with (Z.of_nat (length times)) by lia.
  - by replace (k + 1 + Z.of_nat (length times)) with (k + Z.of_nat (S (length times))) by lia.
Qed.
End Limiter.

(** C32: [mod_control] lets a source through [max_packet] times.  For a source
    that is not in the table, the packet number [i] of a sequence that stays
    within [expiration] seconds of its first packet is rejected exactly when
    [i] exceeds [max_packet].  The expiration is noticed one packet late: the
    first packet that comes after it is still counted with the old ones, and
    only the next one starts a new entry.

    The numbers are written over the strings that GLib returned, which are only
    known to hold their contents: the calls return these results when each
    number fits where the one before it was, and otherwise write out of bounds. *)
Theorem mod_control_limits cap args src E max f path w t0 times late next :
  (forall s, Z.of_nat (length s) + 1 <= cap s) ->
  controlled args src E max f path w -> entry_of f src None w ->
  Forall int32 (t0 :: times ++ [late; next]) -> 0 <= E < 2 ^ 31 - 1 -> Forall (fun t => t0 <= t <= t0 + E) times ->
  t0 + E < late < t0 + 2 ^ 31 -> Z.of_nat (length times) < 2 ^ 31 - 2 ->
  if run_fits cap E None (t0 :: times ++ [late; next]) then
    exists w', control_run cap args (t0 :: times ++ [late; next]) w =
      Ret (((fun i => if max <? i then REJECT else ACCEPT) <$> seqZ 1 (Z.of_nat (length times) + 2)) ++
           [if max <? 1 then REJECT else ACCEPT], w')
  else control_run cap args (t0 :: times ++ [late; next]) w = Fault OutOfBounds.
Proof.
  intros Hcap Hc He Hi HE Ht Hlate Hl. pose proof (control_run_refines cap Hcap _ _ _ _ _ _ _ _ _ Hc He Hi) as Hrun.
  destruct (run_fits cap E None _); [|exact Hrun]. destruct Hrun as [w' ->].
  exists w'. do 2 f_equal. cbn [abstract_run control_next]. unfold fresh_entry at 2.
  destruct (abstract_run_counts E max t0 1 0 times [late; next]) as (d & Hd & ->); [lia..|done|].
  set (n := Z.of_nat (length times)) in *. cbn [abstract_run control_next se_duration se_count se_seen].
  rewrite (proj2 (Z.ltb_ge _ _) Hd). cbn [se_count se_seen se_duration].
  rewrite !s32_id by (unfold int32; lia). rewrite (proj2 (Z.ltb_lt _ _)) by lia.
  replace (n + 2) with (Z.succ (n + 1)) by lia. rewrite (seqZ_cons 1) by lia.
  replace (Z.pred (Z.succ (n + 1))) with (n + 1) by lia. rewrite seqZ_app by lia.
  change (seqZ (Z.succ 1 + n) 1) with [0 + (Z.succ 1 + n)]. rewrite fmap_cons, fmap_app, <- app_comm_cons, <- app_assoc.
  unfold control_verdict. cbn [se_count]. replace (1 + n + 1) with (0 + (Z.succ 1 + n)) by lia. done.
Qed.

(** A string GLib returns has no room for a longer one.  When the counter
    of a source gains a digit, [mod_control] writes past the end of the string
    that held it. *)
Lemma mod_control_overflows cap args src E max f path w e :
  (forall s, cap s = Z.of_nat (length s) + 1) ->
  controlled args src E max f path w -> entry_of f src (Some e) w -> se_duration e <= E ->
  (length (print_d (se_count e)) < length (print_d (s32 (se_count e + 1))))%nat ->
  mod_control cap args w = Fault OutOfBounds.
Proof.
  intros Hcap Hc He Hd Hlen. destruct (control_opens cap args src E max f path (Some e) w Hc He) as (block & _ & ->).
  destruct (proj1 He e eq_refl) as (Hcnt & _ & Hdur). cbn [fmap option_fmap option_map].
  unfold sbind, slift, control_info. rewrite (atoi_at_ok _ 2 (se_duration e)) by done. cbn [obind].
  rewrite (proj2 (Z.ltb_ge _ _) Hd). unfold update_entry. rewrite (atoi_at_ok _ 0 (se_count e)) by done. cbn [obind].
  pose proof (print_d_length _ (s32_int32 (se_count e + 1))).
  unfold print_at at 1, info_at. cbn [lookup list_lookup entry_bytes obind]. unfold snprintf20. rewrite Hcap, take_ge by lia.
  by rewrite (proj2 (Z.leb_gt _ _)) by lia.
Qed.

(** ** Witnesses *)

(** A node of the module with a limit of two packets in eight seconds, and strings
    of exactly the size of their contents. *)
Definition control_node : node :=
  Node (Some Types.mod_control)
    (<["backup" := CKeyFile 60%positive]> (<["backup_file" := CBlock (str "c.bak" ++ [0])]>
      (<["max_packet" := CBlock (str "2" ++ [0])]> (<["expiration" := CBlock (str "8" ++ [0])]> ∅))))%string
    "control"%string "control"%string None None.
Definition control_world (e : option source_entry) : world :=
  ConnTrees.world_syn <| w_nodes := {[ 50%positive := control_node ]} |>
    <| w_key_files := {[ 60%positive := match e with
                                       | None => ∅
                                       | Some e => {[ (str "source", inet_ntop ip_ext) := entry_bytes e ]}
                                       end ]} |>.
Definition control_args : mod_args := ModArgs 50 21 0 0.

Lemma control_world_controlled e :
  controlled control_args (inet_ntop ip_ext) 8 2 60 (str "c.bak") (control_world e).
Proof.
  split.
  - exists ip_ext. done.
  - exists control_node, (str "c.bak" ++ [0]). repeat split; vm_compute; reflexivity.
Qed.

Definition exact (s : list Z) : Z := Z.of_nat (length s) + 1.

Lemma mod_control_limits_witness : exists w',
  control_run exact control_args [1000; 1001; 1002; 1009; 1010] (control_world None) =
  Ret ([ACCEPT; ACCEPT; REJECT; REJECT; ACCEPT], w').
Proof.
  apply (mod_control_limits exact control_args (inet_ntop ip_ext) 8 2 60 (str "c.bak") (control_world None)
           1000 [1001; 1002] 1009 1010).
  - intros s. unfold exact. lia.
  - apply control_world_controlled.
  - split; [discriminate|]. exists ∅. split; reflexivity.
  - repeat constructor; unfold int32; lia.
  - lia.
  - repeat constructor; lia.
  - lia.
  - simpl. lia.
Defined.

(** One second more, and the duration takes two digits. *)
Example mod_control_limits_overflow :
  control_run exact control_args [1000; 1001; 1002; 1010; 1011] (control_world None) = Fault OutOfBounds.
Proof. vm_compute. reflexivity. Qed.

Lemma mod_control_overflows_witness :
  mod_control (fun s => Z.of_nat (length s) + 1) control_args (control_world (Some (SourceEntry 9 995 5))) =
  Fault OutOfBounds.
Proof.
  apply (mod_control_overflows _ control_args (inet_ntop ip_ext) 8 2 60 (str "c.bak") _ (SourceEntry 9 995 5)).
  - reflexivity.
  - apply control_world_controlled.
  - split; [intros e' [= <-]; repeat split; unfold int32; simpl; lia|].
    exists {[ (str "source", inet_ntop ip_ext) := entry_bytes (SourceEntry 9 995 5) ]}. split; [reflexivity|].
    apply lookup_singleton_eq.
  - simpl. lia.
  - change (length (print_d 9) < length (print_d 10))%nat. vm_compute. lia.
Defined.
