(* ===== verification/Rpc.v ===== *)
(** Remote control ([rpc_server.c]): the methods that read the links and add and
    remove targets and honeypots.

    A request is the array of its parameters.  Reading a parameter of another
    type than the one asked for leaves the variable as it was: a null string,
    the zero of an [xmlrpc_int64], an uninitialised [int].  libdnet's
    [addr_pton] and the regular expressions of [DE_create_tree] are parameters. *)
From S2P Require Import Prelude Mem CString Types World Samples Keys Checksum TcpOptions Packet Netcode.
From S2P Require Import Connections ConnTrees Redirect DecisionEngine DecisionTrees Management.

(** * Parameters *)

Inductive rpc_value := VInt (z : Z) | VI8 (z : Z) | VString (s : list Z).

Definition read_string (v : rpc_value) : outcome (list Z) :=
  match v with VString s => Ret s | _ => Fault NullDeref end.
Definition read_i8 (v : rpc_value) : Z := match v with VI8 z => z | _ => 0 end.
Definition read_int (v : rpc_value) : outcome Z :=
  match v with VInt z => Ret z | _ => Fault Uninitialised end.
(** [xmlrpc_decompose_value(.., i, ..)] writes the four bytes of an [int] over the
    low half of a zero [xmlrpc_int64]; the array must have as many items. *)
Definition decompose1 (params : list rpc_value) : Z :=
  match params with [VInt z] => u32 z | _ => 0 end.
Definition decompose2 (params : list rpc_value) : Z * Z :=
  match params with
  | [VInt a; VInt b] => (u32 a, u32 b)
  | [VInt a; _] => (u32 a, 0)
  | _ => (0, 0)
  end.

Definition handler_zero : handler := Handler 0 None None None 0 None None 0 [].
Definition target_zero : target := Target 0 None None None None ∅ 0 None ∅ None [] None None.

Section Rpc.
Context (and_matches : string -> bool) (and_split or_split : string -> list string).
Context (addr_pton_ip : list Z -> option Z) (addr_pton_mac : list Z -> option (list Z)).

(** * Links *)

Definition rpc_get_number_of_links : M Z := do ls <- sgets links; sret (Z.of_nat (size ls)).
Definition rpc_get_links : M (list string) := do ls <- sgets links; sret (map_to_list ls).*1.

Definition find_link (v : rpc_value) : M (option ptr) :=
  do s <- slift (read_string v);
  do ls <- sgets links;
  sret (ls !! c_string (s ++ [0])).

(** * Targets *)

(** The route of a new target; [false] when it is refused. *)
Definition set_route (t : ptr) (link mac srcip : rpc_value) : M bool :=
  do iface <- find_link link;
  match iface with
  | None => sret false
  | Some i =>
    do ifc <- get_iface (Some i);
    match if_target ifc with
    | Some _ => sret false
    | None =>
      do ip <- slift (read_string srcip);
      match addr_pton_ip ip with
      | None => sret false
      | Some ip =>
        do mac <- slift (read_string mac);
        match addr_pton_mac mac with
        | None => sret false
        | Some mac =>
          do_ put_iface i (ifc <| if_target := Some t |>);
          do_ upd_target t (fun tg => tg <| tg_default_route := Some i |> <| tg_default_route_ip := Some ip |>
                                         <| tg_default_route_mac := Some mac |>);
          sret true
        end
      end
    end
  end.

Definition rpc_add_target (params : list rpc_value) : M Z :=
  do t <- malloc;
  do_ put_target t target_zero;
  do ok <- (match params with
            | [link; mac; srcip] => set_route t link mac srcip
            | _ => sret true
            end);
  do st <- (if ok : bool then add_target (Some t) else sret NOK);
  match st with
  | OK => do tg <- get_target (Some t); sret (s32 (tg_targetID tg))
  | NOK => do_ free_target_block t; sret 0
  end.

Definition rpc_remove_target (params : list rpc_value) : M Z :=
  let targetID := decompose1 params in
  if targetID =? 0 then sret 0
  else do st <- remove_target targetID; sret (match st with OK => 1 | NOK => 0 end).

(** * Backends *)

(** The turn [i] of the loop over the parameters, on the new handler, which the
    loops of [rpc_add_backend] and [rpc_add_intra] share up to the turn 7, where
    the first never gets; [None] is [goto error]. *)
Definition backend_field (backend : ptr) (target : option ptr) (i : nat) (v : rpc_value) : M (option (option ptr)) :=
  let set (g : handler -> handler) : M (option (option ptr)) :=
    do h <- get_handler (Some backend); do_ put_handler backend (g h); sret (Some target) in
  match i with
  | 0%nat => do ts <- sgets targets; sret (match ts !! u32 (read_i8 v) with Some t => Some (Some t) | None => None end)
  | 1%nat =>
    do link <- find_link v;
    match link with None => sret None | Some l => set (fun h => h <| hd_iface := Some l |>) end
  | 2%nat =>
    do s <- slift (read_string v);
    match addr_pton_ip s with None => sret None | Some ip => set (fun h => h <| hd_ip := Some ip |>) end
  | 3%nat =>
    do s <- slift (read_string v);
    match addr_pton_mac s with None => sret None | Some mac => set (fun h => h <| hd_mac := Some mac |>) end
  | 4%nat =>
    do s <- slift (read_string v);
    match addr_pton_ip s with None => sret None | Some m => set (fun h => h <| hd_netmask := Some m |>) end
  | 5%nat =>
    do vlan <- slift (read_int v);
    set (fun h => h <| hd_vlan := htons (Z.land vlan (BIT_MASK 0 11)) |>)
  | 6%nat =>
    do rule <- slift (read_string v);
    do root <- DE_create_tree and_matches and_split or_split (Some (c_string (rule ++ [0])));
    set (fun h => h <| hd_rule := root |>)
  | 7%nat =>
    do ex <- slift (read_int v);
    if 0 <? ex then set (fun h => h <| hd_exclusive := 1 |>) else sret (Some target)
  | _ => sret (Some target)
  end.
Fixpoint backend_fields (backend : ptr) (target : option ptr) (i : nat) (l : list rpc_value) : M (option (option ptr)) :=
  match l with
  | [] => sret (Some target)
  | v :: l =>
    do r <- backend_field backend target i v;
    match r with
    | None => sret None
    | Some target => backend_fields backend target (S i) l
    end
  end.

(** The answer with the new identifier is built and thrown away: every path ends
    at the label [error]. *)
Definition rpc_add_backend (params : list rpc_value) : M Z :=
  do backend <- malloc;
  do_ put_handler backend handler_zero;
  do_ (if decide (length params = 7%nat) then
         do r <- backend_fields backend None 0 params;
         match r with
         | Some target => do _st <- add_back_handler target (Some backend); sret tt
         | None => sret tt
         end
       else sret tt);
  do_ free_handler (Some backend);
  sret 0.

Definition rpc_remove_backend (params : list rpc_value) : M Z :=
  let '(targetID, backendID) := decompose2 params in
  if (targetID =? 0) || (backendID =? 0) then sret 0
  else
    do ts <- sgets targets;
    match ts !! u32 targetID with
    | None => sret 0
    | Some t => do st <- remove_back_handler t backendID; sret (match st with OK => 1 | NOK => 0 end)
    end.

(** * INTRA hosts *)

(** The loop of [rpc_add_intra] has one more case, for the address. *)
Definition intra_field (intra : ptr) (target : option ptr) (target_ip : option Z) (i : nat) (v : rpc_value) :
    M (option (option ptr * option Z)) :=
  match i with
  | 8%nat =>
    do s <- slift (read_string v);
    match addr_pton_ip s with None => sret None | Some ip => sret (Some (target, Some ip)) end
  | _ =>
    do r <- backend_field intra target i v;
    sret (match r with None => None | Some target => Some (target, target_ip) end)
  end.
Fixpoint intra_fields (intra : ptr) (target : option ptr) (target_ip : option Z) (i : nat) (l : list rpc_value) :
    M (option (option ptr * option Z)) :=
  match l with
  | [] => sret (Some (target, target_ip))
  | v :: l =>
    do r <- intra_field intra target target_ip i v;
    match r with
    | None => sret None
    | Some (target, target_ip) => intra_fields intra target target_ip (S i) l
    end
  end.

(** As for the backends, every path ends at the label [error]. *)
Definition rpc_add_intra (params : list rpc_value) : M Z :=
  do intra <- malloc;
  do_ put_handler intra handler_zero;
  do_ (if decide (length params = 8%nat) then
         do r <- intra_fields intra None None 0 params;
         match r with
         | Some (target, target_ip) => do _st <- add_intra_handler target target_ip (Some intra); sret tt
         | None => sret tt
         end
       else sret tt);
  do_ free_handler (Some intra);
  sret 0.

Definition rpc_remove_intra (params : list rpc_value) : M Z :=
  let '(targetID, intraID) := decompose2 params in
  if (targetID =? 0) || (intraID =? 0) then sret 0
  else
    do ts <- sgets targets;
    match ts !! u32 targetID with
    | None => sret 0
    | Some t => do st <- remove_intra_handler t intraID; sret (match st with OK => 1 | NOK => 0 end)
    end.

(** * The methods *)

Inductive rpc_result := RInt (z : Z) | RLinks (l : list string).
Definition int_result (m : M Z) : M rpc_result := do z <- m; sret (RInt z).
Definition method : list (string * (list rpc_value -> M rpc_result)) :=
  [("get_number_of_links"%string, fun _ => int_result rpc_get_number_of_links);
   ("get_links"%string, fun _ => do l <- rpc_get_links; sret (RLinks l));
   ("add_target"%string, fun params => int_result (rpc_add_target params));
   ("remove_target"%string, fun params => int_result (rpc_remove_target params));
   ("add_backend"%string, fun params => int_result (rpc_add_backend params));
   ("remove_backend"%string, fun params => int_result (rpc_remove_backend params));
   ("add_inra"%string, fun params => int_result (rpc_add_intra params));
   ("remove_intra"%string, fun params => int_result (rpc_remove_intra params))].

(** The method of a request; [None] is the error that the server answers when
    there is none. *)
Definition rpc_call (methodName : string) (params : list rpc_value) : M (option rpc_result) :=
  match list_find (fun e => e.1 = methodName) method with
  | Some (_, (_, f)) => do r <- f params; sret (Some r)
  | None => sret None
  end.

(** * A honeypot that is added is freed *)

Definition same_targets (w w' : world) : Prop := w_targets w' = w_targets w.
#[local] Instance same_targets_refl : Reflexive same_targets.
Proof. by intros w. Qed.
#[local] Instance same_targets_trans : Transitive same_targets.
Proof. intros w1 w2 w3 H1 H2. unfold same_targets in *. congruence. Qed.

Lemma targets_malloc : keeps same_targets malloc.
Proof. by intros w a w' [= _ <-]. Qed.
Lemma targets_put_node a n : keeps same_targets (put_node a n).
Proof. by apply keeps_smodify. Qed.
Lemma targets_put_handler a h : keeps same_targets (put_handler a h).
Proof. by apply keeps_smodify. Qed.
#[local] Hint Resolve targets_malloc targets_put_node targets_put_handler : keeps.

Lemma targets_build fuel e : keeps same_targets (DE_build_subtree and_matches and_split fuel e).
Proof.
  revert e. induction fuel as [|fuel IH]; intros e; cbn [DE_build_subtree]; [apply keeps_sfault|].
  assert (forall e, keeps same_targets (DE_build_subtree and_matches and_split fuel e)) by apply IH. keeps_tac.
Qed.
Lemma targets_connect_false fuel node head : keeps same_targets (connect_false fuel node head).
Proof.
  revert node. induction fuel as [|fuel IH]; intros node; cbn [connect_false]; [apply keeps_sfault|].
  assert (forall a, keeps same_targets (connect_false fuel a head)) by apply IH. unfold get_node. keeps_tac.
Qed.
#[local] Hint Resolve targets_build targets_connect_false : keeps.
Lemma targets_connect_groups node l : keeps same_targets (connect_groups and_matches and_split node l).
Proof.
  revert node. induction l as [|g l IH]; intros node; cbn [connect_groups]; [apply keeps_sret, _|].
  assert (forall a, keeps same_targets (connect_groups and_matches and_split a l)) by apply IH.
  unfold build_subtree. keeps_tac.
Qed.
#[local] Hint Resolve targets_connect_groups : keeps.
Lemma targets_create e : keeps same_targets (DE_create_tree and_matches and_split or_split e).
Proof. unfold DE_create_tree, build_subtree. keeps_tac. Qed.
#[local] Hint Resolve targets_create : keeps.

Lemma targets_field backend target i v : keeps same_targets (backend_field backend target i v).
Proof. unfold backend_field, find_link, get_handler. cbn zeta. keeps_tac. Qed.
#[local] Hint Resolve targets_field : keeps.
Lemma targets_fields backend target i l : keeps same_targets (backend_fields backend target i l).
Proof.
  revert target i. induction l as [|v l IH]; intros target i; cbn [backend_fields]; [apply keeps_sret, _|].
  assert (forall t j, keeps same_targets (backend_fields backend t j l)) by apply IH. keeps_tac.
Qed.

(** Whatever [add_back_handler] answers, no target changes but the one it is
    given, whose tree at most gets an entry for the handler. *)
Definition gains (b : ptr) (w w' : world) : Prop :=
  forall t tg, w_targets w !! t = Some tg -> exists tg', w_targets w' !! t = Some tg' /\
    (tg_back_handlers tg' = tg_back_handlers tg \/ exists id, tg_back_handlers tg' = <[id := b]> (tg_back_handlers tg)).

Lemma gains_add target b w st w' : add_back_handler target (Some b) w = Ret (st, w') -> gains b w w'.
Proof.
  intros H t tg Ht. unfold add_back_handler in H. destruct target as [t0|]; [|injection H as _ <-; by eauto].
  srun H as tg0 w1 H1. unfold get_target in H1. apply deref_Ret_inv in H1 as (a & [= <-] & Ea & ->).
  srun H as hd w1 H1. unfold get_handler in H1. apply deref_Ret_inv in H1 as (a & _ & _ & ->).
  srun H as u w1 H1. apply targets_put_handler in H1. srun H as u' w2 H2. apply free_handler_targets in H2.
  srun H as u'' w3 H3. injection H3 as _ <-. injection H as _ <-. simpl. unfold same_targets in H1. rewrite H2, H1.
  destruct (decide (t0 = t)) as [->|Hne].
  - assert (tg0 = tg) as -> by congruence. rewrite lookup_insert_eq. eexists. split; [done|]. right. by eexists.
  - rewrite lookup_insert_ne by done. eauto.
Qed.

(** [rpc_add_backend] cannot add a honeypot.  Whatever the request, when it
    returns its answer is [0], the handler it built is freed, and the only
    change to the honeypots of a target is an entry for that freed handler. *)
Lemma rpc_add_backend_dangles params w r w' :
  rpc_add_backend params w = Ret (r, w') ->
  r = 0 /\ exists b, b = w_next w /\ w_handlers w' !! b = None /\ gains b w w'.
Proof.
  intros H. unfold rpc_add_backend in H. srun H as b w1 H1. injection H1 as <- <-.
  srun H as u w2 H2. apply targets_put_handler in H2. srun H as u' w3 H3. srun H as u'' w4 H4. injection H as <- <-.
  split; [done|]. exists (w_next w). split; [done|]. destruct (free_handler_spec _ _ _ _ H4) as (E & _ & Et).
  split; [by rewrite E, lookup_delete_eq|]. unfold same_targets in H2. simpl in H2.
  intros t tg Ht. rewrite Et. rewrite <- H2 in Ht. revert t tg Ht. change (gains (w_next w) w2 w3).
  case_decide; [|injection H3 as _ <-; intros t tg Ht; eauto].
  srun H3 as res w5 H5. apply targets_fields in H5. unfold same_targets in H5. destruct res as [target|].
  - srun H3 as st w6 H6. injection H3 as _ <-. apply gains_add in H6. intros t tg Ht. rewrite <- H5 in Ht. by apply H6.
  - injection H3 as _ <-. intros t tg Ht. rewrite H5. eauto.
Qed.

(** The address is a ninth parameter, and the loop reads eight. *)
Lemma intra_fields_no_address intra target i l w r target_ip w' : (i + length l <= 8)%nat ->
  intra_fields intra target None i l w = Ret (Some (r, target_ip), w') -> target_ip = None.
Proof.
  revert target i w. induction l as [|v l IH]; intros target i w Hi H; cbn [intra_fields length] in *; [by injection H as _ <- _|].
  srun H as x w1 H1. unfold intra_field in H1. do 8 (destruct i as [|i]; [srun H1 as y w2 H2; injection H1 as <- _;
    destruct y as [y|]; [apply IH in H; [done|lia]|done]|]). lia.
Qed.

Lemma targets_intra_field intra target ip i v : keeps same_targets (intra_field intra target ip i v).
Proof. unfold intra_field. destruct (decide (i = 8%nat)) as [->|]; [keeps_tac|]. do 9 (destruct i as [|i]; [try done; keeps_tac|]). keeps_tac. Qed.
#[local] Hint Resolve targets_intra_field : keeps.
Lemma targets_intra_fields intra target ip i l : keeps same_targets (intra_fields intra target ip i l).
Proof.
  revert target ip i. induction l as [|v l IH]; intros target ip i; cbn [intra_fields]; [apply keeps_sret, _|].
  assert (forall t x j, keeps same_targets (intra_fields intra t x j l)) by apply IH. keeps_tac.
Qed.

(** A target whose tree was empty gets the handler under the null key. *)
Definition poisoned (b : ptr) (w w' : world) : Prop :=
  forall t tg, w_targets w !! t = Some tg -> exists tg', w_targets w' !! t = Some tg' /\
    (tg' = tg \/ tg_intra_null tg = None /\ tg_intra_handlers tg = ∅ /\ tg_intra_null tg' = Some b).

Lemma poisoned_add target b w st w' : add_intra_handler target None (Some b) w = Ret (st, w') -> poisoned b w w'.
Proof.
  intros H t tg Ht. unfold add_intra_handler in H. destruct target as [t0|]; [|injection H as _ <-; by eauto].
  srun H as hd w1 H1. unfold get_handler in H1. apply deref_Ret_inv in H1 as (a & _ & _ & ->).
  destruct (hd_iface hd), (hd_ip hd), (hd_mac hd); try (injection H as _ <-; by eauto).
  srun H as tg0 w1 H1. unfold get_target in H1. apply deref_Ret_inv in H1 as (a2 & [= <-] & Ea & ->).
  srun H as found w1 H1. apply slift_Ret_inv in H1 as [H1 ->]. unfold intra_find in H1. case_decide as Hn; [|done].
  injection H1 as <-. srun H as u w1 H1. injection H1 as _ <-. srun H as u' w2 H1. injection H1 as _ <-. injection H as _ <-. simpl.
  destruct (decide (t0 = t)) as [->|Hne]; [|rewrite lookup_insert_ne by done; eauto].
  assert (tg0 = tg) as -> by congruence. rewrite lookup_insert_eq. eexists. split; [done|]. right. by destruct Hn.
Qed.

(** [rpc_add_intra] cannot add a host either.  Whatever the request, when it
    returns its answer is [0], the handler it built is freed, and at most one
    target has it, under a null address. *)
Lemma rpc_add_intra_poisons params w r w' :
  rpc_add_intra params w = Ret (r, w') ->
  r = 0 /\ exists b, b = w_next w /\ w_handlers w' !! b = None /\ poisoned b w w'.
Proof.
  intros H. unfold rpc_add_intra in H. srun H as b w1 H1. injection H1 as <- <-.
  srun H as u w2 H2. apply targets_put_handler in H2. srun H as u' w3 H3. srun H as u'' w4 H4. injection H as <- <-.
  split; [done|]. exists (w_next w). split; [done|]. destruct (free_handler_spec _ _ _ _ H4) as (E & _ & Et).
  split; [by rewrite E, lookup_delete_eq|]. unfold same_targets in H2. simpl in H2.
  intros t tg Ht. rewrite Et. rewrite <- H2 in Ht. revert t tg Ht. change (poisoned (w_next w) w2 w3).
  case_decide; [|injection H3 as _ <-; intros t tg Ht; eauto].
  srun H3 as res w5 H5. pose proof (targets_intra_fields _ _ _ _ _ _ _ _ H5) as H5t. unfold same_targets in H5t.
  destruct res as [[target ip]|].
  - apply intra_fields_no_address in H5 as ->; [|lia]. srun H3 as st w6 H6. injection H3 as _ <-. apply poisoned_add in H6.
    intros t tg Ht. rewrite <- H5t in Ht. by apply H6.
  - injection H3 as _ <-. intros t tg Ht. rewrite H5t. eauto.
Qed.

(** From then on, whatever looks for an INTRA host of that target by its address
    faults, as the search compares with the null key: the creation of a connection
    of a LIH, and the addition of a host.  The traversal that finds where a packet
    comes from passes the null key over, and finds nothing. *)
Lemma poisoned_target_faults pkt tg b s w : tg_intra_null tg = Some b ->
  (forall ip, intra_find tg ip = Fault NullDeref) /\
  tree_foreach (find_intra pkt) (intra_list tg) s w = Ret (s, w).
Proof.
  intros Hb. split.
  - intros [ip|]; unfold intra_find, intra_lookup; [by rewrite Hb|]. by rewrite decide_False by (intros [? _]; congruence).
  - unfold intra_list. by rewrite Hb.
Qed.

(** No request can name it rightly. *)
Lemma add_intra_unknown params : rpc_call "add_intra" params = sret None.
Proof. reflexivity. Qed.

(** A target added on a free link gets the next identifier and that link. *)
Lemma rpc_add_target_registers w link mac srcip i ifc ip hw :
  let t := w_next w in
  let id := s64 (target_counter w + 1) in
  links w !! c_string (link ++ [0]) = Some i -> w_ifaces w !! i = Some ifc -> if_target ifc = None ->
  addr_pton_ip srcip = Some ip -> addr_pton_mac mac = Some hw -> targets w !! u32 id = None ->
  exists w', rpc_add_target [VString link; VString mac; VString srcip] w = Ret (s32 id, w') /\
    targets w' = <[u32 id := t]> (targets w) /\ target_counter w' = id /\
    w_targets w' !! t = Some (Target id (Some i) (Some ip) (Some hw) None ∅ 0 None ∅ None [] None None) /\
    w_ifaces w' !! i = Some (ifc <| if_target := Some t |>).
Proof.
  intros t id Hl Hi Hfree Hip Hmac Hid.
  unfold rpc_add_target. rewrite (sbind_eq _ _ w t (w <| w_next := Pos.succ (w_next w) |>) eq_refl).
  set (w1 := w <| w_next := Pos.succ (w_next w) |> <| w_targets := <[t := target_zero]> (w_targets w) |>).
  rewrite (sbind_eq _ _ _ tt w1 eq_refl).
  set (w2 := w1 <| w_ifaces := <[i := ifc <| if_target := Some t |>]> (w_ifaces w) |>
                <| w_targets := <[t := Target 0 (Some i) (Some ip) (Some hw) None ∅ 0 None ∅ None [] None None]> (w_targets w1) |>).
  assert (Ht1 : w_targets w1 !! t = Some target_zero) by apply lookup_insert_eq.
  assert (Hr : set_route t (VString link) (VString mac) (VString srcip) w1 = Ret (true, w2)).
  { unfold set_route. rewrite (sbind_eq _ _ w1 (Some i) w1).
    2:{ unfold find_link, sbind, slift, sgets, sret. cbn [read_string]. do 2 f_equal. exact Hl. }
    rewrite (sbind_eq _ _ w1 ifc w1) by (by apply deref_ok). rewrite Hfree.
    rewrite (sbind_eq _ _ w1 srcip w1 eq_refl), Hip, (sbind_eq _ _ w1 mac w1 eq_refl), Hmac.
    unfold upd_target, get_target, sbind, put_iface, put_target, smodify. erewrite deref_ok by exact Ht1. reflexivity. }
  rewrite (sbind_eq _ _ _ _ _ Hr). cbn match.
  set (w3 := w2 <| target_counter := id |> <| targets := <[u32 id := t]> (targets w) |>
                <| w_targets := <[t := Target id (Some i) (Some ip) (Some hw) None ∅ 0 None ∅ None [] None None]> (w_targets w2) |>).
  assert (Ht2 : w_targets w2 !! t = Some (Target 0 (Some i) (Some ip) (Some hw) None ∅ 0 None ∅ None [] None None)) by apply lookup_insert_eq.
  assert (Ha : add_target (Some t) w2 = Ret (OK, w3)).
  { unfold add_target, upd_target, get_target, put_target, sbind, sgets, smodify, sret. cbn beta iota.
    erewrite deref_ok by exact Ht2. cbn beta iota. change (target_counter w2) with (target_counter w).
    match goal with |- context [?m !! u32 ?x] => change (m !! u32 x) with (targets w !! u32 id); rewrite Hid end.
    reflexivity. }
  rewrite (sbind_eq _ _ _ _ _ Ha). cbn match. exists w3. unfold get_target.
  assert (Ht3 : w_targets w3 !! t = Some (Target id (Some i) (Some ip) (Some hw) None ∅ 0 None ∅ None [] None None)) by apply lookup_insert_eq.
  rewrite (sbind_eq _ _ _ _ _ (deref_ok _ _ _ _ Ht3)). repeat (split; [done|]). simpl. apply lookup_insert_eq.
Qed.
End Rpc.

(** ** Witness *)

(** A well-formed request for a honeypot behind the second link, ruled by a
    module of the configuration. *)
Definition rpc_world : world :=
  world0 <| links := {[ "down"%string := 2%positive ]} |>
         <| modules := {[ "web"%string := {[ "function"%string := yesno_name ]} ]} |>.
Definition rpc_request : list rpc_value :=
  [VI8 0; VString [100; 111; 119; 110]; VString [49]; VString [50]; VString [51]; VInt 7; VString [119; 101; 98]].
Definition rpc_sample : M Z :=
  rpc_add_backend (fun _ => false) (fun e => [e]) (fun e => [e]) (fun _ => Some ip_hih) (fun _ => Some mac_hih) rpc_request.

Lemma rpc_add_backend_dangles_witness :
  exists b, b = 100%positive /\ w_handlers (state_after rpc_sample rpc_world) !! b = None /\
    gains b rpc_world (state_after rpc_sample rpc_world).
Proof.
  apply (rpc_add_backend_dangles (fun _ => false) (fun e => [e]) (fun e => [e]) (fun _ => Some ip_hih) (fun _ => Some mac_hih)
           rpc_request rpc_world 0 (state_after rpc_sample rpc_world)).
  vm_compute. reflexivity.
Defined.

(** The freed handler is the honeypot number 3 of the target. *)
Example rpc_add_backend_entry : exists tg,
  w_targets (state_after rpc_sample rpc_world) !! 10%positive = Some tg /\ tg_back_handlers tg !! 3 = Some 100%positive /\
  get_handler (tg_back_handlers tg !! 3) (state_after rpc_sample rpc_world) = Fault UseAfterFree.
Proof. eexists. vm_compute. done. Qed.

(** The same request for an INTRA host, with the flag: the target has no INTRA
    host yet, and no search by address is possible afterwards. *)
Definition rpc_intra_sample : M Z :=
  rpc_add_intra (fun _ => false) (fun e => [e]) (fun e => [e]) (fun _ => Some ip_hih) (fun _ => Some mac_hih)
    (rpc_request ++ [VInt 1]).
Example rpc_add_intra_entry : exists tg,
  w_targets (state_after rpc_intra_sample rpc_world) !! 10%positive = Some tg /\ tg_intra_null tg = Some 100%positive /\
  intra_find tg (Some ip_hih) = Fault NullDeref.
Proof. eexists. split; [vm_compute; reflexivity|]. split; vm_compute; reflexivity. Qed.

(** A second one faults at once. *)
Example rpc_add_intra_twice : rpc_intra_sample (state_after rpc_intra_sample rpc_world) = Fault NullDeref.
Proof. vm_compute. reflexivity. Qed.
