(* ===== verification/Order.v ===== *)
(** The order in which the gateway handles packets: the queues of the decision
    threads are first in, first out, and the queue of a frame is that of its
    external address, so that the frames exchanged with an external host are
    handled in the order they were captured.  The comment of [globals.h] claims
    it of every connection; two frames of an INTRA connection may overtake each
    other. *)
From S2P Require Import Prelude Mem Types World Samples Keys Checksum TcpOptions Packet Netcode.
From S2P Require Import Connections ConnTrees Redirect DecisionEngine DecisionTrees Icmp Engine Births EngineOk.
From S2P Require Import Management ModVmi Modules ModulesOk Gateway.

(** * Runs with their events *)

(** What a step does to the queues: a frame, whose external address is [peer],
    is pushed; the first frame of a queue is handled; nothing. *)
Inductive event :=
  | Captured (peer : Z) (q : Z) (raw : raw_pcap)
  | Handled (q : Z) (raw : raw_pcap)
  | Silent.

(** The IP header of a captured frame, when it is queued. *)
Definition queued_ip (packet : list Z) : outcome nat :=
  let! ty := eth_type packet 0 in
  Ret (if ntohs ty =? ETHERTYPE_IP then ETHER_HDR_LEN else VLAN_ETH_HLEN).

(** The address outside: the source of what comes through the uplink, the
    destination of what comes from inside. *)
Definition external_addr (uplink : bool) (packet : list Z) : outcome Z :=
  let! ip := queued_ip packet in
  if uplink then ip_saddr packet ip else ip_daddr packet ip.

(** The queue of an external address: its last byte, modulo. *)
Definition queue_of (a n : Z) : Z := Z.shiftr (Z.land a 0xFF000000) 24 mod n.

Definition queue (g : gateway) (q : Z) : list raw_pcap := default [] (gw_queues g !! q).

Section Events.
Context `{ModuleRunner} (needfrag : Z -> list Z -> list Z) (decision_threads : Z).

(** A step of the gateway and its event. *)
Definition event_step (e : event) (g g' : gateway) : Prop :=
  step needfrag decision_threads g g' /\
  match e with
  | Captured peer q raw =>
    (exists i w', w_ifaces (gw_world g) !! rw_iface raw = Some i /\
      pcap_cb decision_threads (rw_iface raw) (rw_len raw) (rw_packet raw) (gw_world g) = Ret (Some (q, raw), w') /\
      external_addr (bool_decide (is_Some (if_target i))) (rw_packet raw) = Ret peer) /\
    gw_queues g' = <[q := queue g q ++ [raw]]> (gw_queues g)
  | Handled q raw =>
    exists rest, gw_queues g !! q = Some (raw :: rest) /\ gw_queues g' = <[q := rest]> (gw_queues g)
  | Silent => gw_queues g' = gw_queues g
  end.

Inductive event_run : list event -> gateway -> gateway -> Prop :=
  | run_nil g : event_run [] g g
  | run_cons e es g g1 g' : event_step e g g1 -> event_run es g1 g' -> event_run (e :: es) g g'.
End Events.

(** The frames pushed on a queue, and those taken from it, in order. *)
Definition captured_on (q : Z) (es : list event) : list raw_pcap :=
  omap (fun e => match e with Captured _ q' raw => if q' =? q then Some raw else None | _ => None end) es.
Definition handled_on (q : Z) (es : list event) : list raw_pcap :=
  omap (fun e => match e with Handled q' raw => if q' =? q then Some raw else None | _ => None end) es.

(** * Every step has an event *)

Section Runs.
Context `{ModuleRunner} (needfrag : Z -> list Z -> list Z) (decision_threads : Z).
Notation step := (step needfrag decision_threads).
Notation event_step := (event_step needfrag decision_threads).
Notation event_run := (event_run needfrag decision_threads).

(** A frame that is queued goes to the queue of its external address. *)
Lemma pcap_cb_queue iface len packet w q raw w' :
  pcap_cb decision_threads iface len packet w = Ret (Some (q, raw), w') ->
  exists i peer, w_ifaces w !! iface = Some i /\
    external_addr (bool_decide (is_Some (if_target i))) packet = Ret peer /\
    q = queue_of peer decision_threads /\ raw = RawPcap iface len packet false.
Proof.
  intros H1. unfold pcap_cb in H1. srun H1 as ty w1 H2. apply slift_Ret_inv in H2 as [Hty ->].
  srun H1 as i w1 H2. unfold get_iface in H2. apply deref_Ret_inv in H2 as (b & [= <-] & Hi & ->).
  srun H1 as ip w1 H2. destruct ip as [ip|]; [|done]. srun H1 as q' w2 H3. apply slift_Ret_inv in H3 as [Hq ->].
  injection H1 as <- <- <-. unfold IP2QUEUEID in Hq. orun Hq as peer Hp.
  destruct (decision_threads =? 0); [done|]. injection Hq as <-. exists i, peer.
  split; [done|]. split; [|done]. unfold external_addr, queued_ip. rewrite Hty. cbn [obind].
  enough ((if ntohs ty =? ETHERTYPE_IP then ETHER_HDR_LEN else VLAN_ETH_HLEN) = ip) as -> by done.
  destruct (ntohs ty =? ETHERTYPE_ARP); [by srun H2 as u w3 H3|].
  destruct (ntohs ty =? ETHERTYPE_IP); [by injection H2 as <- _|].
  destruct (ntohs ty =? ETHERTYPE_VLAN); [|done]. destruct (if_target i); [done|]. srun H2 as e w3 H3.
  destruct (_ =? ETHERTYPE_ARP); [by srun H2 as u w4 H4|]. destruct (_ =? ETHERTYPE_IP); [|done].
  by injection H2 as <- _.
Qed.

Lemma step_event g g' : step g g' <-> exists e, event_step e g g'.
Proof.
  split; [|by intros (e & Hs & _)]. intros Hs. destruct Hs as [iface len packet r w' Hb H1|q raw rest mt go w' Hq H1|ct w' H1|co fs w' H1|now rand].
  - destruct r as [[q raw]|].
    + destruct (pcap_cb_queue _ _ _ _ _ _ _ H1) as (i & peer & Hi & Hp & _ & ->).
      exists (Captured peer q (RawPcap iface len packet false)).
      split; [exact (step_capture _ _ _ _ _ _ _ _ Hb H1)|]. split; [by exists i, w'|done].
    + exists Silent. split; [exact (step_capture _ _ _ _ _ _ _ _ Hb H1)|done].
  - exists (Handled q raw). split; [by eapply step_handle|]. by exists rest.
  - exists Silent. split; [by eapply step_clean|done].
  - exists Silent. split; [by eapply step_save|done].
  - exists Silent. split; [apply step_tick|done].
Qed.

Lemma event_run_rtc es g g' : event_run es g g' -> rtc step g g'.
Proof. induction 1 as [|e es g g1 g' [Hs _] _ IH]; [apply rtc_refl|by eapply rtc_l]. Qed.

Lemma rtc_event_run g g' : rtc step g g' -> exists es, event_run es g g'.
Proof.
  induction 1 as [g|g g1 g' Hs _ (es & IH)]; [by exists []; constructor|].
  apply step_event in Hs as [e He]. exists (e :: es). by econstructor.
Qed.

(** * First in, first out *)

Lemma queue_insert g w m q' l q :
  queue (GatewayState w (<[q' := l]> m)) q = if q' =? q then l else queue (GatewayState (gw_world g) m) q.
Proof.
  unfold queue. simpl. destruct (Z.eqb_spec q' q) as [->|]; [by rewrite lookup_insert_eq|by rewrite lookup_insert_ne].
Qed.

Lemma event_queue e g g' q : event_step e g g' ->
  queue g q ++ captured_on q [e] = handled_on q [e] ++ queue g' q.
Proof.
  intros [_ He]. destruct g as [w m], g' as [w' m']. destruct e as [peer q' raw|q' raw|]; simpl in *.
  - destruct He as [_ ->]. rewrite (queue_insert (GatewayState w m)). unfold captured_on, handled_on. simpl.
    destruct (Z.eqb_spec q' q) as [->|]; [done|]. by rewrite app_nil_r.
  - destruct He as (rest & Hq & ->). rewrite (queue_insert (GatewayState w m)). unfold captured_on, handled_on. simpl.
    destruct (Z.eqb_spec q' q) as [->|]; rewrite app_nil_r; [|done]. unfold queue. simpl. by rewrite Hq.
  - subst m'. by rewrite app_nil_r.
Qed.

Lemma captured_cons q e es : captured_on q (e :: es) = captured_on q [e] ++ captured_on q es.
Proof. unfold captured_on. simpl. by destruct e as [? q' ?|q' ?|]; try destruct (q' =? q). Qed.
Lemma handled_cons q e es : handled_on q (e :: es) = handled_on q [e] ++ handled_on q es.
Proof. unfold handled_on. simpl. by destruct e as [? q' ?|q' ?|]; try destruct (q' =? q). Qed.

(** What was waiting in a queue and what is pushed on it during a run is what is
    taken from it and what waits at the end, in the same order. *)
Lemma queue_fifo es g g' q : event_run es g g' ->
  queue g q ++ captured_on q es = handled_on q es ++ queue g' q.
Proof.
  induction 1 as [g|e es g g1 g' He _ IH]; [by rewrite app_nil_r|].
  rewrite captured_cons, handled_cons, app_assoc, (event_queue _ _ _ _ He), <- !app_assoc. by rewrite IH.
Qed.

Lemma captured_queue es g g' peer q raw : event_run es g g' -> Captured peer q raw ∈ es ->
  q = queue_of peer decision_threads.
Proof.
  induction 1 as [g|e es g g1 g' He _ IH]; intros Hin; [by apply elem_of_nil in Hin|].
  apply elem_of_cons in Hin as [<-|Hin]; [|auto]. destruct He as [_ [(i & w' & Hi & H1 & Hp) _]].
  destruct (pcap_cb_queue _ _ _ _ _ _ _ H1) as (i' & peer' & Hi' & Hp' & -> & _).
  assert (i' = i) as -> by congruence. congruence.
Qed.

(** * A decision thread *)

Lemma de_iteration_goes raw mt w go w' : rw_last raw = false ->
  de_iteration needfrag raw mt w = Ret (go, w') -> go = true.
Proof.
  intros Hlast H1. unfold de_iteration in H1. rewrite Hlast in H1. srun H1 as [st p] w2 H3. srun H1 as v w3 H4.
  by injection H1 as <- _.
Qed.

Lemma queue_cons g q raw rest : queue g q = raw :: rest -> gw_queues g !! q = Some (raw :: rest).
Proof. unfold queue. destruct (gw_queues g !! q); simpl; congruence. Qed.

(** A decision thread that goes through frames of its queue is a run of the
    gateway that handles them in order; when it stops on a fault, that is the
    fault of one of them, in a state this run reaches. *)
Lemma de_thread_spec frames q rest g :
  queue g q = frames.*1 ++ rest -> Forall (fun f => rw_last f.1 = false) frames ->
  match de_thread needfrag frames (gw_world g) with
  | Ret (_, w') => exists g', event_run (map (Handled q) frames.*1) g g' /\ gw_world g' = w' /\
      (forall q', queue g' q' = if q' =? q then rest else queue g q')
  | Fault f => exists es g1 raw mt, event_run es g g1 /\ raw ∈ frames.*1 /\
      de_iteration needfrag raw mt (gw_world g1) = Fault f
  end.
Proof.
  intros Hq Hf. revert g Hq. induction Hf as [|[raw mt] frames Hlast Hf IH]; intros g Hq; simpl in Hq; cbn [de_thread].
  - unfold sret. exists g. split; [constructor|]. split; [done|]. intros q'. destruct (Z.eqb_spec q' q) as [->|]; done.
  - unfold sbind. destruct (de_iteration needfrag raw mt (gw_world g)) as [[go w1]|f] eqn:E.
    2:{ exists [], g, raw, mt. split; [constructor|]. split; [by left|done]. }
    rewrite (de_iteration_goes _ _ _ _ _ Hlast E) in E |- *.
    set (g1 := GatewayState w1 (<[q := frames.*1 ++ rest]> (gw_queues g))).
    assert (He : event_step (Handled q raw) g g1).
    { apply queue_cons in Hq. split; [by eapply step_handle|]. by exists (frames.*1 ++ rest). }
    assert (Hq1 : forall q', queue g1 q' = if q' =? q then frames.*1 ++ rest else queue g q').
    { intros q'. unfold g1. rewrite (queue_insert g), Z.eqb_sym. done. }
    specialize (IH g1). rewrite Hq1, Z.eqb_refl in IH. specialize (IH eq_refl). simpl in IH.
    destruct (de_thread needfrag frames w1) as [[u w']|f].
    + destruct IH as (g' & Hrun & Hw & Hqs). exists g'. split; [by econstructor|]. split; [done|]. intros q'.
      rewrite Hqs. destruct (q' =? q) eqn:Eq; [done|]. by rewrite Hq1, Eq.
    + destruct IH as (es & g2 & raw' & mt' & Hrun & Hin & Hft). exists (Handled q raw :: es), g2, raw', mt'.
      split; [by econstructor|]. split; [by right|done].
Qed.
End Runs.

(** * The properties *)

(** C7: flows are handled in order.  In any run that starts with empty queues,
    the frames exchanged with one external address, in both directions, are all
    pushed on one queue, that of the last byte of the address modulo the number
    of threads; and every queue is handled first in, first out: the frames taken
    from it are, in the same order, those that were captured on it, up to those
    that still wait. *)
Theorem flows_in_order `{ModuleRunner} needfrag n g es g' :
  gw_queues g = ∅ -> event_run needfrag n es g g' ->
  (forall peer q raw, Captured peer q raw ∈ es -> q = queue_of peer n) /\
  (forall q, captured_on q es = handled_on q es ++ queue g' q).
Proof.
  intros Hq Hrun. split; [intros peer q raw; by eapply captured_queue|]. intros q.
  rewrite <- (queue_fifo _ _ _ _ _ q Hrun). unfold queue at 1. by rewrite Hq, lookup_empty.
Qed.

(** ** The INTRA connections *)

(** The program's own modules, as in [Gateway]. *)
#[local] Instance order_modules : ModuleRunner :=
  modules_runner (fun s => Z.of_nat (length s) + 1) (fun _ => 0) (fun _ => []) (fun bs => bs) (fun _ => None) 0 (fun _ => false).

(** The HIH of [Samples] opens a connection to a server outside, which the control
    rule accepts; then the connection is switched to the INTRA host [10.0.0.8],
    as [mod_dns_control] does. *)
Definition ip_server : Z := ipv4 192 0 2 80.
Definition ip_intra : Z := ipv4 10 0 0 8.
Definition mac_intra : list Z := [0x0a; 0; 0; 0; 0; 8].
Definition intra_host : handler :=
  Handler 0 (Some mac_intra) (Some ip_intra) None 0 (Some 2%positive) None 0 [Some ip_server].
Definition accept_node : node := Node (Some Types.mod_yesno) {[ "value"%string := CBlock [0; 0; 0; 0] ]} "ok" "yesno" None None.
Definition world_control : world :=
  world0
    <| w_targets := {[ 10%positive := the_target <| tg_control_rule := Some 20%positive |> <| tg_intra_handlers_list := [13%positive] |> ]} |>
    <| w_handlers ::= <[13%positive := intra_host]> |> <| w_nodes := {[ 20%positive := accept_node ]} |>.

Definition hih_frame (flags : Z) : list Z :=
  tcp_frame mac_down mac_hih ip_hih ip_server 40000 80 7000 0 flags (repeat 66 26).
Definition intra_frame : list Z :=
  tcp_frame mac_down mac_intra ip_intra ip_hih 80 40000 9000 7001 0x12 (repeat 67 26).
Definition raw_down (f : list Z) : raw_pcap := RawPcap 2 80 f false.
Definition world_opened : world :=
  state_after
    (do_ de_iteration no_needfrag (raw_down (hih_frame 2)) 1000000;
     do_ switch_state 101 PROXY;
     do_ upd_conn 101 (fun c => c <| cn_destination := INTRA |>);
     switch_conn_to_intra 101 13) world_control.
Definition world_later : world := state_after (de_iteration no_needfrag (raw_down (hih_frame 16)) 2000000) world_opened.
Definition world_overtaken : world := state_after (de_iteration no_needfrag (raw_down intra_frame) 2000001) world_later.

Definition gateway_opened : gateway := GatewayState world_opened ∅.
Definition gateway_overtaken : gateway := GatewayState world_overtaken {[ 0 := []; 2 := [] ]}.

(** INTRA connections are not handled in order.  On a connection between a
    HIH and an INTRA host, the answer of the host is captured first, then a frame
    of the HIH; their queues are those of two internal addresses, so they go to
    different threads, the second frame is handled and sent before the first,
    and both count on the same connection. *)
Lemma intra_overtakes :
  exists c c', w_conns world_opened !! 101%positive = Some c /\ cn_state c = PROXY /\ cn_destination c = INTRA /\
    event_run no_needfrag 3
      [Captured ip_hih 0 (raw_down intra_frame); Captured ip_server 2 (raw_down (hih_frame 16));
       Handled 2 (raw_down (hih_frame 16)); Handled 0 (raw_down intra_frame)] gateway_opened gateway_overtaken /\
    w_conns world_overtaken !! 101%positive = Some c' /\ cn_total_packet c' = cn_total_packet c + 2 /\
    (w_sent world_overtaken).*1 = [2; 2]%positive ++ (w_sent world_opened).*1.
Proof.
  assert (Hc : exists c, w_conns world_opened !! 101%positive = Some c /\ cn_state c = PROXY /\ cn_destination c = INTRA /\
    cn_total_packet c = 1) by (vm_compute; by eexists).
  assert (Hc' : exists c, w_conns world_overtaken !! 101%positive = Some c /\ cn_total_packet c = 3)
    by (vm_compute; by eexists).
  destruct Hc as (c & Hc & Hs & Hd & Hn), Hc' as (c' & Hc' & Hn'). exists c, c'.
  split; [exact Hc|]. split; [exact Hs|]. split; [exact Hd|]. split; [|split; [exact Hc'|split; [lia|vm_compute; reflexivity]]].
  assert (H1 : pcap_cb 3 2 80 intra_frame world_opened = Ret (Some (0, raw_down intra_frame), world_opened))
    by (vm_compute; reflexivity).
  assert (H2 : pcap_cb 3 2 80 (hih_frame 16) world_opened = Ret (Some (2, raw_down (hih_frame 16)), world_opened))
    by (vm_compute; reflexivity).
  assert (Hi : exists i, w_ifaces world_opened !! 2%positive = Some i /\ if_target i = None)
    by (eexists; split; [vm_compute; reflexivity|reflexivity]).
  destruct Hi as (i & Hi & Ht).
  assert (H3 : de_iteration no_needfrag (raw_down (hih_frame 16)) 2000000 world_opened = Ret (true, world_later))
    by (vm_compute; reflexivity).
  assert (H4 : de_iteration no_needfrag (raw_down intra_frame) 2000001 world_later = Ret (true, world_overtaken))
    by (vm_compute; reflexivity).
  set (m1 := {[ 0 := [raw_down intra_frame] ]} : gmap Z (list raw_pcap)).
  set (m2 := <[2 := [raw_down (hih_frame 16)]]> m1).
  set (m3 := <[2 := []]> m2).
  apply run_cons with (g1 := GatewayState world_opened m1).
  { split; [refine (step_capture _ _ gateway_opened _ _ _ _ _ _ H1); solve_bytes|]. split; [|reflexivity].
    exists i, world_opened. rewrite Ht. split; [exact Hi|]. split; [exact H1|]. vm_compute. reflexivity. }
  apply run_cons with (g1 := GatewayState world_opened m2).
  { split; [refine (step_capture _ _ (GatewayState world_opened m1) _ _ _ _ _ _ H2); solve_bytes|]. split; [|reflexivity].
    exists i, world_opened. rewrite Ht. split; [exact Hi|]. split; [exact H2|]. vm_compute. reflexivity. }
  apply run_cons with (g1 := GatewayState world_later m3).
  { split; [exact (step_handle _ _ (GatewayState world_opened m2) 2 _ [] _ _ _ eq_refl H3)|]. exists []. split; reflexivity. }
  apply run_cons with (g1 := gateway_overtaken); [|constructor].
  assert (Em : gateway_overtaken = GatewayState world_overtaken (<[0 := []]> m3)).
  { unfold gateway_overtaken. apply (f_equal (GatewayState world_overtaken)). vm_compute. reflexivity. }
  rewrite Em. split; [exact (step_handle _ _ (GatewayState world_later m3) 0 _ [] _ _ _ eq_refl H4)|]. exists []. split; reflexivity.
Qed.

(** ** Witness *)

(** The SYN of the attacker and its handling, with their events. *)
Lemma flows_in_order_witness : exists es g',
  event_run no_needfrag 5 es gateway0 g' /\
  (forall peer q raw, Captured peer q raw ∈ es -> q = queue_of peer 5) /\
  (forall q, captured_on q es = handled_on q es ++ queue g' q) /\
  captured_on 2 es = [raw_syn].
Proof.
  assert (Hs : step no_needfrag 5 gateway0 captured).
  { apply (step_capture _ _ gateway0 1 80 syn_frame (Some (2, raw_syn)) world0);
      [solve_bytes|vm_compute; reflexivity]. }
  assert (Hrun : event_run no_needfrag 5 [Captured ip_ext 2 raw_syn] gateway0 captured).
  { eapply run_cons; [|constructor]. split; [exact Hs|]. split; [|reflexivity].
    exists iface_up, world0. split; [reflexivity|]. split; vm_compute; reflexivity. }
  exists [Captured ip_ext 2 raw_syn], captured.
  destruct (flows_in_order no_needfrag 5 gateway0 [Captured ip_ext 2 raw_syn] captured) as [Hp Hq].
  - reflexivity.
  - exact Hrun.
  - split; [exact Hrun|]. split; [exact Hp|]. split; [exact Hq|reflexivity].
Defined.
