(* ===== verification/Dump.v ===== *)
(** The dump of a payload in the debugging output ([print_hex_ascii_line] and
    [print_payload] of [connections.c]): rows of sixteen bytes, in hexadecimal
    and in characters. *)
From S2P Require Import Prelude Mem CString.

(** * Printing *)

(** [%02x] of a byte, and [%05d] of an offset. *)
Definition hex_digit (d : Z) : Z := if d <? 10 then 48 + d else 87 + d.
Definition print_02x (b : Z) : list Z := [hex_digit (b / 16); hex_digit (b mod 16)].
Definition print_05d (n : Z) : list Z := let d := print_u n in repeat 48 (5 - length d) ++ d.

(** [isprint], in the C locale. *)
Definition isprint (b : Z) : bool := (32 <=? b) && (b <=? 126).

Definition space : Z := 32.
Fixpoint hex_columns (i : Z) (bs : list Z) : list Z :=
  match bs with
  | [] => []
  | b :: bs => print_02x b ++ [space] ++ (if i =? 7 then [space] else []) ++ hex_columns (i + 1) bs
  end.

(** The bytes are read through the pointer [payload + ch]. *)
Definition print_hex_ascii_line (payload : list Z) (ch : nat) (len offset : Z) : outcome (list Z) :=
  let! bs := mget payload ch (Z.to_nat len) in
  Ret ([9] ++ print_05d offset ++ repeat space 3 ++ hex_columns 0 bs ++
       (if len <? 8 then [space] else []) ++
       (if len <? 16 then concat (repeat (repeat space 3) (Z.to_nat (16 - len))) else []) ++
       repeat space 3 ++ map (fun b => if isprint b then b else 46) bs ++ [10]).

Definition line_width : Z := 16.

Fixpoint payload_lines (fuel : nat) (payload : list Z) (ch : nat) (len_rem offset : Z) : outcome (list Z) :=
  match fuel with
  | O => Fault Hangs
  | S fuel =>
    let line_len := Z.rem line_width len_rem in
    let! line := print_hex_ascii_line payload ch line_len offset in
    let len_rem := len_rem - line_len in
    let ch := (ch + Z.to_nat line_len)%nat in
    let offset := offset + line_width in
    if len_rem <=? line_width then
      let! last := print_hex_ascii_line payload ch len_rem offset in Ret (line ++ last)
    else let! rest := payload_lines fuel payload ch len_rem offset in Ret (line ++ rest)
  end.

Definition print_payload (payload : list Z) (len : Z) : outcome (list Z) :=
  if len <=? 0 then Ret []
  else if len <=? line_width then print_hex_ascii_line payload 0 len 0
  else payload_lines (Z.to_nat len) payload 0 len 0.

(** * What is printed *)

(** The reference: one row per sixteen bytes, with its offset. *)
Fixpoint rows (fuel : nat) (bs : list Z) : list (list Z) :=
  match fuel with
  | O => []
  | S fuel => if decide (bs = []) then [] else take 16 bs :: rows fuel (drop 16 bs)
  end.
Definition row_line (offset : Z) (row : list Z) : list Z :=
  [9] ++ print_05d offset ++ repeat space 3 ++ hex_columns 0 row ++
  (if Z.of_nat (length row) <? 8 then [space] else []) ++
  (if Z.of_nat (length row) <? 16 then concat (repeat (repeat space 3) (16 - length row)) else []) ++
  repeat space 3 ++ map (fun b => if isprint b then b else 46) row ++ [10].
Fixpoint row_lines (offset : Z) (l : list (list Z)) : list Z :=
  match l with [] => [] | row :: l => row_line offset row ++ row_lines (offset + 16) l end.

Lemma print_line_ok payload ch len offset : 0 <= len -> (ch + Z.to_nat len <= length payload)%nat ->
  print_hex_ascii_line payload ch len offset = Ret (row_line offset (take (Z.to_nat len) (drop ch payload))).
Proof.
  intros H0 Hl. unfold print_hex_ascii_line. rewrite mget_ok by done. cbn [obind]. unfold row_line, sub.
  assert (E : length (take (Z.to_nat len) (drop ch payload)) = Z.to_nat len) by (rewrite length_take, length_drop; lia).
  rewrite E, Z2Nat.id by done. by replace (Z.to_nat (16 - len)) with (16 - Z.to_nat len)%nat by lia.
Qed.

Lemma rows_fuel fuel fuel' bs : (length bs <= fuel)%nat -> (length bs <= fuel')%nat -> rows fuel bs = rows fuel' bs.
Proof.
  revert fuel' bs. induction fuel as [|fuel IH]; intros [|fuel'] bs H1 H2; cbn [rows]; [done| | |].
  - destruct bs; [done|simpl in *; lia].
  - destruct bs; [done|simpl in *; lia].
  - case_decide as E; [done|]. f_equal. destruct bs; [done|]. apply IH; rewrite length_drop; simpl in *; lia.
Qed.

(** While more than a row remains, [line_width % len_rem] is [line_width]. *)
Lemma payload_lines_ok fuel payload ch len offset : 16 < len -> Z.of_nat ch + len = Z.of_nat (length payload) ->
  len <= Z.of_nat fuel ->
  payload_lines fuel payload ch len offset = Ret (row_lines offset (rows fuel (drop ch payload))).
Proof.
  revert ch len offset. induction fuel as [|fuel IH]; intros ch len offset Hl Hlen Hf; [lia|]. cbn [payload_lines].
  rewrite (Z.rem_small line_width len) by (unfold line_width; lia). unfold line_width in *.
  rewrite print_line_ok by lia. cbn [obind]. change (Z.to_nat 16) with 16%nat. cbn [rows].
  assert (Hd : length (drop ch payload) = Z.to_nat len) by (rewrite length_drop; lia).
  rewrite decide_False by (intros E; rewrite E in Hd; simpl in Hd; lia). rewrite drop_drop. cbn [row_lines].
  destruct (Z.leb_spec (len - 16) 16).
  - rewrite print_line_ok by lia. cbn [obind]. do 2 f_equal.
    assert (E : take (Z.to_nat (len - 16)) (drop (ch + 16) payload) = drop (ch + 16) payload)
      by (apply take_ge; rewrite length_drop; lia).
    rewrite E. destruct fuel as [|[|fuel]]; [lia|lia|]. cbn [rows].
    assert (Hd2 : length (drop (ch + 16) payload) = Z.to_nat (len - 16)) by (rewrite length_drop; lia).
    rewrite decide_False by (intros E2; rewrite E2 in Hd2; simpl in Hd2; lia).
    rewrite (take_ge (drop (ch + 16) payload)) by lia. rewrite (drop_ge (drop (ch + 16) payload)) by lia.
    cbn [row_lines]. rewrite decide_True by done. cbn [row_lines]. by rewrite app_nil_r.
  - rewrite (IH (ch + 16)%nat (len - 16)) by lia. done.
Qed.

(** [print_payload] prints every byte of the payload, in rows of sixteen with their
    offsets, and reads nothing past its end. *)
Lemma print_payload_rows payload :
  print_payload payload (Z.of_nat (length payload)) = Ret (row_lines 0 (rows (length payload) payload)).
Proof.
  unfold print_payload, line_width. destruct (Z.leb_spec (Z.of_nat (length payload)) 0).
  { by destruct payload; [|simpl in *; lia]. }
  destruct (Z.leb_spec (Z.of_nat (length payload)) 16).
  - rewrite print_line_ok by lia. rewrite Nat2Z.id. change (drop 0 payload) with payload. rewrite take_ge by lia.
    destruct payload as [|b bs]; [simpl in *; lia|]. set (l := b :: bs) in *. destruct (length l) as [|n] eqn:E; [simpl in *; lia|].
    cbn [rows]. rewrite decide_False by done. rewrite take_ge by lia. rewrite drop_ge by lia. cbn [row_lines].
    assert (rows n (@nil Z) = []) as -> by (by destruct n). cbn [row_lines]. by rewrite app_nil_r.
  - rewrite (payload_lines_ok _ _ 0) by lia. by rewrite Nat2Z.id.
Qed.

(** The row of the comment of the source. *)
Example comment_row :
  print_payload (string_bytes "GET / HTTP/1.1" ++ [13; 10]) 16 =
  Ret ([9] ++ string_bytes "00000   47 45 54 20 2f 20 48 54  54 50 2f 31 2e 31 0d 0a    GET / HTTP/1.1.." ++ [10]).
Proof. vm_compute. reflexivity. Qed.
