(* ===== verification/Lexer.v ===== *)
(** The lexical analysis of the configuration ([config_syntax.l]): the rules of the
    scanner, and that the tokens it gives for any file, written out, are read back.

    flex takes the rule that matches the longest text, the first one among
    equals, and echoes a byte that no rule matches. *)
From Stdlib Require Import Ascii.
From S2P Require Import Prelude Mem CString Types World.

(** * Tokens *)

Module Tok.
Inductive token :=
  | OPEN | END | SEMICOLON | QUOTE
  | MODULE | FILTER | FRONTEND | BACKEND | BACKPICK | INTERNET | CONFIGURATION
  | TARGET | LINK | HW | VLAN | DEFAULT | SRC | ROUTE | VIA | NETMASK | INTERNAL
  | WITH | EXCLUSIVE | INTRALAN
  | NUMBER (n : Z) | WORD (s : string) | EQ | EXPR (s : string).
End Tok.
Notation token := Tok.token.
#[export] Instance token_eq_dec : EqDecision token.
Proof. solve_decision. Defined.

(** * Rules *)

(** A rule is the length of the longest text it matches, and its action on
    [yytext]. *)
Record lex_rule := LexRule { lr_match : list Z -> nat; lr_action : list Z -> outcome (option token) }.

Fixpoint span (p : Z -> bool) (text : list Z) : nat :=
  match text with b :: text => if p b then S (span p text) else O | [] => O end.
Definition literal (s : list Z) (text : list Z) : nat :=
  if decide (take (length s) text = s) then length s else O.
(** [s] and the rest of its line. *)
Definition to_line_end (s : list Z) (text : list Z) : nat :=
  let n := literal s text in if (n =? 0)%nat then O else Nat.add n (span (fun b => negb (b =? 10)) (drop n text)).

Definition letter (b : Z) : bool := ((97 <=? b) && (b <=? 122)) || ((65 <=? b) && (b <=? 90)).
Definition alphanumeric (b : Z) : bool := letter b || is_digit b.
Definition word_byte (b : Z) : bool := alphanumeric b || (b =? 95) || (b =? 45).
Definition expr_byte (b : Z) : bool := alphanumeric b || bool_decide (b ∈ string_bytes "()<>|&^!/._:-").
Definition blank (b : Z) : bool := (b =? 32) || (b =? 9).

(** [strdup(yytext)]. *)
Definition byte_string (s : list Z) : string := String.string_of_list_ascii (map (fun b => ascii_of_N (Z.to_N b)) s).

Definition keyword (s : string) (t : token) : lex_rule :=
  LexRule (literal (string_bytes s)) (fun _ => Ret (Some t)).
Definition ignored (m : list Z -> nat) : lex_rule := LexRule m (fun _ => Ret None).

Definition keywords : list (string * token) :=
  [("config", Tok.CONFIGURATION); ("target", Tok.TARGET); ("module", Tok.MODULE); ("frontend", Tok.FRONTEND);
   ("backend", Tok.BACKEND); ("internet", Tok.INTERNET); ("backpick", Tok.BACKPICK); ("link", Tok.LINK);
   ("filter", Tok.FILTER); ("hw", Tok.HW); ("vlan", Tok.VLAN); ("default", Tok.DEFAULT); ("route", Tok.ROUTE);
   ("via", Tok.VIA); ("netmask", Tok.NETMASK); ("internal", Tok.INTERNAL); ("with", Tok.WITH);
   ("exclusive", Tok.EXCLUSIVE); ("intralan", Tok.INTRALAN); ("src", Tok.SRC)]%string.
Definition quote_mark : string := String (ascii_of_nat 34) EmptyString.
Definition delimiters : list (string * token) :=
  [("{", Tok.OPEN); ("}", Tok.END); (";", Tok.SEMICOLON); (quote_mark, Tok.QUOTE); ("=", Tok.EQ)]%string.

Definition number_rule : lex_rule :=
  LexRule (span is_digit) (fun yytext => let! n := atoi (yytext ++ [0]) in Ret (Some (Tok.NUMBER n))).
Definition word_rule : lex_rule := LexRule (span word_byte) (fun yytext => Ret (Some (Tok.WORD (byte_string yytext)))).
Definition expr_rule : lex_rule := LexRule (span expr_byte) (fun yytext => Ret (Some (Tok.EXPR (byte_string yytext)))).

Definition fixed : list lex_rule := map (fun k => keyword k.1 k.2) (keywords ++ delimiters).
Definition ignored_rules : list lex_rule :=
  [ignored (to_line_end (string_bytes "//")); ignored (to_line_end (string_bytes "#"));
   ignored (literal [10]); ignored (span blank)].
Definition rules : list lex_rule := fixed ++ [number_rule; word_rule; expr_rule] ++ ignored_rules.

(** * The scanner *)

(** The rule that is taken, and the length it matches; zero when none does. *)
Fixpoint longest (l : list lex_rule) (text : list Z) : nat * (list Z -> outcome (option token)) :=
  match l with
  | [] => (O, fun _ => Ret None)
  | r :: l =>
    let n := lr_match r text in
    let '(n', a) := longest l text in
    if (n' <=? n)%nat then (n, lr_action r) else (n', a)
  end.

Fixpoint yylex (fuel : nat) (text : list Z) : outcome (list token) :=
  match text, fuel with
  | [], _ => Ret []
  | _, O => Fault Hangs
  | _ :: echoed, S fuel =>
    let '(n, action) := longest rules text in
    if (n =? 0)%nat then yylex fuel echoed
    else
      let! t := action (take n text) in
      let! ts := yylex fuel (drop n text) in
      Ret (option_list t ++ ts)
  end.
(** Each turn takes a byte at least. *)
Definition scan (text : list Z) : outcome (list token) := yylex (length text) text.


(** ** It ends on every file *)

Lemma span_le p text : (span p text <= length text)%nat.
Proof. induction text as [|b text IH]; simpl; [lia|]. destruct (p b); lia. Qed.
Lemma literal_le s text : (literal s text <= length text)%nat.
Proof. unfold literal. case_decide as E; [|lia]. rewrite <- E, length_take. lia. Qed.
Lemma to_line_end_le s text : (to_line_end s text <= length text)%nat.
Proof.
  unfold to_line_end. cbv zeta. destruct (_ =? 0)%nat; [lia|]. pose proof (literal_le s text).
  pose proof (span_le (fun b => negb (b =? 10)) (drop (literal s text) text)). rewrite length_drop in *. lia.
Qed.

(** The action of a rule does not fault on what the rule matches. *)
Definition rule_safe (r : lex_rule) : Prop :=
  forall text, (lr_match r text <= length text)%nat /\
    ((0 < lr_match r text)%nat -> exists t, lr_action r (take (lr_match r text) text) = Ret t).

Lemma span_all p text : Forall (fun b => p b = true) (take (span p text) text).
Proof. induction text as [|b text IH]; simpl; [constructor|]. destruct (p b) eqn:E; simpl; by constructor. Qed.

Lemma read_digits_all l k : Forall (fun b => is_digit b = true) l -> exists n, read_digits (l ++ [0]) k = Ret n.
Proof. intros H. revert k. induction H as [|b l Hb _ IH]; intros k; cbn; [by eexists|]. rewrite Hb. apply IH. Qed.
Lemma atoi_digits l : Forall (fun b => is_digit b = true) l -> exists n, atoi (l ++ [0]) = Ret n.
Proof.
  destruct 1 as [|b l Hb Hl]; [by exists 0|]. unfold atoi. cbn [app]. rewrite skip_digit by done.
  assert (b <> 45 /\ b <> 43) as [H1 H2] by (unfold is_digit in Hb; zbool; lia).
  rewrite (proj2 (Z.eqb_neq b 45)), (proj2 (Z.eqb_neq b 43)) by done.
  destruct (read_digits_all (b :: l) 0) as [n Hn]; [by constructor|]. cbn [app] in Hn. rewrite Hn. by eexists.
Qed.

Lemma rules_safe : Forall rule_safe rules.
Proof.
  assert (Hkey : forall l, Forall rule_safe (map (fun k : string * token => keyword k.1 k.2) l)).
  { intros l. apply Forall_map, Forall_true. intros [s t] text. split; [apply literal_le|]. by eexists. }
  unfold rules. apply Forall_app. split; [apply Hkey|]. repeat constructor.
  all: try first [apply span_le | apply to_line_end_le | apply literal_le].
  all: try (intros _; by eexists).
  intros _. cbn [lr_action lr_match number_rule]. destruct (atoi_digits _ (span_all is_digit text)) as [n ->]. by eexists.
Qed.

Lemma longest_safe l text n a : Forall rule_safe l -> longest l text = (n, a) ->
  (n <= length text)%nat /\ ((0 < n)%nat -> exists t, a (take n text) = Ret t).
Proof.
  intros Hl. revert n a. induction Hl as [|r l Hr _ IH]; intros n a; cbn [longest]; [intros [= <- <-]; split; [lia|by eexists]|].
  destruct (longest l text) as [n' a']. destruct (_ <=? _)%nat; intros [= <- <-]; [apply Hr|by apply IH].
Qed.

(** The scanner reads every file to its end. *)
Lemma scan_total text : exists ts, scan text = Ret ts.
Proof.
  unfold scan. assert (H : forall fuel text, (length text <= fuel)%nat -> exists ts, yylex fuel text = Ret ts); [|by apply H].
  intros fuel. induction fuel as [|fuel IH]; intros [|b l] Hf; cbn [yylex]; try by eexists.
  - simpl in Hf. lia.
  - destruct (longest rules (b :: l)) as [n a] eqn:E. destruct (longest_safe _ _ _ _ rules_safe E) as [Hn Ha].
    destruct (Nat.eqb_spec n 0) as [|Hne]; [apply IH; simpl in Hf; lia|]. destruct Ha as [t ->]; [lia|]. cbn [obind].
    destruct (IH (drop n (b :: l))) as [ts ->]; [rewrite length_drop; simpl in *; lia|]. by eexists.
Qed.

(** * Writing tokens *)

(** A token as it may be written; a negative number by the digits that [atoi] turns
    into it. *)
Definition token_text (t : token) : list Z :=
  match t with
  | Tok.NUMBER n => print_u (u32 n)
  | Tok.WORD s | Tok.EXPR s => string_bytes s
  | t => match list_find (fun k => k.2 = t) (keywords ++ delimiters) with
         | Some (_, (s, _)) => string_bytes s
         | None => []
         end
  end.
(** The tokens of a file, each on its line. *)
Definition render (ts : list token) : list Z := concat (map (fun t => token_text t ++ [10]) ts).

(** The words, expressions and numbers that the scanner can give. *)
Definition word_text (s : list Z) : Prop :=
  Forall (fun b => word_byte b = true) s /\ Exists (fun b => is_digit b = false) s /\
  Forall (fun k => s <> string_bytes k.1) keywords.
Definition expr_text (s : list Z) : Prop :=
  Forall (fun b => expr_byte b = true) s /\ Exists (fun b => word_byte b = false) s.
Definition writable (t : token) : Prop :=
  match t with
  | Tok.NUMBER n => - 2 ^ 31 <= n < 2 ^ 31
  | Tok.WORD s => word_text (string_bytes s)
  | Tok.EXPR s => expr_text (string_bytes s)
  | _ => True
  end.

Lemma byte_string_bytes s : byte_string (string_bytes s) = s.
Proof.
  unfold byte_string. induction s as [|c s IH]; [done|]. cbn [string_bytes map String.string_of_list_ascii]. f_equal; [|done].
  by rewrite N2Z.id, ascii_N_embedding.
Qed.

(** ** What the rules match of a token and the end of line after it *)

Lemma span_stops p (s rest : list Z) : Forall (fun b => p b = true) s -> p 10 = false -> span p (s ++ 10 :: rest) = length s.
Proof. intros Hs H10. induction Hs as [|b s Hb _ IH]; cbn [app span length]; [by rewrite H10|by rewrite Hb, IH]. Qed.
Lemma span_short p s rest : Exists (fun b => p b = false) s -> (span p (s ++ rest) < length s)%nat.
Proof. induction 1 as [b s Hb|b s _ IH]; cbn [app span length]; [rewrite Hb; lia|destruct (p b); lia]. Qed.

Lemma literal_short (k s rest : list Z) : 10 ∉ k -> s <> [] -> s <> k -> lt (literal k (s ++ 10 :: rest)) (length s).
Proof.
  intros Hk Hs Hne. unfold literal. case_decide as E; [|destruct s; [done|simpl; lia]].
  destruct (decide (length k < length s)%nat) as [|Hl]; [done|]. exfalso. rewrite take_app in E.
  rewrite (take_ge s) in E by lia. destruct (length k - length s)%nat as [|n] eqn:En.
  - simpl in E. rewrite app_nil_r in E. done.
  - rewrite <- E in Hk. apply Hk. simpl. set_solver.
Qed.

Lemma longest_at l1 m a l2 text : Forall (fun r => (lr_match r text < m text)%nat) l1 ->
  Forall (fun r => (lr_match r text <= m text)%nat) l2 ->
  longest (l1 ++ LexRule m a :: l2) text = (m text, a).
Proof.
  intros H1 H2. assert (Hb : forall l n, Forall (fun r => (lr_match r text <= n)%nat) l -> ((longest l text).1 <= n)%nat).
  { intros l n. induction 1 as [|r l Hr _ IH]; cbn [longest]; [simpl; lia|]. revert IH. destruct (longest l text) as [n' a'].
    destruct (_ <=? _)%nat; simpl; lia. }
  induction H1 as [|r l1 Hr _ IH]; cbn [app longest].
  - generalize (Hb l2 _ H2). destruct (longest l2 text) as [n' a']. cbn. intros Hle. by rewrite (proj2 (Nat.leb_le _ _)) by done.
  - rewrite IH. by rewrite (proj2 (Nat.leb_gt _ _)) by done.
Qed.

(** A token that a rule takes whole is read, and what follows after the blank. *)
Lemma yylex_token fuel s rest a t : s <> [] -> longest rules (s ++ 10 :: rest) = (length s, a) -> a s = Ret (Some t) ->
  (length s + S (length rest) <= fuel)%nat ->
  exists fuel', (length rest < fuel')%nat /\
    yylex fuel (s ++ 10 :: rest) = (let! ts := yylex fuel' (10 :: rest) in Ret (t :: ts)).
Proof.
  intros Hs Hl Ha Hf. destruct s as [|b s]; [done|]. destruct fuel as [|fuel]; [simpl in Hf; lia|]. exists fuel.
  split; [simpl in Hf; lia|]. change ((b :: s) ++ 10 :: rest) with (b :: (s ++ 10 :: rest)) in *. cbn [yylex]. rewrite Hl.
  cbn [Nat.eqb length]. change (b :: s ++ 10 :: rest) with ((b :: s) ++ 10 :: rest).
  change (S (length s)) with (length (b :: s)). by rewrite take_app_length, drop_app_length, Ha.
Qed.

Lemma literal_other k c text : k <> [] -> head k <> Some c -> literal k (c :: text) = O.
Proof.
  intros Hk Hc. unfold literal. case_decide as E; [|done]. destruct k as [|b k]; [done|]. by injection E as ->.
Qed.

(** The end of line after a token is skipped, and nothing more. *)
Lemma longest_newline rest : longest rules (10 :: rest) = (1%nat, fun _ => Ret None).
Proof.
  assert (E : literal [10] (10 :: rest) = 1%nat) by (unfold literal; cbn [length take]; by rewrite take_0).
  rewrite <- E. apply (longest_at (fixed ++ [number_rule; word_rule; expr_rule] ++ take 2 ignored_rules) (literal [10]) _ [ignored (span blank)]);
    rewrite E; [|repeat constructor].
  assert (Hk : Forall (fun k : string * token => string_bytes k.1 <> [] /\ head (string_bytes k.1) <> Some 10) (keywords ++ delimiters))
    by (apply (bool_decide_unpack _); vm_compute; exact I).
  apply Forall_app. split; [|repeat (apply Forall_cons; split); try apply Forall_nil_2; change (0 < 1)%nat; lia].
  apply Forall_map. eapply Forall_impl; [exact Hk|]. intros k [H1 H2]. cbn [keyword lr_match]. rewrite literal_other by done. lia.
Qed.
Lemma yylex_newline fuel rest : (length rest < fuel)%nat ->
  exists fuel', (length rest <= fuel')%nat /\ yylex fuel (10 :: rest) = yylex fuel' rest.
Proof.
  intros Hf. destruct fuel as [|fuel]; [lia|]. exists fuel. split; [lia|]. cbn [yylex]. rewrite longest_newline.
  cbn [Nat.eqb take drop obind option_list app]. change (drop 0 rest) with rest. by destruct (yylex fuel rest).
Qed.

Lemma fixed_short s rest : s <> [] -> Forall (fun k => s <> string_bytes k.1) (keywords ++ delimiters) ->
  Forall (fun r => lt (lr_match r (s ++ 10 :: rest)) (length s)) fixed.
Proof.
  intros Hs Hne. assert (H10 : Forall (fun k : string * token => 10 ∉ string_bytes k.1) (keywords ++ delimiters))
    by (apply (bool_decide_unpack _); vm_compute; exact I).
  unfold fixed. apply Forall_map. apply (Forall_impl _ _ _ (proj2 (Forall_and _ _) (conj H10 Hne))).
  intros k [H1 H2]. by apply literal_short.
Qed.

(** A comment stops at the end of the line. *)
Lemma to_line_end_short k s rest : 10 ∉ k -> s <> [] -> le (to_line_end k (s ++ 10 :: rest)) (length s).
Proof.
  intros Hk Hs. unfold to_line_end, literal. cbv zeta. case_decide as E; [|simpl; lia]. destruct (_ =? 0)%nat; [lia|].
  assert (Hl : (length k <= length s)%nat).
  { destruct (decide (length k <= length s)%nat) as [|Hl]; [done|]. exfalso. rewrite take_app, (take_ge s) in E by lia.
    rewrite <- E in Hk. apply Hk. destruct (length k - length s)%nat as [|n] eqn:En; [lia|]. simpl. set_solver. }
  rewrite drop_app_le by done. assert (H : forall l, le (span (fun b => negb (b =? 10)) (l ++ 10 :: rest)) (length l)).
  { induction l as [|b l IH]; cbn [app span length]; [by simpl|]. destruct (negb _); lia. }
  specialize (H (drop (length k) s)). rewrite length_drop in H. lia.
Qed.

Lemma ignored_short s rest : s <> [] -> Forall (fun b => expr_byte b = true) s ->
  Forall (fun r => le (lr_match r (s ++ 10 :: rest)) (length s)) ignored_rules.
Proof.
  intros Hs He. unfold ignored_rules. repeat (apply Forall_cons; split); [| | | |apply Forall_nil_2]; cbn [lr_match ignored].
  - apply to_line_end_short; [|done]. apply (bool_decide_unpack _). vm_compute. exact I.
  - apply to_line_end_short; [|done]. apply (bool_decide_unpack _). vm_compute. exact I.
  - destruct s as [|b s]; [done|]. inversion He as [|? ? Hb _]; subst. cbn [app]. rewrite literal_other; [simpl; lia|done|].
    intros [= <-]. discriminate Hb.
  - rewrite (Nat.le_antisymm (span blank (s ++ 10 :: rest)) 0); [lia| |lia]. destruct s as [|b s]; [done|].
    inversion He as [|? ? Hb _]; subst. cbn [app span]. assert (blank b = false) as ->; [|done]. unfold blank. apply orb_false_iff.
    split; apply Z.eqb_neq; intros ->; discriminate Hb.
Qed.

Lemma word_expr b : word_byte b = true -> expr_byte b = true.
Proof.
  unfold word_byte, expr_byte. intros H. apply orb_true_iff in H as [H|H]; [apply orb_true_iff in H as [->|H]; [done|]|];
    apply Z.eqb_eq in H as ->; reflexivity.
Qed.
Lemma digit_word b : is_digit b = true -> word_byte b = true.
Proof. unfold word_byte, alphanumeric. intros ->. by rewrite orb_true_r. Qed.

(** The names of the rules, by the bytes they are made of. *)
Lemma keywords_words : Forall (fun k : string * token => Forall (fun b => word_byte b = true) (string_bytes k.1) /\
  Exists (fun b => is_digit b = false) (string_bytes k.1)) keywords.
Proof. apply (bool_decide_unpack _). vm_compute. exact I. Qed.
Lemma delimiters_bytes : Forall (fun k : string * token => Exists (fun b => expr_byte b = false) (string_bytes k.1)) delimiters.
Proof. apply (bool_decide_unpack _). vm_compute. exact I. Qed.

Lemma byte_apart (p : Z -> bool) s k : Forall (fun b => p b = true) s -> Exists (fun b => p b = false) k -> s <> k.
Proof. intros Hs Hk ->. rewrite Forall_forall in Hs. apply Exists_exists in Hk as (b & Hb & E). rewrite (Hs b) in E; done. Qed.
Lemma not_delimiter s : Forall (fun b => expr_byte b = true) s -> Forall (fun k => s <> string_bytes k.1) delimiters.
Proof. intros Hs. eapply Forall_impl; [exact delimiters_bytes|]. intros k Hk. by eapply byte_apart. Qed.

Lemma print_u_digits n : 0 <= n -> Forall (fun b => is_digit b = true) (print_u n).
Proof.
  intros Hn. unfold print_u. assert (H : forall fuel k acc, 0 <= k -> Forall (fun b => is_digit b = true) acc ->
    Forall (fun b => is_digit b = true) (digits fuel k acc)); [|by apply H].
  induction fuel as [|fuel IH]; intros k acc Hk Hacc; cbn [digits]; [done|].
  pose proof (Z.mod_pos_bound k 10 ltac:(lia)). assert (Forall (fun b => is_digit b = true) (48 + k mod 10 :: acc))
    by (constructor; [by apply is_digit_48|done]).
  destruct (_ <? _); [done|]. apply IH; [apply Z.div_pos; lia|done].
Qed.

(** A rule of the middle takes a text when the fixed rules and the rules before it
    do not, and the ones after it match no more. *)
Lemma longest_middle s rest before m a after : rules = (fixed ++ before) ++ LexRule m a :: (after ++ ignored_rules) ->
  s <> [] -> Forall (fun b => expr_byte b = true) s -> Forall (fun k => s <> string_bytes k.1) keywords ->
  Forall (fun r => lt (lr_match r (s ++ 10 :: rest)) (length s)) before ->
  Forall (fun r => le (lr_match r (s ++ 10 :: rest)) (length s)) after ->
  m (s ++ 10 :: rest) = length s -> longest rules (s ++ 10 :: rest) = (length s, a).
Proof.
  intros -> Hs He Hk Hb Ha Hm. rewrite <- Hm. apply longest_at; rewrite Hm; apply Forall_app; split.
  - apply fixed_short; [done|]. apply Forall_app. split; [done|by apply not_delimiter].
  - done.
  - done.
  - by apply ignored_short.
Qed.

Lemma exists_nonempty {A} (P : A -> Prop) l : Exists P l -> l <> [].
Proof. by destruct 1. Qed.
Lemma Forall_words p s : (forall b, p b = true -> word_byte b = true) -> Forall (fun b => p b = true) s ->
  Forall (fun b => word_byte b = true) s /\ Forall (fun b => expr_byte b = true) s.
Proof.
  intros Hp Hs. assert (Hw : Forall (fun b => word_byte b = true) s) by (by eapply Forall_impl).
  split; [done|]. eapply Forall_impl; [exact Hw|]. apply word_expr.
Qed.

(** [atoi] turns the digits of a negative number's residue into it. *)
Lemma s32_range z : - 2 ^ 31 <= s32 z < 2 ^ 31.
Proof. unfold s32, u32. pose proof (Z.mod_pos_bound z (2 ^ 32) ltac:(lia)). split_if; zbool; lia. Qed.
Lemma atoi_print_u32 n : - 2 ^ 31 <= n < 2 ^ 31 -> atoi (print_u (u32 n) ++ [0]) = Ret n.
Proof.
  intros Hn. assert (Hu : 0 <= u32 n < 2 ^ 32) by (apply Z.mod_pos_bound; lia). assert (H10 : 2 ^ 32 < 10 ^ 20) by done.
  destruct (print_u_head (u32 n) ltac:(lia)) as (b & l & Eb & Hb).
  pose proof (read_print_u (u32 n) [0] ltac:(lia) ltac:(by intros c [= <-]) ltac:(discriminate)) as Hr.
  unfold atoi. rewrite Eb in *. cbn [app] in *. rewrite skip_digit by done. unfold is_digit in Hb. zbool.
  rewrite (proj2 (Z.eqb_neq b 45)), (proj2 (Z.eqb_neq b 43)), Hr by lia. cbn [obind]. f_equal.
  unfold clamp_long. rewrite Z.max_r, Z.min_r by lia. unfold s32, u32 in *. rewrite Z.mod_mod by done.
  destruct (decide (0 <= n)); [rewrite Z.mod_small by lia; split_if; zbool; lia|].
  rewrite <- (Z.mod_add n 1) by done. rewrite Z.mod_small by lia. split_if; zbool; lia.
Qed.
Lemma atoi_int32 l n : atoi l = Ret n -> - 2 ^ 31 <= n < 2 ^ 31.
Proof.
  unfold atoi. destruct (skip_spaces l) as [|b l']; [done|]. intros H.
  repeat split_if; orun H as m Hm; injection H as <-; apply s32_range.
Qed.

(** Every token that can be written is taken whole by a rule that gives it back. *)
Lemma token_read t rest : writable t ->
  token_text t <> [] /\ exists a, longest rules (token_text t ++ 10 :: rest) = (length (token_text t), a) /\
    a (token_text t) = Ret (Some t).
Proof.
  intros Ht. destruct t as [| | | | | | | | | | | | | | | | | | | | | | | |n|s| |s];
    try (split; [discriminate|]; eexists; split; reflexivity).
  - cbn [token_text writable] in *. assert (Hu : 0 <= u32 n) by (apply Z.mod_pos_bound; lia). pose proof (print_u_digits (u32 n) Hu) as Hd.
    destruct (print_u_head (u32 n) Hu) as (b & l & E & _). assert (Hs : print_u (u32 n) <> []) by by rewrite E.
    destruct (Forall_words _ _ digit_word Hd) as [Hw He]. split; [done|]. eexists. split.
    + apply (longest_middle _ rest [] (span is_digit) _ [word_rule; expr_rule]); try done.
      * eapply Forall_impl; [exact keywords_words|]. intros k [_ Hk]. exact (byte_apart is_digit _ _ Hd Hk).
      * repeat constructor; cbn [lr_match word_rule expr_rule]; by rewrite span_stops.
      * by apply span_stops.
    + cbv beta. by rewrite atoi_print_u32.
  - cbn [token_text writable] in *. destruct Ht as (Hw & Hd & Hk). pose proof (exists_nonempty _ _ Hd) as Hs.
    destruct (Forall_words _ _ (fun b H => H) Hw) as [_ He]. split; [done|]. eexists. split.
    + apply (longest_middle _ rest [number_rule] (span word_byte) _ [expr_rule]); try done.
      * repeat constructor. cbn [lr_match number_rule]. by apply span_short.
      * repeat constructor. cbn [lr_match expr_rule]. by rewrite span_stops.
      * by apply span_stops.
    + cbv beta. do 3 f_equal. apply byte_string_bytes.
  - cbn [token_text writable] in *. destruct Ht as (He & Hw). pose proof (exists_nonempty _ _ Hw) as Hs.
    split; [done|]. eexists. split.
    + apply (longest_middle _ rest [number_rule; word_rule] (span expr_byte) _ []); try done.
      * eapply Forall_impl; [exact keywords_words|]. intros k [Hk _] E. by apply (byte_apart word_byte _ _ Hk Hw).
      * apply Forall_cons; split; [|apply Forall_singleton; by apply span_short]. apply span_short.
        eapply Exists_impl; [exact Hw|]. intros b Hb. destruct (is_digit b) eqn:E; [|done]. apply digit_word in E. simpl in Hb. congruence.
      * by apply span_stops.
    + cbv beta. do 3 f_equal. apply byte_string_bytes.
Qed.

Lemma render_cons t ts : render (t :: ts) = token_text t ++ 10 :: render ts.
Proof. unfold render. cbn [map concat]. by rewrite <- app_assoc. Qed.

Lemma render_read ts : Forall writable ts -> scan (render ts) = Ret ts.
Proof.
  assert (H : forall ts fuel, Forall writable ts -> (length (render ts) <= fuel)%nat -> yylex fuel (render ts) = Ret ts).
  2:{ intros Hts. by apply H. }
  clear ts. intros ts. induction ts as [|t ts IH]; intros fuel Hts Hf; [by destruct fuel|].
  inversion Hts as [|? ? Ht Hts']; subst. destruct (token_read t (render ts) Ht) as (Hs0 & a & Hl & Ha).
  rewrite render_cons in *. rewrite length_app in Hf. cbn [length] in Hf.
  destruct (yylex_token fuel _ _ _ _ Hs0 Hl Ha Hf) as (fuel1 & Hf1 & ->).
  destruct (yylex_newline fuel1 (render ts) Hf1) as (fuel2 & Hf2 & ->). by rewrite IH.
Qed.

(** ** What the scanner can give *)

(** The rule that is taken is one of the list, and no rule before it matches as
    much. *)
Lemma longest_inv l text n a : longest l text = (n, a) -> (0 < n)%nat ->
  exists l1 r l2, l = l1 ++ r :: l2 /\ lr_match r text = n /\ lr_action r = a /\
    Forall (fun q => (lr_match q text < n)%nat) l1.
Proof.
  revert n a. induction l as [|r l IH]; intros n a H Hn; cbn [longest] in H; [injection H as <- _; lia|].
  destruct (longest l text) as [n' a'] eqn:E. destruct (Nat.leb_spec n' (lr_match r text)).
  - injection H as <- <-. by exists [], r, l.
  - injection H as <- <-. destruct (IH n' a' eq_refl ltac:(lia)) as (l1 & r' & l2 & -> & H1 & H2 & H3).
    exists (r :: l1), r', l2. repeat split; auto.
Qed.

(** A keyword is not a shorter match than its own text. *)
Lemma literal_whole k text n : (literal k text < n)%nat -> (n <= length text)%nat -> take n text <> k.
Proof.
  intros Hl Hn E. unfold literal in Hl. assert (Hk : length k = n) by (rewrite <- E, length_take; lia).
  rewrite Hk in Hl. rewrite decide_True in Hl by done. lia.
Qed.
(** A prefix that a byte class does not take whole has another byte. *)
Lemma span_other p text n : (span p text < n)%nat -> (n <= length text)%nat -> Exists (fun b => p b = false) (take n text).
Proof.
  revert n. induction text as [|b text IH]; intros n Hs Hn; simpl in Hn; [lia|]. destruct n as [|n]; [lia|]. cbn [take span] in *.
  destruct (p b) eqn:E; [right; apply IH; lia|by left].
Qed.

Lemma string_bytes_word p s : (forall b, p b = true -> 0 <= b < 256) -> Forall (fun b => p b = true) s ->
  string_bytes (byte_string s) = s.
Proof.
  intros Hp. unfold byte_string. induction 1 as [|b s Hb _ IH]; [done|]. cbn [map String.string_of_list_ascii string_bytes].
  rewrite IH. f_equal. specialize (Hp b Hb). rewrite N_ascii_embedding by lia. lia.
Qed.
Lemma expr_byte_range b : expr_byte b = true -> 0 <= b < 256.
Proof.
  unfold expr_byte, alphanumeric, letter, is_digit. intros H. destruct (decide (0 <= b < 256)) as [|Hb]; [done|]. exfalso.
  assert (Hn : bool_decide (b ∈ string_bytes "()<>|&^!/._:-") = false).
  { apply bool_decide_eq_false. intros Hin. apply Hb. revert b Hin H Hb.
    assert (Ha : Forall (fun b => 0 <= b < 256) (string_bytes "()<>|&^!/._:-")) by (apply (bool_decide_unpack _); vm_compute; exact I).
    intros b Hin _ _. by apply (proj1 (Forall_forall _ _) Ha). }
  rewrite Hn, orb_false_r in H. repeat (apply orb_true_iff in H as [H|H]); zbool; lia.
Qed.

(** The places of a rule among the others. *)
Lemma rule_place l1 r l2 (P : lex_rule -> Prop) : rules = l1 ++ r :: l2 -> Forall P l1 ->
  (exists k, k ∈ keywords ++ delimiters /\ r = keyword k.1 k.2) \/ r = number_rule \/
  (r = word_rule /\ Forall P (fixed ++ [number_rule])) \/
  (r = expr_rule /\ Forall P (fixed ++ [number_rule; word_rule])) \/ r ∈ ignored_rules.
Proof.
  intros E Hbefore.
  assert (Hpos : forall before q after, rules = before ++ q :: after -> length before = length l1 -> r = q /\ l1 = before).
  { intros before q after E2 Hl. rewrite E in E2. apply app_inj_1 in E2 as [-> [= <- _]]; [done|by symmetry]. }
  assert (Hlen : (length l1 < length rules)%nat) by (rewrite E, length_app; simpl; lia).
  destruct (decide (length l1 < length fixed)%nat) as [Hl|Hl].
  - left. assert (Hr : fixed !! length l1 = Some r).
    { rewrite <- (lookup_app_l fixed ([number_rule; word_rule; expr_rule] ++ ignored_rules)) by done.
      change (fixed ++ [number_rule; word_rule; expr_rule] ++ ignored_rules) with rules.
      rewrite E, lookup_app_r, Nat.sub_diag by done. done. }
    unfold fixed in Hr. apply list_lookup_fmap_Some in Hr as (k & -> & Hk). exists k. split; [by apply list_elem_of_lookup_2 in Hk|done].
  - right. change (length rules) with (length fixed + 7)%nat in Hlen.
    destruct (decide (length l1 = length fixed)) as [E0|].
    { left. by apply (Hpos fixed number_rule ([word_rule; expr_rule] ++ ignored_rules) eq_refl). }
    destruct (decide (length l1 = length fixed + 1)%nat) as [E0|].
    { right. left. destruct (Hpos (fixed ++ [number_rule]) word_rule ([expr_rule] ++ ignored_rules) eq_refl) as [-> ->]; [done|]. done. }
    destruct (decide (length l1 = length fixed + 2)%nat) as [E0|].
    { right. right. left. destruct (Hpos (fixed ++ [number_rule; word_rule]) expr_rule ignored_rules eq_refl) as [-> ->]; [done|]. done. }
    right. right. right. apply (list_elem_of_lookup_2 _ (length l1 - (length fixed + 3))).
    assert (Hr : rules !! length l1 = Some r) by (rewrite E, lookup_app_r, Nat.sub_diag by done; done).
    change rules with (fixed ++ [number_rule; word_rule; expr_rule] ++ ignored_rules) in Hr.
    rewrite lookup_app_r in Hr by lia. rewrite lookup_app_r in Hr by (change (length [number_rule; word_rule; expr_rule]) with 3%nat; lia).
    rewrite <- Hr. f_equal. change (length [number_rule; word_rule; expr_rule]) with 3%nat. lia.
Qed.

(** What a rule of the scanner gives for the longest text. *)
Lemma longest_writable text n a t : longest rules text = (n, a) -> (0 < n)%nat -> a (take n text) = Ret (Some t) -> writable t.
Proof.
  intros H Hn Ha. destruct (longest_safe _ _ _ _ rules_safe H) as [Hle _].
  destruct (longest_inv _ _ _ _ H Hn) as (l1 & r & l2 & E & Hm & <- & Hbefore).
  destruct (rule_place _ _ _ _ E Hbefore) as [(k & Hk & ->)|[->|[[-> Hb]|[[-> Hb]|Hr]]]]; clear H E.
  - injection Ha as <-. assert (Hw : Forall (fun k : string * token => match k.2 with Tok.NUMBER _ | Tok.WORD _ | Tok.EXPR _ => False | _ => True end)
      (keywords ++ delimiters)) by (repeat constructor). apply (proj1 (Forall_forall _ _) Hw) in Hk. by destruct k.2.
  - cbn [lr_action number_rule] in Ha. orun Ha as m Hm2. injection Ha as <-. by eapply atoi_int32.
  - injection Ha as <-. cbn [writable]. cbn [lr_match word_rule] in Hm. pose proof (span_all word_byte text) as Hall. rewrite Hm in Hall.
    rewrite (string_bytes_word word_byte) by first [done|intros b Hw%word_expr; by apply expr_byte_range].
    apply Forall_app in Hb as [Hfix Hnum]. apply Forall_cons_1 in Hnum as [Hnum _]. split; [done|]. split; [exact (span_other is_digit _ _ Hnum Hle)|].
    unfold fixed in Hfix. apply Forall_map, Forall_app in Hfix as [Hfix _]. eapply Forall_impl; [exact Hfix|]. intros k Hk. exact (literal_whole _ _ _ Hk Hle).
  - injection Ha as <-. cbn [writable]. cbn [lr_match expr_rule] in Hm. pose proof (span_all expr_byte text) as Hall. rewrite Hm in Hall.
    rewrite (string_bytes_word expr_byte) by first [done|apply expr_byte_range].
    apply Forall_app in Hb as [_ Hb]. apply Forall_cons_1 in Hb as [_ Hb]. apply Forall_cons_1 in Hb as [Hb _]. split; [done|exact (span_other word_byte _ _ Hb Hle)].
  - exfalso. unfold ignored_rules in Hr. rewrite !elem_of_cons, elem_of_nil in Hr. by destruct Hr as [-> |[-> |[-> |[-> |[]]]]].
Qed.

Lemma scan_writable text ts : scan text = Ret ts -> Forall writable ts.
Proof.
  unfold scan. generalize (length text) as fuel. intros fuel. revert text ts. induction fuel as [|fuel IH]; intros [|b l] ts H;
    cbn [yylex] in H; try (injection H as <-; constructor; fail); [discriminate|].
  destruct (longest rules (b :: l)) as [n a] eqn:E. destruct (Nat.eqb_spec n 0); [by eapply IH|].
  orun H as t Ht. orun H as ts' Hts. injection H as <-. apply Forall_app. split; [|by eapply IH].
  destruct t as [t|]; [|constructor]. apply Forall_singleton. eapply longest_writable; [exact E|lia|exact Ht].
Qed.

(** C16: the scanner reads back what it read.  Every file is scanned into tokens
    whose numbers are [int]s, whose words are neither keywords nor numbers and
    whose expressions are no words, and these tokens, written out one on each
    line, are scanned into themselves; so is every other list of such tokens. *)
Theorem scan_render text :
  exists ts, scan text = Ret ts /\ Forall writable ts /\
    forall ts', Forall writable ts' -> scan (render ts') = Ret ts'.
Proof.
  destruct (scan_total text) as [ts Hts]. exists ts. split; [done|]. split; [by eapply scan_writable|]. apply render_read.
Qed.

(** ** Witness *)

(** A link with a filter, an overflowing number and a comment of one word. *)
Definition sample_text : list Z :=
  string_bytes "link wan0{filter=(tcp port 80 10.0.0.0/8);} vlan 4294967295 //todo" ++ [10] ++ string_bytes "# the end".
Definition sample_tokens : list token :=
  [Tok.LINK; Tok.WORD "wan0"; Tok.OPEN; Tok.FILTER; Tok.EQ; Tok.EXPR "(tcp";
   Tok.WORD "port"; Tok.NUMBER 80; Tok.EXPR "10.0.0.0/8)"; Tok.SEMICOLON; Tok.END; Tok.VLAN; Tok.NUMBER (-1); Tok.EXPR "//todo"].
Lemma scan_render_witness : scan sample_text = Ret sample_tokens /\ scan (render sample_tokens) = Ret sample_tokens.
Proof.
  destruct (scan_render sample_text) as (ts & Hts & Hw & Hr).
  assert (E : scan sample_text = Ret sample_tokens) by (vm_compute; reflexivity).
  split; [exact E|]. apply Hr. rewrite E in Hts. injection Hts as Hts. rewrite Hts. exact Hw.
Defined.

(** ** What one may not expect *)

(** A text whose quotes are written with apostrophes. *)
Definition quoted_text (s : string) : list Z := map (fun b => if b =? 39 then 34 else b) (string_bytes s).

(** A comment of one word is as long an expression, and the rule of expressions
    comes first. *)
Example slashes_and_word : scan (string_bytes "//todo" ++ [10]) = Ret [Tok.EXPR "//todo"].
Proof. vm_compute. reflexivity. Qed.
(** Brackets match no rule: they are echoed and dropped. *)
Example brackets_dropped : scan (string_bytes "tcp[13]") = Ret [Tok.WORD "tcp"; Tok.NUMBER 13].
Proof. vm_compute. reflexivity. Qed.
(** [intranet], the name in [honeybrid.conf], is no keyword. *)
Example intranet_word : scan (string_bytes "intranet") = Ret [Tok.WORD "intranet"].
Proof. vm_compute. reflexivity. Qed.
