(* ===== verification/CommandLine.v ===== *)
(** The command line and the process ([honeybrid.c]: the options of [main],
    [usage], [init_syslog], [init_signal], [term_signal_handler];
    [daemon.c]): what the program is asked to do, how it goes to the background,
    and how a running engine is told to stop. *)
From S2P Require Import Prelude Mem CString Types World.

(** * Options *)

(** The C library's [getopt], as glibc does it: the options of the string given to
    it, an option followed by a colon takes an argument - the rest of its word
    or the next one -, words that are no options are passed over, a double dash
    ends the options, and an unknown option or a missing argument is a question
    mark. *)
Definition option_char := Z.
Definition question : option_char := 63.

(** Whether an option is known, and whether it takes an argument. *)
Fixpoint option_spec (opts : list Z) (c : option_char) : option bool :=
  match opts with
  | [] => None
  | o :: opts' =>
    if (o =? c) && negb (c =? 58) then Some (bool_decide (head opts' = Some 58)) else option_spec opts' c
  end.

(** The options of a word; the last one may wait for its argument. *)
Fixpoint getopt_word (opts : list Z) (word : list Z) : list (option_char * option (list Z)) * option option_char :=
  match word with
  | [] => ([], None)
  | c :: word =>
    match option_spec opts c with
    | None => let '(l, p) := getopt_word opts word in ((question, None) :: l, p)
    | Some false => let '(l, p) := getopt_word opts word in ((c, None) :: l, p)
    | Some true => if decide (word = []) then ([], Some c) else ([(c, Some word)], None)
    end
  end.

Definition dash : Z := 45.
Fixpoint getopt (opts : list Z) (pending : option option_char) (args : list (list Z)) :
    list (option_char * option (list Z)) :=
  match pending, args with
  | Some _, [] => [(question, None)]
  | Some c, a :: args => (c, Some a) :: getopt opts None args
  | None, [] => []
  | None, a :: args =>
    if decide (a = [dash; dash]) then []
    else match a with
         | d :: c :: word =>
           if d =? dash then
             let '(l, p) := getopt_word opts (c :: word) in l ++ getopt opts p args
           else getopt opts None args
         | _ => getopt opts None args
         end
  end.

Definition options : list Z := string_bytes "sc:x:V:q:h:d?".

(** ** What [main] makes of them *)

Record settings_t := Settings { config_file_name : list Z; daemonize : bool }.

(** How [main] goes on: it starts the engine, or it ends - with the usage, with
    the version, with nothing implemented, because there is no such process, or
    after it sent [SIGQUIT] to it. *)
Inductive command :=
  | Start (s : settings_t)
  | Usage | Version | NoStatus
  | NoProcess (pid : Z)
  | Halt (pid : Z).

(** [kill(pid, 0)] succeeds when the process is [alive]. *)
Section Arguments.
Context (alive : Z -> bool).

Fixpoint arguments (opts : list (option_char * option (list Z))) (s : settings_t) : outcome command :=
  match opts with
  | [] => Ret (Start s)
  | (c, arg) :: opts =>
    if c =? 99 then
      let! f := nonnull arg in arguments opts (Settings f (daemonize s))
    else if c =? 120 then
      let! a := nonnull arg in
      let! pid := atoi (a ++ [0]) in
      Ret (if alive pid then Halt pid else NoProcess pid)
    else if c =? 86 then Ret Version
    else if c =? 115 then Ret NoStatus
    else if c =? 100 then arguments opts (Settings (config_file_name s) true)
    else Ret Usage
  end.

(** [argv] has at least the name of the program. *)
Definition command_line (argv : list (list Z)) : outcome command :=
  if (length argv <? 2)%nat then Ret Usage
  else arguments (getopt options None (tail argv)) (Settings [] false).
End Arguments.

(** * The system log *)

(** [g_strlcat(dest, src, size)] on a [dest] shorter than [size]: the contents of
    [dest] afterwards, and the length it tried to make. *)
Definition g_strlcat (dest src : list Z) (size : nat) : list Z * nat :=
  (take (size - 1) (dest ++ src), (length dest + length src)%nat).

Definition MAXPATHLEN : nat := 4096.

(** The arguments after the first, each after a space, until one does not fit. *)
Fixpoint syslog_args (buf : list Z) (args : list (list Z)) : list Z :=
  match args with
  | [] => buf
  | a :: args =>
    let '(buf, n) := g_strlcat buf [32] MAXPATHLEN in
    if (MAXPATHLEN <=? n)%nat then buf
    else
      let '(buf, n) := g_strlcat buf a MAXPATHLEN in
      if (MAXPATHLEN <=? n)%nat then buf else syslog_args buf args
  end.
Definition init_syslog (argv : list (list Z)) : list Z :=
  match tail argv with
  | [] => []
  | a :: args =>
    let '(buf, n) := g_strlcat [] a MAXPATHLEN in
    if (MAXPATHLEN <=? n)%nat then buf else syslog_args buf args
  end.

(** * Signals *)

Inductive signal :=
  | SIGHUP | SIGINT | SIGQUIT | SIGILL | SIGSEGV | SIGTERM | SIGBUS
  | SIGABRT | SIGALRM | SIGUSR1 | SIGUSR2 | SIGPOLL.
#[export] Instance signal_eq_dec : EqDecision signal.
Proof. solve_decision. Defined.

(** What a signal does: its default action, nothing, [term_signal_handler] once
    (with [SA_RESETHAND]), or [rotate_connection_log]. *)
Inductive disposition := SIG_DFL | SIG_IGN | TermOnce | RotateLog.
#[export] Instance disposition_eq_dec : EqDecision disposition.
Proof. solve_decision. Defined.

Definition signal_table := list (signal * disposition).
Definition signal_action (t : signal_table) (s : signal) : disposition :=
  match list_find (fun e => e.1 = s) t with Some (_, e) => e.2 | None => SIG_DFL end.

(** [sigaction] on each signal in turn; the first that fails ends the program. *)
Section Signals.
Context (sigaction : signal -> bool).

Fixpoint install (l : list (signal * disposition)) (t : signal_table) : outcome signal_table :=
  match l with
  | [] => Ret t
  | (s, d) :: l => if sigaction s then install l ((s, d) :: t) else Fault Exited
  end.

Definition init_signal : outcome signal_table :=
  install
    [(SIGHUP, TermOnce); (SIGINT, TermOnce); (SIGQUIT, TermOnce); (SIGILL, TermOnce); (SIGSEGV, TermOnce);
     (SIGTERM, TermOnce); (SIGBUS, TermOnce);
     (SIGABRT, SIG_IGN); (SIGALRM, SIG_IGN); (SIGUSR2, SIG_IGN); (SIGPOLL, SIG_IGN);
     (SIGUSR1, RotateLog)] [].
End Signals.

(** The capture loops that [term_signal_handler] stops: [pcap_breakloop] on the
    handle of every link, which must have been [opened]. *)
Fixpoint breakloops (opened : list ptr) (l : list ptr) : outcome (list ptr) :=
  match l with
  | [] => Ret []
  | i :: l =>
    if bool_decide (i ∈ opened) then let! broken := breakloops opened l in Ret (i :: broken) else Fault NullDeref
  end.
Definition term_signal_handler (opened : list ptr) : M (list ptr) :=
  do ls <- sgets links;
  slift (breakloops opened (map_to_list ls).*2).

(** ** The delivery of a signal *)

Inductive reaction := Killed | Ignored | Stopped (loops : list ptr) | Rotated.

(** The kernel resets the action of a signal whose handler runs once. *)
Definition deliver (opened : list ptr) (s : signal) (t : signal_table) : M (reaction * signal_table) :=
  match signal_action t s with
  | SIG_DFL => sret (Killed, t)
  | SIG_IGN => sret (Ignored, t)
  | TermOnce => do loops <- term_signal_handler opened; sret (Stopped loops, (s, SIG_DFL) :: t)
  | RotateLog => sret (Rotated, t)
  end.

(** The signal that [main] sends for [-x]. *)
Definition halt_signal : signal := SIGQUIT.

(** The line [main] writes in the pid file ([%li]), and what a shell makes of it
    between backquotes. *)
Definition pid_line (pid : Z) : list Z := print_d pid ++ [10].
Definition backquoted (s : list Z) : list Z :=
  match rev s with b :: l => if b =? 10 then rev l else s | [] => s end.

(** * The background *)

Inductive fork_result := ForkFailed | InChild | InParent.

(** [daemon]: what the system answers, and what is left: the result, whether the
    directory changed, whether an error was reported - when it did change -,
    and the descriptors that now lead to [/dev/null].  The parent exits. *)
Record daemonised := Daemonised {
  dm_result : Z;
  dm_root : bool;
  dm_error : bool;
  dm_null : list Z;
}.

Definition daemon (fork : fork_result) (setsid chdir_root : bool) (devnull : option Z) (nochdir noclose : Z) :
    outcome daemonised :=
  match fork with
  | ForkFailed => Ret (Daemonised (-1) false false [])
  | InParent => Fault Exited
  | InChild =>
    if negb setsid then Ret (Daemonised (-1) false false [])
    else
      let root := (nochdir =? 0) && chdir_root in
      Ret (Daemonised 0 root root
             (match devnull with Some _ => if noclose =? 0 then [0; 1; 2] else [] | None => [] end))
  end.
