(* ===== verification/Config.v ===== *)
(** The configuration ([config_rules.y]): what the actions of the grammar do for
    each statement of a configuration file, which is the list of its statements
    ([Lexer] and [Grammar] read them from its text).  The sub-rules of an action (addresses, masks, rules) run before
    it, as in a bottom-up parser; [yyerror] and [errx] end the program.

    libdnet's conversions of addresses and the regular expressions of
    [DE_create_tree] are parameters. *)
From S2P Require Import Prelude Mem CString Types World Samples Keys Checksum TcpOptions Packet Netcode.
From S2P Require Import Connections ConnTrees Redirect DecisionEngine DecisionTrees Management.

(** * Statements *)

(** The right-hand side of a parameter: a word or expression, a number, or a
    quoted address. *)
Inductive setting := SText (s : string) | SNumber (n : Z) | SAddr (s : string).

(** Where a honeypot is: link, address, hardware address, masks, VLANs (both
    may be repeated, the last counts). *)
Record location := Location {
  lc_link : string;
  lc_ip : string;
  lc_mac : string;
  lc_netmasks : list string;
  lc_vlans : list Z;
}.

(** The statements of a target; [equation] is [None] where it is left out. *)
Inductive rule_item :=
  | FRONTEND (lc : location) (equation : option string)
  | BACKPICK (equation : string)
  | BACKEND (lc : location) (equation : option string)
  | INTERNAL (ip : string) (lc : location) (equation : option string)
  | INTERNET (equation : string)
  | INTRALAN (equation : string).

Inductive link_setting :=
  | LinkName (key name : string)
  | LinkNumber (key : string) (n : Z)
  | LinkFilter (equation : string).

(** [default route via link hw mac src ip]. *)
Record route := Route { rt_link : string; rt_mac : string; rt_src : option string }.

Inductive config_item :=
  | CONFIGURATION (params : list (string * setting))
  | LINK (tag : string) (settings : list link_setting)
  | MODULE (name : string) (settings : list (string * setting))
  | TARGET (r : option route) (rules : list rule_item).

(** The text of an equation: its tokens, separated by spaces. *)
Definition equation (tokens : list string) : string :=
  fold_left (fun s t => if String.eqb s "" then t else (s ++ " " ++ t)%string) tokens ""%string.

Section Config.
Context (and_matches : string -> bool) (and_split or_split : string -> list string).
Context (addr_pton_ip : list Z -> option Z) (addr_pton_mac : list Z -> option (list Z)).
Context (addr_ntoa : Z -> list Z).

(** * Parameters *)

(** [yyerror]: [errx]. *)
Definition honeynet (s : string) : outcome Z :=
  match addr_pton_ip (string_bytes s) with Some ip => Ret ip | None => Fault Exited end.
Definition mac (s : string) : outcome (list Z) :=
  match addr_pton_mac (string_bytes s) with Some m => Ret m | None => Fault Exited end.
Fixpoint netmask (l : list string) (m : option Z) : outcome (option Z) :=
  match l with
  | [] => Ret m
  | s :: l => let! ip := honeynet s in netmask l (Some ip)
  end.
Definition vlan (l : list Z) : Z := default 0 (last l).

(** The block a parameter is stored in. *)
Definition setting_value (v : setting) : outcome config_value :=
  match v with
  | SText s => Ret (CBlock (string_bytes s ++ [0]))
  | SNumber n => Ret (CBlock (le_encode 4 (u32 n)))
  | SAddr s => let! ip := honeynet s in Ret (CBlock (addr_ntoa ip ++ [0]))
  end.

Definition parameter (p : string * setting) : M unit :=
  do v <- slift (setting_value p.2);
  smodify (fun w => w <| config ::= <[p.1 := v]> |>).

Fixpoint parameters (l : list (string * setting)) : M unit :=
  match l with [] => sret tt | p :: l => do_ parameter p; parameters l end.

(** * Links *)

Definition link_setting_action (i : interface) (s : link_setting) : outcome interface :=
  match s with
  | LinkName key name =>
    if String.eqb key "interface" then Ret (i <| if_name := Some (string_bytes name) |>) else Fault Exited
  | LinkNumber key n =>
    if String.eqb key "promisc" then Ret (i <| if_promisc := n |>) else Fault Exited
  | LinkFilter eq => Ret (i <| if_filter := Some (string_bytes eq) |>)
  end.

Fixpoint link_settings (i : interface) (l : list link_setting) : outcome interface :=
  match l with
  | [] => Ret i
  | s :: l => let! i := link_setting_action i s in link_settings i l
  end.

Definition interface_zero : interface := Interface "" None (repeat 0 6) 0 None None None 0.

(** A tag that is defined again frees the interface that had it; the table keeps
    the first key, a string of the freed interface, which the next lookup of the
    tag reads: the second definition is a use after free here already. *)
Definition link (tag : string) (settings : list link_setting) : M unit :=
  do i <- slift (link_settings interface_zero settings);
  do iface <- malloc;
  do_ put_iface iface (i <| if_tag := tag |>);
  do ls <- sgets links;
  match ls !! tag with
  | Some _ => sfault UseAfterFree
  | None => smodify (fun w => w <| links ::= <[tag := iface]> |>)
  end.

(** * Modules *)

Fixpoint module_settings (t : gmap string config_value) (l : list (string * setting)) :
    outcome (gmap string config_value) :=
  match l with
  | [] => Ret t
  | (k, v) :: l => let! c := setting_value v in module_settings (<[k := c]> t) l
  end.

(** With a parameter [backup], the action stores a key file under the same name:
    the table frees the name of the file, which is then opened. *)
Definition module_action (name : string) (settings : list (string * setting)) : M unit :=
  do t <- slift (module_settings ∅ settings);
  do_ smodify (fun w => w <| modules ::= <[name := t]> |>);
  match t !! "function"%string with
  | None => sfault Exited
  | Some _ => match t !! "backup"%string with Some _ => sfault UseAfterFree | None => sret tt end
  end.

(** * Targets *)

Definition create_rule (eq : option string) : M (option ptr) :=
  match eq with
  | None => sret None
  | Some e => DE_create_tree and_matches and_split or_split (Some e)
  end.

(** A handler at a location, not yet attached to an interface. *)
Definition located (lc : location) : outcome handler :=
  let! ip := honeynet (lc_ip lc) in
  let! m := mac (lc_mac lc) in
  let! nm := netmask (lc_netmasks lc) None in
  Ret (Handler 0 (Some m) (Some ip) nm (htons (Z.land (vlan (lc_vlans lc)) (BIT_MASK 0 11))) None None 0 []).

Definition link_of (tag : string) : M ptr :=
  do ls <- sgets links;
  match ls !! tag with Some i => sret i | None => sfault Exited end.

Definition rule_action (t : ptr) (r : rule_item) : M unit :=
  match r with
  | FRONTEND lc eq =>
    do h <- slift (located lc);
    do fh <- malloc;
    do i <- link_of (lc_link lc);
    do rule <- create_rule eq;
    do_ put_handler fh (h <| hd_iface := Some i |> <| hd_rule := rule |>);
    upd_target t (fun tg => tg <| tg_front_handler := Some fh |>)
  | BACKPICK eq =>
    do rule <- create_rule (Some eq);
    upd_target t (fun tg => tg <| tg_back_picker := rule |>)
  | BACKEND lc None =>
    do h <- slift (located lc);
    do tg <- get_target (Some t);
    match tg_back_picker tg with
    | None => sfault Exited
    | Some _ =>
      do i <- link_of (lc_link lc);
      do bh <- malloc;
      do_ put_handler bh (h <| hd_iface := Some i |>);
      do _st <- add_back_handler (Some t) (Some bh);
      sret tt
    end
  | BACKEND lc (Some eq) =>
    do h <- slift (located lc);
    do i <- link_of (lc_link lc);
    do bh <- malloc;
    do_ upd_target t (fun tg => tg <| tg_back_handler_count ::= fun n => s64 (n + 1) |>);
    do tg <- get_target (Some t);
    do rule <- create_rule (Some eq);
    do_ put_handler bh (h <| hd_ID := tg_back_handler_count tg |> <| hd_iface := Some i |> <| hd_rule := rule |>);
    do _st <- add_back_handler (Some t) (Some bh);
    sret tt
  | INTERNAL ip lc eq =>
    do target_ip <- slift (honeynet ip);
    do h <- slift (located lc);
    do i <- link_of (lc_link lc);
    do ih <- malloc;
    do rule <- create_rule eq;
    do_ put_handler ih (h <| hd_iface := Some i |> <| hd_rule := rule |> <| hd_exclusive := 1 |>);
    do _st <- add_intra_handler (Some t) (Some target_ip) (Some ih);
    sret tt
  | INTERNET eq =>
    do rule <- create_rule (Some eq);
    upd_target t (fun tg => tg <| tg_control_rule := rule |>)
  | INTRALAN eq =>
    do rule <- create_rule (Some eq);
    upd_target t (fun tg => tg <| tg_intra_rule := rule |>)
  end.

Fixpoint rule_actions (t : ptr) (l : list rule_item) : M unit :=
  match l with [] => sret tt | r :: l => do_ rule_action t r; rule_actions t l end.

Definition target_zero : target := Target 0 None None None None ∅ 0 None ∅ None [] None None.

(** [default_route_ip] is the address given with [src], else that of the
    interface, which is not known before [init_pcap]. *)
Definition target_action (r : option route) (rules : list rule_item) : M unit :=
  do hw <- slift (match r with Some r => let! m := mac (rt_mac r) in Ret (Some m) | None => Ret None end);
  do src <- slift (match r with
                   | Some (Route _ _ (Some s)) => let! ip := honeynet s in Ret (Some ip)
                   | _ => Ret None
                   end);
  do t <- malloc;
  do_ put_target t target_zero;
  do_ rule_actions t rules;
  do_ (match r with
       | None => sret tt
       | Some r =>
         do i <- link_of (rt_link r);
         do ifc <- get_iface (Some i);
         do_ put_iface i (ifc <| if_target := Some t |>);
         upd_target t (fun tg => tg <| tg_default_route := Some i |>
           <| tg_default_route_ip := match rt_src r with Some _ => src | None => if_ip ifc end |>
           <| tg_default_route_mac := hw |>)
       end);
  do _st <- add_target (Some t);
  sret tt.

Definition config_action (c : config_item) : M unit :=
  match c with
  | CONFIGURATION l => parameters l
  | LINK tag l => link tag l
  | MODULE name l => module_action name l
  | TARGET r l => target_action r l
  end.

Fixpoint configuration (l : list config_item) : M unit :=
  match l with [] => sret tt | c :: l => do_ config_action c; configuration l end.
End Config.
