(* ===== verification/ConfigOk.v ===== *)
(** What an accepted configuration leaves in memory: every pointer between
    links, targets and honeypots leads to a live structure, the rules call the
    modules of the configuration, and no connection exists yet. *)
From S2P Require Import Prelude Mem CString Types World Samples Keys Checksum TcpOptions Packet Netcode.
From S2P Require Import Connections ConnTrees Redirect DecisionEngine DecisionTrees Icmp Engine Births EngineOk.
From S2P Require Import Management Config.

(** * Building rules *)

(** Only nodes are allocated. *)
Definition laid (w w' : world) : Prop :=
  w' = w <| w_nodes := w_nodes w' |> <| w_next := w_next w' |> /\ (w_next w <= w_next w')%positive.
#[export] Instance laid_refl : Reflexive laid.
Proof. intros []. split; [done|simpl; lia]. Qed.
#[export] Instance laid_trans : Transitive laid.
Proof.
  intros w1 w2 w3 [E1 N1] [E2 N2]. split; [|lia]. rewrite E2 at 1. rewrite E1. reflexivity.
Qed.

(** The modules of the configuration leave the connections alone. *)
Definition confined_modules (w : world) : Prop :=
  forall name t bs f, modules w !! name = Some t -> t !! "function"%string = Some (CBlock bs) ->
    get_module (c_string bs) = Ret (Some f) -> confined f = true.

(** The rules stay confined when the modules are. *)
Definition confining (w w' : world) : Prop :=
  confined_modules w -> confined_rules w -> confined_modules w' /\ confined_rules w'.
#[export] Instance confining_refl : Reflexive confining.
Proof. by intros w ??. Qed.
#[export] Instance confining_trans : Transitive confining.
Proof. intros w1 w2 w3 H1 H2 Hm Hr. destruct (H1 Hm Hr). auto. Qed.

Lemma confined_rules_insert w a n : confined_rules w -> (forall f, nd_module n = Some f -> confined f = true) ->
  confined_rules (w <| w_nodes := <[a := n]> (w_nodes w) |>).
Proof.
  intros Hr Hn b m f Hb Hm. simpl in Hb. destruct (decide (a = b)) as [<-|].
  - rewrite lookup_insert_eq in Hb. injection Hb as <-. by apply Hn.
  - rewrite lookup_insert_ne in Hb by done. by eapply Hr.
Qed.

Lemma module_of_confined w modname c function f : confined_modules w ->
  module_of (modules w) modname = Ret (c, function, f) -> confined f = true.
Proof.
  intros Hm H. unfold module_of in H. destruct (modules w !! modname) as [t|] eqn:Et; [|done].
  destruct (t !! "function"%string) as [[bs|]|] eqn:Ef; [|done..]. cbn zeta in H. orun H as f' Hf. destruct f' as [f'|]; [|done].
  injection H as _ _ <-. by eapply Hm.
Qed.

Section Trees.
Context (and_matches : string -> bool) (and_split or_split : string -> list string).

Lemma laid_malloc : keeps laid malloc.
Proof. intros w a w' [= _ <-]. split; [by destruct w|simpl; lia]. Qed.
Lemma laid_put_node a n : keeps laid (put_node a n).
Proof. apply keeps_smodify. intros w. split; [by destruct w|simpl; lia]. Qed.
Hint Resolve laid_malloc laid_put_node : keeps.

Lemma laid_build fuel e : keeps laid (DE_build_subtree and_matches and_split fuel e).
Proof.
  revert e. induction fuel as [|fuel IH]; intros e; cbn [DE_build_subtree]; [apply keeps_sfault|].
  assert (forall e, keeps laid (DE_build_subtree and_matches and_split fuel e)) by apply IH. keeps_tac.
Qed.
Lemma laid_connect_false fuel node head : keeps laid (connect_false fuel node head).
Proof.
  revert node. induction fuel as [|fuel IH]; intros node; cbn [connect_false]; [apply keeps_sfault|].
  assert (forall a, keeps laid (connect_false fuel a head)) by apply IH. unfold get_node. keeps_tac.
Qed.
Hint Resolve laid_build laid_connect_false : keeps.
Lemma laid_connect_groups node l : keeps laid (connect_groups and_matches and_split node l).
Proof.
  revert node. induction l as [|g l IH]; intros node; cbn [connect_groups]; [apply keeps_sret, _|].
  assert (forall a, keeps laid (connect_groups and_matches and_split a l)) by apply IH.
  unfold build_subtree. keeps_tac.
Qed.
Hint Resolve laid_connect_groups : keeps.
Lemma laid_create eq : keeps laid (create_rule and_matches and_split or_split eq).
Proof. unfold create_rule, DE_create_tree, build_subtree. keeps_tac. Qed.

Lemma confining_malloc : keeps confining malloc.
Proof. by intros w a w' [= _ <-]. Qed.
Hint Resolve confining_malloc : keeps.

Lemma confining_build fuel e : keeps confining (DE_build_subtree and_matches and_split fuel e).
Proof.
  revert e. induction fuel as [|fuel IH]; intros e; cbn [DE_build_subtree]; [apply keeps_sfault|].
  assert (forall e, keeps confining (DE_build_subtree and_matches and_split fuel e)) by apply IH.
  apply keeps_sbind; [apply _|apply confining_malloc|]. intros node. apply keeps_sbind; [apply _| |].
  { apply keeps_smodify. intros w Hm Hr. split; [exact Hm|]. by apply confined_rules_insert. }
  intros _. apply keeps_sbind; [apply _|keeps_tac|]. intros [modname t].
  intros w a w' H1 Hm Hr. srun H1 as mods w1 H2. injection H2 as <- <-. srun H1 as [[c function] f] w1 H2.
  apply slift_Ret_inv in H2 as [H2 ->]. srun H1 as u w1 H3. injection H3 as _ <-. injection H1 as _ <-.
  split; [exact Hm|]. apply confined_rules_insert; [done|]. intros f' [= <-]. by eapply module_of_confined.
Qed.

Lemma confining_connect_false fuel node head : keeps confining (connect_false fuel node head).
Proof.
  revert node. induction fuel as [|fuel IH]; intros node; cbn [connect_false]; [apply keeps_sfault|].
  intros w a w' H1 Hm Hr. srun H1 as n w1 H2. apply get_node_inv in H2 as [Hn ->]. srun H1 as u w1 H3.
  injection H3 as _ <-.
  assert (Hr1 : confined_rules (w <| w_nodes := <[node := n <| nd_false_branch := Some head |>]> (w_nodes w) |>)).
  { apply confined_rules_insert; [done|]. intros f. by apply (Hr _ _ _ Hn). }
  destruct (nd_true_branch n); [|by injection H1 as _ <-]. by apply (IH _ _ _ _ H1).
Qed.
Hint Resolve confining_build confining_connect_false : keeps.
Lemma confining_connect_groups node l : keeps confining (connect_groups and_matches and_split node l).
Proof.
  revert node. induction l as [|g l IH]; intros node; cbn [connect_groups]; [apply keeps_sret, _|].
  assert (forall a, keeps confining (connect_groups and_matches and_split a l)) by apply IH.
  unfold build_subtree. keeps_tac.
Qed.
Hint Resolve confining_connect_groups : keeps.
Lemma confining_create eq : keeps confining (create_rule and_matches and_split or_split eq).
Proof. unfold create_rule, DE_create_tree, build_subtree. keeps_tac. Qed.
End Trees.

(** * Live pointers *)

Definition live {V} (m : gmap ptr V) (a : ptr) : Prop := is_Some (m !! a).

(** A honeypot has a live interface and its addresses. *)
Definition complete (w : world) (hd : handler) : Prop :=
  (exists i, hd_iface hd = Some i /\ live (w_ifaces w) i) /\ is_Some (hd_ip hd) /\ is_Some (hd_mac hd).

(** A target leads to live honeypots and a live route; its backends are numbered
    up to its count. *)
Record target_wired (w : world) (tg : target) : Prop := {
  tw_front : forall h, tg_front_handler tg = Some h -> live (w_handlers w) h;
  tw_backs : forall k h, tg_back_handlers tg !! k = Some h -> live (w_handlers w) h /\ 1 <= k <= tg_back_handler_count tg;
  tw_intras : forall ip h, tg_intra_handlers tg !! ip = Some h -> live (w_handlers w) h;
  tw_no_null : tg_intra_null tg = None;
  tw_route : forall i, tg_default_route tg = Some i -> live (w_ifaces w) i;
  tw_count : 0 <= tg_back_handler_count tg;
}.

Record wired (w : world) : Prop := {
  wi_handlers : forall h hd, w_handlers w !! h = Some hd -> complete w hd;
  wi_wired : forall t tg, w_targets w !! t = Some tg -> target_wired w tg;
  wi_links : forall tag i, links w !! tag = Some i -> live (w_ifaces w) i;
  wi_uplinks : forall i ifc t, w_ifaces w !! i = Some ifc -> if_target ifc = Some t -> live (w_targets w) t;
  wi_targets : forall id t, targets w !! id = Some t -> live (w_targets w) t;
  wi_fresh_h : forall h, live (w_handlers w) h -> (h < w_next w)%positive;
  wi_fresh_t : forall t, live (w_targets w) t -> (t < w_next w)%positive;
}.

(** Nothing is freed. *)
Record expands (w w' : world) : Prop := {
  ex_handlers : forall h, live (w_handlers w) h -> live (w_handlers w') h;
  ex_ifaces : forall i, live (w_ifaces w) i -> live (w_ifaces w') i;
  ex_targets : forall t, live (w_targets w) t -> live (w_targets w') t;
  ex_next : (w_next w <= w_next w')%positive;
}.
#[export] Instance expands_refl : Reflexive expands.
Proof. by intros w. Qed.

Lemma live_insert {V} (m : gmap ptr V) a v b : live m b -> live (<[a := v]> m) b.
Proof. unfold live. rewrite lookup_insert_is_Some'. auto. Qed.

Lemma live_inserted {V} (m : gmap ptr V) a v b : live (<[a := v]> m) b -> b = a \/ live m b.
Proof. unfold live. rewrite lookup_insert_is_Some'. intros [->|]; auto. Qed.

Lemma complete_expands w w' hd : expands w w' -> complete w hd -> complete w' hd.
Proof. intros E [(i & Hi & Hl) H]. split; [|done]. exists i. split; [done|]. by apply (ex_ifaces _ _ E). Qed.

Lemma target_expands w w' tg : expands w w' -> target_wired w tg -> target_wired w' tg.
Proof.
  intros [Eh Ei _ _] [F B I N R C]. split; [by auto| |by eauto|done|by auto|done]. intros k h Hk. destruct (B k h Hk). auto.
Qed.

Lemma laid_expands w w' : laid w w' -> expands w w'.
Proof. intros [-> ?]. by split. Qed.

Lemma wired_frame w w' : w_handlers w' = w_handlers w -> w_targets w' = w_targets w -> w_ifaces w' = w_ifaces w ->
  links w' = links w -> targets w' = targets w -> (w_next w <= w_next w')%positive -> wired w -> wired w'.
Proof.
  intros Eh Et Ei El Eg Hn [Hh Ht Hl Hu Hg Fh Ft].
  assert (E : expands w w') by (split; rewrite ?Eh, ?Et, ?Ei; done).
  split; rewrite ?Eh, ?Et, ?Ei, ?El, ?Eg; eauto using complete_expands, target_expands.
  - intros h Hlv. apply Fh in Hlv. lia.
  - intros t Hlv. apply Ft in Hlv. lia.
Qed.

Lemma laid_wired w w' : laid w w' -> wired w -> wired w'.
Proof. intros [E ?]. apply wired_frame; [by rewrite E..|done]. Qed.

Lemma wired_malloc w : wired w -> wired (w <| w_next := Pos.succ (w_next w) |>).
Proof. apply laid_wired. split; [by destruct w|simpl; lia]. Qed.

Lemma wired_handler w a hd : wired w -> (a < w_next w)%positive -> complete w hd ->
  wired (w <| w_handlers := <[a := hd]> (w_handlers w) |>).
Proof.
  intros [Hh Ht Hl Hu Hg Fh Ft] Ha Hc. set (w' := w <| w_handlers := <[a := hd]> (w_handlers w) |>).
  assert (E : expands w w') by (split; simpl; auto using live_insert; lia).
  split; simpl; eauto using target_expands.
  - intros h hd' Hl'. apply (complete_expands w); [done|]. destruct (decide (a = h)) as [<-|].
    + rewrite lookup_insert_eq in Hl'. by injection Hl' as <-.
    + rewrite lookup_insert_ne in Hl' by done. by eapply Hh.
  - intros h [->|Hlv]%live_inserted; [done|]. by apply Fh.
Qed.

Lemma wired_target w t tg : wired w -> (t < w_next w)%positive -> target_wired w tg ->
  wired (w <| w_targets := <[t := tg]> (w_targets w) |>).
Proof.
  intros [Hh Ht Hl Hu Hg Fh Ft] Ha Hc. set (w' := w <| w_targets := <[t := tg]> (w_targets w) |>).
  assert (E : expands w w') by (split; simpl; auto using live_insert; lia).
  split; simpl; eauto using complete_expands, live_insert.
  - intros t' tg' Hl'. apply (target_expands w); [done|]. destruct (decide (t = t')) as [<-|].
    + rewrite lookup_insert_eq in Hl'. by injection Hl' as <-.
    + rewrite lookup_insert_ne in Hl' by done. by eapply Ht.
  - intros h [->|Hlv]%live_inserted; [done|]. by apply Ft.
Qed.

Lemma wired_iface w i ifc : wired w -> (forall t, if_target ifc = Some t -> live (w_targets w) t) ->
  wired (w <| w_ifaces := <[i := ifc]> (w_ifaces w) |>).
Proof.
  intros [Hh Ht Hl Hu Hg Fh Ft] Hc. set (w' := w <| w_ifaces := <[i := ifc]> (w_ifaces w) |>).
  assert (E : expands w w') by (split; simpl; auto using live_insert; lia).
  split; simpl; eauto using complete_expands, target_expands, live_insert.
  intros j ifc' t Hj Hlt. destruct (decide (i = j)) as [<-|].
  - rewrite lookup_insert_eq in Hj. injection Hj as <-. by apply Hc.
  - rewrite lookup_insert_ne in Hj by done. by eapply Hu.
Qed.

Lemma wired_registered w id t : wired w -> live (w_targets w) t ->
  wired (w <| targets := <[id := t]> (targets w) |>).
Proof.
  intros [Hh Ht Hl Hu Hg Fh Ft] Hc. assert (E : expands w (w <| targets := <[id := t]> (targets w) |>)) by (split; simpl; auto; lia).
  split; simpl; eauto using complete_expands, target_expands.
  intros k t' Hk. destruct (decide (id = k)) as [<-|].
  - rewrite lookup_insert_eq in Hk. by injection Hk as <-.
  - rewrite lookup_insert_ne in Hk by done. by eapply Hg.
Qed.

Lemma wired_linked w tag i : wired w -> live (w_ifaces w) i ->
  wired (w <| links := <[tag := i]> (links w) |>).
Proof.
  intros [Hh Ht Hl Hu Hg Fh Ft] Hc. assert (E : expands w (w <| links := <[tag := i]> (links w) |>)) by (split; simpl; auto; lia).
  split; simpl; eauto using complete_expands, target_expands.
  intros k t' Hk. destruct (decide (tag = k)) as [<-|].
  - rewrite lookup_insert_eq in Hk. by injection Hk as <-.
  - rewrite lookup_insert_ne in Hk by done. by eapply Hl.
Qed.

(** * Statements of a target *)

Section Statements.
Context (and_matches : string -> bool) (and_split or_split : string -> list string).
Context (addr_pton_ip : list Z -> option Z) (addr_pton_mac : list Z -> option (list Z)).
Context (addr_ntoa : Z -> list Z).
Notation create_rule := (create_rule and_matches and_split or_split).
Notation located := (located addr_pton_ip addr_pton_mac).
Notation rule_action := (rule_action and_matches and_split or_split addr_pton_ip addr_pton_mac).
Notation rule_actions := (rule_actions and_matches and_split or_split addr_pton_ip addr_pton_mac).
Notation target_action := (target_action and_matches and_split or_split addr_pton_ip addr_pton_mac).
Notation config_action := (config_action and_matches and_split or_split addr_pton_ip addr_pton_mac addr_ntoa).
Notation configuration := (configuration and_matches and_split or_split addr_pton_ip addr_pton_mac addr_ntoa).

(** The target under construction: it exists, and has at most [n] backends. *)
Definition building (t : ptr) (n : Z) (w : world) : Prop :=
  wired w /\ exists tg, w_targets w !! t = Some tg /\ tg_back_handler_count tg <= n.

Lemma building_le t n m w : building t n w -> n <= m -> building t m w.
Proof. intros (Hw & tg & Ht & Hn) Hle. split; [done|]. exists tg. split; [done|lia]. Qed.

Lemma building_laid t n w w' : building t n w -> laid w w' -> building t n w'.
Proof.
  intros (Hw & tg & Ht & Hn) L. split; [by eapply laid_wired|]. exists tg. destruct L as [E _]. by rewrite E.
Qed.

Lemma building_handler t n w a hd : building t n w -> (a < w_next w)%positive -> complete w hd ->
  building t n (w <| w_handlers := <[a := hd]> (w_handlers w) |>).
Proof. intros (Hw & tg & Ht & Hn) Ha Hc. split; [by apply wired_handler|by exists tg]. Qed.

(** Updating a field of the target. *)
Lemma building_update t n m w g w' u : building t n w -> upd_target t g w = Ret (u, w') ->
  (forall tg, target_wired w tg -> tg_back_handler_count tg <= n ->
     target_wired w (g tg) /\ tg_back_handler_count (g tg) <= m) -> building t m w'.
Proof.
  intros (Hw & tg & Ht & Hn) H1 Hg. unfold upd_target in H1. srun H1 as tg' w1 H2. unfold get_target in H2.
  apply deref_Ret_inv in H2 as (b & [= <-] & E & ->). assert (tg' = tg) as -> by congruence. injection H1 as _ <-.
  destruct (Hg tg (wi_wired _ Hw _ _ Ht) Hn) as [Hgw Hm]. split.
  - apply wired_target; [done| |done]. by apply (wi_fresh_t _ Hw); exists tg.
  - exists (g tg). split; [apply lookup_insert_eq|done].
Qed.

Lemma link_of_inv tag w i w' : link_of tag w = Ret (i, w') -> links w !! tag = Some i /\ w' = w.
Proof.
  unfold link_of. intros H1. srun H1 as ls w1 H2. injection H2 as <- <-. destruct (links w !! tag) eqn:E; [|done].
  by injection H1 as -> ->.
Qed.

Lemma located_inv lc h : located lc = Ret h -> is_Some (hd_ip h) /\ is_Some (hd_mac h) /\ hd_iface h = None.
Proof.
  unfold Config.located. intros H1. orun H1 as ip Hi. orun H1 as m Hm. orun H1 as nm Hn. injection H1 as <-. simpl. eauto.
Qed.

(** A new backend goes to a number that is free. *)
Lemma add_back_handler_building t n w h r w' : building t n w -> live (w_handlers w) h -> n + 1 < 2 ^ 32 ->
  add_back_handler (Some t) (Some h) w = Ret (r, w') -> building t (n + 1) w'.
Proof.
  intros Hb [hd Hh] Hn H1. pose proof Hb as (Hw & tg & Ht & Hc). pose proof (wi_wired _ Hw _ _ Ht) as Htw.
  pose proof (tw_count _ _ Htw) as H0. unfold add_back_handler in H1.
  rewrite (sbind_eq _ _ _ _ _ (deref_ok w_targets t tg w Ht)) in H1.
  rewrite (sbind_eq _ _ _ _ _ (deref_ok w_handlers h hd w Hh)) in H1. rewrite s64_small in H1 by lia.
  rewrite u32_small in H1 by lia. srun H1 as u w1 H2. injection H2 as _ <-.
  assert (Hnone : tg_back_handlers tg !! (tg_back_handler_count tg + 1) = None).
  { destruct (tg_back_handlers tg !! _) eqn:E; [|done]. apply (tw_backs _ _ Htw) in E as [_ ?]. lia. }
  rewrite Hnone in H1. srun H1 as u' w1 H2. injection H2 as _ <-. srun H1 as u2 w1 H2. injection H1 as _ <-.
  injection H2 as _ <-. set (w1 := w <| w_handlers := <[h := hd <| hd_ID := tg_back_handler_count tg + 1 |>]> (w_handlers w) |>).
  assert (Hw1 : wired w1).
  { apply wired_handler; [done|by apply (wi_fresh_h _ Hw); exists hd|]. exact (wi_handlers _ Hw _ _ Hh). }
  split.
  - apply (wired_target w1); [done|by apply (wi_fresh_t _ Hw1); exists tg|].
    destruct (wi_wired _ Hw1 t tg Ht) as [F B I N R C]. split; simpl; try done; [|lia].
    intros k h' Hk. destruct (decide (tg_back_handler_count tg + 1 = k)) as [<-|].
    + rewrite lookup_insert_eq in Hk. injection Hk as <-. split; [|lia]. unfold live. simpl. by rewrite lookup_insert_eq.
    + rewrite lookup_insert_ne in Hk by done. destruct (B k h' Hk) as [Hl ?]. split; [exact Hl|lia].
  - simpl. rewrite lookup_insert_eq. eexists. split; [done|]. simpl. lia.
Qed.

Lemma add_intra_building t n w ip h r w' : building t n w -> live (w_handlers w) h ->
  add_intra_handler (Some t) (Some ip) (Some h) w = Ret (r, w') -> building t n w'.
Proof.
  intros Hb Hh H1. pose proof Hb as (Hw & tg & Ht & Hc). unfold add_intra_handler in H1. srun H1 as hd w1 H2.
  unfold get_handler in H2. apply deref_Ret_inv in H2 as (b & [= <-] & Ehd & ->).
  destruct (hd_iface hd) as [i|] eqn:Ei, (hd_ip hd) as [x|] eqn:Ex, (hd_mac hd) as [m|] eqn:Em;
    try (injection H1 as _ <-; exact Hb).
  srun H1 as tg' w1 H2. unfold get_target in H2. apply deref_Ret_inv in H2 as (b & [= <-] & E & ->).
  assert (tg' = tg) as -> by congruence. srun H1 as found w1 H2. apply slift_Ret_inv in H2 as [_ ->].
  destruct found; [by injection H1 as _ <-|].
  srun H1 as u w1 H2. injection H2 as _ <-. srun H1 as u2 w1 H2. injection H1 as _ <-. injection H2 as _ <-.
  set (w1 := w <| w_handlers := <[h := hd <| hd_intra_target_ips ::= fun l => l ++ [Some ip] |>]> (w_handlers w) |>).
  assert (Hw1 : wired w1).
  { apply wired_handler; [done|by apply (wi_fresh_h _ Hw)|]. exact (wi_handlers _ Hw _ _ Ehd). }
  split.
  - apply (wired_target w1); [done|by apply (wi_fresh_t _ Hw1); exists tg|].
    destruct (wi_wired _ Hw1 t tg Ht) as [F B I N R C]. split; simpl; try done.
    intros ip' h' Hk. destruct (decide (ip = ip')) as [<-|].
    + rewrite lookup_insert_eq in Hk. injection Hk as <-. unfold live. simpl. by rewrite lookup_insert_eq.
    + rewrite lookup_insert_ne in Hk by done. by apply (I ip').
  - simpl. rewrite lookup_insert_eq. eexists. split; [done|]. simpl. lia.
Qed.

Lemma building_malloc t n w a w' : building t n w -> malloc w = Ret (a, w') -> building t n w' /\ (a < w_next w')%positive.
Proof. intros Hb [= <- <-]. split; [eapply building_laid; [done|]; split; [by destruct w|simpl; lia]|simpl; lia]. Qed.

Lemma building_rule t n eq w r w' : building t n w -> create_rule eq w = Ret (r, w') ->
  building t n w' /\ links w' = links w /\ (w_next w <= w_next w')%positive.
Proof.
  intros Hb H1. apply laid_create in H1 as L. split; [by eapply building_laid|]. destruct L as [E ?]. by rewrite E.
Qed.

(** The handler of a statement, with its interface. *)
Lemma building_new t n w a tag i g (h : handler) u w' : building t n w -> (a < w_next w)%positive ->
  links w !! tag = Some i -> is_Some (hd_ip h) /\ is_Some (hd_mac h) ->
  hd_iface (g h) = Some i -> hd_ip (g h) = hd_ip h -> hd_mac (g h) = hd_mac h ->
  put_handler a (g h) w = Ret (u, w') -> building t n w' /\ live (w_handlers w') a.
Proof.
  intros Hb Ha Hl [Hi Hm] Ei Eip Em [= _ <-]. split.
  - apply building_handler; [done..|]. split; [|by rewrite Eip, Em]. exists i. split; [done|].
    by apply (wi_links _ (proj1 Hb) tag).
  - simpl. unfold live. by rewrite lookup_insert_eq.
Qed.

Lemma front_building t n lc eq w u w' : building t n w ->
  rule_action t (FRONTEND lc eq) w = Ret (u, w') -> building t n w'.
Proof.
  intros Hb H1. cbn [Config.rule_action] in H1. srun H1 as h w1 H2. apply slift_Ret_inv in H2 as [Hh ->].
  apply located_inv in Hh as (Hip & Hm & _). srun H1 as fh w1 H2.
  apply (building_malloc t n) in H2 as [Hb1 Hlt]; [|done]. srun H1 as i w2 H2. apply link_of_inv in H2 as [Hl ->].
  srun H1 as rule w2 H2. apply (building_rule t n) in H2 as (Hb2 & El & Hn); [|done]. srun H1 as v w3 H3.
  apply (building_new t n w2 fh (lc_link lc) i (fun h => h <| hd_iface := Some i |> <| hd_rule := rule |>) h) in H3
    as [Hb3 Hlive]; try done; [|lia|by rewrite El].
  eapply building_update; [exact Hb3|exact H1|]. intros tg [F B I N R C] Hc. split; [|done]. split; simpl; try done.
  by intros h' [= <-].
Qed.

Lemma back_building t n lc eq w u w' : building t n w -> n + 2 < 2 ^ 32 ->
  rule_action t (BACKEND lc eq) w = Ret (u, w') -> building t (n + 2) w'.
Proof.
  intros Hb Hlt H1. destruct eq as [eq|]; cbn [Config.rule_action] in H1; srun H1 as h w1 H2;
    apply slift_Ret_inv in H2 as [Hh ->]; apply located_inv in Hh as (Hip & Hm & _).
  - srun H1 as i w1 H2. apply link_of_inv in H2 as [Hl ->]. srun H1 as bh w1 H2.
    assert (El1 : links w1 = links w) by (by injection H2 as _ <-).
    apply (building_malloc t n) in H2 as [Hb1 Hbh]; [|done]. srun H1 as v w2 H2.
    assert (Hnx : w_next w2 = w_next w1 /\ links w2 = links w1).
    { unfold upd_target in H2. srun H2 as tg wa Ha. unfold get_target in Ha. apply deref_Ret_inv in Ha as (b & _ & _ & ->).
      by injection H2 as _ <-. }
    destruct Hnx as [Hnx El2].
    apply (building_update t n (n + 1)) in H2 as Hb2; [|done|].
    2:{ intros tg [F B I N R C] Hc. simpl. rewrite s64_small by lia. split; [|lia]. split; simpl; rewrite ?s64_small by lia; try done; [|lia].
        intros k h' Hk. destruct (B k h' Hk). split; [done|lia]. }
    srun H1 as tg w3 H3. unfold get_target in H3. apply deref_Ret_inv in H3 as (b & _ & _ & ->).
    srun H1 as rule w3 H3. apply (building_rule t (n + 1)) in H3 as (Hb3 & El & Hn); [|done]. srun H1 as v2 w4 H4.
    apply (building_new t (n + 1) w3 bh (lc_link lc) i (fun h => h <| hd_ID := tg_back_handler_count tg |>
      <| hd_iface := Some i |> <| hd_rule := rule |>) h) in H4 as [Hb4 Hlive]; try done; [|lia|congruence].
    srun H1 as st w5 H5. injection H1 as _ <-. replace (n + 2) with (n + 1 + 1) by lia.
    eapply add_back_handler_building; [exact Hb4|exact Hlive|lia|exact H5].
  - srun H1 as tg w1 H2. unfold get_target in H2. apply deref_Ret_inv in H2 as (b & _ & _ & ->).
    destruct (tg_back_picker tg); [|done]. srun H1 as i w1 H2. apply link_of_inv in H2 as [Hl ->].
    srun H1 as bh w1 H2. assert (El : links w1 = links w) by (by injection H2 as _ <-).
    apply (building_malloc t n) in H2 as [Hb1 Hbh]; [|done]. srun H1 as v w2 H2.
    apply (building_new t n w1 bh (lc_link lc) i (fun h => h <| hd_iface := Some i |>) h) in H2 as [Hb2 Hlive]; try done;
      [|congruence].
    srun H1 as st w3 H3. injection H1 as _ <-. eapply building_le; [|instantiate (1 := n + 1); lia].
    eapply add_back_handler_building; [exact Hb2|exact Hlive|lia|exact H3].
Qed.

Lemma internal_building t n ip lc eq w u w' : building t n w ->
  rule_action t (INTERNAL ip lc eq) w = Ret (u, w') -> building t n w'.
Proof.
  intros Hb H1. cbn [Config.rule_action] in H1. srun H1 as tip w1 H2. apply slift_Ret_inv in H2 as [_ ->].
  srun H1 as h w1 H2. apply slift_Ret_inv in H2 as [Hh ->].
  apply located_inv in Hh as (Hip & Hm & _). srun H1 as i w1 H2. apply link_of_inv in H2 as [Hl ->].
  srun H1 as ih w1 H2. assert (El1 : links w1 = links w) by (by injection H2 as _ <-).
  apply (building_malloc t n) in H2 as [Hb1 Hlt]; [|done].
  srun H1 as rule w2 H2. apply (building_rule t n) in H2 as (Hb2 & El & Hn); [|done]. srun H1 as v w3 H3.
  apply (building_new t n w2 ih (lc_link lc) i (fun h => h <| hd_iface := Some i |> <| hd_rule := rule |>
    <| hd_exclusive := 1 |>) h) in H3 as [Hb3 Hlive]; try done; [|lia|congruence].
  srun H1 as st w4 H4. injection H1 as _ <-. by eapply add_intra_building.
Qed.

Lemma rule_building t n eq g w u w' : building t n w ->
  (do rule <- create_rule (Some eq); upd_target t (g rule)) w = Ret (u, w') ->
  (forall r w1 tg, target_wired w1 tg -> target_wired w1 (g r tg)) ->
  (forall r tg, tg_back_handler_count (g r tg) = tg_back_handler_count tg) -> building t n w'.
Proof.
  intros Hb H1 Hg Hc. srun H1 as rule w1 H2. apply (building_rule t n) in H2 as (Hb1 & _ & _); [|done].
  eapply building_update; [exact Hb1|exact H1|]. intros tg Htw Hn. rewrite Hc. auto.
Qed.

Lemma rule_action_building t n r w u w' : building t n w -> n + 2 < 2 ^ 32 ->
  rule_action t r w = Ret (u, w') -> building t (n + 2) w'.
Proof.
  intros Hb Hlt H1. destruct r as [lc eq|eq|lc eq|ip lc eq|eq|eq].
  1: eapply building_le; [by eapply front_building|lia].
  2: by eapply back_building.
  2: eapply building_le; [by eapply internal_building|lia].
  all: apply (building_le t n); [|lia]; eapply rule_building; [exact Hb|exact H1| |done];
    by intros r w1 tg [F B I N R C]; split.
Qed.

Lemma rule_actions_building l t n w u w' : building t n w -> n + 2 * Z.of_nat (length l) < 2 ^ 32 ->
  rule_actions t l w = Ret (u, w') -> building t (n + 2 * Z.of_nat (length l)) w'.
Proof.
  revert n w. induction l as [|r l IH]; intros n w Hb Hlt H1; cbn [Config.rule_actions] in H1.
  - injection H1 as _ <-. cbn [length]. by apply (building_le t n); [|lia].
  - cbn [length] in Hlt |- *. srun H1 as v w1 H2. apply (rule_action_building t n) in H2; [|done|lia].
    eapply IH in H1; [|exact H2|lia]. eapply building_le; [exact H1|lia].
Qed.

(** * The statements of a file *)

Lemma wired_fresh_target w : wired w -> building (w_next w) 0
  (w <| w_next := Pos.succ (w_next w) |> <| w_targets := <[w_next w := target_zero]> (w_targets w) |>).
Proof.
  intros Hw. split.
  - pose proof (wired_target _ (w_next w) target_zero (wired_malloc w Hw)) as H. refine (H _ _); [simpl; lia|by split].
  - exists target_zero. simpl. rewrite lookup_insert_eq. split; [done|simpl; lia].
Qed.

Lemma add_target_wired t w r w' : wired w -> add_target (Some t) w = Ret (r, w') -> wired w'.
Proof.
  intros Hw H1. unfold add_target in H1. srun H1 as v w1 H2. injection H2 as _ <-. srun H1 as id w1 H2. injection H2 as <- <-.
  srun H1 as v2 w2 H2. assert (Hw2 : wired w2 /\ live (w_targets w2) t).
  { unfold upd_target in H2. srun H2 as tg w3 H3. unfold get_target in H3. apply deref_Ret_inv in H3 as (b & [= <-] & E & ->).
    injection H2 as _ <-. simpl. split; [|unfold live; by rewrite lookup_insert_eq].
    set (w1 := w <| target_counter := s64 (target_counter w + 1) |>).
    assert (Hw1 : wired w1) by (by apply (wired_frame w)).
    refine (wired_target w1 t _ Hw1 _ _); [by apply (wi_fresh_t _ Hw); exists tg|].
    destruct (wi_wired _ Hw1 _ _ E) as [F B I N R C]. by split. }
  srun H1 as ts w3 H3. injection H3 as <- <-. destruct (targets w2 !! _); [injection H1 as _ <-; by apply Hw2|].
  srun H1 as v3 w3 H3. injection H1 as _ <-. injection H3 as _ <-. destruct Hw2. by apply wired_registered.
Qed.

Lemma target_action_wired r rules w u w' : wired w -> 2 * Z.of_nat (length rules) < 2 ^ 32 ->
  target_action r rules w = Ret (u, w') -> wired w'.
Proof.
  intros Hw Hlt H1. unfold Config.target_action in H1. srun H1 as hw w1 H2. apply slift_Ret_inv in H2 as [_ ->].
  srun H1 as src w1 H2. apply slift_Ret_inv in H2 as [_ ->]. srun H1 as t w1 H2. injection H2 as <- <-.
  srun H1 as v0 w1 H2. injection H2 as _ <-. pose proof (wired_fresh_target w Hw) as Hb.
  srun H1 as v w1 H2. apply (rule_actions_building rules (w_next w) 0) in H2; [|exact Hb|lia]. clear Hb.
  srun H1 as v2 w2 H3. srun H1 as st w3 H4. injection H1 as _ <-. eapply add_target_wired; [|exact H4].
  destruct r as [r|]; [|injection H3 as _ <-; by apply H2].
  srun H3 as i w4 H5. apply link_of_inv in H5 as [Hl ->]. srun H3 as ifc w4 H5. unfold get_iface in H5.
  apply deref_Ret_inv in H5 as (b & [= <-] & Ei & ->). srun H3 as v3 w4 H5. injection H5 as _ <-.
  set (w2' := w1 <| w_ifaces := <[i := ifc <| if_target := Some (w_next w) |>]> (w_ifaces w1) |>) in H3.
  assert (Hb : building (w_next w) (2 * Z.of_nat (length rules)) w2').
  { destruct H2 as (Hw1 & tg & Ht & Hc). split; [|exists tg; split; [done|lia]]. apply wired_iface; [done|].
    intros t' [= <-]. by exists tg. }
  apply (building_update _ _ (2 * Z.of_nat (length rules)) _ _ _ _ Hb H3).
  intros tg Htw Hc. split; [|done]. assert (Hi : live (w_ifaces w2') i) by (unfold w2', live; simpl; by rewrite lookup_insert_eq).
  destruct Htw as [F B I N R C]. split; try done. by intros j [= <-].
Qed.

Lemma link_wired tag l w u w' : wired w -> link tag l w = Ret (u, w') -> wired w'.
Proof.
  intros Hw H1. unfold link in H1. srun H1 as i w1 H2. apply slift_Ret_inv in H2 as [Hi ->].
  srun H1 as a w1 H2. injection H2 as <- <-. srun H1 as v w1 H2. injection H2 as _ <-.
  srun H1 as ls w1 H2. injection H2 as <- <-. simpl in H1. destruct (links w !! tag); [done|]. injection H1 as _ <-.
  set (w1 := w <| w_next := Pos.succ (w_next w) |>).
  assert (Hw1 : wired w1) by exact (wired_malloc w Hw).
  pose proof (wired_iface w1 (w_next w) (i <| if_tag := tag |>) Hw1) as Hw2.
  refine (wired_linked _ tag (w_next w) (Hw2 _) _); [|unfold live; simpl; by rewrite lookup_insert_eq].
  intros t Ht. exfalso. simpl in Ht. clear -Hi Ht.
  assert (Hn : forall l j, if_target j = None -> link_settings j l = Ret i -> if_target i = None).
  { clear. induction l as [|s l IH]; intros j Hj H; cbn [link_settings] in H; [by injection H as <-|].
    orun H as j' Hs. apply IH in H; [done|]. unfold link_setting_action in Hs.
    destruct s; repeat case_match; simplify_eq; done. }
  rewrite (Hn l interface_zero eq_refl Hi) in Ht. done.
Qed.

(** The statements of a target are few enough for its backends to have distinct
    numbers of 32 bits; its modules leave the connections alone. *)
Definition modest (c : config_item) : Prop :=
  match c with TARGET _ rules => 2 * Z.of_nat (length rules) < 2 ^ 32 | _ => True end.
Definition confined_item (c : config_item) : bool :=
  match c with
  | MODULE _ l =>
    match module_settings addr_pton_ip addr_ntoa ∅ l with
    | Ret t =>
      match t !! "function"%string with
      | Some (CBlock bs) => match get_module (c_string bs) with Ret (Some f) => confined f | _ => true end
      | _ => true
      end
    | Fault _ => true
    end
  | _ => true
  end.

Lemma config_action_wired c w u w' : wired w -> modest c -> config_action c w = Ret (u, w') -> wired w'.
Proof.
  intros Hw Hm H1. destruct c as [l|tag l|name l|r rules]; cbn [Config.config_action] in H1.
  - assert (Hk : keeps (fun w w' => wired w -> wired w') (parameters addr_pton_ip addr_ntoa l)); [|by apply Hk in H1; auto].
    clear. induction l as [|p l IH]; cbn [parameters]; [by apply keeps_sret; intros w|].
    apply keeps_sbind; [by intros w1 w2 w3 ?? ?; auto| |by intros _]. intros w u w' H1 Hw. unfold parameter in H1.
    srun H1 as v w1 H2. apply slift_Ret_inv in H2 as [_ ->]. injection H1 as _ <-. by apply (wired_frame w).
  - by eapply link_wired.
  - unfold module_action in H1. srun H1 as t w1 H2. apply slift_Ret_inv in H2 as [_ ->]. srun H1 as v w1 H2.
    injection H2 as _ <-. destruct (t !! _); [|done]. destruct (t !! _); [done|]. injection H1 as _ <-. by apply (wired_frame w).
  - by eapply target_action_wired.
Qed.

(** * No connection yet *)

(** The settings [init_variables] reads. *)
Definition settings (w : world) : Z * Z * Z * Z * bool :=
  (max_packet_buffer w, deny_hih_init w, reset_ext w, exclusive_hih w, broadcast_allowed w).

(** What the configuration leaves alone. *)
Definition same_conns (w w' : world) : Prop :=
  settings w' = settings w /\
  w_conns w' = w_conns w /\ ext_tree1 w' = ext_tree1 w /\ ext_tree2 w' = ext_tree2 w /\ int_tree1 w' = int_tree1 w /\
  int_tree2 w' = int_tree2 w /\ intra_tree1 w' = intra_tree1 w /\ intra_tree2 w' = intra_tree2 w.
#[export] Instance same_conns_refl : Reflexive same_conns.
Proof. by intros w. Qed.
#[export] Instance same_conns_trans : Transitive same_conns.
Proof. intros w1 w2 w3. unfold same_conns. intros (?&?&?&?&?&?&?&?) (?&?&?&?&?&?&?&?). repeat split; congruence. Qed.

(** Both: connections and the confinement of rules. *)
Definition settling (w w' : world) : Prop := same_conns w w' /\ confining w w'.
#[export] Instance settling_refl : Reflexive settling.
Proof. by split. Qed.
#[export] Instance settling_trans : Transitive settling.
Proof. intros w1 w2 w3 [] []. by split; etrans. Qed.

Lemma settling_smodify g : (forall w, same_conns w (g w)) -> (forall w, w_nodes (g w) = w_nodes w) ->
  (forall w, modules (g w) = modules w) -> keeps settling (smodify g).
Proof.
  intros Hs Hn Hm. apply keeps_smodify. intros w. split; [done|]. intros Hcm Hr. split.
  - intros name t bs f. rewrite Hm. apply Hcm.
  - intros a n f. rewrite Hn. apply Hr.
Qed.

Lemma settling_create eq : keeps settling (create_rule eq).
Proof.
  intros w r w' H1. split; [|by eapply confining_create]. apply laid_create in H1 as [E _]. by rewrite E.
Qed.

Lemma settling_free_node a : keeps settling (free_node_block a).
Proof.
  apply keeps_free_in. intros w. split; [done|]. intros Hm Hr. split; [done|]. intros b n f Hb. simpl in Hb.
  rewrite lookup_delete_Some in Hb. by apply (Hr b n f), Hb.
Qed.

Lemma settling_malloc : keeps settling malloc.
Proof. by intros w a w' [= _ <-]. Qed.
Lemma settling_put_handler a h : keeps settling (put_handler a h).
Proof. by apply settling_smodify. Qed.
Lemma settling_put_target a h : keeps settling (put_target a h).
Proof. by apply settling_smodify. Qed.
Lemma settling_put_iface a h : keeps settling (put_iface a h).
Proof. by apply settling_smodify. Qed.
Hint Resolve settling_create settling_free_node settling_malloc settling_put_handler settling_put_target settling_put_iface : keeps.

Lemma settling_destroy fuel r : keeps settling (DE_destroy_tree fuel r).
Proof.
  revert r. induction fuel as [|fuel IH]; intros r; cbn [DE_destroy_tree]; [apply keeps_sfault|].
  assert (forall r, keeps settling (DE_destroy_tree fuel r)) by apply IH. unfold get_node. keeps_tac.
Qed.
Lemma settling_free_handler h : keeps settling (free_handler h).
Proof.
  pose proof settling_destroy. unfold free_handler, destroy_rule, get_handler. keeps_tac.
  unfold free_handler_block. apply keeps_free_in. intros w. by repeat split.
Qed.
Hint Resolve settling_free_handler : keeps.

Lemma settling_upd_target t g : keeps settling (upd_target t g).
Proof. unfold upd_target, get_target. keeps_tac. Qed.
Lemma settling_link_of tag : keeps settling (link_of tag).
Proof. unfold link_of. keeps_tac. Qed.
Hint Resolve settling_upd_target settling_link_of : keeps.
Lemma settling_add_back t h : keeps settling (add_back_handler t h).
Proof. unfold add_back_handler, get_target, get_handler. keeps_tac. Qed.
Lemma settling_add_intra t ip h : keeps settling (add_intra_handler t ip h).
Proof. unfold add_intra_handler, get_target, get_handler. keeps_tac. Qed.
Lemma settling_add_target t : keeps settling (add_target t).
Proof. unfold add_target. keeps_tac; by apply settling_smodify. Qed.
Hint Resolve settling_add_back settling_add_intra settling_add_target : keeps.

Lemma settling_rule_actions t l : keeps settling (rule_actions t l).
Proof.
  induction l as [|r l IH]; cbn [Config.rule_actions]; [apply keeps_sret, _|].
  assert (keeps settling (rule_action t r)); [|keeps_tac].
  unfold Config.rule_action, get_target. destruct r; keeps_tac.
Qed.
Hint Resolve settling_rule_actions : keeps.

Lemma config_action_settling c w u w' : config_action c w = Ret (u, w') ->
  same_conns w w' /\ (confined_item c = true -> settling w w').
Proof.
  intros H1. assert (Hs : settling w w' -> same_conns w w' /\ (confined_item c = true -> settling w w')).
  { intros Hs. split; [apply Hs|done]. }
  destruct c as [l|tag l|name l|r rules]; cbn [Config.config_action] in H1.
  - apply Hs. assert (Hk : keeps settling (parameters addr_pton_ip addr_ntoa l)); [|by apply Hk in H1].
    clear. induction l as [|p l IH]; cbn [parameters]; [apply keeps_sret, _|]. unfold parameter. keeps_tac.
    by apply settling_smodify.
  - apply Hs. assert (Hk : keeps settling (link tag l)); [|by apply Hk in H1]. unfold link. keeps_tac.
    by apply settling_smodify.
  - clear Hs. unfold module_action in H1. srun H1 as t w1 H2. apply slift_Ret_inv in H2 as [Ht ->]. srun H1 as v w1 H2.
    injection H2 as _ <-. destruct (t !! _); [|done]. destruct (t !! "backup"%string); [done|]. injection H1 as _ <-.
    split; [done|]. intros Hc. split; [done|]. intros Hm Hr. split; [|done]. intros name' t' bs f Hn Hf Hg. simpl in Hn.
    destruct (decide (name = name')) as [<-|].
    + rewrite lookup_insert_eq in Hn. injection Hn as <-. simpl in Hc. by rewrite Ht, Hf, Hg in Hc.
    + rewrite lookup_insert_ne in Hn by done. by eapply Hm.
  - apply Hs. assert (Hk : keeps settling (target_action r rules)); [|by apply Hk in H1].
    unfold Config.target_action, get_iface. keeps_tac.
Qed.

(** Whatever the configuration says, the settings stay those of
    [init_variables]. *)
Lemma configuration_same l : keeps same_conns (configuration l).
Proof.
  induction l as [|c l IH]; cbn [Config.configuration]; [apply keeps_sret, _|].
  apply keeps_sbind; [apply _| |by intros _]. intros w u w' H1. by apply config_action_settling in H1 as [? _].
Qed.

(** A configuration from a state without connections. *)
Lemma configuration_ok l w u w' :
  Forall modest l -> Forall (fun c => confined_item c = true) l -> wired w ->
  configuration l w = Ret (u, w') -> wired w' /\ settling w w'.
Proof.
  intros Hm Hc. revert w. induction Hm as [|c l Hc1 Hm IH]; intros w Hw H1; cbn [Config.configuration] in H1.
  - by injection H1 as _ <-.
  - apply Forall_cons in Hc as [Hcc Hc]. srun H1 as v w1 H2. destruct (config_action_settling _ _ _ _ H2) as [_ Hs]. specialize (Hs Hcc).
    apply config_action_wired in H2; [|done|done]. destruct (IH Hc _ H2 H1) as [Hw' Hs']. split; [done|by etrans].
Qed.

(** * The numbers of the backends *)

(** The number a statement gives, and the count it leaves: a backend with a rule
    counts twice, once in the action of the grammar and once in
    [add_back_handler]. *)
Definition backend_number (c : Z) (r : rule_item) : list Z * Z :=
  match r with
  | BACKEND _ None => ([c + 1], c + 1)
  | BACKEND _ (Some _) => ([c + 2], c + 2)
  | _ => ([], c)
  end.
Fixpoint backend_numbers (c : Z) (l : list rule_item) : list Z * Z :=
  match l with
  | [] => ([], c)
  | r :: l => let '(new, c1) := backend_number c r in let '(rest, c2) := backend_numbers c1 l in (new ++ rest, c2)
  end.

(** The numbers of the backends of [t] are [ids], its count is [c]. *)
Definition numbered (t : ptr) (ids : list Z) (c : Z) (w : world) : Prop :=
  exists tg, w_targets w !! t = Some tg /\ tg_back_handler_count tg = c /\
    (forall k, is_Some (tg_back_handlers tg !! k) <-> k ∈ ids).

Definition same_backs (t : ptr) (w w' : world) : Prop :=
  forall tg, w_targets w !! t = Some tg -> exists tg', w_targets w' !! t = Some tg' /\
    tg_back_handlers tg' = tg_back_handlers tg /\ tg_back_handler_count tg' = tg_back_handler_count tg.
#[local] Instance same_backs_refl t : Reflexive (same_backs t).
Proof. intros w tg Ht. by exists tg. Qed.
#[local] Instance same_backs_trans t : Transitive (same_backs t).
Proof.
  intros w1 w2 w3 H1 H2 tg Ht. destruct (H1 _ Ht) as (tg1 & Ht1 & E1 & C1). destruct (H2 _ Ht1) as (tg2 & Ht2 & E2 & C2).
  exists tg2. split; [done|]. split; congruence.
Qed.

Lemma numbered_backs t ids c w w' : same_backs t w w' -> numbered t ids c w -> numbered t ids c w'.
Proof.
  intros Hs (tg & Ht & Hc & Hk). destruct (Hs _ Ht) as (tg' & Ht' & Eb & Ec). exists tg'. rewrite Eb, Ec. done.
Qed.

Lemma backs_create t eq : keeps (same_backs t) (create_rule eq).
Proof. intros w r w' H1. apply laid_create in H1 as [E _]. rewrite E. intros tg Ht. by exists tg. Qed.
Lemma backs_malloc t : keeps (same_backs t) malloc.
Proof. intros w a w' [= _ <-] tg Ht. by exists tg. Qed.
Lemma backs_put_handler t a h : keeps (same_backs t) (put_handler a h).
Proof. apply keeps_smodify. intros w tg Ht. by exists tg. Qed.
Lemma backs_link_of t tag : keeps (same_backs t) (link_of tag).
Proof. unfold link_of. keeps_tac. Qed.
Lemma backs_upd t g : (forall tg, tg_back_handlers (g tg) = tg_back_handlers tg) ->
  (forall tg, tg_back_handler_count (g tg) = tg_back_handler_count tg) -> keeps (same_backs t) (upd_target t g).
Proof.
  intros Hb Hc w u w' H1 tg Ht. unfold upd_target in H1. rewrite (sbind_eq _ _ _ _ _ (deref_ok w_targets t tg w Ht)) in H1.
  injection H1 as _ <-. exists (g tg). simpl. by rewrite lookup_insert_eq.
Qed.
Lemma backs_add_intra t ip h : keeps (same_backs t) (add_intra_handler (Some t) ip h).
Proof.
  unfold add_intra_handler. destruct h as [h|]; [|apply keeps_sret, _]. unfold get_handler.
  apply keeps_sbind; [apply _|apply keeps_deref', _|]. intros hd.
  destruct (hd_iface hd), (hd_ip hd), (hd_mac hd); try apply keeps_sret, _.
  intros w r w' H1 tg Ht. rewrite (sbind_eq _ _ _ _ _ (deref_ok w_targets t tg w Ht)) in H1.
  srun H1 as found w1 H2. apply slift_Ret_inv in H2 as [_ ->]. destruct found; [injection H1 as _ <-; by exists tg|].
  srun H1 as u w1 H2. injection H2 as _ <-. srun H1 as v w1 H2. injection H1 as _ <-. injection H2 as _ <-.
  eexists. simpl. rewrite lookup_insert_eq. split; [done|]. by destruct ip.
Qed.
Hint Resolve backs_create backs_malloc backs_put_handler backs_link_of backs_add_intra : keeps.
Hint Extern 1 (keeps (same_backs _) (upd_target _ _)) => by apply backs_upd : keeps.

Lemma numbered_add t ids c h w r w' : numbered t ids c w -> (forall k, k ∈ ids -> 1 <= k <= c) -> 0 <= c < 2 ^ 32 - 1 ->
  add_back_handler (Some t) (Some h) w = Ret (r, w') -> numbered t (c + 1 :: ids) (c + 1) w'.
Proof.
  intros (tg & Ht & Hc & Hk) Hids Hlt H1. unfold add_back_handler in H1.
  rewrite (sbind_eq _ _ _ _ _ (deref_ok w_targets t tg w Ht)) in H1. srun H1 as hd w1 H2. unfold get_handler in H2.
  apply deref_Ret_inv in H2 as (b & _ & _ & ->). rewrite Hc, s64_small, u32_small in H1 by lia.
  assert (Hnone : tg_back_handlers tg !! (c + 1) = None).
  { apply eq_None_not_Some. intros Hl. apply Hk, Hids in Hl. lia. }
  rewrite Hnone in H1. srun H1 as u w1 H2. injection H2 as _ <-. srun H1 as u' w1 H2. injection H2 as _ <-.
  srun H1 as u2 w1 H2. injection H1 as _ <-. injection H2 as _ <-. eexists. simpl. rewrite lookup_insert_eq.
  split; [done|]. split; [done|]. intros k. simpl. rewrite lookup_insert_is_Some', elem_of_cons. rewrite <- (Hk k).
  split; intros [?|?]; auto.
Qed.

Lemma elem_backend_numbers l c k : k ∈ (backend_numbers c l).1 -> c < k <= (backend_numbers c l).2.
Proof.
  revert c. induction l as [|r l IH]; intros c Hk; [by apply elem_of_nil in Hk|]. simpl in *.
  destruct (backend_number c r) as [new c1] eqn:E. specialize (IH c1). destruct (backend_numbers c1 l) as [rest c2] eqn:E2.
  simpl in *. assert (Hc1 : c <= c1 /\ c1 <= c2).
  { split; [by destruct r as [| |? []| | |]; injection E as <- <-; lia|]. clear -E2. revert c1 rest c2 E2.
    induction l as [|r l IH]; intros c1 rest c2 E2; simpl in E2; [injection E2 as <- <-; lia|].
    destruct (backend_number c1 r) as [n1 c3] eqn:E1. destruct (backend_numbers c3 l) as [r2 c4] eqn:E3.
    injection E2 as <- <-. apply IH in E3. destruct r as [| |? []| | |]; injection E1 as <- <-; lia. }
  apply elem_of_app in Hk as [Hk|Hk]; [|apply IH in Hk; lia].
  destruct r as [| |? []| | |]; injection E as <- <-; apply elem_of_cons in Hk as [->|Hk] || idtac;
    try (by apply elem_of_nil in Hk); lia.
Qed.

Lemma backend_number_le c r : c <= (backend_number c r).2 <= c + 2.
Proof. destruct r as [| |? []| | |]; simpl; lia. Qed.

Lemma rule_action_numbered t ids c r w u w' : numbered t ids c w -> (forall k, k ∈ ids -> 1 <= k <= c) ->
  0 <= c < 2 ^ 32 - 2 -> rule_action t r w = Ret (u, w') ->
  numbered t ((backend_number c r).1 ++ ids) (backend_number c r).2 w'.
Proof.
  intros Hn Hids Hlt H1.
  assert (Hkeep : keeps (same_backs t) (rule_action t r) -> backend_number c r = ([], c) ->
    numbered t ((backend_number c r).1 ++ ids) (backend_number c r).2 w').
  { intros Hk ->. apply Hk in H1. simpl. by eapply numbered_backs. }
  destruct r as [lc eq|eq|lc eq|ip lc eq|eq|eq].
  1, 2, 4, 5, 6: apply Hkeep; [cbn [Config.rule_action]; keeps_tac|done].
  clear Hkeep. destruct eq as [eq|]; cbn [Config.rule_action] in H1; srun H1 as h w1 H2; apply slift_Ret_inv in H2 as [_ ->].
  - srun H1 as i w1 H2. apply link_of_inv in H2 as [_ ->]. srun H1 as bh w1 H2.
    apply backs_malloc with (t := t) in H2. apply (numbered_backs _ _ _ _ _ H2) in Hn. srun H1 as v w2 H3.
    assert (Hn2 : numbered t ids (c + 1) w2).
    { destruct Hn as (tg & Ht & Hc & Hk). unfold upd_target in H3.
      rewrite (sbind_eq _ _ _ _ _ (deref_ok w_targets t tg w1 Ht)) in H3. injection H3 as _ <-. eexists. simpl.
      rewrite lookup_insert_eq. split; [done|]. simpl. rewrite Hc, s64_small by lia. done. }
    srun H1 as tg w3 H4. unfold get_target in H4. apply deref_Ret_inv in H4 as (b & _ & _ & ->).
    srun H1 as rule w3 H4. apply backs_create with (t := t) in H4. srun H1 as v2 w4 H5.
    apply backs_put_handler with (t := t) in H5. srun H1 as st w5 H6. injection H1 as _ <-.
    apply (numbered_backs _ _ _ _ _ H4), (numbered_backs _ _ _ _ _ H5) in Hn2. simpl. replace (c + 2) with (c + 1 + 1) by lia.
    eapply numbered_add; [exact Hn2| |lia|exact H6]. intros k Hk. specialize (Hids k Hk). lia.
  - srun H1 as tg w3 H4. unfold get_target in H4. apply deref_Ret_inv in H4 as (b & _ & _ & ->).
    destruct (tg_back_picker tg); [|done]. srun H1 as i w1 H2. apply link_of_inv in H2 as [_ ->]. srun H1 as bh w1 H2.
    apply backs_malloc with (t := t) in H2. srun H1 as v2 w4 H5. apply backs_put_handler with (t := t) in H5.
    srun H1 as st w5 H6. injection H1 as _ <-. apply (numbered_backs _ _ _ _ _ H2), (numbered_backs _ _ _ _ _ H5) in Hn.
    simpl. eapply numbered_add; [exact Hn|exact Hids|lia|exact H6].
Qed.

Lemma rule_actions_numbered l t ids c w u w' : numbered t ids c w -> (forall k, k ∈ ids -> 1 <= k <= c) ->
  0 <= c -> c + 2 * Z.of_nat (length l) < 2 ^ 32 - 2 -> rule_actions t l w = Ret (u, w') ->
  exists ids', numbered t ids' (backend_numbers c l).2 w' /\
    forall k, k ∈ ids' <-> k ∈ ids \/ k ∈ (backend_numbers c l).1.
Proof.
  revert ids c w. induction l as [|r l IH]; intros ids c w Hn Hids Hc Hlt H1; cbn [Config.rule_actions] in H1.
  - injection H1 as _ <-. exists ids. simpl. split; [done|]. intros k. rewrite elem_of_nil. tauto.
  - cbn [length] in Hlt. srun H1 as v w1 H2. apply (rule_action_numbered t ids c) in H2; [|done|done|lia].
    pose proof (backend_number_le c r) as Hle. cbn [backend_numbers]. destruct (backend_number c r) as [new c1] eqn:Er.
    simpl in H2, Hle. destruct (IH _ c1 _ H2) as (ids' & Hn' & Hk'); [|lia|lia|exact H1|].
    + intros k [Hk|Hk]%elem_of_app; [|specialize (Hids k Hk); lia].
      pose proof (elem_backend_numbers [r] c k) as He. cbn [backend_numbers] in He. rewrite Er in He. simpl in He.
      rewrite app_nil_r in He. specialize (He Hk). lia.
    + destruct (backend_numbers c1 l) as [rest c2]. simpl in *. exists ids'. split; [done|]. intros k.
      rewrite Hk', !elem_of_app. tauto.
Qed.
End Statements.
