(* ===== verification/Grammar.v ===== *)
(** The grammar of the configuration ([config_rules.y]): its productions, as
    relations between tokens and statements, and a parser for it.

    bison generates a shift-reduce parser that runs the actions of [Config] as it
    goes; a syntax error ends the program.  Here the tokens are parsed first:
    [parse] gives the statements of a file that has no syntax error. *)
From S2P Require Import Prelude Mem CString Types World Samples Keys Checksum TcpOptions Packet Netcode.
From S2P Require Import Connections ConnTrees Redirect DecisionEngine DecisionTrees Management.
From S2P Require Import Lexer Config.

(** * Productions *)

(** A non-terminal that repeats another, on its left. *)
Inductive repeated {A} (R : list token -> A -> Prop) : list token -> list A -> Prop :=
  | repeated_nil : repeated R [] []
  | repeated_snoc ts l t x : repeated R ts l -> R t x -> repeated R (ts ++ t) (l ++ [x]).

(** Each production gives the tokens up to the delimiter that ends it. *)
Inductive parameter_prod : list token -> string * setting -> Prop :=
  | parameter_word k v : parameter_prod [Tok.WORD k; Tok.EQ; Tok.WORD v; Tok.SEMICOLON] (k, SText v)
  | parameter_expr k v : parameter_prod [Tok.WORD k; Tok.EQ; Tok.EXPR v; Tok.SEMICOLON] (k, SText v)
  | parameter_number k n : parameter_prod [Tok.WORD k; Tok.EQ; Tok.NUMBER n; Tok.SEMICOLON] (k, SNumber n)
  | parameter_addr k s :
      parameter_prod [Tok.WORD k; Tok.EQ; Tok.QUOTE; Tok.EXPR s; Tok.QUOTE; Tok.SEMICOLON] (k, SAddr s).

(** The tokens of an equation, as they are appended to its text. *)
Inductive equation_prod : list token -> string -> Prop :=
  | equation_word s : equation_prod [Tok.WORD s] s
  | equation_number n : equation_prod [Tok.NUMBER n] (byte_string (print_d n))
  | equation_expr s : equation_prod [Tok.EXPR s] s
  | equation_eq : equation_prod [Tok.EQ] "=".

Inductive link_prod : list token -> link_setting -> Prop :=
  | link_name k v : link_prod [Tok.WORD k; Tok.EQ; Tok.QUOTE; Tok.WORD v; Tok.QUOTE; Tok.SEMICOLON] (LinkName k v)
  | link_number k n : link_prod [Tok.WORD k; Tok.EQ; Tok.NUMBER n; Tok.SEMICOLON] (LinkNumber k n)
  | link_filter eq l : repeated equation_prod eq l ->
      link_prod ([Tok.FILTER; Tok.EQ; Tok.QUOTE] ++ eq ++ [Tok.QUOTE; Tok.SEMICOLON]) (LinkFilter (equation l)).

Inductive module_prod : list token -> string * setting -> Prop :=
  | module_word k v : module_prod [Tok.WORD k; Tok.EQ; Tok.WORD v; Tok.SEMICOLON] (k, SText v)
  | module_expr k v : module_prod [Tok.WORD k; Tok.EQ; Tok.EXPR v; Tok.SEMICOLON] (k, SText v)
  | module_number k n : module_prod [Tok.WORD k; Tok.EQ; Tok.NUMBER n; Tok.SEMICOLON] (k, SNumber n).

Inductive netmask_prod : list token -> string -> Prop :=
  | netmask_expr s : netmask_prod [Tok.NETMASK; Tok.EXPR s] s.
Inductive vlan_prod : list token -> Z -> Prop :=
  | vlan_number n : vlan_prod [Tok.VLAN; Tok.NUMBER n] n.

(** [honeynet mac netmask vlan], and the end of a statement with or without an
    equation. *)
Inductive place_prod (link : string) : list token -> location -> Prop :=
  | place_of ip m nts nl vts vl : repeated netmask_prod nts nl -> repeated vlan_prod vts vl ->
      place_prod link ([Tok.EXPR ip; Tok.HW; Tok.EXPR m] ++ nts ++ vts) (Location link ip m nl vl).
Inductive rule_end : list token -> option string -> Prop :=
  | end_plain : rule_end [Tok.SEMICOLON] None
  | end_equation eq l : repeated equation_prod eq l ->
      rule_end ([Tok.QUOTE] ++ eq ++ [Tok.QUOTE; Tok.SEMICOLON]) (Some (equation l)).

Inductive rule_prod : list token -> rule_item -> Prop :=
  | rule_frontend lk p lc e eq : place_prod lk p lc -> rule_end e eq ->
      rule_prod ([Tok.FRONTEND; Tok.QUOTE; Tok.WORD lk; Tok.QUOTE] ++ p ++ e) (FRONTEND lc eq)
  | rule_backpick e l : repeated equation_prod e l ->
      rule_prod ([Tok.BACKPICK; Tok.QUOTE] ++ e ++ [Tok.QUOTE; Tok.SEMICOLON]) (BACKPICK (equation l))
  | rule_backend lk p lc e eq : place_prod lk p lc -> rule_end e eq ->
      rule_prod ([Tok.BACKEND; Tok.QUOTE; Tok.WORD lk; Tok.QUOTE] ++ p ++ e) (BACKEND lc eq)
  | rule_internal lk ip p lc e eq : place_prod lk p lc -> rule_end e eq ->
      rule_prod ([Tok.INTERNAL; Tok.QUOTE; Tok.WORD lk; Tok.QUOTE; Tok.EXPR ip; Tok.WITH] ++ p ++ e) (INTERNAL ip lc eq)
  | rule_internet e l : repeated equation_prod e l ->
      rule_prod ([Tok.INTERNET; Tok.QUOTE] ++ e ++ [Tok.QUOTE; Tok.SEMICOLON]) (INTERNET (equation l))
  | rule_intralan e l : repeated equation_prod e l ->
      rule_prod ([Tok.INTRALAN; Tok.QUOTE] ++ e ++ [Tok.QUOTE; Tok.SEMICOLON]) (INTRALAN (equation l)).

Inductive route_prod : list token -> option route -> Prop :=
  | route_none : route_prod [Tok.TARGET] None
  | route_mac lk m :
      route_prod [Tok.TARGET; Tok.DEFAULT; Tok.ROUTE; Tok.VIA; Tok.QUOTE; Tok.WORD lk; Tok.QUOTE; Tok.HW; Tok.EXPR m]
        (Some (Route lk m None))
  | route_src lk m s :
      route_prod [Tok.TARGET; Tok.DEFAULT; Tok.ROUTE; Tok.VIA; Tok.QUOTE; Tok.WORD lk; Tok.QUOTE; Tok.HW; Tok.EXPR m;
                  Tok.SRC; Tok.EXPR s]
        (Some (Route lk m (Some s))).

Inductive item_prod : list token -> config_item -> Prop :=
  | item_config ts l : repeated parameter_prod ts l ->
      item_prod ([Tok.CONFIGURATION; Tok.OPEN] ++ ts ++ [Tok.END]) (CONFIGURATION l)
  | item_link tag ts l : repeated link_prod ts l ->
      item_prod ([Tok.LINK; Tok.QUOTE; Tok.WORD tag; Tok.QUOTE; Tok.OPEN] ++ ts ++ [Tok.END]) (LINK tag l)
  | item_module name ts l : repeated module_prod ts l ->
      item_prod ([Tok.MODULE; Tok.QUOTE; Tok.WORD name; Tok.QUOTE; Tok.OPEN] ++ ts ++ [Tok.END]) (MODULE name l)
  | item_target r route ts l : route_prod r route -> repeated rule_prod ts l ->
      item_prod (r ++ [Tok.OPEN] ++ ts ++ [Tok.END]) (TARGET route l).

(** * The parser *)

(** A parser reads from the front of the tokens, or fails. *)
Definition parser (A : Type) : Type := list token -> option (A * list token).

Fixpoint many_fuel {A} (p : parser A) (fuel : nat) (ts : list token) : list A * list token :=
  match fuel with
  | O => ([], ts)
  | S fuel =>
    match p ts with
    | Some (x, ts) => let '(l, ts) := many_fuel p fuel ts in (x :: l, ts)
    | None => ([], ts)
    end
  end.
Definition many {A} (p : parser A) (ts : list token) : list A * list token := many_fuel p (length ts) ts.

Definition parse_parameter : parser (string * setting) := fun ts =>
  match ts with
  | Tok.WORD k :: Tok.EQ :: Tok.WORD v :: Tok.SEMICOLON :: ts => Some ((k, SText v), ts)
  | Tok.WORD k :: Tok.EQ :: Tok.EXPR v :: Tok.SEMICOLON :: ts => Some ((k, SText v), ts)
  | Tok.WORD k :: Tok.EQ :: Tok.NUMBER n :: Tok.SEMICOLON :: ts => Some ((k, SNumber n), ts)
  | Tok.WORD k :: Tok.EQ :: Tok.QUOTE :: Tok.EXPR s :: Tok.QUOTE :: Tok.SEMICOLON :: ts => Some ((k, SAddr s), ts)
  | _ => None
  end.
Definition parse_equation : parser string := fun ts =>
  match ts with
  | Tok.WORD s :: ts | Tok.EXPR s :: ts => Some (s, ts)
  | Tok.NUMBER n :: ts => Some (byte_string (print_d n), ts)
  | Tok.EQ :: ts => Some ("="%string, ts)
  | _ => None
  end.
(** An equation up to the quote, and the semicolon after it. *)
Definition quoted_equation : parser string := fun ts =>
  let '(l, ts) := many parse_equation ts in
  match ts with Tok.QUOTE :: Tok.SEMICOLON :: ts => Some (equation l, ts) | _ => None end.
Definition parse_link : parser link_setting := fun ts =>
  match ts with
  | Tok.WORD k :: Tok.EQ :: Tok.QUOTE :: Tok.WORD v :: Tok.QUOTE :: Tok.SEMICOLON :: ts => Some (LinkName k v, ts)
  | Tok.WORD k :: Tok.EQ :: Tok.NUMBER n :: Tok.SEMICOLON :: ts => Some (LinkNumber k n, ts)
  | Tok.FILTER :: Tok.EQ :: Tok.QUOTE :: ts =>
    match quoted_equation ts with Some (eq, ts) => Some (LinkFilter eq, ts) | None => None end
  | _ => None
  end.
Definition parse_module : parser (string * setting) := fun ts =>
  match ts with
  | Tok.WORD k :: Tok.EQ :: Tok.WORD v :: Tok.SEMICOLON :: ts => Some ((k, SText v), ts)
  | Tok.WORD k :: Tok.EQ :: Tok.EXPR v :: Tok.SEMICOLON :: ts => Some ((k, SText v), ts)
  | Tok.WORD k :: Tok.EQ :: Tok.NUMBER n :: Tok.SEMICOLON :: ts => Some ((k, SNumber n), ts)
  | _ => None
  end.
Definition parse_netmask : parser string := fun ts =>
  match ts with Tok.NETMASK :: Tok.EXPR s :: ts => Some (s, ts) | _ => None end.
Definition parse_vlan : parser Z := fun ts =>
  match ts with Tok.VLAN :: Tok.NUMBER n :: ts => Some (n, ts) | _ => None end.
Definition parse_end : parser (option string) := fun ts =>
  match ts with
  | Tok.SEMICOLON :: ts => Some (None, ts)
  | Tok.QUOTE :: ts => match quoted_equation ts with Some (eq, ts) => Some (Some eq, ts) | None => None end
  | _ => None
  end.
(** A place, and the end of its statement. *)
Definition parse_place (link : string) : parser (location * option string) := fun ts =>
  match ts with
  | Tok.EXPR ip :: Tok.HW :: Tok.EXPR m :: ts =>
    let '(nl, ts) := many parse_netmask ts in
    let '(vl, ts) := many parse_vlan ts in
    match parse_end ts with Some (eq, ts) => Some ((Location link ip m nl vl, eq), ts) | None => None end
  | _ => None
  end.
Definition parse_rule : parser rule_item := fun ts =>
  match ts with
  | Tok.FRONTEND :: Tok.QUOTE :: Tok.WORD lk :: Tok.QUOTE :: ts =>
    match parse_place lk ts with Some ((lc, eq), ts) => Some (FRONTEND lc eq, ts) | None => None end
  | Tok.BACKEND :: Tok.QUOTE :: Tok.WORD lk :: Tok.QUOTE :: ts =>
    match parse_place lk ts with Some ((lc, eq), ts) => Some (BACKEND lc eq, ts) | None => None end
  | Tok.INTERNAL :: Tok.QUOTE :: Tok.WORD lk :: Tok.QUOTE :: Tok.EXPR ip :: Tok.WITH :: ts =>
    match parse_place lk ts with Some ((lc, eq), ts) => Some (INTERNAL ip lc eq, ts) | None => None end
  | Tok.BACKPICK :: Tok.QUOTE :: ts =>
    match quoted_equation ts with Some (eq, ts) => Some (BACKPICK eq, ts) | None => None end
  | Tok.INTERNET :: Tok.QUOTE :: ts =>
    match quoted_equation ts with Some (eq, ts) => Some (INTERNET eq, ts) | None => None end
  | Tok.INTRALAN :: Tok.QUOTE :: ts =>
    match quoted_equation ts with Some (eq, ts) => Some (INTRALAN eq, ts) | None => None end
  | _ => None
  end.
(** What [TARGET] is followed by, up to the brace. *)
Definition parse_route : parser (option route) := fun ts =>
  match ts with
  | Tok.DEFAULT :: Tok.ROUTE :: Tok.VIA :: Tok.QUOTE :: Tok.WORD lk :: Tok.QUOTE :: Tok.HW :: Tok.EXPR m ::
      Tok.SRC :: Tok.EXPR s :: ts => Some (Some (Route lk m (Some s)), ts)
  | Tok.DEFAULT :: Tok.ROUTE :: Tok.VIA :: Tok.QUOTE :: Tok.WORD lk :: Tok.QUOTE :: Tok.HW :: Tok.EXPR m :: ts =>
    Some (Some (Route lk m None), ts)
  | ts => Some (None, ts)
  end.
(** A block of statements up to its brace. *)
Definition block {A} (p : parser A) : parser (list A) := fun ts =>
  let '(l, ts) := many p ts in match ts with Tok.END :: ts => Some (l, ts) | _ => None end.
Definition parse_item : parser config_item := fun ts =>
  match ts with
  | Tok.CONFIGURATION :: Tok.OPEN :: ts =>
    match block parse_parameter ts with Some (l, ts) => Some (CONFIGURATION l, ts) | None => None end
  | Tok.LINK :: Tok.QUOTE :: Tok.WORD tag :: Tok.QUOTE :: Tok.OPEN :: ts =>
    match block parse_link ts with Some (l, ts) => Some (LINK tag l, ts) | None => None end
  | Tok.MODULE :: Tok.QUOTE :: Tok.WORD name :: Tok.QUOTE :: Tok.OPEN :: ts =>
    match block parse_module ts with Some (l, ts) => Some (MODULE name l, ts) | None => None end
  | Tok.TARGET :: ts =>
    match parse_route ts with
    | Some (r, Tok.OPEN :: ts) =>
      match block parse_rule ts with Some (l, ts) => Some (TARGET r l, ts) | None => None end
    | _ => None
    end
  | _ => None
  end.

Definition parse (ts : list token) : option (list config_item) :=
  let '(l, ts) := many parse_item ts in if decide (ts = []) then Some l else None.

(** The text of a configuration file: its statements, or a syntax error. *)
Definition yyparse (text : list Z) : outcome (list config_item) :=
  let! ts := scan text in match parse ts with Some l => Ret l | None => Fault Exited end.
