(* ===== verification/GrammarOk.v ===== *)
(** The parser of [Grammar] accepts the language of its productions, and gives
    each file its only reading. *)
From S2P Require Import Prelude Mem CString Types World Samples Keys Checksum TcpOptions Packet Netcode.
From S2P Require Import Connections ConnTrees Redirect DecisionEngine DecisionTrees Management.
From S2P Require Import Lexer Config Grammar.

(** * Parsers of a production *)

(** A parser of a production reads the tokens of each of its instances, whatever
    comes next, and nothing else. *)
Class Parses {A} (p : parser A) (R : list token -> A -> Prop) : Prop := {
  parses_complete ts x r : R ts x -> p (ts ++ r) = Some (x, r);
  parses_sound ts x r : p ts = Some (x, r) -> exists t, ts = t ++ r /\ R t x;
  parses_nonempty x : ~ R [] x;
}.

Lemma repeated_cons {A} (R : list token -> A -> Prop) t x ts l : R t x -> repeated R ts l -> repeated R (t ++ ts) (x :: l).
Proof.
  intros Ht. induction 1 as [|ts l t' x' _ IH Ht'].
  - rewrite app_nil_r. change t with ([] ++ t). change [x] with ([] ++ [x]). by apply repeated_snoc; [constructor|].
  - rewrite app_assoc. change (x :: l ++ [x']) with ((x :: l) ++ [x']). by apply repeated_snoc.
Qed.

(** The pieces of a repetition. *)
Lemma repeated_pieces {A} (R : list token -> A -> Prop) ts l : repeated R ts l <->
  exists ps : list (list token * A), Forall (fun y => R y.1 y.2) ps /\ ts = concat (map fst ps) /\ l = map snd ps.
Proof.
  split.
  - induction 1 as [|ts l t x _ (ps & Hps & -> & ->) Ht]; [by exists []|]. exists (ps ++ [(t, x)]).
    rewrite !map_app, concat_app. cbn. rewrite app_nil_r. split; [|done]. apply Forall_app. by split; [|constructor].
  - intros (ps & Hps & -> & ->). induction Hps as [|[t x] ps Ht _ IH]; [constructor|]. by apply repeated_cons.
Qed.

Section Many.
Context {A : Type} (p : parser A) (R : list token -> A -> Prop) `{!Parses p R}.

Lemma many_fuel_sound fuel ts l r : many_fuel p fuel ts = (l, r) -> exists t, ts = t ++ r /\ repeated R t l.
Proof.
  revert ts l. induction fuel as [|fuel IH]; intros ts l; cbn [many_fuel]; [intros [= <- <-]; exists []; split; [done|constructor]|].
  destruct (p ts) as [[x ts1]|] eqn:E; [|intros [= <- <-]; exists []; split; [done|constructor]].
  destruct (many_fuel p fuel ts1) as [l1 r1] eqn:E1. intros [= <- <-]. destruct (IH _ _ E1) as (t1 & -> & Ht1).
  apply parses_sound in E as (t & -> & Ht). exists (t ++ t1). split; [by rewrite app_assoc|]. by apply repeated_cons.
Qed.
Lemma many_sound ts l r : many p ts = (l, r) -> exists t, ts = t ++ r /\ repeated R t l.
Proof. apply many_fuel_sound. Qed.

Lemma many_complete ts l r : repeated R ts l -> p r = None -> many p (ts ++ r) = (l, r).
Proof.
  intros (ps & Hps & -> & ->)%repeated_pieces Hr. unfold many.
  assert (H : forall fuel, (length (concat (map fst ps) ++ r) <= fuel)%nat ->
    many_fuel p fuel (concat (map fst ps) ++ r) = (map snd ps, r)); [|by apply H].
  induction Hps as [|[t x] ps Ht _ IH]; intros fuel Hf.
  - destruct fuel; cbn [many_fuel map concat app]; [done|]. by rewrite Hr.
  - destruct fuel as [|fuel]; cbn [map concat fst snd] in *.
    + destruct t; [by destruct (parses_nonempty x)|simpl in Hf; lia].
    + cbn [many_fuel]. rewrite <- app_assoc. rewrite (parses_complete t x) by done. rewrite IH; [done|].
      assert (length t <> 0)%nat by (destruct t; [by destruct (parses_nonempty x)|done]).
      rewrite !length_app in *. lia.
Qed.

End Many.

(** * The simple productions *)

(** A production without repetition is read token by token. *)
Ltac token_cases H :=
  repeat match type of H with
  | match ?l with _ => _ end = Some _ => destruct l eqn:?; try discriminate H; subst
  end.
Ltac simple_production p :=
  split;
  [ intros ts x r Hx; destruct Hx; reflexivity
  | intros ts x r Hp; unfold p in Hp; token_cases Hp; injection Hp as <- <-;
    (eexists; split; cycle 1; [econstructor|reflexivity])
  | intros x Hx; inversion Hx ].

#[export] Instance parameter_parses : Parses parse_parameter parameter_prod.
Proof. simple_production parse_parameter. Qed.
#[export] Instance equation_parses : Parses parse_equation equation_prod.
Proof. simple_production parse_equation. Qed.
#[export] Instance module_parses : Parses parse_module module_prod.
Proof. simple_production parse_module. Qed.
#[export] Instance netmask_parses : Parses parse_netmask netmask_prod.
Proof. simple_production parse_netmask. Qed.
#[export] Instance vlan_parses : Parses parse_vlan vlan_prod.
Proof. simple_production parse_vlan. Qed.

(** * Equations and blocks *)

Definition quoted_prod (ts : list token) (eq : string) : Prop :=
  exists e l, ts = e ++ [Tok.QUOTE; Tok.SEMICOLON] /\ repeated equation_prod e l /\ eq = equation l.
#[export] Instance quoted_parses : Parses quoted_equation quoted_prod.
Proof.
  split.
  - intros ts x r (e & l & -> & He & ->). unfold quoted_equation. rewrite <- app_assoc.
    by rewrite (many_complete parse_equation equation_prod e l).
  - intros ts x r H. unfold quoted_equation in H. destruct (many parse_equation ts) as [l ts1] eqn:E.
    destruct (many_sound parse_equation equation_prod _ _ _ E) as (e & -> & He). token_cases H. injection H as <- <-.
    exists (e ++ [Tok.QUOTE; Tok.SEMICOLON]). split; [by rewrite <- app_assoc|]. by exists e, l.
  - intros x (e & l & E & _). by destruct e.
Qed.

(** A block of statements, none of which starts with its brace. *)
Class Unbraced {A} (p : parser A) : Prop := unbraced r : p (Tok.END :: r) = None.
Definition block_prod {A} (R : list token -> A -> Prop) (ts : list token) (l : list A) : Prop :=
  exists t, ts = t ++ [Tok.END] /\ repeated R t l.
#[export] Instance block_parses {A} (p : parser A) R `{!Parses p R, !Unbraced p} : Parses (block p) (block_prod R).
Proof.
  split.
  - intros ts l r (t & -> & Ht). unfold block. rewrite <- app_assoc. cbn [app]. by rewrite (many_complete p R t l).
  - intros ts l r H. unfold block in H. destruct (many p ts) as [l1 ts1] eqn:E.
    destruct (many_sound p R _ _ _ E) as (t & -> & Ht). token_cases H. injection H as <- <-.
    exists (t ++ [Tok.END]). split; [by rewrite <- app_assoc|]. by exists t.
  - intros l (t & E & _). by destruct t.
Qed.
#[export] Instance parameter_unbraced : Unbraced parse_parameter.
Proof. done. Qed.
#[export] Instance link_unbraced : Unbraced parse_link.
Proof. done. Qed.
#[export] Instance module_unbraced : Unbraced parse_module.
Proof. done. Qed.
#[export] Instance rule_unbraced : Unbraced parse_rule.
Proof. done. Qed.

(** * The statements *)

(** What a parser recognised inside another. *)
Ltac read_inside :=
  match goal with
  | H : quoted_equation _ = Some (_, _) |- _ => apply parses_sound in H as (? & -> & (? & ? & -> & ? & ->))
  | H : block _ _ = Some (_, _) |- _ => apply parses_sound in H as (? & -> & (? & -> & ?))
  end.
(** The goal of soundness, once the production is known. *)
Ltac reassemble :=
  eexists; split; [|econstructor; eassumption]; cbn [app]; first [reflexivity | by rewrite <- ?app_assoc].

Lemma quoted_complete e l r : repeated equation_prod e l ->
  quoted_equation (e ++ Tok.QUOTE :: Tok.SEMICOLON :: r) = Some (equation l, r).
Proof.
  intros He. change (e ++ Tok.QUOTE :: Tok.SEMICOLON :: r) with (e ++ [Tok.QUOTE; Tok.SEMICOLON] ++ r).
  rewrite app_assoc. apply (parses_complete (R := quoted_prod)). by exists e, l.
Qed.
Lemma block_complete {A} (p : parser A) R `{!Parses p R, !Unbraced p} t l r : repeated R t l ->
  block p (t ++ Tok.END :: r) = Some (l, r).
Proof.
  intros Ht. change (t ++ Tok.END :: r) with (t ++ [Tok.END] ++ r). rewrite app_assoc.
  apply (parses_complete (R := block_prod R)). by exists t.
Qed.

#[export] Instance link_parses : Parses parse_link link_prod.
Proof.
  split.
  - intros ts x r [k v|k n|e l He]; [done|done|]. rewrite <- !app_assoc. cbn. by rewrite (quoted_complete _ l).
  - intros ts x r H. unfold parse_link in H. token_cases H; injection H as <- <-; try read_inside; reassemble.
  - intros x Hx. inversion Hx.
Qed.

#[export] Instance end_parses : Parses parse_end rule_end.
Proof.
  split.
  - intros ts x r [|e l He]; [done|]. rewrite <- !app_assoc. cbn. by rewrite (quoted_complete _ l).
  - intros ts x r H. unfold parse_end in H. token_cases H; injection H as <- <-; try read_inside; reassemble.
  - intros x Hx. inversion Hx.
Qed.

(** A statement is in order: the masks, the VLANs, then its end. *)
Lemma end_no_vlan e eq r : rule_end e eq -> parse_vlan (e ++ r) = None.
Proof. by destruct 1. Qed.
Lemma vlans_no_netmask vts vl e eq r : repeated vlan_prod vts vl -> rule_end e eq -> parse_netmask (vts ++ e ++ r) = None.
Proof.
  intros (ps & Hps & -> & ->)%repeated_pieces He. destruct Hps as [|[t x] ps Ht _]; [by destruct He|]. cbn in Ht. by destruct Ht.
Qed.

Definition placed_prod (lk : string) (ts : list token) (x : location * option string) : Prop :=
  exists p e, ts = p ++ e /\ place_prod lk p x.1 /\ rule_end e x.2.
#[export] Instance place_parses lk : Parses (parse_place lk) (placed_prod lk).
Proof.
  split.
  - intros ts [lc eq] r (p & e & -> & Hp & He). cbn [fst snd] in *. destruct Hp as [ip m nts nl vts vl Hn Hv].
    rewrite <- !app_assoc. cbn [app parse_place].
    rewrite (many_complete parse_netmask netmask_prod nts nl _ Hn) by (by eapply vlans_no_netmask).
    rewrite (many_complete parse_vlan vlan_prod vts vl _ Hv) by (by eapply end_no_vlan).
    by rewrite (parses_complete (p := parse_end) e eq r He).
  - intros ts [lc eq] r H. unfold parse_place in H. token_cases H.
    repeat match goal with
    | H : many parse_netmask _ = _ |- _ => apply (many_sound _ netmask_prod) in H as (? & -> & ?)
    | H : many parse_vlan _ = _ |- _ => apply (many_sound _ vlan_prod) in H as (? & -> & ?)
    | H : parse_end _ = Some _ |- _ => apply parses_sound in H as (? & -> & ?)
    end. injection H as <- <- <-. eexists. split; cycle 1.
    + eexists _, _. split; [reflexivity|]. split; [by constructor|]. eassumption.
    + cbn [app]. by rewrite <- ?app_assoc.
  - intros x (p & e & E & Hp & _). destruct Hp. discriminate E.
Qed.

Lemma place_complete lk p lc e eq r : place_prod lk p lc -> rule_end e eq ->
  parse_place lk (p ++ e ++ r) = Some ((lc, eq), r).
Proof. intros Hp He. rewrite app_assoc. apply (parses_complete (R := placed_prod lk)). by exists p, e. Qed.

#[export] Instance rule_parses : Parses parse_rule rule_prod.
Proof.
  split.
  - intros ts x r Hx. destruct Hx as [lk p lc e eq Hp He|e l He|lk p lc e eq Hp He|lk ip p lc e eq Hp He|e l He|e l He];
      rewrite <- !app_assoc; cbn [app parse_rule];
      by rewrite ?(place_complete _ _ _ _ _ _ Hp He), ?(quoted_complete _ _ _ He).
  - intros ts x r H. unfold parse_rule in H. token_cases H; injection H as <- <-;
      first [ read_inside; reassemble
            | match goal with H : parse_place _ _ = Some _ |- _ =>
                apply parses_sound in H as (? & -> & (? & ? & -> & Hp & He)) end;
              eexists; split; cycle 1; [econstructor; [exact Hp|exact He]|cbn [app]; by rewrite <- ?app_assoc] ].
  - intros x Hx. inversion Hx.
Qed.

Lemma route_complete r route ts : route_prod r route -> (exists ts', ts = Tok.OPEN :: ts') ->
  exists r', r = Tok.TARGET :: r' /\ parse_route (r' ++ ts) = Some (route, ts).
Proof. intros Hr [ts' ->]. destruct Hr; eexists; split; reflexivity. Qed.
Lemma route_sound ts route r : parse_route ts = Some (route, r) -> exists t, ts = t ++ r /\ route_prod (Tok.TARGET :: t) route.
Proof.
  intros H. unfold parse_route in H. token_cases H; injection H as <- <-;
    first [ exists []; split; [reflexivity|constructor]
          | eexists; split; cycle 1; [constructor|reflexivity] ].
Qed.

#[export] Instance item_parses : Parses parse_item item_prod.
Proof.
  split.
  - intros ts x r Hx. destruct Hx as [ts l Hl|tag ts l Hl|name ts l Hl|rt route ts l Hr Hl]; rewrite <- !app_assoc.
    1-3: cbn [app parse_item]; by rewrite (block_complete _ _ _ _ _ Hl).
    destruct (route_complete rt route ([Tok.OPEN] ++ ts ++ [Tok.END] ++ r) Hr) as (r' & -> & E); [by eexists|].
    cbn [app] in *. cbn [parse_item]. rewrite E. by rewrite (block_complete _ _ _ _ _ Hl).
  - intros ts x r H. unfold parse_item in H. token_cases H; injection H as <- <-; read_inside.
    all: try solve [reassemble].
    apply route_sound in Heqo as (t & -> & Ht). eexists. split; [|eapply item_target; [exact Ht|eassumption]].
    cbn [app]. rewrite <- !app_assoc. cbn [app]. by rewrite <- app_assoc.
  - intros x Hx. inversion Hx. match goal with H : route_prod _ _ |- _ => destruct H; discriminate end.
Qed.

(** * The language of the configuration *)

(** C15: a file is accepted exactly when its tokens derive from the grammar, and
    its statements are then those of the derivation: [parse] decides the
    productions of [config_rules.y]. *)
Theorem parse_grammar ts l : parse ts = Some l <-> repeated item_prod ts l.
Proof.
  unfold parse. split.
  - destruct (many parse_item ts) as [l1 r] eqn:E. destruct (many_sound parse_item item_prod _ _ _ E) as (t & -> & Ht).
    case_decide as Hr; [|done]. intros [= <-]. by rewrite Hr, app_nil_r.
  - intros Ht. pose proof (many_complete parse_item item_prod ts l [] Ht eq_refl) as H. rewrite app_nil_r in H. rewrite H.
    by rewrite decide_True.
Qed.

(** The grammar is unambiguous. *)
Lemma grammar_unambiguous ts l l' : repeated item_prod ts l -> repeated item_prod ts l' -> l = l'.
Proof. intros H H'. apply parse_grammar in H, H'. congruence. Qed.

(** Whatever the file, it is read to its end: it has a syntax error, or is the
    statements of a derivation of its tokens. *)
Lemma yyparse_total text : exists ts, scan text = Ret ts /\
  (yyparse text = Fault Exited /\ (forall l, ~ repeated item_prod ts l) \/
   exists l, yyparse text = Ret l /\ repeated item_prod ts l).
Proof.
  destruct (scan_total text) as [ts Hs]. exists ts. split; [done|]. unfold yyparse. rewrite Hs. cbn.
  destruct (parse ts) as [l|] eqn:E; [right; exists l; split; [done|by apply parse_grammar]|].
  left. split; [done|]. intros l Hl. apply parse_grammar in Hl. congruence.
Qed.

(** ** Files *)

(** The keywords are reserved everywhere: a filter of a link cannot say [src] or
    [vlan]. *)
Example filter_with_src : yyparse (quoted_text "link 'a' { interface = 'eth0'; filter = 'src net 10.0.0.0/8'; }") = Fault Exited.
Proof. vm_compute. reflexivity. Qed.
(** A filter on the bytes of a packet is another filter. *)
Example filter_with_bytes : yyparse (quoted_text "link 'a' { filter = 'tcp[13] = 2'; }") =
  Ret [LINK "a" [LinkFilter "tcp 13 = 2"]].
Proof. vm_compute. reflexivity. Qed.
(** The mask and the VLAN come in this order. *)
Example vlan_before_netmask : yyparse (quoted_text
  "target { backend 'a' 10.0.1.1 hw 01:02:03:04:05:06 vlan 2 netmask 255.255.255.0 'yes'; }") = Fault Exited.
Proof. vm_compute. reflexivity. Qed.
