(* ===== verification/Startup.v ===== *)
(** Start-up and shutdown ([honeybrid.c]: [init_variables], [init_pcap],
    [wait_pcap], [close_thread], [close_hash], [close_all], [main];
    [convenience.c]: [config_lookup]; [netcode.c]: [set_iface_info]).

    The system calls, libpcap and the remote server of [mod_vmi] are the fields
    of [os]; the pid file is only opened, and the MySQL and XMPP builds and the
    server thread of XML-RPC are left out.  [main] is modelled as one sequence
    from [init_variables] on, and [launch] is the whole program from the command
    line and the text of the configuration file: the decision threads it starts
    wait on empty queues until [init_pcap], the cleaning thread reads its delay
    once.  [close_thread] is a step relation: it pushes and joins while the decision
    threads, the cleaning thread and [save_backup_handler] run. *)
From S2P Require Import Prelude Mem CString Types World Samples Keys Checksum TcpOptions Packet Netcode.
From S2P Require Import Connections ConnTrees Redirect DecisionEngine DecisionTrees Icmp Engine Births EngineOk.
From S2P Require Import Management ModVmi Modules ModulesOk Gateway Order CommandLine Lexer Config ConfigOk Grammar.

(** * Reading the configuration *)

Definition config_lookup (parameter : string) (required : bool) : M (option config_value) :=
  do c <- sgets config;
  match c !! parameter with
  | None => if required then sfault Exited else sret None
  | Some v => sret (Some v)
  end.

(** The [int] at a pointer of the table; a string shorter than an [int] is read
    past its end. *)
Definition config_int (v : config_value) : M Z :=
  match v with
  | CBlock bs => do z <- slift (ld32 bs 0); sret (s32 z)
  | CKeyFile _ => sfault OutOfBounds
  end.

Definition CONFIG (parameter : string) : M (option config_value) := config_lookup parameter false.
Definition CONFIG_REQUIRED (parameter : string) : M (option config_value) := config_lookup parameter true.
Definition ICONFIG (parameter : string) : M Z :=
  do v <- config_lookup parameter false;
  match v with Some v => config_int v | None => sret 0 end.
Definition ICONFIG_REQUIRED (parameter : string) : M Z :=
  do v <- config_lookup parameter true;
  match v with Some v => config_int v | None => sfault NullDeref end.

(** * The system *)

Record os := Os {
  os_socket : bool;
  os_ip : list Z -> option Z;
  os_mtu : list Z -> option Z;
  os_hwaddr : list Z -> option (list Z);
  os_lookupnet : list Z -> bool;
  os_open_live : list Z -> bool;
  os_compile : list Z -> bool;
  os_setfilter : list Z -> bool;
  os_chdir : config_value -> bool;
  os_open : config_value -> bool;
  os_echo : list Z -> bool;
  os_sigaction : signal -> bool;
  os_fork : fork_result;
  os_setsid : bool;
  os_devnull : option Z;
}.

(** The globals before [main]: everything is zero; what libpcap takes, the time
    and [rand] are the environment's. *)
Definition world_start (accepts : ptr -> list Z -> bool) (now : Z) (rand : mod_args -> Z) : world :=
  World 1 ∅ ∅ ∅ ∅ ∅ ∅ ∅ ∅ ∅ ∅ ∅ ∅ ∅ ∅ ∅ ∅ ∅ ∅ ∅ 0 ∅ ∅ ∅ ∅ 0 0 0 0 0 false (repeat 0 6) 0 accepts [] [] now rand vmi_zero.

Section Startup.
Context (and_matches : string -> bool) (and_split or_split : string -> list string).
Context (addr_pton_ip : list Z -> option Z) (addr_pton_mac : list Z -> option (list Z)).
Context (addr_ntoa : Z -> list Z) (sys : os).

(** [mac_broadcast_string]. *)
Definition mac_broadcast_string : string := "FF:FF:FF:FF:FF:FF".

(** The settings are read here, before the configuration file is. *)
Definition init_variables : M unit :=
  do_ smodify (fun w => w <| config := ∅ |> <| modules := ∅ |> <| links := ∅ |> <| targets := ∅ |>
    <| ext_tree1 := ∅ |> <| ext_tree2 := ∅ |> <| int_tree1 := ∅ |> <| int_tree2 := ∅ |>
    <| comm_pin_tree := ∅ |> <| target_pin_tree := ∅ |>
    <| intra_tree1 := ∅ |> <| intra_tree2 := ∅ |> <| intra_pin_tree := ∅ |> <| module_to_save := ∅ |>);
  do mpb <- ICONFIG "max_packet_buffer";
  do_ smodify (fun w => w <| max_packet_buffer := if 0 <? mpb then mpb else 2 ^ 64 - 1 |>);
  do dhi <- ICONFIG "deny_hih_init";
  do re <- ICONFIG "reset_ext";
  do eh <- ICONFIG "exclusive_hih";
  do_ smodify (fun w => w <| deny_hih_init := dhi |> <| reset_ext := re |> <| exclusive_hih := eh |>
    <| c_id := 0 |> <| target_counter := 0 |>);
  do_ (match addr_pton_mac (string_bytes mac_broadcast_string) with
       | Some m => smodify (fun w => w <| broadcast := m |>)
       | None => sret tt
       end);
  do ba <- ICONFIG "broadcast_allowed";
  smodify (fun w => w <| broadcast_allowed := negb (ba =? 0) |>).

(** * Interfaces *)

Definition IFNAMSIZ : Z := 16.

Definition set_iface_info (iface : ptr) : M unit :=
  do i <- get_iface (Some iface);
  do name <- slift (nonnull (if_name i));
  if IFNAMSIZ <=? Z.of_nat (length name) then sfault Exited
  else if negb (os_socket sys) then sfault Exited
  else
    let i := match os_ip sys name with Some ip => i <| if_ip := Some ip |> | None => i end in
    match os_mtu sys name with
    | None => sfault Exited
    | Some mtu =>
      match os_hwaddr sys name with
      | None => sfault Exited
      | Some hw => put_iface iface (i <| if_mtu := mtu |> <| if_mac := hw |>)
      end
    end.

(** One turn of the loop; [false] when [pcap_setfilter] fails, which leaves the
    function. *)
Definition init_link (iface : ptr) : M bool :=
  do_ set_iface_info iface;
  do i <- get_iface (Some iface);
  do name <- slift (nonnull (if_name i));
  if bool_decide (is_Some (if_ip i)) && negb (os_lookupnet sys name) then sfault Exited
  else if negb (os_open_live sys name) then sfault Exited
  else
    match if_filter i with
    | None => sret true
    | Some f => if negb (os_compile sys f) then sfault Exited else sret (os_setfilter sys f)
    end.

(** The interfaces that were opened: those whose handle is not null. *)
Fixpoint init_links (l : list ptr) : M (list ptr) :=
  match l with
  | [] => sret []
  | i :: l =>
    do go <- init_link i;
    if go : bool then do opened <- init_links l; sret (i :: opened) else sret [i]
  end.

Definition init_pcap : M (list ptr) :=
  do ls <- sgets links;
  init_links (map_to_list ls).*2.

(** Joining a thread that was not started is a warning of GLib; closing a null
    handle is not. *)
Fixpoint wait_links (opened : list ptr) (l : list ptr) : outcome unit :=
  match l with
  | [] => Ret tt
  | i :: l => if bool_decide (i ∈ opened) then wait_links opened l else Fault NullDeref
  end.
Definition wait_pcap (opened : list ptr) : M unit :=
  do ls <- sgets links;
  slift (wait_links opened (map_to_list ls).*2).

(** * Logs *)

Definition OUTPUT (o : output_t) : Z :=
  match o with OUTPUT_INVALID => 0 | OUTPUT_SYSLOG => 1 | OUTPUT_STDOUT => 2 | OUTPUT_LOGFILES => 3 | OUTPUT_MYSQL => 4 end.

Definition chdir_to (parameter : string) : M bool :=
  do d <- CONFIG_REQUIRED parameter;
  sret (match d with Some d => os_chdir sys d | None => false end).

Definition open_in (parameter : string) : M bool :=
  do f <- CONFIG_REQUIRED parameter;
  sret (match f with Some f => os_open sys f | None => false end).

Definition open_debug_log : M unit :=
  do ok <- chdir_to "log_directory";
  if negb ok then sfault Exited
  else
    do fd <- open_in "debug_file";
    if negb fd then sfault Exited
    else do _warn <- chdir_to "exec_directory"; sret tt.

Definition open_connection_log : M unit :=
  do ok <- chdir_to "log_directory";
  if negb ok then sfault Exited
  else
    do fd <- open_in "log_file";
    if negb fd then sfault Exited
    else do _warn <- chdir_to "exec_directory"; sret tt.

(** * [main] *)

(** [init_modules]: the thread that saves the tables starts; OpenSSL finds SHA-1;
    [mod_vmi] is initialised. *)
Definition init_modules : M unit :=
  do c <- sgets config;
  do _r <- init_mod_vmi (os_echo sys) c;
  sret tt.

(** [main] from [init_variables] on: the number of decision threads and the
    interfaces opened. *)
Definition main (background : bool) (file : list config_item) : M (Z * list ptr) :=
  do_ init_variables;
  do_ configuration and_matches and_split or_split addr_pton_ip addr_pton_mac addr_ntoa file;
  do _signals <- slift (init_signal (os_sigaction sys));
  do output <- ICONFIG_REQUIRED "output";
  do_ (if background && negb (output =? OUTPUT OUTPUT_STDOUT) then
         do d <- slift (daemon (os_fork sys) (os_setsid sys) true (os_devnull sys) 1 0);
         if dm_result d <? 0 then sfault Exited else sret tt
       else sret tt);
  do pid <- open_in "exec_directory";
  if negb pid then sfault Exited
  else
    do debug <- ICONFIG "debug";
    do_ (if 0 <? debug then
           do df <- CONFIG "debug_file";
           match df with Some _ => open_debug_log | None => sret tt end
         else sret tt);
    if output =? OUTPUT OUTPUT_MYSQL then sfault Exited
    else
      do_ (if output =? OUTPUT OUTPUT_LOGFILES then open_connection_log else sret tt);
      do decision_threads <- ICONFIG_REQUIRED "decision_threads";
      do _port <- ICONFIG "xmlrpc_server_port";
      do_ init_modules;
      do delay <- ICONFIG "expiration_delay";
      do_ smodify (fun w => w <| expiration_delay := delay |>);
      do opened <- init_pcap;
      sret (u32 decision_threads, opened).

(** The whole program: the command line ([alive] tells which processes exist),
    the configuration file it names ([files] gives the contents of a file that
    can be opened), then the rest of [main].  A command that does not start the
    engine ends the process, as a syntax error does. *)
Definition launch (alive : Z -> bool) (files : list Z -> option (list Z)) (argv : list (list Z)) : M (Z * list ptr) :=
  do c <- slift (command_line alive argv);
  match c with
  | Start s =>
    let _started_with := init_syslog argv in
    match files (config_file_name s) with
    | Some text => do file <- slift (yyparse text); main (daemonize s) file
    | None => sfault Exited
    end
  | _ => sfault Exited
  end.

(** * Shutdown *)

(** The trees of [mod_vmi], when it was initialised. *)
Definition close_mod_vmi : M unit :=
  do v <- sgets w_vmi;
  if vmi_initialized v then upd_vmi (fun v => v <| vmi_vms_ext := None |> <| vmi_vms_int := None |> <| bannedIPs := None |>)
  else sret tt.
Definition close_modules : M unit := close_mod_vmi.

Definition free_interface (i : ptr) : M unit :=
  free_in w_ifaces (fun w => w <| w_ifaces := delete i (w_ifaces w) |>) i.

Fixpoint free_all (free : ptr -> M unit) (l : list ptr) : M unit :=
  match l with [] => sret tt | a :: l => do_ free a; free_all free l end.

(** Destroying a table or a tree frees its values. *)
Definition close_hash : M unit :=
  do_ smodify (fun w => w <| config := ∅ |> <| modules := ∅ |>);
  do ls <- sgets links;
  do_ free_all free_interface (map_to_list ls).*2;
  do_ smodify (fun w => w <| links := ∅ |> <| module_to_save := ∅ |>);
  do ts <- sgets targets;
  do_ free_all free_target (tree_to_list ts).*2;
  smodify (fun w => w <| targets := ∅ |>).
End Startup.

(** ** The decision threads *)

Section Shutdown.
Context `{ModuleRunner} (needfrag : Z -> list Z -> list Z).

(** [struct raw_pcap raw = { .last = TRUE }]. *)
Definition last_raw : raw_pcap := RawPcap 1 0 [] true.

(** Where [close_thread] is: it is about to push the last message on the queue [i];
    it waits for the thread of that queue; it told the cleaning thread and that of
    [save_backup_handler] to end, and waits for them; it returned. *)
Inductive closer := Pushing (i : Z) | Joining (i : Z) | Ending | Closed.

(** The gateway while it is closed: the capture is over, the decision threads in
    [cl_ended] have taken the last message. *)
Record closing := Closing {
  cl_gateway : gateway;
  cl_ended : gset Z;
  cl_clean : bool;   (* the cleaning thread runs *)
  cl_backup : bool;  (* [save_backup_handler] runs *)
  cl_main : closer;
}.
#[export] Instance eta_closing : EtaRecord closing := fun c =>
  Closing (cl_gateway c) (cl_ended c) (cl_clean c) (cl_backup c) (cl_main c).

(** What a step does: [close_thread] goes on, or a thread it waits for ends; a
    decision thread takes a frame; the others work and time passes. *)
Inductive close_event := Main | Handles (q : Z) (raw : raw_pcap) | Other.

Definition push_last (i : Z) (g : gateway) : gateway :=
  GatewayState (gw_world g) (<[i := queue g i ++ [last_raw]]> (gw_queues g)).

(** The threads run together until they are joined. *)
Inductive close_step (n : Z) (c : closing) : close_event -> closing -> Prop :=
  | close_push i : cl_main c = Pushing i -> i < n ->
      close_step n c Main (c <| cl_gateway := push_last i (cl_gateway c) |> <| cl_main := Joining i |>)
  | close_join i : cl_main c = Joining i -> i ∈ cl_ended c ->
      close_step n c Main (c <| cl_main := Pushing (i + 1) |>)
  | close_signal i : cl_main c = Pushing i -> n <= i ->
      close_step n c Main (c <| cl_main := Ending |>)
  | close_backup : cl_main c = Ending -> cl_backup c = true ->
      close_step n c Main (c <| cl_backup := false |>)
  | close_clean : cl_main c = Ending -> cl_clean c = true ->
      close_step n c Main (c <| cl_clean := false |>)
  | close_return : cl_main c = Ending -> cl_backup c = false -> cl_clean c = false ->
      close_step n c Main (c <| cl_main := Closed |>)
  | close_decide q raw rest microtime go w' : 0 <= q < n -> q ∉ cl_ended c ->
      queue (cl_gateway c) q = raw :: rest ->
      de_iteration needfrag raw microtime (gw_world (cl_gateway c)) = Ret (go, w') ->
      close_step n c (Handles q raw)
        (c <| cl_gateway := GatewayState w' (<[q := rest]> (gw_queues (cl_gateway c))) |>
           <| cl_ended ::= fun e => if go : bool then e else {[q]} ∪ e |>)
  | close_round clock w' : cl_clean c = true -> clean clock (gw_world (cl_gateway c)) = Ret (tt, w') ->
      close_step n c Other (c <| cl_gateway := GatewayState w' (gw_queues (cl_gateway c)) |>)
  | close_save can_open files w' : cl_backup c = true ->
      save_backup_round can_open (gw_world (cl_gateway c)) = Ret (files, w') ->
      close_step n c Other (c <| cl_gateway := GatewayState w' (gw_queues (cl_gateway c)) |>)
  | close_tick now rand :
      close_step n c Other (c <| cl_gateway := GatewayState
        ((gw_world (cl_gateway c)) <| w_now := now |> <| w_rand := rand |>) (gw_queues (cl_gateway c)) |>).

Inductive close_run (n : Z) : list close_event -> closing -> closing -> Prop :=
  | close_nil c : close_run n [] c c
  | close_snoc e es c c1 c' : close_run n es c c1 -> close_step n c1 e c' -> close_run n (es ++ [e]) c c'.

(** [close_thread] starts, on [n] decision threads; and what it does in the end. *)
Definition close_start (g : gateway) : closing := Closing g ∅ true true (Pushing 0).
Definition close_thread (n : Z) (es : list close_event) (g g' : gateway) : Prop :=
  exists c, close_run n es (close_start g) c /\ cl_main c = Closed /\ cl_gateway c = g'.

(** [close_all], the files aside: [output] is required once more. *)
Definition close_all (n : Z) (es : list close_event) (clock : ptr -> Z) (g g' : gateway) : Prop :=
  exists g1, close_thread n es g g1 /\
  exists u, (do_ close_conn_trees clock; do _o <- ICONFIG_REQUIRED "output"; close_hash) (gw_world g1) = Ret (u, gw_world g') /\
  gw_queues g' = gw_queues g1.
End Shutdown.
