(* ===== verification/StartupOk.v ===== *)
(** The gateway from its start to its end: what [main] leaves behind, that every
    run that follows keeps the invariant of the gateway, that the settings of the
    configuration are not obeyed, and that shutting down handles what waits on
    every schedule of the threads, an iteration of each being one step. *)
From Stdlib Require Import ZifyBool.
From S2P Require Import Prelude Mem CString Types World Samples Keys Checksum TcpOptions Packet Netcode.
From S2P Require Import Connections ConnTrees Redirect DecisionEngine DecisionTrees Icmp Engine Births EngineOk.
From S2P Require Import Management ModVmi Modules ModulesOk Gateway Order CommandLine Lexer Config ConfigOk Grammar Startup.

(** * [init_variables] *)

Lemma ICONFIG_missing p w : config w !! p = None -> ICONFIG p w = Ret (0, w).
Proof. intros H. unfold ICONFIG, config_lookup, sbind, sgets. simpl. by rewrite H. Qed.

(** The table of parameters is empty when it is read. *)
Definition default_settings : Z * Z * Z * Z * bool := (2 ^ 64 - 1, 0, 0, 0, false).

Record initialised_from (w w' : world) : Prop := {
  if_settings : settings w' = default_settings;
  if_links : links w' = ∅;
  if_targets : targets w' = ∅;
  if_modules : modules w' = ∅;
  if_heaps : w_handlers w' = w_handlers w /\ w_targets w' = w_targets w /\ w_ifaces w' = w_ifaces w /\
    w_nodes w' = w_nodes w /\ w_conns w' = w_conns w /\ w_next w' = w_next w;
  if_trees : ext_tree1 w' = ∅ /\ ext_tree2 w' = ∅ /\ int_tree1 w' = ∅ /\ int_tree2 w' = ∅ /\
    intra_tree1 w' = ∅ /\ intra_tree2 w' = ∅;
}.

Lemma smodify_inv (g : world -> world) w u w' : smodify g w = Ret (u, w') -> w' = g w.
Proof. by intros [= _ <-]. Qed.

#[local] Strategy expand [init_variables Startup.main init_modules init_pcap].

Lemma init_variables_fields w w1 w2 w3 w4 w' b ba :
  w1 = w <| config := ∅ |> <| modules := ∅ |> <| links := ∅ |> <| targets := ∅ |>
    <| ext_tree1 := ∅ |> <| ext_tree2 := ∅ |> <| int_tree1 := ∅ |> <| int_tree2 := ∅ |>
    <| comm_pin_tree := ∅ |> <| target_pin_tree := ∅ |>
    <| intra_tree1 := ∅ |> <| intra_tree2 := ∅ |> <| intra_pin_tree := ∅ |> <| module_to_save := ∅ |> ->
  w2 = w1 <| max_packet_buffer := 2 ^ 64 - 1 |> ->
  w3 = w2 <| deny_hih_init := 0 |> <| reset_ext := 0 |> <| exclusive_hih := 0 |> <| c_id := 0 |> <| target_counter := 0 |> ->
  w4 = w3 <| broadcast := b |> -> ba = false -> w' = w4 <| broadcast_allowed := ba |> -> initialised_from w w'.
Proof. intros -> -> -> -> -> ->. split; [done..|by repeat split|by repeat split]. Qed.

Lemma init_variables_spec addr_pton_mac w u w' : init_variables addr_pton_mac w = Ret (u, w') -> initialised_from w w'.
Proof.
  intros H1. unfold init_variables in H1. srun H1 as v w1 H2. apply smodify_inv in H2 as E1.
  assert (C1 : forall p, config w1 !! p = None) by (intros p; rewrite E1; apply lookup_empty).
  rewrite (sbind_eq _ _ _ _ _ (ICONFIG_missing "max_packet_buffer" _ (C1 _))) in H1.
  srun H1 as v2 w2 H3. apply smodify_inv in H3 as E2.
  assert (C2 : forall p, config w2 !! p = None) by (intros p; rewrite E2; apply C1).
  rewrite (sbind_eq _ _ _ _ _ (ICONFIG_missing "deny_hih_init" _ (C2 _))) in H1.
  rewrite (sbind_eq _ _ _ _ _ (ICONFIG_missing "reset_ext" _ (C2 _))) in H1.
  rewrite (sbind_eq _ _ _ _ _ (ICONFIG_missing "exclusive_hih" _ (C2 _))) in H1.
  srun H1 as v3 w3 H4. apply smodify_inv in H4 as E3. srun H1 as v4 w4 H5.
  assert (E4 : exists b, w4 = w3 <| broadcast := b |>).
  { destruct (addr_pton_mac _) as [b|]; [exists b|exists (broadcast w3)]; injection H5 as _ <-; by destruct w3. }
  clear H5. destruct E4 as [b E4].
  assert (C4 : config w4 !! "broadcast_allowed"%string = None) by (rewrite E4, E3; apply C2).
  rewrite (sbind_eq _ _ _ _ _ (ICONFIG_missing _ _ C4)) in H1. apply smodify_inv in H1.
  exact (init_variables_fields w w1 w2 w3 w4 w' b false E1 E2 E3 E4 eq_refl H1).
Qed.

(** * Interfaces *)

Section Boot.
Context (and_matches : string -> bool) (and_split or_split : string -> list string).
Context (addr_pton_ip : list Z -> option Z) (addr_pton_mac : list Z -> option (list Z)).
Context (addr_ntoa : Z -> list Z) (sys : os).
Notation main := (main and_matches and_split or_split addr_pton_ip addr_pton_mac addr_ntoa sys).

(** What an interface that was opened knows of itself. *)
Definition described (i : ptr) (w : world) : Prop :=
  exists ifc name, w_ifaces w !! i = Some ifc /\ if_name ifc = Some name /\ Z.of_nat (length name) < IFNAMSIZ /\
    os_mtu sys name = Some (if_mtu ifc) /\ os_hwaddr sys name = Some (if_mac ifc) /\
    (forall ip, os_ip sys name = Some ip -> if_ip ifc = Some ip).

(** [set_iface_info] describes its interface and changes nothing else. *)
Lemma set_iface_info_spec i w u w' : set_iface_info sys i w = Ret (u, w') -> exists ifc ifc',
  w_ifaces w !! i = Some ifc /\ w' = w <| w_ifaces := <[i := ifc']> (w_ifaces w) |> /\ if_target ifc' = if_target ifc /\
  described i w'.
Proof.
  intros H1. unfold set_iface_info in H1. srun H1 as ifc w1 H2. unfold get_iface in H2.
  apply deref_Ret_inv in H2 as (b & [= <-] & Ei & ->). srun H1 as name w1 H2. apply slift_Ret_inv in H2 as [Hn ->].
  apply nonnull_Ret_inv in Hn. destruct (Z.leb_spec IFNAMSIZ (Z.of_nat (length name))); [done|].
  destruct (os_socket sys); [|done]. simpl in H1. destruct (os_mtu sys name) as [mtu|] eqn:Em; [|done].
  destruct (os_hwaddr sys name) as [hw|] eqn:Eh; [|done]. injection H1 as _ <-. eexists ifc, _. split; [done|].
  split; [reflexivity|]. split; [by destruct (os_ip sys name)|]. eexists _, name. simpl. rewrite lookup_insert_eq.
  split; [done|]. split; [by destruct (os_ip sys name)|]. split; [done|]. split; [done|]. split; [done|].
  intros ip ->. done.
Qed.

(** Interfaces only learn what they are. *)
Record linking (w w' : world) : Prop := {
  lk_same : settling w w';
  lk_wired : wired w -> wired w';
  lk_described : forall i, described i w -> described i w';
  lk_links : links w' = links w;
  lk_delay : expiration_delay w' = expiration_delay w;
}.
#[local] Instance linking_refl : Reflexive linking.
Proof. by split. Qed.
#[local] Instance linking_trans : Transitive linking.
Proof. intros w1 w2 w3 [] []. split; auto; [by etrans|congruence|congruence]. Qed.

Lemma linking_set i w u w' : set_iface_info sys i w = Ret (u, w') -> linking w w' /\ described i w'.
Proof.
  intros H1. apply set_iface_info_spec in H1 as (ifc & ifc' & Ei & -> & Et & Hd). split; [|done]. split; [by repeat split| | |done|done].
  - intros Hw. apply wired_iface; [done|]. intros t. rewrite Et. by apply (wi_uplinks _ Hw i).
  - intros j (ifj & name & Ej & Hj). destruct (decide (i = j)) as [<-|]; [done|]. exists ifj, name. simpl.
    by rewrite lookup_insert_ne.
Qed.

Lemma init_link_spec i w go w' : init_link sys i w = Ret (go, w') -> linking w w' /\ described i w'.
Proof.
  intros H1. unfold init_link in H1. srun H1 as u w1 H2. apply linking_set in H2 as [Hl Hd]. srun H1 as ifc w2 H3.
  unfold get_iface in H3. apply deref_Ret_inv in H3 as (b & _ & _ & ->). srun H1 as name w2 H3.
  apply slift_Ret_inv in H3 as [_ ->].
  destruct (bool_decide _ && _); [done|]. destruct (negb _); [done|]. destruct (if_filter ifc); [destruct (negb _); [done|]|];
    by injection H1 as _ <-.
Qed.

Lemma init_links_spec l w opened w' : init_links sys l w = Ret (opened, w') ->
  linking w w' /\ (forall i, i ∈ opened -> described i w') /\ opened ⊆ l.
Proof.
  revert w opened. induction l as [|i l IH]; intros w opened H1; cbn [init_links] in H1.
  - injection H1 as <- <-. split; [done|]. split; [by intros i []%elem_of_nil|done].
  - srun H1 as go w1 H2. apply init_link_spec in H2 as [Hl Hd]. destruct go.
    + srun H1 as op w2 H3. injection H1 as <- <-. destruct (IH _ _ H3) as (Hl2 & Hop & Hsub).
      split; [by etrans|]. split; [|set_solver]. intros j [->|Hj]%elem_of_cons; [|auto]. by apply (lk_described _ _ Hl2).
    + injection H1 as <- <-. split; [done|]. split; [|set_solver]. by intros j ->%list_elem_of_singleton.
Qed.

(** Joining the threads succeeds when all the links were opened. *)
Lemma wait_links_ok opened l : wait_links opened l = Ret tt <-> (forall i, i ∈ l -> i ∈ opened).
Proof.
  induction l as [|i l IH]; simpl; [split; [by intros _ i []%elem_of_nil|done]|].
  case_bool_decide; [rewrite IH; set_solver|]. split; [done|]. set_solver.
Qed.

(** * [main] *)

(** Reading the table changes nothing. *)
Definition reads {A} (m : M A) : Prop := forall w a w', m w = Ret (a, w') -> w' = w.
Lemma reads_keeps {A} (m : M A) : keeps eq m -> reads m.
Proof. intros H w a w' H1. symmetry. by apply H in H1. Qed.

Lemma keeps_config_int v : keeps eq (config_int v).
Proof. unfold config_int. keeps_tac. Qed.
Lemma keeps_config_lookup p r : keeps eq (config_lookup p r).
Proof. unfold config_lookup. keeps_tac. Qed.
Hint Resolve keeps_config_int keeps_config_lookup : keeps.
Lemma keeps_ICONFIG p : keeps eq (ICONFIG p).
Proof. unfold ICONFIG. keeps_tac. Qed.
Lemma keeps_ICONFIG_REQUIRED p : keeps eq (ICONFIG_REQUIRED p).
Proof. unfold ICONFIG_REQUIRED. keeps_tac. Qed.
Lemma keeps_open_in p : keeps eq (open_in sys p).
Proof. unfold open_in, CONFIG_REQUIRED. keeps_tac. Qed.
Lemma keeps_chdir_to p : keeps eq (chdir_to sys p).
Proof. unfold chdir_to, CONFIG_REQUIRED. keeps_tac. Qed.
Hint Resolve keeps_ICONFIG keeps_ICONFIG_REQUIRED keeps_open_in keeps_chdir_to : keeps.
Lemma keeps_open_logs : keeps eq (open_debug_log sys) /\ keeps eq (open_connection_log sys).
Proof. unfold open_debug_log, open_connection_log. split; keeps_tac. Qed.

Lemma ICONFIG_REQUIRED_inv p w z w' : ICONFIG_REQUIRED p w = Ret (z, w') ->
  w' = w /\ exists v, config w !! p = Some v /\ config_int v w = Ret (z, w).
Proof.
  intros H1. pose proof (reads_keeps _ (keeps_ICONFIG_REQUIRED p) _ _ _ H1) as ->. split; [done|].
  unfold ICONFIG_REQUIRED, config_lookup, sbind, sgets in H1. destruct (config w !! p) as [v|] eqn:E; [|done]. by exists v.
Qed.

Lemma linking_init_mod_vmi echo c : keeps linking (init_mod_vmi echo c).
Proof.
  assert (forall g, keeps linking (upd_vmi g)).
  { intros g. apply keeps_smodify. intros w. split; [by repeat split| | |done|done].
    - by apply (wired_frame w).
    - done. }
  unfold init_mod_vmi. keeps_tac.
Qed.

Lemma world_start_wired accepts now rand w : initialised_from (world_start accepts now rand) w -> wired w.
Proof.
  intros [_ El Eg _ (Eh & Et & Ei & _) _]. simpl in Eh, Et, Ei.
  split; rewrite ?El, ?Eg, ?Eh, ?Et, ?Ei; intros *; unfold live; rewrite lookup_empty; (done || by intros [x Hx]).
Qed.

Lemma loop_ok_start w : w_conns w = ∅ -> ext_tree1 w = ∅ -> ext_tree2 w = ∅ -> int_tree1 w = ∅ -> int_tree2 w = ∅ ->
  intra_tree1 w = ∅ -> intra_tree2 w = ∅ -> confined_rules w -> loop_ok w.
Proof.
  intros Ec E1 E2 I1 I2 A1 A2 Hr. split; [split; [by apply trees_ok_empty|done|]|]; intros a c; by rewrite Ec.
Qed.

(** The steps of [main] that change the state. *)
Lemma main_steps bg file w n opened w' : main bg file w = Ret ((n, opened), w') ->
  exists u1 w1 u2 w2 w4 z delay v,
    init_variables addr_pton_mac w = Ret (u1, w1) /\
    configuration and_matches and_split or_split addr_pton_ip addr_pton_mac addr_ntoa file w1 = Ret (u2, w2) /\
    linking w2 w4 /\ linking (w4 <| expiration_delay := delay |>) w' /\ (forall i, i ∈ opened -> described i w') /\
    ICONFIG "expiration_delay" w4 = Ret (delay, w4) /\
    config w2 !! "decision_threads"%string = Some v /\ config_int v w2 = Ret (z, w2) /\ n = u32 z.
Proof.
  intros H1. unfold Startup.main in H1. srun H1 as u1 w1 H2. srun H1 as u2 w2 H3.
  srun H1 as sg w3 H4. apply slift_Ret_inv in H4 as [_ ->].
  srun H1 as output w3 H4. apply ICONFIG_REQUIRED_inv in H4 as [-> _]. srun H1 as ud w3 H4.
  assert (w3 = w2) as ->.
  { lazymatch type of H4 with ?m _ = _ => assert (Hk : keeps eq m) by keeps_tac end. symmetry. by apply Hk in H4. }
  clear H4. srun H1 as pid w3 H4.
  apply (reads_keeps _ (keeps_open_in _)) in H4 as ->. destruct (negb pid); [done|].
  srun H1 as debug w3 H4. apply (reads_keeps _ (keeps_ICONFIG _)) in H4 as ->. srun H1 as u3 w3 H4.
  assert (w3 = w2) as ->.
  { pose proof (proj1 keeps_open_logs). lazymatch type of H4 with ?m _ = _ => assert (Hk : keeps eq m) by (unfold CONFIG; keeps_tac) end.
    symmetry. by apply Hk in H4. }
  destruct (output =? _); [done|]. srun H1 as u4 w3 H5. assert (w3 = w2) as ->.
  { pose proof (proj2 keeps_open_logs). lazymatch type of H5 with ?m _ = _ => assert (Hk : keeps eq m) by keeps_tac end.
    symmetry. by apply Hk in H5. }
  srun H1 as z w3 H6. apply ICONFIG_REQUIRED_inv in H6 as [-> (v & Hv & Hz)].
  srun H1 as port w3 H6. apply (reads_keeps _ (keeps_ICONFIG _)) in H6 as ->. srun H1 as u5 w3 H6.
  unfold init_modules in H6. srun H6 as c w4 H7. injection H7 as <- <-. srun H6 as r w4 H7. injection H6 as _ <-.
  apply linking_init_mod_vmi in H7. srun H1 as delay w5 H8. pose proof (reads_keeps _ (keeps_ICONFIG _) _ _ _ H8) as ->.
  srun H1 as u6 w5 H9. apply smodify_inv in H9 as ->. srun H1 as op w6 H9. injection H1 as <- <- <-.
  unfold init_pcap in H9. srun H9 as ls w7 H10. injection H10 as <- <-. apply init_links_spec in H9 as (Hl6 & Hd & _).
  exists u1, w1, u2, w2, w4, z, delay, v. done.
Qed.

Lemma main_settings bg file w n opened w' : main bg file w = Ret ((n, opened), w') -> settings w' = default_settings.
Proof.
  intros H1. apply main_steps in H1 as (u1 & w1 & u2 & w2 & w4 & z & delay & v & H1 & H2 & L1 & L2 & _).
  apply init_variables_spec in H1. apply configuration_same in H2. pose proof (if_settings _ _ H1) as E.
  assert (E2 : settings w2 = settings w1) by apply H2.
  assert (E3 : settings w4 = settings w2) by apply (lk_same _ _ L1).
  assert (E4 : settings w' = settings w4) by apply (lk_same _ _ L2). congruence.
Qed.

(** What [main] leaves: a sound state without a connection, and the interfaces
    that were opened. *)
Lemma main_spec bg file accepts now rand n opened w' :
  Forall modest file -> Forall (fun c => confined_item addr_pton_ip addr_ntoa c = true) file ->
  main bg file (world_start accepts now rand) = Ret ((n, opened), w') ->
  loop_ok w' /\ wired w' /\ w_conns w' = ∅ /\ (forall i, i ∈ opened -> described i w').
Proof.
  intros Hm Hc H1. apply main_steps in H1 as (u1 & w1 & u2 & w2 & w4 & z & delay & v & H1 & H2 & L1 & L2 & Hd & _).
  apply init_variables_spec in H1 as Hi. pose proof (world_start_wired _ _ _ _ Hi) as Hw1.
  destruct Hi as [_ _ _ Emod (_ & _ & _ & En & Ecs & _) (T1 & T2 & T3 & T4 & T5 & T6)].
  apply configuration_ok in H2 as [Hw2 Hs2]; [|done..].
  assert (Hs : settling w1 w').
  { etrans; [exact Hs2|]. etrans; [exact (lk_same _ _ L1)|]. etrans; [|exact (lk_same _ _ L2)]. by repeat split. }
  destruct Hs as [(_ & Ec6 & E1 & E2 & E3 & E4 & E5 & E6) Hconf]. destruct Hconf as [_ Hr].
  { intros name t bs f. by rewrite Emod, lookup_empty. }
  { intros a nd f. rewrite En. simpl. by rewrite lookup_empty. }
  simpl in Ecs. split; [apply loop_ok_start; [congruence|by rewrite E1|by rewrite E2|by rewrite E3|by rewrite E4|by rewrite E5|by rewrite E6|done]|].
  split; [|split; [congruence|done]]. apply (lk_wired _ _ L2). apply (wired_frame w4); try done. by apply (lk_wired _ _ L1).
Qed.
End Boot.

(** * Shutdown *)

(** The frames a queue gave to its thread, and the steps that are progress. *)
Definition handled_by (q : Z) : list close_event -> list raw_pcap :=
  omap (fun e => match e with Handles q' raw => if q' =? q then Some raw else None | _ => None end).

Fixpoint moves (es : list close_event) : nat :=
  match es with [] => 0 | Other :: es => moves es | _ :: es => S (moves es) end.

(** The frames in the queues of [n] threads. *)
Definition waiting (n : Z) (g : gateway) : nat := sum_list (map (fun q => length (queue g q)) (seqZ 0 n)).

(** Whether the last message was pushed on the queue [q]. *)
Definition pushed (m : closer) (q : Z) : bool :=
  match m with Pushing i => q <? i | Joining i => q <=? i | Ending | Closed => true end.
(** Whether [close_thread] has joined its thread. *)
Definition joined (m : closer) (q : Z) : bool :=
  match m with Pushing i | Joining i => q <? i | Ending | Closed => true end.
Definition last_of (m : closer) (q : Z) : list raw_pcap := if pushed m q then [last_raw] else [].

(** What is left to do, at most. *)
Definition main_left (n : Z) (m : closer) : Z :=
  match m with Pushing i => 3 * (n - i) + 2 | Joining i => 3 * (n - i) | Ending => 1 | Closed => 0 end.
Definition close_left (n : Z) (c : closing) : Z :=
  Z.of_nat (waiting n (cl_gateway c)) + main_left n (cl_main c) + Z.b2z (cl_clean c) + Z.b2z (cl_backup c).

Lemma moves_snoc es e : moves (es ++ [e]) = (moves es + moves [e])%nat.
Proof. induction es as [|x es IH]; [done|]. cbn [app moves]. rewrite IH. by destruct x. Qed.

Lemma handled_by_snoc q es e : handled_by q (es ++ [e]) = handled_by q es ++ handled_by q [e].
Proof. apply omap_app. Qed.

Lemma waiting_insert n g w q l : 0 <= q < n ->
  (waiting n (GatewayState w (<[q := l]> (gw_queues g))) + length (queue g q) = waiting n g + length l)%nat.
Proof.
  intros Hq. unfold waiting. assert (Hin : q ∈ seqZ 0 n) by (apply elem_of_seqZ; lia).
  pose proof (NoDup_seqZ 0 n) as Hnd. induction Hnd as [|x L Hx Hnd IH]; [by apply elem_of_nil in Hin|].
  assert (Hg : forall y, q <> y -> queue (GatewayState w (<[q := l]> (gw_queues g))) y = queue g y).
  { intros y Hy. rewrite (queue_insert g). destruct (Z.eqb_spec q y); [done|]. by destruct g. }
  cbn. apply elem_of_cons in Hin as [<-|Hin].
  - rewrite (map_ext_in _ (fun q => length (queue g q)) L).
    + rewrite (queue_insert g), Z.eqb_refl. lia.
    + intros y Hy%list_elem_of_In. rewrite Hg; [done|]. by intros <-.
  - rewrite Hg by (by intros <-). specialize (IH Hin). lia.
Qed.

(** A last frame ends the list of those that were queued. *)
Lemma last_ends (l l1 : list raw_pcap) m raw rest : Forall (fun r => rw_last r = false) l ->
  m = [] \/ m = [last_raw] -> l1 ++ raw :: rest = l ++ m -> rw_last raw = true -> m = [last_raw] /\ l1 = l /\ rest = [].
Proof.
  intros Hl Hm E Hraw. destruct Hm as [-> | ->].
  - rewrite app_nil_r in E. rewrite <- E in Hl. apply Forall_app in Hl as [_ Hl]. apply Forall_cons_1 in Hl as [Hl _]. congruence.
  - split; [done|]. destruct (app_eq_inv _ _ _ _ E) as [(k & -> & E2)|(k & -> & E2)].
    + destruct k as [|x k]; simplify_eq/=; [by rewrite app_nil_r|by destruct k].
    + destruct k as [|x k]; simplify_eq/=; [by rewrite app_nil_r|].
      apply Forall_app in Hl as [_ Hl]. apply Forall_cons_1 in Hl as [Hl _]. congruence.
Qed.

Lemma last_of_cases m q : last_of m q = [] \/ last_of m q = [last_raw].
Proof. unfold last_of. destruct (pushed m q); auto. Qed.

Section Shutdown.
Context `{ModuleRunner} (needfrag : Z -> list Z -> list Z) (n : Z).

Lemma de_iteration_last raw mt w go w' : de_iteration needfrag raw mt w = Ret (go, w') -> rw_last raw = negb go.
Proof.
  intros H1. destruct (rw_last raw) eqn:E; [|by rewrite (de_iteration_goes _ _ _ _ _ _ E H1)].
  unfold de_iteration in H1. rewrite E in H1. by injection H1 as <- _.
Qed.

(** While [close_thread] runs on the gateway [g]: each queue gives its frames in
    order and the last message after them, and a thread ends when it takes it. *)
Record close_inv (g : gateway) (es : list close_event) (c : closing) : Prop := {
  ci_index : match cl_main c with Pushing i => 0 <= i <= n | Joining i => 0 <= i < n | _ => True end;
  ci_fifo : forall q, 0 <= q < n -> handled_by q es ++ queue (cl_gateway c) q = queue g q ++ last_of (cl_main c) q;
  ci_ended : forall q, q ∈ cl_ended c -> 0 <= q < n /\ queue (cl_gateway c) q = [] /\ pushed (cl_main c) q = true;
  ci_runs : forall q, 0 <= q < n -> q ∉ cl_ended c -> Forall (fun r => rw_last r = false) (handled_by q es);
  ci_joined : forall q, 0 <= q < n -> joined (cl_main c) q = true -> q ∈ cl_ended c;
  ci_left : Z.of_nat (moves es) + close_left n c <= Z.of_nat (waiting n g) + 3 * n + 4;
}.

Lemma close_inv_start g : 0 <= n -> close_inv g [] (close_start g).
Proof.
  intros Hn. split; cbn; try lia.
  - intros q Hq. unfold last_of. cbn. replace (q <? 0) with false by lia. by rewrite app_nil_r.
  - set_solver.
  - by constructor.
  - unfold close_left. cbn. lia.
Qed.

(** A step that leaves the queues alone. *)
Lemma close_inv_main g es c e c' :
  close_inv g es c -> gw_queues (cl_gateway c') = gw_queues (cl_gateway c) -> cl_ended c' = cl_ended c ->
  (forall q, handled_by q [e] = []) ->
  match cl_main c' with Pushing i => 0 <= i <= n | Joining i => 0 <= i < n | _ => True end ->
  (forall q, 0 <= q < n -> pushed (cl_main c') q = pushed (cl_main c) q) ->
  (forall q, 0 <= q < n -> joined (cl_main c') q = true -> joined (cl_main c) q = true \/ q ∈ cl_ended c) ->
  Z.of_nat (moves [e]) + main_left n (cl_main c') + Z.b2z (cl_clean c') + Z.b2z (cl_backup c') <=
    main_left n (cl_main c) + Z.b2z (cl_clean c) + Z.b2z (cl_backup c) ->
  close_inv g (es ++ [e]) c'.
Proof.
  intros [I1 I2 I3 I4 I5 I6] Eq Ee He Hi Hp Hj Hl.
  assert (Hq : forall q, queue (cl_gateway c') q = queue (cl_gateway c) q) by (intros q; unfold queue; by rewrite Eq).
  assert (Hh : forall q, handled_by q (es ++ [e]) = handled_by q es) by (intros q; by rewrite handled_by_snoc, He, app_nil_r).
  split; [done|..].
  - intros q Hr. unfold last_of. rewrite Hh, Hq, Hp by done. by apply I2.
  - intros q. rewrite Ee, Hq. intros Hin. destruct (I3 q Hin) as (Hr & ? & ?). by rewrite Hp.
  - intros q. rewrite Ee, Hh. apply I4.
  - intros q Hr Hq'. rewrite Ee. destruct (Hj q Hr Hq'); auto.
  - rewrite moves_snoc. unfold close_left in *.
    assert (waiting n (cl_gateway c') = waiting n (cl_gateway c)) as -> by (unfold waiting; f_equal; apply map_ext; intros q; by rewrite Hq).
    lia.
Qed.

Lemma close_inv_push g es c i : cl_main c = Pushing i -> i < n -> close_inv g es c ->
  close_inv g (es ++ [Main]) (c <| cl_gateway := push_last i (cl_gateway c) |> <| cl_main := Joining i |>).
Proof.
  intros Em Hin [I1 I2 I3 I4 I5 I6]. rewrite Em in *.
  assert (Hh : forall q, handled_by q (es ++ [Main]) = handled_by q es) by (intros q; by rewrite handled_by_snoc, app_nil_r).
  assert (Hq : forall q, queue (push_last i (cl_gateway c)) q = queue (cl_gateway c) q ++ if i =? q then [last_raw] else []).
  { intros q. unfold push_last. rewrite (queue_insert (cl_gateway c)). destruct (Z.eqb_spec i q) as [->|]; [done|].
    rewrite app_nil_r. by destruct (cl_gateway c). }
  split; cbn; [lia|..].
  - intros q Hr. rewrite Hh, Hq, app_assoc, I2 by done. unfold last_of. cbn. rewrite <- app_assoc. f_equal.
    destruct (Z.eqb_spec i q) as [->|]; [by rewrite Z.ltb_irrefl, Z.leb_refl|].
    by replace (q <=? i) with (q <? i) by lia; rewrite app_nil_r.
  - intros q Hin'. destruct (I3 q Hin') as (Hr & Eq & Hp). cbn in Hp. split; [done|]. rewrite Hq, Eq.
    replace (i =? q) with false by lia. split; [done|lia].
  - intros q Hr. rewrite Hh. by apply I4.
  - exact I5.
  - rewrite moves_snoc. unfold close_left in *. cbn in *. rewrite Em in I6. cbn in I6.
    pose proof (waiting_insert n (cl_gateway c) (gw_world (cl_gateway c)) i (queue (cl_gateway c) i ++ [last_raw]) ltac:(lia)) as Hw.
    rewrite length_app in Hw. simpl in Hw. unfold push_last. lia.
Qed.

Lemma close_inv_decide g es c q raw rest go w' mt :
  (forall q raw, 0 <= q < n -> raw ∈ queue g q -> rw_last raw = false) ->
  0 <= q < n -> q ∉ cl_ended c -> queue (cl_gateway c) q = raw :: rest ->
  de_iteration needfrag raw mt (gw_world (cl_gateway c)) = Ret (go, w') -> close_inv g es c ->
  close_inv g (es ++ [Handles q raw]) (c <| cl_gateway := GatewayState w' (<[q := rest]> (gw_queues (cl_gateway c))) |>
    <| cl_ended ::= fun e => if go : bool then e else {[q]} ∪ e |>).
Proof.
  intros Hlast Hr Hne Hq Hit%de_iteration_last [I1 I2 I3 I4 I5 I6].
  assert (Hq' : forall q', queue (GatewayState w' (<[q := rest]> (gw_queues (cl_gateway c)))) q' = if q =? q' then rest else queue (cl_gateway c) q').
  { intros q'. rewrite (queue_insert (cl_gateway c)). by destruct (cl_gateway c). }
  assert (Hh : forall q', handled_by q' (es ++ [Handles q raw]) = handled_by q' es ++ if q =? q' then [raw] else []).
  { intros q'. rewrite handled_by_snoc. cbn. by destruct (q =? q'). }
  assert (Hf : Forall (fun r => rw_last r = false) (queue g q)) by (apply Forall_forall; eauto).
  pose proof (I2 q Hr) as E. rewrite Hq in E.
  assert (Hend : go = false -> rest = [] /\ pushed (cl_main c) q = true).
  { intros ->. destruct (last_ends _ _ _ _ _ Hf (last_of_cases _ _) E Hit) as (Hl & _ & ->).
    split; [done|]. unfold last_of in Hl. by destruct (pushed (cl_main c) q). }
  split; cbn; [done|..].
  - intros q' Hr'. rewrite Hh, Hq', <- I2 by done. destruct (Z.eqb_spec q q') as [<-|]; [by rewrite Hq, <- app_assoc|by rewrite app_nil_r].
  - intros q' Hin. rewrite Hq'. destruct (Z.eqb_spec q q') as [<-|Hne'].
    + split; [done|]. apply Hend. by destruct go.
    + apply I3. destruct go; set_solver.
  - intros q' Hr' Hin. rewrite Hh. assert (Hin' : q' ∉ cl_ended c) by (destruct go; set_solver). apply Forall_app. split; [by apply I4|].
    destruct (Z.eqb_spec q q') as [<-|]; [|done]. repeat constructor. destruct go; [done|set_solver].
  - intros q' Hr' Hj. pose proof (I5 q' Hr' Hj). destruct go; set_solver.
  - rewrite moves_snoc. unfold close_left in *. cbn in *.
    pose proof (waiting_insert n (cl_gateway c) w' q rest Hr) as Hw. rewrite Hq in Hw. simpl in Hw. lia.
Qed.

Lemma close_inv_step g es c e c' : (forall q raw, 0 <= q < n -> raw ∈ queue g q -> rw_last raw = false) ->
  close_inv g es c -> close_step needfrag n c e c' -> close_inv g (es ++ [e]) c'.
Proof.
  intros Hlast Hi Hs. pose proof (ci_index _ _ _ Hi) as Hx. destruct Hs as [i Em Hn|i Em Hin|i Em Hn|Em Eb|Em Ec|Em Eb Ec|q raw rest mt go w' Hr Hne Hq Hit|cl w' Ec Hc|co fs w' Eb Hs|now rand].
  1: by apply close_inv_push. 6: by eapply close_inv_decide.
  all: apply (close_inv_main _ _ c); cbn; try done; try (rewrite Em in *; cbn in * ); rewrite ?Eb, ?Ec; cbn;
    try first [lia|intros q Hr; lia|intros q Hr Hj; left; lia|by intros; left].
  intros q Hr Hj. destruct (Z.eq_dec q i) as [->|]; [by right|left; lia].
Qed.

Lemma close_run_inv g es c : 0 <= n -> (forall q raw, 0 <= q < n -> raw ∈ queue g q -> rw_last raw = false) ->
  close_run needfrag n es (close_start g) c -> close_inv g es c.
Proof.
  intros Hn Hlast Hrun. remember (close_start g) as c0 eqn:E. induction Hrun as [c|e es c c1 c' _ IH Hs]; subst.
  - by apply close_inv_start.
  - by eapply close_inv_step; [..|apply IH|].
Qed.

(** As long as [close_thread] has not returned, it goes on, or the thread it waits
    for has a frame to handle. *)
Lemma close_inv_goes g es c mt : close_inv g es c -> cl_main c <> Closed ->
  (exists e c', e <> Other /\ close_step needfrag n c e c') \/
  (exists q raw rest f, 0 <= q < n /\ q ∉ cl_ended c /\ queue (cl_gateway c) q = raw :: rest /\
     de_iteration needfrag raw mt (gw_world (cl_gateway c)) = Fault f).
Proof.
  intros [I1 I2 I3 I4 I5 I6] Hm. destruct (cl_main c) as [i|i| |] eqn:Em; [| | |done].
  - left. destruct (Z_lt_ge_dec i n); eexists Main, _; (split; [done|]); [by apply (close_push _ _ _ i)|by apply (close_signal _ _ _ i); [|lia]].
  - destruct (decide (i ∈ cl_ended c)) as [|Hne]; [left; eexists Main, _; split; [done|]; by eapply close_join|].
    destruct (queue (cl_gateway c) i) as [|raw rest] eqn:Hq.
    + exfalso. pose proof (I2 i I1) as E. rewrite Hq, app_nil_r in E. unfold last_of in E. cbn in E. rewrite Z.leb_refl in E.
      pose proof (I4 i I1 Hne) as Hf. rewrite E in Hf. apply Forall_app in Hf as [_ Hf]. by apply Forall_cons_1 in Hf as [Hf _].
    + destruct (de_iteration needfrag raw mt (gw_world (cl_gateway c))) as [[go w']|f] eqn:Hit; [left|right].
      * eexists (Handles i raw), _. split; [done|]. by eapply close_decide.
      * by exists i, raw, rest, f.
  - left. destruct (cl_backup c) eqn:Eb; [|destruct (cl_clean c) eqn:Ec]; eexists Main, _; (split; [done|]);
      [by apply close_backup|by apply close_clean|by apply close_return].
Qed.
End Shutdown.

(** * The properties *)

Section Properties.
Context (and_matches : string -> bool) (and_split or_split : string -> list string).
Context (addr_pton_ip : list Z -> option Z) (addr_pton_mac : list Z -> option (list Z)).
Context (addr_ntoa : Z -> list Z) (sys : os).

(** C5: from the command line and the configuration file on, the gateway is
    sound.  Whatever the arguments, when the program gets to the capture with a
    configuration file that has no [dns_control] module and fewer than 2^31
    statements in each target, it has built a state without connections that satisfies
    the invariant of the gateway, no rule calls [mod_dns_control], every interface
    it opened knows its name, addresses and MTU, and every run that follows, in
    any interleaving, keeps the invariant. *)
Theorem boot_sound `{QuietModules} alive files argv accepts now rand n opened w' :
  (forall name text file, files name = Some text -> yyparse text = Ret file ->
     Forall modest file /\ Forall (fun c => confined_item addr_pton_ip addr_ntoa c = true) file) ->
  launch and_matches and_split or_split addr_pton_ip addr_pton_mac addr_ntoa sys alive files argv
    (world_start accepts now rand) = Ret ((n, opened), w') ->
  gateway_sound w' /\ confined_rules w' /\ w_conns w' = ∅ /\ (forall i, i ∈ opened -> described sys i w') /\
  forall needfrag g', rtc (step needfrag n) (GatewayState w' ∅) g' -> gateway_sound (gw_world g').
Proof.
  intros Hf H1. unfold launch in H1. srun H1 as cmd w1 H2. apply slift_Ret_inv in H2 as [_ ->].
  destruct cmd as [s| | | | |]; try done. destruct (files _) as [text|] eqn:E; [|done]. srun H1 as file w1 H2. apply slift_Ret_inv in H2 as [Ep ->].
  destruct (Hf _ _ _ E Ep) as [Hm Hc].
  apply main_spec in H1 as (Hlo & _ & Hcs & Hd); [|done..].
  pose proof Hlo as [Hs Hr]%loop_ok_split. split; [done|]. split; [done|]. split; [done|]. split; [done|].
  intros needfrag g' [Hlo' _]%(run_loop needfrag n (GatewayState w' ∅) g'); [by apply loop_ok_split in Hlo' as [? _]|done].
Qed.

(** C17: an accepted configuration is well typed.  The statements of a file, run on
    a state whose pointers are sound, leave one where they are: each honeypot
    has an IP and a hardware address and a live interface, each target leads to
    live honeypots and a live route, its backends are numbered up to its count,
    and the links and the registered targets are live. *)
Theorem configuration_well_typed file w u w' :
  Forall modest file -> wired w ->
  configuration and_matches and_split or_split addr_pton_ip addr_pton_mac addr_ntoa file w = Ret (u, w') -> wired w'.
Proof.
  intros Hm. revert w. induction Hm as [|c file Hc Hm IH]; intros w Hw H1; cbn [configuration] in H1.
  - by injection H1 as _ <-.
  - srun H1 as v w1 H2. apply config_action_wired in H2; [|done|done]. by apply IH in H1.
Qed.

(** C34: settings that are not obeyed.  Whatever the configuration file says, after
    [main] the buffers are unbounded, HIH connections are not denied, attackers
    get no reset, exclusive honeypots and broadcasts are off: [init_variables]
    reads these settings before [init_parser] fills the table. *)
Theorem settings_ignored bg file w n opened w' :
  main and_matches and_split or_split addr_pton_ip addr_pton_mac addr_ntoa sys bg file w = Ret ((n, opened), w') ->
  max_packet_buffer w' = 2 ^ 64 - 1 /\ deny_hih_init w' = 0 /\ reset_ext w' = 0 /\ exclusive_hih w' = 0 /\
  broadcast_allowed w' = false.
Proof.
  intros H1. apply main_settings in H1. unfold settings, default_settings in H1. by injection H1 as -> -> -> -> ->.
Qed.

(** Backends with a rule are misnumbered.  A target whose statements are [n]
    backends with rules ends with the count [2 n] and the numbers [2], [4], ..,
    [2 n], because the grammar and [add_back_handler] both count: [1], which
    [mod_backpick_random] picks among [1], .., [n], designates no honeypot. *)
Lemma ruled_backends_even rules t w u w' :
  Forall (fun r => exists lc eq, r = BACKEND lc (Some eq)) rules -> 2 * Z.of_nat (length rules) < 2 ^ 32 - 2 ->
  w_targets w !! t = Some target_zero ->
  rule_actions and_matches and_split or_split addr_pton_ip addr_pton_mac t rules w = Ret (u, w') ->
  exists tg, w_targets w' !! t = Some tg /\ tg_back_handler_count tg = 2 * Z.of_nat (length rules) /\
    forall k, is_Some (tg_back_handlers tg !! k) <-> exists j, 1 <= j <= Z.of_nat (length rules) /\ k = 2 * j.
Proof.
  intros Hr Hlt Ht H1.
  assert (Hb : forall c, (backend_numbers c rules).2 = c + 2 * Z.of_nat (length rules) /\
    forall k, k ∈ (backend_numbers c rules).1 <-> exists j, 1 <= j <= Z.of_nat (length rules) /\ k = c + 2 * j).
  { clear -Hr. induction Hr as [|r rules (lc & eq & ->) Hr IH]; intros c.
    - simpl. split; [lia|]. intros k. rewrite elem_of_nil. split; [done|]. intros (j & ? & _). lia.
    - cbn [backend_numbers backend_number]. specialize (IH (c + 2)). destruct (backend_numbers (c + 2) rules) as [rest c2].
      simpl in *. destruct IH as [-> IH]. split; [lia|]. intros k. rewrite elem_of_cons, IH. split.
      + intros [->|(j & ? & ->)]; [exists 1; lia|exists (j + 1); lia].
      + intros (j & ? & ->). destruct (Z.eq_dec j 1) as [->|]; [left; lia|right; exists (j - 1); lia]. }
  assert (Hn : numbered t [] 0 w).
  { exists target_zero. split; [done|]. split; [done|]. intros k.
    change (tg_back_handlers target_zero) with (∅ : gmap Z ptr). rewrite lookup_empty, elem_of_nil. by split; intros []. }
  apply (rule_actions_numbered _ _ _ _ _ addr_ntoa _ _ _ _ _ _ _ Hn) in H1 as (ids & (tg & Htg & Hc & Hk) & Hids);
    [|by intros k ?%elem_of_nil|lia|lia].
  exists tg. split; [done|]. destruct (Hb 0) as [Hb1 Hb2]. split; [rewrite Hc, Hb1; lia|]. intros k.
  rewrite Hk, Hids, Hb2, elem_of_nil. split; [by intros [[]|]|by right].
Qed.
End Properties.

(** C9: shutting down handles what waits, on every schedule.  While
    [close_thread] pushes the last message on each queue, joins its thread and
    ends the others, the decision threads, the cleaning thread and that of
    [save_backup_handler] go on in any order, an iteration of each at a time.
    Whatever they did, each queue gave its frames in order, the last message
    after them; the steps of [close_thread] and of the decision threads are
    bounded from the start; as long as it has not returned one of them can go
    on, unless the handling of a frame faults; and when it returns every frame
    that waited was handled and the queues are empty. *)
Theorem shutdown_drains `{ModuleRunner} needfrag n g es c :
  0 <= n -> (forall q raw, 0 <= q < n -> raw ∈ queue g q -> rw_last raw = false) ->
  close_run needfrag n es (close_start g) c ->
  (forall q, 0 <= q < n -> exists l, (l = [] \/ l = [last_raw]) /\
     handled_by q es ++ queue (cl_gateway c) q = queue g q ++ l) /\
  Z.of_nat (moves es) <= Z.of_nat (waiting n g) + 3 * n + 4 /\
  (cl_main c <> Closed -> forall microtime,
     (exists e c', e <> Other /\ close_step needfrag n c e c') \/
     (exists q raw rest f, 0 <= q < n /\ q ∉ cl_ended c /\ queue (cl_gateway c) q = raw :: rest /\
        de_iteration needfrag raw microtime (gw_world (cl_gateway c)) = Fault f)) /\
  (cl_main c = Closed -> forall q, 0 <= q < n ->
     handled_by q es = queue g q ++ [last_raw] /\ queue (cl_gateway c) q = []).
Proof.
  intros Hn Hlast Hrun. pose proof (close_run_inv _ _ _ _ _ Hn Hlast Hrun) as Hi.
  split; [|split; [|split; [by intros Hm mt; eapply close_inv_goes|]]]; destruct Hi as [I1 I2 I3 I4 I5 I6].
  - intros q Hq. exists (last_of (cl_main c) q). split; [apply last_of_cases|by apply I2].
  - assert (0 <= close_left n c); [|lia]. unfold close_left. destruct (cl_clean c), (cl_backup c), (cl_main c); simpl in *; lia.
  - intros Em q Hq. destruct (I3 q) as (_ & Hempty & _); [apply I5; [done|by rewrite Em]|].
    split; [|done]. pose proof (I2 q Hq) as E. rewrite Hempty, app_nil_r in E. unfold last_of in E. by rewrite Em in E.
Qed.

(** ** Witnesses *)

(** A file like the one that comes with the program: one uplink, one link to the
    honeypots, a LIH and two HIHs with rules. *)
Definition front_location : location := Location "honeynet1" "10.0.0.10" "01:02:03:04:05:06" [] [].
Definition back_location : location := Location "honeynet1" "10.0.0.11" "01:02:03:04:05:07" [] [7].
Definition sample_rules : list rule_item :=
  [FRONTEND front_location (Some "yes"%string); BACKEND back_location (Some "random"%string);
   INTERNET "yes"].
Definition sample_file : list config_item :=
  [CONFIGURATION [("output", SNumber 3); ("decision_threads", SNumber 4); ("exec_directory", SText "/var/run/");
     ("log_directory", SText "/var/log/honeybrid/"); ("log_file", SText "honeybrid.log");
     ("deny_hih_init", SNumber 1); ("reset_ext", SNumber 1); ("expiration_delay", SNumber 120)]%string;
   MODULE "yes" [("function", SText "yesno"); ("value", SNumber 0)]%string;
   MODULE "random" [("function", SText "random"); ("value", SNumber 10)]%string;
   LINK "wan0" [LinkName "interface" "eth0"; LinkFilter "tcp or udp"];
   LINK "honeynet1" [LinkName "interface" "eth3"];
   TARGET (Some (Route "wan0" "01:02:03:04:05:03" (Some "203.0.113.5"%string))) sample_rules].

(** Addresses are told apart by their last four characters, and hardware addresses
    by their last character. *)
Definition sample_pton_ip (s : list Z) : option Z := Some (le_decode (take 4 (rev s))).
Definition sample_pton_mac (s : list Z) : option (list Z) := Some (0 :: take 5 (rev s)).
Definition sample_os : os :=
  Os true (fun name => if decide (name = string_bytes "eth0") then Some (ipv4 203 0 113 1) else None)
    (fun _ => Some 1500) (fun name => Some (2 :: 0 :: take 4 (name ++ [0; 0])))
    (fun _ => true) (fun _ => true) (fun _ => true) (fun _ => true) (fun _ => true) (fun _ => true) (fun _ => false)
    (fun _ => true) InChild true (Some 3).
Definition one_rule (s : string) : list string := [s].
Definition no_and (_ : string) : bool := false.
Definition accept_all (_ : ptr) (_ : list Z) : bool := true.
Definition rand_zero (_ : mod_args) : Z := 0.
Notation sample_main :=
  (main no_and one_rule one_rule sample_pton_ip sample_pton_mac (fun _ => []) sample_os).
Definition world_booted : world := state_after (sample_main true sample_file) (world_start accept_all 0 rand_zero).
Definition booted_result : Z * list ptr :=
  match sample_main true sample_file (world_start accept_all 0 rand_zero) with Ret (r, _) => r | Fault _ => (0, []) end.

(** [honeybrid -d -c hb.conf]. *)
Definition sample_argv : list (list Z) := [string_bytes "honeybrid"; string_bytes "-d"; string_bytes "-c"; string_bytes "hb.conf"].
Definition sample_text : list Z := quoted_text
"# main configuration
config {
    output = 3; decision_threads = 4; // one per core
    exec_directory = /var/run/;
    log_directory = /var/log/honeybrid/; log_file = honeybrid.log;
    deny_hih_init = 1; reset_ext = 1; expiration_delay = 120;
}
module 'yes' { function = yesno; value = 0; }
module 'random' { function = random; value = 10; }
link 'wan0' { interface = 'eth0'; filter = 'tcp or udp'; }
link 'honeynet1' { interface = 'eth3'; }
target default route via 'wan0' hw 01:02:03:04:05:03 src 203.0.113.5 {
    frontend 'honeynet1' 10.0.0.10 hw 01:02:03:04:05:06 'yes';
    backend 'honeynet1' 10.0.0.11 hw 01:02:03:04:05:07 vlan 7 'random';
    internet 'yes';
}
".
Definition sample_files (name : list Z) : option (list Z) :=
  if decide (name = string_bytes "hb.conf") then Some sample_text else None.
Lemma sample_parsed : yyparse sample_text = Ret sample_file.
Proof. vm_compute. reflexivity. Qed.
Definition no_process (_ : Z) : bool := false.

Lemma booted_run :
  sample_main true sample_file (world_start accept_all 0 rand_zero) = Ret ((4, booted_result.2), world_booted).
Proof. vm_compute. reflexivity. Qed.

#[local] Instance startup_modules : ModuleRunner :=
  modules_runner (fun s => Z.of_nat (length s) + 1) (fun _ => 0) (fun _ => []) (fun bs => bs) (fun _ => None) 0 (fun _ => false).
#[local] Instance startup_quiet : QuietModules.
Proof. apply modules_quiet. Defined.

Lemma modest_sample : Forall modest sample_file.
Proof. repeat constructor. Qed.
Lemma confined_sample : Forall (fun c => confined_item sample_pton_ip (fun _ => []) c = true) sample_file.
Proof. repeat constructor. Qed.

Lemma launched_run :
  launch no_and one_rule one_rule sample_pton_ip sample_pton_mac (fun _ => []) sample_os no_process sample_files sample_argv
    (world_start accept_all 0 rand_zero) = Ret ((4, booted_result.2), world_booted).
Proof. vm_compute. reflexivity. Qed.

Lemma boot_sound_witness :
  length booted_result.2 = 2%nat /\ gateway_sound world_booted /\ (forall i, i ∈ booted_result.2 -> described sample_os i world_booted).
Proof.
  split; [vm_compute; reflexivity|].
  destruct (boot_sound no_and one_rule one_rule sample_pton_ip sample_pton_mac (fun _ => []) sample_os
    no_process sample_files sample_argv accept_all 0 rand_zero 4 booted_result.2 world_booted) as (H1 & _ & _ & H2 & _).
  - intros name text file Hf Hp. unfold sample_files in Hf. destruct (decide _); [|discriminate]. injection Hf as <-.
    rewrite sample_parsed in Hp. injection Hp as <-.
    split; [exact modest_sample|exact confined_sample].
  - exact launched_run.
  - split; [exact H1|exact H2].
Defined.

(** The configuration asks for HIH connections to be denied. *)
Lemma settings_ignored_witness :
  config world_booted !! "deny_hih_init"%string = Some (CBlock [1; 0; 0; 0]) /\
  config world_booted !! "reset_ext"%string = Some (CBlock [1; 0; 0; 0]) /\
  deny_hih_init world_booted = 0 /\ reset_ext world_booted = 0.
Proof.
  split; [vm_compute; reflexivity|]. split; [vm_compute; reflexivity|].
  destruct (settings_ignored no_and one_rule one_rule sample_pton_ip sample_pton_mac (fun _ => []) sample_os
    true sample_file (world_start accept_all 0 rand_zero) 4 booted_result.2 world_booted booted_run) as (_ & H1 & H2 & _).
  split; [exact H1|exact H2].
Defined.

Notation sample_configuration :=
  (configuration no_and one_rule one_rule sample_pton_ip sample_pton_mac (fun _ => [])).
Definition world_zero : world := world_start accept_all 0 rand_zero.
Definition world_configured : world := state_after (sample_configuration sample_file) world_zero.

Lemma wired_zero : wired world_zero.
Proof.
  split; intros *; unfold live; cbn [world_zero world_start w_handlers w_targets w_ifaces links targets]; rewrite lookup_empty;
    (done || by intros [x Hx]).
Qed.

Lemma configuration_well_typed_witness : wired world_configured.
Proof.
  apply (configuration_well_typed no_and one_rule one_rule sample_pton_ip sample_pton_mac (fun _ => [])
    sample_file world_zero tt world_configured).
  - exact modest_sample.
  - exact wired_zero.
  - vm_compute. reflexivity.
Defined.

(** Two backends with rules are numbered 2 and 4. *)
Definition two_backends : list rule_item :=
  [BACKEND back_location (Some "random"%string); BACKEND back_location (Some "yes"%string)].
Definition world_fresh_target : world :=
  world_configured <| w_targets ::= <[ 50%positive := target_zero ]> |> <| w_next := 51%positive |>.
Definition world_two_backends : world :=
  state_after (rule_actions no_and one_rule one_rule sample_pton_ip sample_pton_mac 50 two_backends) world_fresh_target.

Lemma ruled_backends_even_witness : exists tg, w_targets world_two_backends !! 50%positive = Some tg /\
  tg_back_handler_count tg = 4 /\
  forall k, is_Some (tg_back_handlers tg !! k) <-> exists j, 1 <= j <= 2 /\ k = 2 * j.
Proof.
  apply (ruled_backends_even no_and one_rule one_rule sample_pton_ip sample_pton_mac (fun _ => [])
    two_backends 50 world_fresh_target tt world_two_backends).
  - repeat constructor; eauto.
  - simpl. lia.
  - vm_compute. reflexivity.
  - vm_compute. reflexivity.
Defined.

(** The SYN of the attacker waits in the queue of the second of two threads when
    the gateway is shut down: that thread handles it while [close_thread] waits
    for the first. *)
Definition gateway_closing : gateway := GatewayState world0 {[ 1 := [raw_syn] ]}.
Definition closing_events : list close_event :=
  [Main; Handles 1 raw_syn; Handles 0 last_raw; Main; Main; Handles 1 last_raw; Main; Main; Main; Main; Main].
Definition closed (w : world) : closing :=
  Closing (GatewayState w (<[1 := []]> (<[1 := [last_raw]]> (<[0 := []]> (<[1 := []]> (<[0 := [last_raw]]> {[ 1 := [raw_syn] ]}))))))
    ({[1]} ∪ ({[0]} ∪ ∅)) false false Closed.

Lemma closing_run w w' : de_iteration no_needfrag raw_syn 1000000 w = Ret (true, w') ->
  close_run no_needfrag 2 closing_events (close_start (GatewayState w {[ 1 := [raw_syn] ]})) (closed w').
Proof.
  intros Hh.
  assert (Hl : forall w, de_iteration no_needfrag last_raw 0 w = Ret (false, w)) by reflexivity.
  change closing_events with ((((((((((([] ++ [Main]) ++ [Handles 1 raw_syn]) ++ [Handles 0 last_raw]) ++ [Main]) ++ [Main])
    ++ [Handles 1 last_raw]) ++ [Main]) ++ [Main]) ++ [Main]) ++ [Main]) ++ [Main]).
  repeat eapply close_snoc; [constructor| | | | | | | | | | |].
  - apply (close_push _ _ _ 0); [reflexivity|lia].
  - eapply (close_decide _ _ _ 1 raw_syn [] 1000000 true w'); [lia|set_solver|reflexivity|exact Hh].
  - eapply (close_decide _ _ _ 0 last_raw [] 0 false w'); [lia|set_solver|reflexivity|apply Hl].
  - apply (close_join _ _ _ 0); [reflexivity|set_solver].
  - apply (close_push _ _ _ 1); [reflexivity|lia].
  - eapply (close_decide _ _ _ 1 last_raw [] 0 false w'); [lia|set_solver|reflexivity|apply Hl].
  - apply (close_join _ _ _ 1); [reflexivity|set_solver].
  - apply (close_signal _ _ _ 2); [reflexivity|lia].
  - apply close_backup; reflexivity.
  - apply close_clean; reflexivity.
  - match goal with |- close_step _ _ ?c _ _ => change (closed w') with (c <| cl_main := Closed |>) end.
    apply close_return; reflexivity.
Qed.

Lemma shutdown_drains_witness : handled_by 1 closing_events = [raw_syn; last_raw] /\
  queue (cl_gateway (closed world_handled)) 1 = [].
Proof.
  assert (Hl : forall q raw, 0 <= q < 2 -> raw ∈ queue gateway_closing q -> rw_last raw = false).
  { intros q raw _. unfold queue, gateway_closing. simpl. destruct (decide (q = 1)) as [->|].
    - rewrite lookup_singleton_eq. by intros ->%list_elem_of_singleton.
    - rewrite lookup_singleton_ne by done. by intros ?%elem_of_nil. }
  destruct (shutdown_drains no_needfrag 2 gateway_closing closing_events (closed world_handled) ltac:(lia) Hl
    (closing_run world0 world_handled handled_run)) as (_ & _ & _ & Hc).
  exact (Hc eq_refl 1 ltac:(lia)).
Defined.

(** With no decision thread, a configuration the program accepts, the first frame
    divides by zero. *)
Lemma no_thread_faults f ip : (ip + 20 <= length f)%nat -> forall up, IP2QUEUEID up f ip 0 = Fault DivisionByZero.
Proof. intros Hl [|]; unfold IP2QUEUEID, ip_saddr, ip_daddr; by rewrite ld32_ok by lia. Qed.
