(* ===== verification/CommandLineOk.v ===== *)
(** What the command line means: how an engine is started, and that
    [honeybrid -x] with the pid file of a running engine stops it. *)
From S2P Require Import Prelude Mem CString Types World CommandLine.
From S2P Require Import Startup StartupOk.

(** * Starting *)

(** The ways to write the options that start an engine; a [Stray] word is no
    option. *)
Inductive start_option :=
  | Conf (file : list Z)
  | ConfGlued (b : Z) (file : list Z)
  | Background
  | BackgroundConf (file : list Z)
  | Stray (word : list Z).

Definition words (o : start_option) : list (list Z) :=
  match o with
  | Conf f => [string_bytes "-c"; f]
  | ConfGlued b f => [string_bytes "-c" ++ b :: f]
  | Background => [string_bytes "-d"]
  | BackgroundConf f => [string_bytes "-dc"; f]
  | Stray w => [w]
  end.
Definition stray_ok (o : start_option) : Prop :=
  match o with Stray w => head w <> Some dash \/ w = [dash] | _ => True end.
Definition applied (s : settings_t) (o : start_option) : settings_t :=
  match o with
  | Conf f => Settings f (daemonize s)
  | ConfGlued b f => Settings (b :: f) (daemonize s)
  | Background => Settings (config_file_name s) true
  | BackgroundConf f => Settings f true
  | Stray _ => s
  end.

(** What [getopt] returns for them. *)
Definition returned (o : start_option) : list (option_char * option (list Z)) :=
  match o with
  | Conf f => [(99, Some f)]
  | ConfGlued b f => [(99, Some (b :: f))]
  | Background => [(100, None)]
  | BackgroundConf f => [(100, None); (99, Some f)]
  | Stray _ => []
  end.

Lemma getopt_stray w rest : head w <> Some dash \/ w = [dash] ->
  getopt options None (w :: rest) = getopt options None rest.
Proof.
  intros Hw. cbn [getopt]. destruct (decide (w = [dash; dash])) as [->|Hne]; [by destruct Hw|].
  destruct w as [|d [|c w]]; [done..|]. destruct (d =? dash) eqn:E; [|done]. zbool. subst. destruct Hw as [Hw|]; [|done]. by destruct Hw.
Qed.

Lemma getopt_words o rest : stray_ok o -> getopt options None (words o ++ rest) = returned o ++ getopt options None rest.
Proof. destruct o as [f|b f| |f|w]; intros Ho; [done..|]. by apply getopt_stray. Qed.

Lemma getopt_all os : Forall stray_ok os ->
  getopt options None (concat (words <$> os)) = concat (returned <$> os).
Proof.
  induction 1 as [|o os Ho _ IH]; [done|]. rewrite !fmap_cons. cbn [concat]. by rewrite getopt_words, IH.
Qed.

Lemma arguments_returned alive o opts s : arguments alive (returned o ++ opts) s = arguments alive opts (applied s o).
Proof. by destruct o. Qed.

Lemma arguments_all alive os s : arguments alive (concat (returned <$> os)) s = Ret (Start (foldl applied s os)).
Proof.
  revert s. induction os as [|o os IH]; intros s; [done|]. rewrite fmap_cons. cbn [concat foldl].
  by rewrite arguments_returned.
Qed.

(** The options that start an engine mean what they say, in any order and
    number: the last configuration file wins, [-d] anywhere puts the engine in
    the background, and other words are passed over. *)
Lemma start_options_meaning alive prog os : os <> [] -> Forall stray_ok os ->
  command_line alive (prog :: concat (words <$> os)) = Ret (Start (foldl applied (Settings [] false) os)).
Proof.
  intros Hne Hos. unfold command_line. cbn [tail]. rewrite getopt_all, arguments_all by done.
  destruct os as [|o os]; [done|]. rewrite fmap_cons. cbn [concat]. by destruct o.
Qed.

(** An option that needs an argument and has none gets the usage: neither [-V] nor
    [-h] does what its case says unless it is followed by a word. *)
Lemma version_needs_word alive prog : command_line alive [prog; string_bytes "-V"] = Ret Usage.
Proof. reflexivity. Qed.

(** * The system log *)

Definition spaced (args : list (list Z)) : list Z := concat ((fun a => 32 :: a) <$> args).

Lemma take_app_full {A} n (l k : list A) : (n <= length l)%nat -> take n (l ++ k) = take n l.
Proof. intros H. by rewrite take_app, (proj2 (Nat.sub_0_le _ _) H), app_nil_r. Qed.

Lemma syslog_args_spec args buf : (length buf < MAXPATHLEN)%nat ->
  syslog_args buf args = take (MAXPATHLEN - 1) (buf ++ spaced args).
Proof.
  revert buf. induction args as [|a args IH]; intros buf Hb; cbn [syslog_args].
  { change (spaced []) with (@nil Z). rewrite app_nil_r, take_ge; [done|]. lia. }
  unfold g_strlcat. change (spaced (a :: args)) with ([32] ++ a ++ spaced args). rewrite app_assoc.
  destruct (_ <=? _)%nat eqn:E1; [apply Nat.leb_le in E1|apply Nat.leb_gt in E1].
  { rewrite (take_app_full _ (buf ++ [32])); [done|]. rewrite length_app. lia. }
  rewrite (take_ge (buf ++ [32])) by (rewrite length_app; lia). rewrite app_assoc.
  destruct (_ <=? _)%nat eqn:E2; [apply Nat.leb_le in E2|apply Nat.leb_gt in E2].
  { rewrite (take_app_full _ ((buf ++ [32]) ++ a)); [done|]. rewrite length_app. lia. }
  rewrite (take_ge ((buf ++ [32]) ++ a)) by (rewrite length_app; lia). apply IH. by rewrite length_app.
Qed.

(** The line sent to the system log is the arguments, separated by spaces, cut to
    the room of the buffer: its terminating zero is never written outside. *)
Lemma init_syslog_spec prog a args :
  init_syslog (prog :: a :: args) = take (MAXPATHLEN - 1) (a ++ spaced args) /\
  (length (init_syslog (prog :: a :: args)) < MAXPATHLEN)%nat.
Proof.
  assert (E : init_syslog (prog :: a :: args) = take (MAXPATHLEN - 1) (a ++ spaced args)).
  { unfold init_syslog, g_strlcat. cbn [tail app length]. change (0 + length a)%nat with (length a).
    destruct (_ <=? _)%nat eqn:E1; [apply Nat.leb_le in E1|apply Nat.leb_gt in E1].
    - rewrite take_app_full; [done|lia].
    - rewrite (take_ge a) by lia. by apply syslog_args_spec. }
  split; [done|]. rewrite E, length_take. unfold MAXPATHLEN. lia.
Qed.

(** * Stopping *)

Lemma breakloops_all opened l : (forall i, i ∈ l -> i ∈ opened) -> breakloops opened l = Ret l.
Proof.
  induction l as [|i l IH]; intros Hl; [done|]. cbn [breakloops]. rewrite bool_decide_true by (apply Hl; by left).
  rewrite IH; [done|]. intros j Hj. apply Hl. by right.
Qed.
Lemma breakloops_missing opened l i : i ∈ l -> i ∉ opened -> breakloops opened l = Fault NullDeref.
Proof.
  induction 1 as [i l|i j l _ IH]; intros Ho; cbn [breakloops]; [by rewrite bool_decide_false|].
  case_bool_decide; [|done]. by rewrite IH.
Qed.

(** The interfaces of the links. *)
Lemma elem_of_links w i : i ∈ (map_to_list (links w)).*2 <-> exists tag, links w !! tag = Some i.
Proof.
  rewrite list_elem_of_fmap. split.
  - intros ([tag j] & -> & Hj%elem_of_map_to_list). by exists tag.
  - intros [tag Ht]. exists (tag, i). split; [done|]. by apply elem_of_map_to_list.
Qed.

(** The handlers are the same whenever they could all be installed. *)
Lemma init_signal_table ok t : init_signal ok = Ret t ->
  (forall s, s ∈ [SIGHUP; SIGINT; SIGQUIT; SIGILL; SIGSEGV; SIGTERM; SIGBUS] -> signal_action t s = TermOnce) /\
  signal_action t SIGUSR1 = RotateLog.
Proof.
  unfold init_signal. intros H1. cbn [install] in H1.
  repeat match type of H1 with (if ?b then _ else _) = _ => destruct b; [|done] end. injection H1 as <-. split; [|done].
  intros s Hs. repeat (apply elem_of_cons in Hs as [->|Hs]; [reflexivity|]). by apply elem_of_nil in Hs.
Qed.

Lemma pid_argument pid : 0 < pid < 2 ^ 31 -> backquoted (pid_line pid) = print_d pid.
Proof. intros _. unfold backquoted, pid_line. rewrite rev_app_distr. simpl. apply rev_involutive. Qed.

Section Stopping.
Context (alive : Z -> bool) (sigaction : signal -> bool).

(** A signal that comes after [init_signal] and before [init_pcap] opened the
    links breaks the loop of a null handle. *)
Lemma early_signal_faults t opened w tag i : init_signal sigaction = Ret t ->
  links w !! tag = Some i -> i ∉ opened -> deliver opened halt_signal t w = Fault NullDeref.
Proof.
  intros Ht Hi Ho. apply init_signal_table in Ht as [Ht _]. unfold deliver. rewrite Ht by (right; right; by left).
  unfold term_signal_handler, sbind, sgets, slift. by rewrite (breakloops_missing _ _ i) by (done || apply elem_of_links; eauto).
Qed.

(** [-x] with a word that is no number signals the group of the process itself. *)
Lemma halt_of_no_number prog : alive 0 = true ->
  command_line alive [prog; string_bytes "-x"; string_bytes "honeybrid.pid"] = Ret (Halt 0).
Proof.
  intros Ha. change (command_line alive _) with (Ret (if alive 0 then Halt 0 else NoProcess 0)). by rewrite Ha.
Qed.

(** C10: [honeybrid -x `cat honeybrid.pid`] stops the engine whose pid is in the
    file.  The number it wrote is read back, the process is sent [SIGQUIT];
    in the engine, once its signals are installed and its links are open, that
    signal breaks the capture loop of every link and of nothing else, after
    which [wait_pcap] returns and [main] goes on to close the engine.  A second
    signal kills it. *)
Theorem halt_stops_engine prog pid t opened w :
  0 < pid < 2 ^ 31 -> alive pid = true -> init_signal sigaction = Ret t ->
  (forall tag i, links w !! tag = Some i -> i ∈ opened) ->
  command_line alive [prog; string_bytes "-x"; backquoted (pid_line pid)] = Ret (Halt pid) /\
  (exists loops t', deliver opened halt_signal t w = Ret ((Stopped loops, t'), w) /\
     (forall i, i ∈ loops <-> exists tag, links w !! tag = Some i) /\
     deliver opened halt_signal t' w = Ret ((Killed, t'), w)) /\
  wait_pcap opened w = Ret (tt, w).
Proof.
  intros Hpid Ha Ht Ho.
  assert (Hl : forall i, i ∈ (map_to_list (links w)).*2 -> i ∈ opened) by (intros i [tag Hi]%elem_of_links; eauto).
  split; [|split].
  - rewrite pid_argument by done. unfold command_line. cbn [length Nat.ltb Nat.leb tail].
    change (getopt options None [string_bytes "-x"; print_d pid]) with [(120, Some (print_d pid))].
    cbn. rewrite atoi_print_d by lia. cbn. by rewrite Ha.
  - exists (map_to_list (links w)).*2, ((halt_signal, SIG_DFL) :: t). split; [|split; [apply elem_of_links|done]].
    apply init_signal_table in Ht as [Ht _]. unfold deliver. rewrite Ht by (right; right; by left).
    unfold term_signal_handler, sbind, sgets, slift. by rewrite breakloops_all.
  - unfold wait_pcap, sbind, sgets, slift. by rewrite (proj2 (wait_links_ok opened _)).
Qed.
End Stopping.

(** ** Witness *)

(** The engine that [StartupOk] boots, as process 4711. *)
Definition booted_engine (pid : Z) : bool := pid =? 4711.
Definition booted_signals : signal_table :=
  match init_signal (fun _ => true) with Ret t => t | Fault _ => [] end.

Lemma halt_stops_engine_witness :
  command_line booted_engine [string_bytes "honeybrid"; string_bytes "-x"; string_bytes "4711"] = Ret (Halt 4711) /\
  exists loops t', deliver booted_result.2 halt_signal booted_signals world_booted = Ret ((Stopped loops, t'), world_booted).
Proof.
  assert (Hl : forall tag i, links world_booted !! tag = Some i -> i ∈ booted_result.2).
  { intros tag i Hi. assert (Hm : i ∈ (map_to_list (links world_booted)).*2) by (apply elem_of_links; by exists tag).
    assert (Hf : Forall (fun j => j ∈ booted_result.2) (map_to_list (links world_booted)).*2)
      by (apply (bool_decide_unpack _); vm_compute; exact I).
    rewrite Forall_forall in Hf. by apply Hf. }
  destruct (halt_stops_engine booted_engine (fun _ => true) (string_bytes "honeybrid") 4711 booted_signals booted_result.2
    world_booted) as (H1 & (loops & t' & H2 & _) & _).
  - lia.
  - reflexivity.
  - reflexivity.
  - exact Hl.
  - split; [exact H1|]. exists loops, t'. exact H2.
Defined.
