(* ===== verification/Log.v ===== *)
(** The log ([log.c], [constants.c], [constants.h]): the tables of names, the line
    a connection leaves in the CSV, standard and MySQL formats, and the rotation
    of the log file.

    What is written is a list of bytes.  The time of day is a [tm]; the strings
    [start_timestamp] of a connection and what its custom data print are
    arguments ([decision_rule] and [custom_data] are never written by the
    program: the first is empty, the second null).  The XMPP build is left out. *)
From S2P Require Import Prelude Mem CString Types World Samples Keys Checksum TcpOptions Packet Netcode.
From S2P Require Import Connections ConnTrees Redirect DecisionEngine DecisionTrees Icmp Engine Births EngineOk.
From S2P Require Import Management ModVmi Modules ModulesOk Gateway Order Config ConfigOk Startup.

Notation text := string_bytes (only parsing).

(** * Names (constants.c) *)

Definition unknown : list Z := text "UNKNOWN".
Definition unsupported_protocol : list Z := text "Unsupported protocol".

(** [protocol_string], a table of [IPPROTO_MAX] (256) entries. *)
Definition lookup_proto (proto : Z) : list Z :=
  if proto =? IPPROTO_TCP then text "TCP" else if proto =? IPPROTO_UDP then text "UDP" else unsupported_protocol.

Definition lookup_role (role : role_t) : list Z :=
  match role with
  | EXT => text "[EXT] External"
  | INT => text "[INT] Internal - Either LIH or HIH"
  | LIH => text "[LIH] Low-interaction honeypot"
  | HIH => text "[HIH] High-interaction honeypot"
  | INTRA => text "[INTRA] Internal target"
  end.

Definition lookup_state (s : conn_status_t) : list Z :=
  match s with
  | INVALID => unknown
  | INIT => text "INIT" | DECISION => text "DECISION" | REPLAY => text "REPLAY" | FORWARD => text "FORWARD"
  | PROXY => text "PROXY" | DROP => text "DROP" | CONTROL => text "CONTROL"
  end.

Definition lookup_result (r : mod_result_t) : list Z :=
  match r with DEFER => text "DEFER" | ACCEPT => text "ACCEPT" | REJECT => text "REJECT" end.

(** * Formats *)

(** Zeros (or spaces) in front of a number, up to a width. *)
Definition pad (c : Z) (width : nat) (s : list Z) : list Z := repeat c (width - length s) ++ s.
Definition print_0d (width : nat) (n : Z) : list Z := pad 48 width (print_u n).

(** [%.3f] of a number of seconds given in microseconds: rounded to the nearest
    thousandth (half-way cases, which depend on the binary fraction, go up). *)
Definition print_3f (us : Z) : list Z :=
  let ms := (Z.abs us + 500) / 1000 in
  (if us <? 0 then [45] else []) ++ print_u (ms / 1000) ++ [46] ++ print_0d 3 (ms mod 1000).

(** [struct tm] with the microseconds. *)
Record tm := Tm { tm_year : Z; tm_mon : Z; tm_mday : Z; tm_hour : Z; tm_min : Z; tm_sec : Z; tm_usec : Z }.

Definition date_time (t : tm) : list Z :=
  print_d (1900 + tm_year t) ++ [45] ++ print_0d 2 (1 + tm_mon t) ++ [45] ++ print_0d 2 (tm_mday t) ++ [32] ++
  print_0d 2 (tm_hour t) ++ [58] ++ print_0d 2 (tm_min t) ++ [58] ++ print_0d 2 (tm_sec t) ++ [46] ++
  print_0d 6 (tm_usec t).

(** [snprintf] cuts, [sprintf] overflows. *)
Definition snprintf (cap : nat) (s : list Z) : list Z := take (cap - 1) s.
Definition sprintf (cap : nat) (s : list Z) : outcome (list Z) :=
  if (length s + 1 <=? cap)%nat then Ret s else Fault OutOfBounds.

Definition now (t : tm) : list Z := snprintf 30 (date_time t).

Definition log_header (t : tm) (function_name : list Z) (id : Z) : list Z :=
  snprintf 200 (now t ++ [59] ++ pad 32 6 (print_u id) ++ [59] ++ function_name ++ [58; 9]).

(** * Events *)

Inductive log_verbosity_t := LOG_MIN | LOG_LOW | LOG_MED | LOG_HIGH | LOG_ALL.
Definition verbosity (l : log_verbosity_t) : Z :=
  match l with LOG_MIN => 0 | LOG_LOW => 1 | LOG_MED => 2 | LOG_HIGH => 3 | LOG_ALL => 4 end.
(** Nothing sets [LOG_LEVEL]. *)
Definition LOG_LEVEL : Z := verbosity LOG_MIN.

(** [honeylog]: the status, what is printed, and whether [ddata] was freed; the
    local time was found. *)
Definition honeylog (t : tm) (sdata ddata : option (list Z)) (level : log_verbosity_t) (id : Z) :
    outcome (status_t * list Z * bool) :=
  if LOG_LEVEL <? verbosity level then Ret (OK, [], bool_decide (is_Some ddata))
  else
    let! curtime := sprintf 30 (date_time t) in
    let head := curtime ++ text ";id:" ++ pad 32 5 (print_u id) ++ [59] in
    match sdata, ddata with
    | Some s, None => Ret (OK, head ++ s, false)
    | None, Some d => Ret (OK, head ++ d, true)
    | _, _ => Ret (OK, head ++ text "honeylog(): Incorrect event!!" ++ [10], false)
    end.

(** The macro [L]: what it prints, and whether [ddata] was freed; a status other
    than zero is an error. *)
Definition L (t : tm) (sdata ddata : option (list Z)) (level : log_verbosity_t) (id : Z) : outcome (list Z * bool) :=
  let! '(st, printed, freed) := honeylog t sdata ddata level id in
  Ret (printed ++ (if decide (st = NOK) then [] else text "******LOG ENGINE ERROR******" ++ [10]), freed).

(** * The line of a connection *)

(** [custom_conn_data]: what the data print, cut to 127 characters. *)
Definition custom_conn_data (l : list (list Z)) : list Z := snprintf 128 (concat l).
Definition custom_field (custom : option (list (list Z))) : list Z :=
  match custom with Some l => custom_conn_data l | None => [45] end.

Definition logged_states : list conn_status_t := [INIT; DECISION; REPLAY; FORWARD; PROXY].

(** One turn of the loop over the states: the duration and the last time. *)
Definition state_duration (c : conn_struct) (lasttime : Z) (i : conn_status_t) : Z * Z :=
  let t := default 0 (cn_stat_time c !! status_index i) in
  if 0 <? t then (t - lasttime, t) else (0, lasttime).

Definition reached (c : conn_struct) (i : conn_status_t) : bool := conn_status_num i <=? conn_status_num (cn_state c).

Definition bar : list Z := [124].
Definition state_stats (c : conn_struct) (i : conn_status_t) : list Z :=
  print_d (default 0 (cn_stat_packet c !! status_index i)) ++ bar ++
  print_d (default 0 (cn_stat_byte c !! status_index i)).

Definition status_info (c : conn_struct) (i : conn_status_t) (duration : Z) : list Z :=
  if reached c i then
    if bool_decide (i = REPLAY) && (0 <? cn_replay_problem c) then
      print_3f duration ++ bar ++ state_stats c i ++ bar ++ text "error:" ++ print_d (cn_replay_problem c)
    else if decide (i = DECISION) then print_3f duration ++ bar
    else print_3f duration ++ bar ++ state_stats c i
  else if decide (i = REPLAY) then text ".|.|.|."
  else if decide (i = DECISION) then text ".|."
  else text ".|.|.".

(** The five columns and the last time. *)
Fixpoint status_infos (c : conn_struct) (lasttime : Z) (l : list conn_status_t) : list (list Z) * Z :=
  match l with
  | [] => ([], lasttime)
  | i :: l =>
    let '(duration, lasttime) := if reached c i then state_duration c lasttime i else (0, lasttime) in
    let '(infos, lasttime) := status_infos c lasttime l in
    (status_info c i duration :: infos, lasttime)
  end.

Definition total_duration (c : conn_struct) : Z :=
  (status_infos c (cn_start_microtime c) logged_states).2 - cn_start_microtime c.

Section Lines.
Context (start_timestamp : list Z) (custom : option (list (list Z))) (c : conn_struct).

Definition infos : list (list Z) := (status_infos c (cn_start_microtime c) logged_states).1.

(** The arguments of the formats, printed. *)
Definition src : list Z := inet_ntop (cn_first_pkt_src_ip c).
Definition dst : list Z := inet_ntop (cn_first_pkt_dst_ip c).
Definition src_port : list Z := print_u (ntohs (cn_first_pkt_src_port c)).
Definition dst_port : list Z := print_u (ntohs (cn_first_pkt_dst_port c)).
Definition counts : list (list Z) := [print_d (s32 (cn_total_packet c)); print_d (s32 (cn_total_byte c))].
Definition conn_id : list Z := print_d (s32 (u32 (cn_id c))).

Definition sep (s : list Z) (l : list (list Z)) : list Z :=
  match l with [] => [] | x :: l => x ++ concat (map (app s) l) end.

(** ["%s,%.3f,%s,%s,%u,%s,%u,%d,%d,%s,%d,%s,%s,%s,%s,%s,%s\n"]. *)
Definition csv_fields : list (list Z) :=
  [start_timestamp; print_3f (total_duration c); lookup_proto (cn_protocol c); src; src_port; dst; dst_port] ++
  counts ++ [lookup_state (cn_state c); conn_id] ++ infos ++ [custom_field custom].
Definition csv_line : list Z := sep [44] csv_fields ++ [10].

(** ["%s %.3f %s %s:%u -> %s:%u %d %d %s ** %d %s %s %s %s %s [%s]\n"]; the size is
    computed with another arrow. *)
Definition std_line (arrow : list Z) : list Z :=
  sep [32] ([start_timestamp; print_3f (total_duration c); lookup_proto (cn_protocol c); src ++ [58] ++ src_port; arrow;
             dst ++ [58] ++ dst_port] ++ counts ++ [lookup_state (cn_state c); text "**"; conn_id] ++ infos ++
            [[91] ++ custom_field custom ++ [93]]) ++ [10].

Definition log_csv : outcome (list Z) := sprintf (length csv_line + 1) csv_line.
Definition log_std : outcome (list Z) := sprintf (length (std_line (text "<->")) + 1) (std_line (text "->")).

(** The query of [log_mysql] (MySQL build). *)
Definition quoted (s : list Z) : list Z := [39] ++ s ++ [39].
Definition mysql_query : list Z :=
  text "INSERT INTO honeybrid VALUES (" ++
  sep [44] ([quoted []; print_3f (cn_start_microtime c) ++ [44; 32] ++ print_3f (total_duration c);
             quoted (lookup_proto (cn_protocol c)) ++ [44; 32] ++ quoted src ++ [44; 32] ++ quoted src_port;
             quoted dst ++ [44; 32] ++ quoted dst_port ++ [44; 32] ++ print_d (s32 (cn_total_packet c));
             print_d (s32 (cn_total_byte c)) ++ [44; 32] ++ quoted (lookup_state (cn_state c)) ++ [44; 32] ++ conn_id;
             sep [44; 32] (map quoted (take 3 infos)); sep [44; 32] (map quoted (drop 3 infos));
             custom_field custom]) ++ text ");".
End Lines.

(** * The log file *)

(** The file of the log: when it was last rotated, whether it is open, and the
    lines written to it or to the standard output, latest first. *)
Record log_state := LogState { last_rotation : Z; logfd : bool; log_lines : list (list Z) }.

Section Files.
Context (start_timestamp : conn_struct -> list Z) (custom : conn_struct -> option (list (list Z))).
(** [rename] may fail without consequence; [fopen] of the new file may fail,
    which is not checked. *)
Context (chdir : config_value -> bool) (reopened : bool) (t : tm).

Definition hour_stamp : Z :=
  u64 (tm_year t * 1000000 + (1 + tm_mon t) * 10000 + tm_mday t * 100 + tm_hour t).

Definition rotated_name (name : list Z) : list Z :=
  name ++ [46] ++ print_d (1900 + tm_year t) ++ print_0d 2 (1 + tm_mon t) ++ print_0d 2 (tm_mday t) ++ [95] ++
  print_0d 2 (tm_hour t) ++ print_0d 2 (tm_min t).

Definition required_string (parameter : string) : M (list Z) :=
  do v <- CONFIG_REQUIRED parameter;
  match v with Some (CBlock bs) => slift (c_bytes bs) | _ => sfault OutOfBounds end.

Definition chdir_required (parameter : string) : M bool :=
  do v <- CONFIG_REQUIRED parameter;
  sret (match v with Some v => chdir v | None => false end).

(** The last message was freed by [honeylog] when it is freed again. *)
Definition rotate (ls : log_state) : M log_state :=
  if negb (logfd ls) then sfault NullDeref
  else
    do name <- required_string "log_file";
    do msg <- slift (sprintf 512 (text "rotate_connection_log()" ++ [9] ++ text "Rotating log file from " ++ name ++
                                  text " to " ++ rotated_name name ++ [10]));
    do _p <- slift (L t None (Some msg) LOG_HIGH 0);
    do ok <- chdir_required "log_directory";
    if negb ok then sfault Exited
    else
      do ok <- chdir_required "exec_directory";
      if negb ok then sfault Exited
      else
        do logbuf <- slift (sprintf 256 (text "rotate_connection_log()" ++ [9] ++
                              text "Log file re-opened. last_rotation updated to " ++ print_u hour_stamp ++ [10]));
        do '(_, freed) <- slift (L t None (Some logbuf) LOG_HIGH 0);
        if freed : bool then sfault DoubleFree
        else sret (LogState hour_stamp reopened (log_lines ls)).

Definition rotate_connection_log (signal_nb : Z) (ls : log_state) : M log_state :=
  if last_rotation ls =? 0 then sret (LogState hour_stamp (logfd ls) (log_lines ls))
  else if (last_rotation ls <? hour_stamp) || (0 <? signal_nb) then rotate ls
  else sret ls.

(** [connection_log], without MySQL: [log_mysql] then only returns. *)
Definition connection_log (c : conn_struct) (ls : log_state) : M log_state :=
  do rotation <- ICONFIG "log_rotation";
  do ls <- (if rotation =? 0 then sret ls else rotate_connection_log 0 ls);
  do output <- ICONFIG_REQUIRED "output";
  if (output =? OUTPUT OUTPUT_STDOUT) || (output =? OUTPUT OUTPUT_LOGFILES) then
    do format <- CONFIG "log_format";
    do csv <- (match format with
               | Some (CBlock bs) => do s <- slift (c_bytes bs); sret (bool_decide (s = text "csv"))
               | Some (CKeyFile _) => sfault OutOfBounds
               | None => sret false
               end);
    do line <- slift (if csv : bool then log_csv (start_timestamp c) (custom c) c
                      else log_std (start_timestamp c) (custom c) c);
    if (output =? OUTPUT OUTPUT_LOGFILES) && negb (logfd ls) then sfault NullDeref
    else sret (LogState (last_rotation ls) (logfd ls) (line :: log_lines ls))
  else sret ls.
End Files.

(** * Durations *)

(** The durations the loop prints. *)
Fixpoint durations (c : conn_struct) (lasttime : Z) (l : list conn_status_t) : list Z :=
  match l with
  | [] => []
  | i :: l =>
    let '(d, last) := if reached c i then state_duration c lasttime i else (0, lasttime) in
    d :: durations c last l
  end.

Definition stat_time (c : conn_struct) (i : conn_status_t) : Z := default 0 (cn_stat_time c !! status_index i).

Lemma status_infos_durations c l last :
  (status_infos c last l).1 = zip_with (status_info c) l (durations c last l) /\
  (status_infos c last l).2 = last + foldr Z.add 0 (durations c last l).
Proof.
  revert last. induction l as [|i l IH]; intros last; [split; [done|simpl; lia]|]. cbn [status_infos durations].
  destruct (if reached c i then _ else _) as [d last'] eqn:E. specialize (IH last').
  destruct (status_infos c last' l) as [infos last2]. simpl in *. destruct IH as [-> ->]. split; [done|].
  assert (last' = last + d) as ->; [|lia]. unfold state_duration in E.
  destruct (reached c i); [destruct (0 <? _)|]; injection E as <- <-; lia.
Qed.

(** When the statistics were taken in the order of the states, no duration is
    negative. *)
Lemma durations_nonneg c l last :
  (forall i, i ∈ l -> 0 < stat_time c i -> last <= stat_time c i) ->
  (forall i j k, l !! i = Some j -> forall i', (i < i')%nat -> l !! i' = Some k -> 0 < stat_time c j -> 0 < stat_time c k ->
     stat_time c j <= stat_time c k) ->
  Forall (Z.le 0) (durations c last l).
Proof.
  revert last. induction l as [|i l IH]; intros last Hl Hm; cbn [durations]; [constructor|].
  assert (Hm' : forall i j k, l !! i = Some j -> forall i', (i < i')%nat -> l !! i' = Some k -> 0 < stat_time c j ->
    0 < stat_time c k -> stat_time c j <= stat_time c k).
  { intros a j k Ha b Hab Hb. eapply (Hm (S a) j k Ha (S b)); [lia|done]. }
  unfold state_duration. fold (stat_time c i). destruct (reached c i); [destruct (Z.ltb_spec 0 (stat_time c i))|].
  - constructor; [specialize (Hl i ltac:(by left)); lia|]. apply IH; [|done]. intros j Hj Hp.
    apply list_elem_of_lookup in Hj as [b Hb]. eapply (Hm 0%nat i j eq_refl (S b)); [lia|done|done|done].
  - constructor; [lia|]. apply IH; [|done]. intros j Hj. apply Hl. by right.
  - constructor; [lia|]. apply IH; [|done]. intros j Hj. apply Hl. by right.
Qed.

(** * Lines without commas *)

Definition no_comma (s : list Z) : Prop := 44 ∉ s.

Lemma no_comma_app s1 s2 : no_comma s1 -> no_comma s2 -> no_comma (s1 ++ s2).
Proof. unfold no_comma. rewrite elem_of_app. tauto. Qed.
Lemma no_comma_nil : no_comma [].
Proof. by intros ?%elem_of_nil. Qed.
Lemma no_comma_cons b s : b <> 44 -> no_comma s -> no_comma (b :: s).
Proof. unfold no_comma. rewrite elem_of_cons. intuition. Qed.
Lemma no_comma_digits fuel n acc : 0 <= n -> no_comma acc -> no_comma (digits fuel n acc).
Proof.
  revert n acc. induction fuel as [|fuel IH]; intros n acc Hn Ha; [done|]. cbn [digits].
  pose proof (Z.mod_pos_bound n 10 ltac:(lia)).
  assert (no_comma (48 + n mod 10 :: acc)) by (apply no_comma_cons; [lia|done]).
  destruct (n <? 10); [done|]. apply IH; [|done]. apply Z.div_pos; lia.
Qed.
Create HintDb commas.
#[local] Hint Resolve no_comma_app no_comma_nil no_comma_cons : commas.
#[local] Hint Extern 1 (_ <> 44) => lia : commas.
Lemma no_comma_u n : 0 <= n -> no_comma (print_u n).
Proof. intros Hn. by apply no_comma_digits, no_comma_nil. Qed.
Lemma no_comma_d n : no_comma (print_d n).
Proof. unfold print_d. destruct (Z.ltb_spec n 0); [apply no_comma_cons; [lia|]|]; apply no_comma_u; lia. Qed.
Lemma no_comma_repeat b n : b <> 44 -> no_comma (repeat b n).
Proof. intros Hb. induction n; simpl; auto with commas. Qed.
Lemma no_comma_0d w n : 0 <= n -> no_comma (print_0d w n).
Proof. intros Hn. apply no_comma_app; [by apply no_comma_repeat|by apply no_comma_u]. Qed.
Lemma no_comma_3f us : no_comma (print_3f us).
Proof.
  assert (0 <= (Z.abs us + 500) / 1000) by (apply Z.div_pos; lia).
  unfold print_3f. apply no_comma_app; [destruct (us <? 0); auto with commas|].
  apply no_comma_app; [apply no_comma_u, Z.div_pos; lia|]. apply no_comma_app; [auto with commas|].
  apply no_comma_0d. pose proof (Z.mod_pos_bound ((Z.abs us + 500) / 1000) 1000). lia.
Qed.
Lemma no_comma_ntop ip : no_comma (inet_ntop ip).
Proof.
  assert (forall i, no_comma (print_u (Z.shiftr ip i mod 256))) by (intros i; apply no_comma_u, Z.mod_pos_bound; lia).
  unfold inet_ntop. cbn zeta. auto 10 with commas.
Qed.
Definition comma_free (s : list Z) : bool := bool_decide (44 ∉ s).
Lemma no_comma_text s : comma_free s = true -> no_comma s.
Proof. apply bool_decide_eq_true. Qed.
#[local] Hint Resolve no_comma_u no_comma_d no_comma_3f no_comma_ntop : commas.

Lemma no_comma_stats c i : no_comma (state_stats c i).
Proof. unfold state_stats, bar. auto with commas. Qed.
Lemma no_comma_info c i d : no_comma (status_info c i d).
Proof.
  pose proof (no_comma_stats c i). assert (no_comma (text "error:")) by by apply no_comma_text.
  unfold status_info, bar. destruct (reached c i).
  - destruct (_ && _); [auto 10 with commas|]. destruct (decide _); auto with commas.
  - destruct (decide _); [by apply no_comma_text|]. destruct (decide _); by apply no_comma_text.
Qed.

(** ** Reading a CSV line *)

(** The fields of a line, as a reader of the file cuts them. *)
Fixpoint split_on (b : Z) (s : list Z) : list (list Z) :=
  match s with
  | [] => [[]]
  | x :: s =>
    if x =? b then [] :: split_on b s
    else match split_on b s with f :: fs => (x :: f) :: fs | [] => [[x]] end
  end.

Lemma split_on_none b s : b ∉ s -> split_on b s = [s].
Proof.
  induction s as [|x s IH]; intros Hs; [done|]. apply not_elem_of_cons in Hs as [Hx Hs]. cbn [split_on].
  rewrite (proj2 (Z.eqb_neq x b)) by congruence. by rewrite IH.
Qed.
Lemma split_on_app b s r : b ∉ s -> split_on b (s ++ b :: r) = s :: split_on b r.
Proof.
  induction s as [|x s IH]; intros Hs; cbn [app split_on]; [by rewrite Z.eqb_refl|].
  apply not_elem_of_cons in Hs as [Hx Hs]. rewrite (proj2 (Z.eqb_neq x b)) by congruence. by rewrite IH.
Qed.
Lemma split_on_sep b l : l <> [] -> Forall (fun f => b ∉ f) l -> split_on b (sep [b] l) = l.
Proof.
  destruct l as [|x l]; [done|]. intros _ Hf. apply Forall_cons in Hf as [Hx Hf]. cbn [sep].
  revert x Hx. induction Hf as [|y l Hy Hf IH]; intros x Hx; cbn [map concat].
  - rewrite app_nil_r. by apply split_on_none.
  - cbn [app]. rewrite split_on_app by done. f_equal. by apply IH.
Qed.

Lemma lookup_state_no_comma s : no_comma (lookup_state s).
Proof. by apply no_comma_text; destruct s. Qed.
Lemma lookup_proto_no_comma p : no_comma (lookup_proto p).
Proof. unfold lookup_proto. by destruct (p =? _); [|destruct (p =? _)]; apply no_comma_text. Qed.

Lemma Forall_zip_with {A B C} (f : A -> B -> C) (P : C -> Prop) l k : (forall a b, P (f a b)) -> Forall P (zip_with f l k).
Proof. intros Hp. revert k. induction l as [|a l IH]; intros [|b k]; constructor; auto. Qed.

Lemma infos_no_comma c : Forall no_comma (infos c).
Proof. unfold infos. rewrite (proj1 (status_infos_durations _ _ _)). apply Forall_zip_with, no_comma_info. Qed.

Lemma no_comma_take n s : no_comma s -> no_comma (take n s).
Proof. intros Hs Ht. apply Hs. by apply elem_of_take in Ht as (i & ? & _); eapply list_elem_of_lookup_2. Qed.

Definition custom_clean (custom : option (list (list Z))) : Prop :=
  match custom with Some l => Forall no_comma l | None => True end.
Lemma custom_no_comma custom : custom_clean custom -> no_comma (custom_field custom).
Proof.
  destruct custom as [l|]; [|intros _; by apply no_comma_text]. intros Hl. apply no_comma_take.
  induction Hl as [|x l Hx Hl IH]; [apply no_comma_nil|]. cbn [concat]. by apply no_comma_app.
Qed.

(** * Buffers *)

Lemma sprintf_fits cap s : (length s < cap)%nat -> sprintf cap s = Ret s.
Proof. intros Hl. unfold sprintf. destruct (Nat.leb_spec (length s + 1) cap); [done|lia]. Qed.

Lemma length_sep s l : length (sep s l) = (sum_list (map length l) + length s * (length l - 1))%nat.
Proof.
  destruct l as [|x l]; [simpl; lia|]. cbn [sep]. rewrite length_app. simpl.
  assert (length (concat (map (app s) l)) = sum_list (map length l) + length s * length l)%nat as ->; [|simpl; lia].
  induction l as [|y l IH]; simpl; [lia|]. rewrite !length_app, IH. lia.
Qed.

Lemma length_text s : length (text s) = String.length s.
Proof. induction s; simpl; congruence. Qed.
Lemma length_digits fuel n acc : (length (digits fuel n acc) <= fuel + length acc)%nat.
Proof.
  revert n acc. induction fuel as [|fuel IH]; intros n acc; cbn [digits]; [lia|].
  destruct (n <? 10); [simpl; lia|]. specialize (IH (n / 10) (48 + n mod 10 :: acc)). simpl in IH. lia.
Qed.
Lemma print_u_length n : (length (print_u n) <= 20)%nat.
Proof. pose proof (length_digits 20 n []) as H. unfold print_u. simpl length in H at 2. lia. Qed.
Lemma print_0d_length w n : (w <= 20)%nat -> (length (print_0d w n) <= 20)%nat.
Proof. intros Hw. unfold print_0d, pad. rewrite length_app, repeat_length. pose proof (print_u_length n). lia. Qed.

(** * Rotation *)

Lemma rotated_length t name : (length (rotated_name t name) <= length name + 103)%nat.
Proof.
  unfold rotated_name. rewrite !length_app. cbn [length].
  assert (length (print_d (1900 + tm_year t)) <= 21)%nat.
  { unfold print_d. destruct (_ <? 0); cbn [length]; pose proof (print_u_length (- (1900 + tm_year t)));
      pose proof (print_u_length (1900 + tm_year t)); lia. }
  pose proof (print_0d_length 2 (1 + tm_mon t) ltac:(lia)). pose proof (print_0d_length 2 (tm_mday t) ltac:(lia)).
  pose proof (print_0d_length 2 (tm_hour t) ltac:(lia)). pose proof (print_0d_length 2 (tm_min t) ltac:(lia)). lia.
Qed.

(** A calendar hour. *)
Definition tm_ok (t : tm) : Prop :=
  0 <= tm_year t < 10000 /\ 0 <= tm_mon t < 12 /\ 1 <= tm_mday t <= 31 /\ 0 <= tm_hour t < 24.

(** The hours in the order of the calendar. *)
Definition hour_lt (t1 t2 : tm) : Prop :=
  tm_year t1 < tm_year t2 \/ tm_year t1 = tm_year t2 /\ (
  tm_mon t1 < tm_mon t2 \/ tm_mon t1 = tm_mon t2 /\ (
  tm_mday t1 < tm_mday t2 \/ tm_mday t1 = tm_mday t2 /\ tm_hour t1 < tm_hour t2)).

Lemma hour_stamp_bound t : tm_ok t ->
  hour_stamp t = tm_year t * 1000000 + (1 + tm_mon t) * 10000 + tm_mday t * 100 + tm_hour t /\ 0 < hour_stamp t < 2 ^ 64.
Proof.
  intros (?&?&?&?). unfold hour_stamp, u64. rewrite Z.mod_small by lia. lia.
Qed.

Lemma hour_stamp_lt t1 t2 : tm_ok t1 -> tm_ok t2 -> (hour_stamp t1 < hour_stamp t2 <-> hour_lt t1 t2).
Proof.
  intros H1 H2. rewrite (proj1 (hour_stamp_bound _ H1)), (proj1 (hour_stamp_bound _ H2)).
  destruct H1 as (?&?&?&?), H2 as (?&?&?&?). unfold hour_lt. lia.
Qed.

(** * The properties *)

(** The durations of a record add up.  The five columns of a record show the
    durations of the states from INIT to PROXY; their sum is the total duration,
    which goes from the first packet to the last one counted in a state the
    connection reached; and none is negative when the states were entered in
    their order. *)
Lemma durations_add_up c :
  let ds := durations c (cn_start_microtime c) logged_states in
  infos c = zip_with (status_info c) logged_states ds /\ length ds = 5%nat /\
  total_duration c = foldr Z.add 0 ds /\
  ((forall i, i ∈ logged_states -> 0 < stat_time c i -> cn_start_microtime c <= stat_time c i) ->
   (forall n m i j, (n < m)%nat -> logged_states !! n = Some i -> logged_states !! m = Some j ->
      0 < stat_time c i -> 0 < stat_time c j -> stat_time c i <= stat_time c j) -> Forall (Z.le 0) ds).
Proof.
  intros ds. destruct (status_infos_durations c logged_states (cn_start_microtime c)) as [E1 E2].
  split; [exact E1|]. split.
  { unfold ds, logged_states. cbn [durations]. by repeat case_match. }
  split; [unfold total_duration; rewrite E2; unfold ds; lia|].
  intros Hs Hm. apply durations_nonneg; [exact Hs|]. intros n j k Hn m Hnm Hk. by apply (Hm n m).
Qed.

(** A CSV record is read back.  When the timestamp and the custom data hold no
    comma, cutting a line of the CSV log on its commas gives back the seventeen
    fields that were written. *)
Lemma csv_line_reads_back start_timestamp custom c :
  no_comma start_timestamp -> custom_clean custom ->
  exists line, csv_line start_timestamp custom c = line ++ [10] /\ split_on 44 line = csv_fields start_timestamp custom c.
Proof.
  intros Hs Hc. eexists. split; [reflexivity|]. apply split_on_sep; [done|]. pose proof (no_comma_ntop) as Hn.
  pose proof (infos_no_comma c) as Hi. unfold csv_fields. rewrite !Forall_app. split; [|split; [|split; [|split]]].
  - pose proof (lookup_proto_no_comma (cn_protocol c)). repeat constructor; try done; try apply no_comma_3f; try apply Hn;
      apply no_comma_u; unfold ntohs, htons; pose proof (Z.mod_pos_bound (cn_first_pkt_src_port c) 256);
      pose proof (Z.mod_pos_bound (cn_first_pkt_src_port c / 256) 256);
      pose proof (Z.mod_pos_bound (cn_first_pkt_dst_port c) 256);
      pose proof (Z.mod_pos_bound (cn_first_pkt_dst_port c / 256) 256); lia.
  - repeat constructor; apply no_comma_d.
  - repeat constructor; [apply lookup_state_no_comma|apply no_comma_d].
  - exact Hi.
  - repeat constructor. by apply custom_no_comma.
Qed.

(** The size of a standard record is computed with a longer arrow. *)
Lemma std_line_shorter start_timestamp custom c :
  length (std_line start_timestamp custom c (text "<->")) = S (length (std_line start_timestamp custom c (text "->"))).
Proof. unfold std_line. rewrite !length_app, !length_sep, !length_app. simpl. lia. Qed.

(** A record never overflows its buffer.  Whatever the connection and the
    strings of its record, [log_csv] fills its buffer exactly, [log_std] leaves a
    byte unused (the size is computed with another arrow), and with an open file
    [connection_log] writes one line and keeps the others. *)
Lemma records_fit start_timestamp custom c :
  log_csv start_timestamp custom c = Ret (csv_line start_timestamp custom c) /\
  log_std start_timestamp custom c = Ret (std_line start_timestamp custom c (text "->")) /\
  forall starts customs chdir reopened t ls w,
    config w !! "log_rotation"%string = None -> config w !! "log_format"%string = None -> logfd ls = true ->
    ICONFIG_REQUIRED "output" w = Ret (OUTPUT OUTPUT_LOGFILES, w) ->
    connection_log starts customs chdir reopened t c ls w =
      Ret (LogState (last_rotation ls) true (std_line (starts c) (customs c) c (text "->") :: log_lines ls), w).
Proof.
  assert (Hc : forall s cu, log_csv s cu c = Ret (csv_line s cu c)) by (intros; apply sprintf_fits; lia).
  assert (Hs : forall s cu, log_std s cu c = Ret (std_line s cu c (text "->"))).
  { intros. apply sprintf_fits. rewrite std_line_shorter. lia. }
  split; [done|]. split; [done|]. intros starts customs chdir reopened t ls w Hr Hf Hl Ho. unfold connection_log.
  assert (Er : ICONFIG "log_rotation" w = Ret (0, w)) by (unfold ICONFIG, config_lookup, sbind, sgets; by rewrite Hr).
  rewrite (sbind_eq _ _ _ _ _ Er). unfold sbind at 1. cbn [Z.eqb sret]. rewrite (sbind_eq _ _ _ _ _ Ho).
  assert (Ef : CONFIG "log_format" w = Ret (None, w)) by (unfold CONFIG, config_lookup, sbind, sgets; by rewrite Hf).
  cbn [OUTPUT]. change ((3 =? 2) || (3 =? 3)) with true. cbn iota. rewrite (sbind_eq _ _ _ _ _ Ef). unfold sbind at 1. cbn [sret].
  unfold slift. unfold sbind. rewrite Hs. by rewrite Hl.
Qed.

Lemma L_frees t logbuf id : L t None (Some logbuf) LOG_HIGH id = Ret (text "******LOG ENGINE ERROR******" ++ [10], true).
Proof. reflexivity. Qed.

(** The first rotation of the log frees a buffer twice.  On calendar hours,
    the test on [tm_year * 1000000 + ..] is true exactly when the hour is later:
    in the same hour nothing happens; in a later one the rotation, which frees
    its last message after [honeylog] did, never returns, and is a double free
    when its files and directories are as they should be. *)
Lemma rotation_frees_twice chdir reopened t0 t ls w :
  tm_ok t0 -> tm_ok t -> last_rotation ls = hour_stamp t0 ->
  (~ hour_lt t0 t -> rotate_connection_log chdir reopened t 0 ls w = Ret (ls, w)) /\
  (hour_lt t0 t -> (forall r, rotate_connection_log chdir reopened t 0 ls w <> Ret r) /\
     forall name, logfd ls = true -> required_string "log_file" w = Ret (name, w) -> (length name <= 100)%nat ->
       chdir_required chdir "log_directory" w = Ret (true, w) -> chdir_required chdir "exec_directory" w = Ret (true, w) ->
       rotate_connection_log chdir reopened t 0 ls w = Fault DoubleFree).
Proof.
  intros H0 Ht Hl. unfold rotate_connection_log. pose proof (proj2 (hour_stamp_bound _ H0)) as Hb. rewrite Hl.
  rewrite (proj2 (Z.eqb_neq _ _)) by lia. pose proof (hour_stamp_lt _ _ H0 Ht) as Hlt.
  destruct (Z.ltb_spec (hour_stamp t0) (hour_stamp t)); cbn [orb Z.ltb Z.compare].
  2:{ split; [done|]. intros Hh. apply Hlt in Hh. lia. }
  split; [intros Hh; by destruct Hh; apply Hlt|]. intros _.
  split.
  - intros [ls' w'] H1. unfold rotate in H1. destruct (negb (logfd ls)); [done|]. srun H1 as name w1 H2.
    srun H1 as msg w2 H3. srun H1 as p w3 H4. srun H1 as ok w4 H5. destruct (negb ok); [done|].
    srun H1 as ok2 w5 H6. destruct (negb ok2); [done|]. srun H1 as logbuf w6 H7. rewrite L_frees in H1. discriminate H1.
  - intros name Hfd Hn Hlen Hc1 Hc2. unfold rotate. rewrite Hfd. cbn [negb]. rewrite (sbind_eq _ _ _ _ _ Hn).
    pose proof (rotated_length t name). unfold slift. unfold sbind at 1.
    rewrite sprintf_fits by (rewrite !length_app, !length_text; cbn [length String.length]; lia).
    rewrite L_frees. unfold sbind at 1. rewrite (sbind_eq _ _ _ _ _ Hc1). cbn [negb].
    rewrite (sbind_eq _ _ _ _ _ Hc2). cbn [negb]. unfold sbind at 1. pose proof (print_u_length (hour_stamp t)).
    rewrite sprintf_fits by (rewrite !length_app, !length_text; cbn [length String.length]; lia). unfold sbind. by rewrite L_frees.
Qed.

(** Without custom data, which nothing sets, the last value of the MySQL query is a
    bare dash: no query is well formed. *)
Lemma mysql_query_dash c : exists q, mysql_query None c = q ++ text ",-);".
Proof.
  unfold mysql_query. cbn [sep map concat custom_field]. rewrite !app_nil_r. eexists. rewrite !app_assoc.
  rewrite <- (app_assoc _ [45]), <- (app_assoc _ [44]). reflexivity.
Qed.

(** The macro [L] reports an error each time [honeylog] succeeds. *)
Lemma L_reports t sdata ddata level id printed freed : honeylog t sdata ddata level id = Ret (OK, printed, freed) ->
  L t sdata ddata level id = Ret (printed ++ text "******LOG ENGINE ERROR******" ++ [10], freed).
Proof. intros H. unfold L. by rewrite H. Qed.

(** ** Witnesses *)

Definition sample_tm : tm := Tm 114 4 1 13 59 58 7.
Definition later_tm : tm := Tm 114 4 1 14 0 3 9.

(** A connection that was redirected after two seconds and forwarded for three. *)
Definition logged_conn : conn_struct :=
  conn_zero <| cn_protocol := 6 |> <| cn_start_microtime := 1000000 |> <| cn_state := FORWARD |> <| cn_id := 12 |>
    <| cn_first_pkt_src_ip := ip_ext |> <| cn_first_pkt_dst_ip := ip_target |>
    <| cn_first_pkt_src_port := htons 4321 |> <| cn_first_pkt_dst_port := htons 80 |>
    <| cn_stat_time := [0; 1500000; 3000000; 3000500; 6000250; 0; 0; 0] |>
    <| cn_stat_packet := [0; 1; 2; 3; 4; 0; 0; 0] |> <| cn_stat_byte := [0; 60; 120; 180; 240; 0; 0; 0] |>
    <| cn_total_packet := 10 |> <| cn_total_byte := 600 |>.

Example logged_line : csv_line (date_time sample_tm) None logged_conn =
  text "2014-05-01 13:59:58.000007,5.000,TCP,198.51.100.7,4321,203.0.113.5,80,10,600,FORWARD,12,0.500|1|60,1.500|,0.001|3|180,3.000|4|240,.|.|.,-" ++ [10].
Proof. vm_compute. reflexivity. Qed.

Lemma durations_add_up_witness : durations logged_conn 1000000 logged_states = [500000; 1500000; 500; 2999750; 0] /\
  total_duration logged_conn = 5000250.
Proof.
  split; [vm_compute; reflexivity|]. destruct (durations_add_up logged_conn) as (_ & _ & E & _). rewrite E.
  vm_compute. reflexivity.
Defined.

Lemma csv_line_reads_back_witness : exists line,
  csv_line (date_time sample_tm) None logged_conn = line ++ [10] /\
  split_on 44 line = csv_fields (date_time sample_tm) None logged_conn.
Proof.
  apply (csv_line_reads_back (date_time sample_tm) None logged_conn).
  - apply no_comma_text. vm_compute. reflexivity.
  - exact I.
Defined.

Definition log_config : world :=
  world0 <| config := {[ "output"%string := CBlock [3; 0; 0; 0];
    "log_file"%string := CBlock (text "honeybrid.log" ++ [0]);
    "log_directory"%string := CBlock (text "/var/log/honeybrid/" ++ [0]);
    "exec_directory"%string := CBlock (text "/var/run/" ++ [0]) ]} |>.

Lemma records_fit_witness :
  connection_log (fun _ => date_time sample_tm) (fun _ => None) (fun _ => true) true sample_tm logged_conn
    (LogState 0 true []) log_config =
  Ret (LogState 0 true [std_line (date_time sample_tm) None logged_conn (text "->")], log_config).
Proof.
  destruct (records_fit [] None logged_conn) as (_ & _ & H).
  apply (H (fun _ => date_time sample_tm) (fun _ => None) (fun _ => true) true sample_tm (LogState 0 true []) log_config);
    vm_compute; reflexivity.
Defined.

Lemma rotation_frees_twice_witness :
  rotate_connection_log (fun _ => true) true later_tm 0 (LogState (hour_stamp sample_tm) true []) log_config =
  Fault DoubleFree.
Proof.
  destruct (rotation_frees_twice (fun _ => true) true sample_tm later_tm (LogState (hour_stamp sample_tm) true [])
    log_config) as [_ H].
  - unfold tm_ok. simpl. lia.
  - unfold tm_ok. simpl. lia.
  - reflexivity.
  - apply (proj2 (H ltac:(unfold hour_lt; simpl; lia)) (text "honeybrid.log")); try (vm_compute; reflexivity).
    simpl. lia.
Defined.
