(* ===== verification/MySql.v ===== *)
(** The records sent to a database ([init_mysql_log] and [log_mysql] of [log.c],
    in the MySQL build).

    What the client library answers - whether a connection is made, whether a ping
    and a query succeed - is given for each record; [mysql_close] frees the
    handle that [mysql_init] allocated, and every other call needs one. *)
From S2P Require Import Prelude Mem CString Types World Keys.
From S2P Require Import Startup Log.

(** [mysqlConn]: null, a handle, or a handle that was closed. *)
Inductive mysql_conn := MysqlNull | MysqlOpen | MysqlClosed.
Record mysql_answers := MysqlAnswers { my_connects : bool; my_pings : bool; my_accepts : bool }.

(** A call of the library on the handle. *)
Definition mysql_handle (m : mysql_conn) : outcome unit :=
  match m with MysqlNull => Fault NullDeref | MysqlOpen => Ret tt | MysqlClosed => Fault UseAfterFree end.

(** [NOK], which is zero, when there is a connection. *)
Definition init_mysql_log (a : mysql_answers) (m : mysql_conn) : M (status_t * mysql_conn) :=
  match m with
  | MysqlNull =>
    do _host <- CONFIG_REQUIRED "mysql_host";
    do _user <- CONFIG_REQUIRED "mysql_user";
    do _password <- CONFIG_REQUIRED "mysql_password";
    do _db <- CONFIG_REQUIRED "mysql_db";
    do _port <- ICONFIG_REQUIRED "mysql_port";
    sret (if my_connects a then NOK else OK, MysqlOpen)
  | _ =>
    do_ slift (mysql_handle m);
    if my_pings a then sret (NOK, m) else sret (OK, MysqlClosed)
  end.

(** The result, and the query of the record when it reached the database; the
    result is [OK] when there was no connection.  [custom] is what the custom
    data of the connection print. *)
Definition log_mysql (custom : option (list (list Z))) (a : mysql_answers) (c : conn_struct) (m : mysql_conn) :
    M (status_t * mysql_conn * option (list Z)) :=
  do '(r, m) <- init_mysql_log a m;
  if decide (r = NOK) then
    let query := mysql_query custom c in
    do_ slift (mysql_handle m);
    if my_accepts a then sret (OK, m, Some query) else sret (NOK, m, None)
  else sret (OK, m, None).

(** The records of the connections that end, one after the other: the queries
    that reached the database. *)
Fixpoint log_records (custom : conn_struct -> option (list (list Z))) (l : list (mysql_answers * conn_struct))
    (m : mysql_conn) : M (mysql_conn * list (list Z)) :=
  match l with
  | [] => sret (m, [])
  | (a, c) :: l =>
    do '(_, m, sent) <- log_mysql (custom c) a c m;
    do '(m, rest) <- log_records custom l m;
    sret (m, option_list sent ++ rest)
  end.

(** * A database that goes away *)

Lemma log_mysql_open custom a c w : log_mysql custom a c MysqlOpen w =
  Ret (if my_pings a
       then (if my_accepts a then OK else NOK, MysqlOpen, if my_accepts a then Some (mysql_query custom c) else None)
       else (OK, MysqlClosed, None), w).
Proof. unfold log_mysql, init_mysql_log, sbind, slift, sret. cbn -[mysql_query]. by destruct (my_pings a), (my_accepts a). Qed.

Lemma log_mysql_closed custom a c w : log_mysql custom a c MysqlClosed w = Fault UseAfterFree.
Proof. reflexivity. Qed.

(** While the database answers, every record it accepts reaches it, in order. *)
Lemma records_reach custom l w : Forall (fun r => my_pings r.1 = true) l ->
  log_records custom l MysqlOpen w =
    Ret ((MysqlOpen, map (fun r => mysql_query (custom r.2) r.2) (filter (fun r => my_accepts r.1 = true) l)), w).
Proof.
  induction 1 as [|[a c] l Ha _ IH]; [done|]. cbn [log_records]. unfold sbind at 1. rewrite log_mysql_open. simpl in Ha.
  rewrite Ha. unfold sbind. rewrite IH. unfold sret. do 3 f_equal. rewrite filter_cons. cbn [fst].
  destruct (my_accepts a); by rewrite ?decide_True, ?decide_False by done.
Qed.

(** An outage is fatal: the record that meets it is lost and reported as written,
    and the next one, whatever the database answers by then, uses the closed
    handle. *)
Lemma outage_is_fatal custom before a c a' c' after w :
  Forall (fun r => my_pings r.1 = true) before -> my_pings a = false ->
  log_mysql (custom c) a c MysqlOpen w = Ret (OK, MysqlClosed, None, w) /\
  log_records custom (before ++ (a, c) :: (a', c') :: after) MysqlOpen w = Fault UseAfterFree.
Proof.
  intros Hb Ha. split; [by rewrite log_mysql_open, Ha|]. induction Hb as [|[b q] before Hb' _ IH]; cbn [app log_records].
  - unfold sbind at 1. rewrite log_mysql_open, Ha. unfold sbind. by rewrite log_mysql_closed.
  - unfold sbind at 1. rewrite log_mysql_open. simpl in Hb'. rewrite Hb'. unfold sbind. by rewrite IH.
Qed.
