(* ===== verification/PcapTool.v ===== *)
(** The recording of packets in capture files ([pcap_tool.c]): two streams of
    packets, each in a sequence of files that a packet past ten megabytes closes.

    This file of the repository is compiled by no rule of its build and no other
    file calls it; it is modelled for itself.  A dumper of libpcap is its number
    in the order of the openings; what it was asked to write is kept with it.
    The clock, the queue of netfilter and what libpcap can open answer once per
    call. *)
From S2P Require Import Prelude Mem CString Types World Keys.
From S2P Require Import Startup Log.

Record dumped := Dumped { du_sec : Z; du_usec : Z; du_caplen : Z; du_len : Z; du_data : list Z }.
Record dumper := Dumper { dp_name : list Z; dp_dumped : list dumped; dp_open : bool }.
#[export] Instance eta_dumper : EtaRecord dumper := fun d => Dumper (dp_name d) (dp_dumped d) (dp_open d).

Inductive descriptor := DescNull | DescOpen | DescClosed.
#[export] Instance descriptor_eq_dec : EqDecision descriptor.
Proof. solve_decision. Defined.
Record captures := Captures {
  pcap_main_desc : descriptor;
  pcap_output_current : option nat;
  pcap_output_redirected : option nat;
  dumpers : list dumper;
}.
#[export] Instance eta_captures : EtaRecord captures :=
  fun s => Captures (pcap_main_desc s) (pcap_output_current s) (pcap_output_redirected s) (dumpers s).
Definition no_capture : captures := Captures DescNull None None [].

(** What the environment answers during a call: the setting [conn_record], as
    [%s] prints it; whether [pcap_open_dead] and the two openings of files
    succeed; the local time at each of them; the time of the packet; what
    [nfq_get_payload] gives. *)
Record capture_env := CaptureEnv {
  ce_prefix : list Z;
  ce_dead : bool;
  ce_open : bool; ce_open_redirected : bool;
  ce_date : option tm; ce_date_redirected : option tm;
  ce_sec : Z; ce_usec : Z;
  ce_nfq : option (list Z);
}.


Definition create_pcap_filename (prefix : list Z) (date : option tm) (mode : Z) : outcome (list Z) :=
  let! t := nonnull date in
  Ret (prefix ++ print_d (tm_year t + 1900) ++ print_d (tm_mon t + 1) ++ print_d (tm_mday t) ++ [45] ++
       print_d (tm_hour t) ++ [45] ++ print_d (tm_min t) ++ [45] ++ print_d (tm_sec t) ++
       (if mode =? 1 then string_bytes "-redirected" else []) ++ string_bytes ".pcap").

(** ** libpcap *)

Definition pcap_dump_open (opens : bool) (name : list Z) : SE captures (option nat) :=
  do s <- sget;
  match pcap_main_desc s with
  | DescNull => sfault NullDeref
  | DescClosed => sfault UseAfterFree
  | DescOpen =>
    if opens then
      do_ smodify (fun s => s <| dumpers ::= (fun l => l ++ [Dumper name [] true]) |>);
      sret (Some (length (dumpers s)))
    else sret None
  end.

(** A dumper that is used must not be null nor closed. *)
Definition dumper_at (d : option nat) : SE captures (nat * dumper) :=
  do i <- slift (nonnull d);
  do s <- sget;
  do x <- slift (nonnull (dumpers s !! i));
  if dp_open x then sret (i, x) else sfault UseAfterFree.

(** The file has a header of 24 bytes, each packet one of 16. *)
Definition dumped_size (l : list dumped) : Z := foldr (fun x n => 16 + du_caplen x + n) 0 l.
Definition ftell (d : option nat) : SE captures Z :=
  do x <- dumper_at d; sret (24 + dumped_size (dp_dumped x.2)).

Definition put_dumper (i : nat) (x : dumper) : SE captures unit :=
  smodify (fun s => s <| dumpers ::= <[i := x]> |>).
Definition pcap_dump (d : option nat) (x : dumped) : SE captures unit :=
  do '(i, f) <- dumper_at d; put_dumper i (f <| dp_dumped ::= (fun l => l ++ [x]) |>).
Definition pcap_dump_close (d : option nat) : SE captures unit :=
  do '(i, f) <- dumper_at d; put_dumper i (f <| dp_open := false |>).
Definition pcap_close : SE captures unit :=
  do s <- sget;
  match pcap_main_desc s with
  | DescNull => sfault NullDeref
  | DescClosed => sfault DoubleFree
  | DescOpen => smodify (fun s => s <| pcap_main_desc := DescClosed |>)
  end.

(** ** The functions *)

(** Zero on success. *)
Definition init_pcap_context (e : capture_env) : SE captures Z :=
  if negb (ce_dead e) then sret (-1)
  else
    do_ smodify (fun s => s <| pcap_main_desc := DescOpen |>);
    do output_file_name <- slift (create_pcap_filename (ce_prefix e) (ce_date e) 0);
    do d <- pcap_dump_open (ce_open e) output_file_name;
    do_ smodify (fun s => s <| pcap_output_current := d |>);
    if decide (d = None) then sret (-1)
    else
      do redirected_output_file_name <- slift (create_pcap_filename (ce_prefix e) (ce_date_redirected e) 1);
      do d <- pcap_dump_open (ce_open_redirected e) redirected_output_file_name;
      do_ smodify (fun s => s <| pcap_output_redirected := d |>);
      sret (if decide (d = None) then -1 else 0).

(** What is written of the packet: in modes 2 and 3 the IP packet [p], as long as
    its header says; otherwise what the queue gives, a negative length and no
    data when it fails. *)
Definition packet_dumped (e : capture_env) (p : list Z) (mode : Z) : outcome dumped :=
  if (mode =? 2) || (mode =? 3) then
    let! tot_len := ld16 p 2 in
    let caplen := ntohs tot_len in
    let! data := mget p 0 (Z.to_nat caplen) in
    Ret (Dumped (ce_sec e) (ce_usec e) caplen caplen data)
  else
    match ce_nfq e with
    | Some data => Ret (Dumped (ce_sec e) (ce_usec e) (Z.of_nat (length data)) (Z.of_nat (length data)) data)
    | None => Fault Uninitialised
    end.

Definition max_capture : Z := 10485760.

(** A full file is closed and the next one opened. *)
Definition rotate_capture (e : capture_env) (mode : Z) (d : option nat) : SE captures (option nat) :=
  do_ pcap_dump_close d;
  do file_name <- slift (create_pcap_filename (ce_prefix e) (ce_date e) mode);
  do d <- pcap_dump_open (ce_open e) file_name;
  do_ (if decide (d = None) then sret tt
       else if (mode =? 0) || (mode =? 3) then smodify (fun s => s <| pcap_output_current := d |>)
       else smodify (fun s => s <| pcap_output_redirected := d |>));
  sret d.

Definition record_pkt (e : capture_env) (p : list Z) (mode : Z) : SE captures Z :=
  do s <- sget;
  do r <- (if decide (pcap_main_desc s = DescNull) then init_pcap_context e else sret 0);
  if negb (r =? 0) then sret (-1)
  else
    do s <- sget;
    let d := if mode =? 0 then pcap_output_current s else pcap_output_redirected s in
    do size <- ftell d;
    do d <- (if max_capture <? size then rotate_capture e mode d else sret d);
    match d with
    | None => sret (-1)
    | Some _ => do_ (do x <- slift (packet_dumped e p mode); pcap_dump d x); sret 0
    end.

Definition close_pcap_context : SE captures Z :=
  do s <- sget;
  do_ pcap_dump_close (pcap_output_current s);
  do_ pcap_dump_close (pcap_output_redirected s);
  do_ pcap_close;
  sret 0.

(** * The streams *)

(** A file is bounded when it was below the limit before its last packet. *)
Definition bounded (f : dumper) : Prop :=
  dp_dumped f = [] \/ exists l x, dp_dumped f = l ++ [x] /\ 24 + dumped_size l <= max_capture.

(** The files [l] hold the packets [pkts], in their order: all are closed but the
    last, on which the stream goes on. *)
Definition stream (ds : list dumper) (l : list nat) (live : option nat) (pkts : list dumped) : Prop :=
  exists old i closed f,
    l = old ++ [i] /\ live = Some i /\ Forall2 (fun j d => ds !! j = Some d) l (closed ++ [f]) /\
    Forall (fun d => dp_open d = false) closed /\ dp_open f = true /\ Forall bounded (closed ++ [f]) /\
    pkts = concat (dp_dumped <$> (closed ++ [f])).

(** Every file belongs to one of the two streams. *)
Definition recording (s : captures) (cur red : list nat) (pc pr : list dumped) : Prop :=
  pcap_main_desc s = DescOpen /\ cur ++ red ≡ₚ seq 0 (length (dumpers s)) /\
  stream (dumpers s) cur (pcap_output_current s) pc /\ stream (dumpers s) red (pcap_output_redirected s) pr.

Lemma dumper_at_ok s i f : dumpers s !! i = Some f -> dp_open f = true -> dumper_at (Some i) s = Ret ((i, f), s).
Proof. intros H1 H2. unfold dumper_at, sbind, slift, sget, sret. cbn. rewrite H1. cbn. by rewrite H2. Qed.

Lemma stream_live ds l live pkts : stream ds l live pkts ->
  exists i f, live = Some i /\ i ∈ l /\ ds !! i = Some f /\ dp_open f = true.
Proof.
  intros (old & i & closed & f & -> & -> & H2 & _ & Hf & _). exists i, f. apply Forall2_app_inv in H2 as [_ H2].
  - inversion H2; subst. split; [done|]. split; [set_solver|]. done.
  - apply Forall2_length in H2. rewrite !length_app in H2. simpl in H2. lia.
Qed.

Lemma files_frame (ds ds' : list dumper) l k : Forall2 (fun j d => ds !! j = Some d) l k ->
  (forall j d, j ∈ l -> ds !! j = Some d -> ds' !! j = Some d) -> Forall2 (fun j d => ds' !! j = Some d) l k.
Proof.
  induction 1 as [|j d l k Hj _ IH]; intros Hds; constructor.
  - apply Hds; [by left|done].
  - apply IH. intros x e Hx. apply Hds. by right.
Qed.

(** The files of the other stream may change, and new ones appear. *)
Lemma stream_frame ds ds' l live pkts : stream ds l live pkts ->
  (forall j d, j ∈ l -> ds !! j = Some d -> ds' !! j = Some d) -> stream ds' l live pkts.
Proof.
  intros (old & i & closed & f & Hl & Hlive & H2 & H) Hds. exists old, i, closed, f. do 2 (split; [done|]).
  split; [by eapply files_frame|done].
Qed.

Lemma Forall2_snoc {A B} (R : A -> B -> Prop) l a k b : Forall2 R (l ++ [a]) (k ++ [b]) <-> Forall2 R l k /\ R a b.
Proof.
  split.
  - intros H. assert (length l = length k) by (apply Forall2_length in H; rewrite !length_app in H; simpl in H; lia).
    apply Forall2_app_inv in H as [H1 H2]; [|done]. by inversion H2.
  - intros [H1 H2]. by apply Forall2_app; [|constructor].
Qed.

Lemma snoc_not_in {A} (l : list A) i j : NoDup (l ++ [i]) -> j ∈ l -> j <> i.
Proof. intros (_ & H & _)%NoDup_app Hj ->. apply (H i Hj). by left. Qed.

Lemma stream_dump ds l i f pkts x : stream ds l (Some i) pkts -> NoDup l -> ds !! i = Some f ->
  24 + dumped_size (dp_dumped f) <= max_capture ->
  stream (<[i := f <| dp_dumped ::= (fun l => l ++ [x]) |>]> ds) l (Some i) (pkts ++ [x]).
Proof.
  intros (old & i' & closed & f' & -> & [= <-] & H2 & Hc & Hf & Hb & ->) Hnd Hi Hs.
  apply Forall2_snoc in H2 as [H2 Hi']. assert (f' = f) as -> by congruence.
  exists old, i, closed, (f <| dp_dumped ::= (fun l => l ++ [x]) |>). do 2 (split; [done|]). split; [|split; [done|split; [done|split]]].
  - apply Forall2_snoc. split; [|apply list_lookup_insert_eq; by eapply lookup_lt_Some].
    eapply files_frame; [exact H2|]. intros j d Hj Hd. rewrite list_lookup_insert_ne; [done|].
    by apply not_eq_sym, (snoc_not_in old).
  - apply Forall_app in Hb as [Hb _]. apply Forall_app. split; [done|]. constructor; [|done]. right. by exists (dp_dumped f), x.
  - rewrite !fmap_app, !concat_app. simpl. by rewrite !app_nil_r, app_assoc.
Qed.

(** A full file is closed, an empty one goes on. *)
Lemma stream_rotate ds l i f name pkts : stream ds l (Some i) pkts -> NoDup l -> ds !! i = Some f ->
  stream (<[i := f <| dp_open := false |>]> ds ++ [Dumper name [] true]) (l ++ [length ds]) (Some (length ds)) pkts.
Proof.
  intros (old & i' & closed & f' & -> & [= <-] & H2 & Hc & Hf & Hb & ->) Hnd Hi.
  apply Forall2_snoc in H2 as [H2 Hi']. assert (f' = f) as -> by congruence. assert (Hlt := lookup_lt_Some _ _ _ Hi).
  exists (old ++ [i]), (length ds), (closed ++ [f <| dp_open := false |>]), (Dumper name [] true).
  do 2 (split; [done|]). split; [|split; [|split; [done|split]]].
  - apply Forall2_snoc. split; [apply Forall2_snoc; split|].
    + eapply files_frame; [exact H2|]. intros j d Hj Hd. apply lookup_app_l_Some.
      rewrite list_lookup_insert_ne; [done|]. by apply not_eq_sym, (snoc_not_in old).
    + apply lookup_app_l_Some. by apply list_lookup_insert_eq.
    + rewrite lookup_app_r by (rewrite length_insert; lia). by rewrite length_insert, Nat.sub_diag.
  - by apply Forall_app; split; [|constructor].
  - apply Forall_app in Hb as [Hb Hbf]. inversion Hbf; subst. apply Forall_app; split; [apply Forall_app; split; [done|]|];
      (constructor; [|done]); [done|by left].
  - rewrite !fmap_app, !concat_app. simpl. by rewrite !app_nil_r.
Qed.

(** ** Recording *)

Record capture_call := CaptureCall { cc_env : capture_env; cc_packet : list Z; cc_mode : Z }.
Fixpoint record_pkts (l : list capture_call) : SE captures (list Z) :=
  match l with
  | [] => sret []
  | c :: l => do r <- record_pkt (cc_env c) (cc_packet c) (cc_mode c); do rs <- record_pkts l; sret (r :: rs)
  end.

(** libpcap and the clock answer, and the packet is there. *)
Definition answers (e : capture_env) : Prop :=
  ce_dead e = true /\ ce_open e = true /\ ce_open_redirected e = true /\
  is_Some (ce_date e) /\ is_Some (ce_date_redirected e).
Definition recordable (c : capture_call) : Prop :=
  answers (cc_env c) /\ exists x, packet_dumped (cc_env c) (cc_packet c) (cc_mode c) = Ret x.
Definition recorded (c : capture_call) : option dumped :=
  match packet_dumped (cc_env c) (cc_packet c) (cc_mode c) with Ret x => Some x | Fault _ => None end.

Lemma init_recording e : answers e -> exists s, init_pcap_context e no_capture = Ret (0, s) /\ recording s [0%nat] [1%nat] [] [].
Proof.
  intros (H1 & H2 & H3 & [t Ht] & [t' Ht']). unfold init_pcap_context, create_pcap_filename. rewrite H1, Ht, Ht'. eexists.
  unfold sbind, smodify, slift, pcap_dump_open, sget, sret. cbn. rewrite H2. cbn. rewrite H3. cbn. split; [done|].
  split; [done|]. split; [done|].
  split; eexists [], _, [], (Dumper _ [] true); do 2 (split; [done|]); (split; [constructor; [reflexivity|constructor]|]);
    do 2 (split; [done|]); (split; [|done]); (apply Forall_cons; split; [by left|done]).
Qed.

Lemma rotate_ok e mode s i f : answers e -> pcap_main_desc s = DescOpen -> dumpers s !! i = Some f -> dp_open f = true ->
  exists name, let n := length (dumpers s) in
    rotate_capture e mode (Some i) s =
    Ret (Some n,
         Captures DescOpen (if (mode =? 0) || (mode =? 3) then Some n else pcap_output_current s)
           (if (mode =? 0) || (mode =? 3) then pcap_output_redirected s else Some n)
           (<[i := f <| dp_open := false |>]> (dumpers s) ++ [Dumper name [] true])).
Proof.
  intros (_ & H2 & _ & [t Ht] & _) Hd Hi Hf. destruct s as [desc cur red ds]. cbn in Hd, Hi. subst desc. unfold rotate_capture, create_pcap_filename. rewrite Ht. cbn [nonnull obind]. eexists.
  unfold pcap_dump_close, sbind, slift. rewrite (dumper_at_ok _ i f) by done.
  unfold put_dumper, smodify, pcap_dump_open, sbind, sget, sret. cbn. rewrite H2. cbn. rewrite length_insert.
  destruct ((mode =? 0) || (mode =? 3)); reflexivity.
Qed.

Lemma dumped_ok s i f x : dumpers s !! i = Some f -> dp_open f = true ->
  pcap_dump (Some i) x s = Ret (tt, s <| dumpers ::= <[i := f <| dp_dumped ::= (fun l => l ++ [x]) |>]> |>).
Proof. intros Hi Hf. unfold pcap_dump, sbind. by rewrite (dumper_at_ok s i f). Qed.

(** A packet goes to the end of the stream its mode uses, in a new file when the
    last one is full; the files of the other stream are not touched. *)
Lemma record_on e p mode x s l i pkts : answers e -> packet_dumped e p mode = Ret x -> mode <> 3 ->
  pcap_main_desc s = DescOpen -> stream (dumpers s) l (Some i) pkts -> NoDup l ->
  (if mode =? 0 then pcap_output_current s else pcap_output_redirected s) = Some i ->
  exists l' i' ds',
    record_pkt e p mode s =
      Ret (0, Captures DescOpen (if mode =? 0 then Some i' else pcap_output_current s)
                (if mode =? 0 then pcap_output_redirected s else Some i') ds') /\
    stream ds' l' (Some i') (pkts ++ [x]) /\
    (forall j d, j ∉ l -> dumpers s !! j = Some d -> ds' !! j = Some d) /\
    (l' = l /\ length ds' = length (dumpers s) \/
     l' = l ++ [length (dumpers s)] /\ length ds' = S (length (dumpers s))).
Proof.
  intros He Hx Hm Hd Hst Hnd Hl. destruct (stream_live _ _ _ _ Hst) as (? & f & [= <-] & Hin & Hi & Hf).
  assert (Hlt := lookup_lt_Some _ _ _ Hi). destruct s as [desc cur red ds]. cbn in *. subst desc.
  unfold record_pkt, sbind at 1, sget. cbn [pcap_main_desc]. rewrite decide_False by done. unfold sbind at 1, sret at 1.
  cbn [Z.eqb negb]. unfold sbind at 1. cbn [pcap_output_current pcap_output_redirected]. rewrite Hl.
  unfold sbind at 1, ftell, sbind at 1. rewrite (dumper_at_ok _ i f) by done. unfold sret at 1. cbn [snd].
  destruct (Z.ltb_spec max_capture (24 + dumped_size (dp_dumped f))) as [Hs|Hs].
  - destruct (rotate_ok e mode (Captures DescOpen cur red ds) i f He eq_refl Hi Hf) as [name Hr]. unfold sbind at 1.
    rewrite Hr. clear Hr. cbn [dumpers pcap_output_current pcap_output_redirected].
    replace ((mode =? 0) || (mode =? 3)) with (mode =? 0) by (destruct (Z.eqb_spec mode 3); [done|by rewrite orb_false_r]).
    unfold sbind, slift. rewrite Hx. erewrite dumped_ok; [|cbn; rewrite lookup_app_r by (rewrite length_insert; lia);
      by rewrite length_insert, Nat.sub_diag|done].
    set (g := (Dumper name [] true) <| dp_dumped ::= (fun l => l ++ [x]) |>).
    exists (l ++ [length ds]), (length ds), (<[length ds := g]> (<[i := f <| dp_open := false |>]> ds ++ [Dumper name [] true])).
    split; [by destruct (mode =? 0)|]. split; [|split; [|by right; split; [|rewrite length_insert, length_app, length_insert; simpl; lia]]].
    + apply stream_dump; [by apply stream_rotate| | |unfold max_capture; cbn; lia].
      * apply NoDup_app. split; [done|]. split; [|by apply NoDup_singleton]. intros j Hj ->%list_elem_of_singleton.
        destruct Hst as (old & k & closed & f' & -> & _ & H2 & _). apply list_elem_of_lookup in Hj as [n Hn].
        destruct (Forall2_lookup_l _ _ _ _ _ H2 Hn) as (d & _ & Hd). apply lookup_lt_Some in Hd. lia.
      * rewrite lookup_app_r by (rewrite length_insert; lia). by rewrite length_insert, Nat.sub_diag.
    + intros j d Hj Hjd. assert (Hlj := lookup_lt_Some _ _ _ Hjd). rewrite list_lookup_insert_ne by lia.
      apply lookup_app_l_Some. rewrite list_lookup_insert_ne; [done|]. by intros ->.
  - unfold sbind, sret, slift. rewrite Hx. rewrite (dumped_ok _ i f) by done.
    exists l, i, (<[i := f <| dp_dumped ::= (fun l => l ++ [x]) |>]> ds).
    split; [by destruct (mode =? 0); rewrite <- Hl|]. split; [by apply stream_dump|].
    split; [|left; split; [done|by rewrite length_insert]]. intros j d Hj Hjd. rewrite list_lookup_insert_ne; [done|]. by intros ->.
Qed.

(** The state after a call that is recorded. *)
Lemma record_step e p mode x s cur red pc pr : answers e -> packet_dumped e p mode = Ret x -> mode <> 3 ->
  recording s cur red pc pr ->
  exists s' cur' red', record_pkt e p mode s = Ret (0, s') /\
    recording s' cur' red' (if mode =? 0 then pc ++ [x] else pc) (if mode =? 0 then pr else pr ++ [x]).
Proof.
  intros He Hx Hm (Hd & Hp & Hc & Hr). assert (Hnd : NoDup (cur ++ red)) by (rewrite Hp; apply NoDup_seq).
  apply NoDup_app in Hnd as (Hnc & Hdis & Hnr).
  destruct (stream_live _ _ _ _ Hc) as (i & _ & Hi & _), (stream_live _ _ _ _ Hr) as (k & _ & Hk & _).
  assert (Hperm : forall (a b a' : list nat) n, a ++ b ≡ₚ seq 0 (length (dumpers s)) ->
      a' = a /\ n = length (dumpers s) \/ a' = a ++ [length (dumpers s)] /\ n = S (length (dumpers s)) -> a' ++ b ≡ₚ seq 0 n).
  { intros a b a' n Hab [[-> ->]|[-> ->]]; [done|]. rewrite seq_S, <- Hab. simpl. by rewrite <- !app_assoc, (Permutation_app_comm b). }
  destruct (Z.eqb_spec mode 0) as [->|Hm0].
  - rewrite Hi in Hc. destruct (record_on e p 0 x s cur i pc He Hx Hm Hd Hc Hnc Hi) as (l & j & ds & -> & Hst & Hfr & Hl).
    eexists _, l, red. split; [done|]. split; [done|]. split; [by apply (Hperm cur)|]. split; [done|].
    eapply stream_frame; [exact Hr|]. cbn. intros q d Hq. apply Hfr. intros Hq'. by apply (Hdis q).
  - rewrite Hk in Hr. destruct (record_on e p mode x s red k pr He Hx Hm Hd Hr Hnr) as (l & j & ds & -> & Hst & Hfr & Hl).
    { by rewrite (proj2 (Z.eqb_neq mode 0)). }
    rewrite (proj2 (Z.eqb_neq mode 0)) by done.
    eexists _, cur, l. split; [done|]. split; [done|]. split; [|split; [|done]].
    + cbn. rewrite Permutation_app_comm. apply (Hperm red); [by rewrite Permutation_app_comm|done].
    + eapply stream_frame; [exact Hc|]. cbn. intros q d Hq. apply Hfr. intros Hq'. by apply (Hdis q).
Qed.

(** The first call opens the two files. *)
Lemma record_first e p mode : answers e ->
  exists s, record_pkt e p mode no_capture = record_pkt e p mode s /\ recording s [0%nat] [1%nat] [] [].
Proof.
  intros He. destruct (init_recording e He) as (s & Hs & Hrec). exists s. split; [|done]. destruct Hrec as (Hd & _).
  unfold record_pkt, sbind, sget. cbn [pcap_main_desc no_capture]. rewrite decide_True, Hs by done.
  by rewrite decide_False by congruence.
Qed.

Lemma records_kept l s cur red pc pr : Forall (fun c => recordable c /\ cc_mode c <> 3) l -> recording s cur red pc pr ->
  exists s' cur' red', record_pkts l s = Ret (repeat 0 (length l), s') /\
    recording s' cur' red' (pc ++ omap recorded (filter (fun c => cc_mode c = 0) l))
      (pr ++ omap recorded (filter (fun c => cc_mode c <> 0) l)).
Proof.
  intros Hl. revert s cur red pc pr. induction Hl as [|c l [[He [x Hx]] Hm] _ IH]; intros s cur red pc pr Hs.
  { exists s, cur, red. cbn. by rewrite !app_nil_r. }
  destruct (record_step _ _ _ x s cur red pc pr He Hx Hm Hs) as (s1 & cur1 & red1 & H1 & Hs1).
  destruct (IH _ _ _ _ _ Hs1) as (s2 & cur2 & red2 & H2 & Hs2). exists s2, cur2, red2.
  split; [cbn [record_pkts]; unfold sbind; by rewrite H1, H2|]. rewrite !filter_cons.
  assert (Hrc : recorded c = Some x) by (unfold recorded; by rewrite Hx).
  destruct (Z.eqb_spec (cc_mode c) 0) as [E|E].
  - rewrite decide_True, decide_False by (done || tauto). cbn [omap list_omap]. rewrite Hrc. cbn [list_omap]. by rewrite <- app_assoc in Hs2.
  - rewrite decide_False, decide_True by done. cbn [omap list_omap]. rewrite Hrc. by rewrite <- app_assoc in Hs2.
Qed.

(** The recorder at work: as long as the clock and libpcap answer and the calls
    keep to the modes 0, 1 and 2, every packet is recorded, those of mode 0 in
    the files of one stream and the others in those of the other, each in their
    order; every file but the last of each stream is closed, and none passes ten
    megabytes by more than its last packet. *)
Lemma recorded_in_order c l : Forall (fun c => recordable c /\ cc_mode c <> 3) (c :: l) ->
  exists s cur red, record_pkts (c :: l) no_capture = Ret (repeat 0 (length (c :: l)), s) /\
    recording s cur red (omap recorded (filter (fun c => cc_mode c = 0) (c :: l)))
      (omap recorded (filter (fun c => cc_mode c <> 0) (c :: l))).
Proof.
  intros H. assert (Ha : answers (cc_env c)) by (inversion H as [|? ? [[? _] _] _]; done).
  destruct (record_first (cc_env c) (cc_packet c) (cc_mode c) Ha) as (s & Hs & Hrec).
  destruct (records_kept (c :: l) s [0%nat] [1%nat] [] [] H Hrec) as (s' & cur & red & H1 & H2). exists s', cur, red.
  split; [|done]. rewrite <- H1. cbn [record_pkts]. unfold sbind. by rewrite Hs.
Qed.

(** ** What goes wrong *)

Lemma closed_faults e p mode s i f : pcap_main_desc s <> DescNull -> pcap_output_redirected s = Some i ->
  dumpers s !! i = Some f -> dp_open f = false -> mode <> 0 -> record_pkt e p mode s = Fault UseAfterFree.
Proof.
  intros Hd Hr Hi Hf Hm. unfold record_pkt, ftell, dumper_at, sbind, slift, sget, sret. rewrite decide_False by done.
  cbn [Z.eqb negb]. rewrite (proj2 (Z.eqb_neq mode 0)) by done. rewrite Hr. cbn. rewrite Hi. cbn. by rewrite Hf.
Qed.

(** Mode 3 is meant for the packets that are not redirected, but writes to the
    file of the redirected ones; when that file is full, the new one takes the
    place of the other stream's file, and the closed one stays in use: the next
    redirected packet is written through it. *)
Lemma mode_3_closes_the_wrong_file e p x s cur red pc pr i f e' p' mode : recording s cur red pc pr ->
  answers e -> packet_dumped e p 3 = Ret x -> pcap_output_redirected s = Some i -> dumpers s !! i = Some f ->
  max_capture < 24 + dumped_size (dp_dumped f) -> mode <> 0 ->
  exists s', record_pkt e p 3 s = Ret (0, s') /\ record_pkt e' p' mode s' = Fault UseAfterFree.
Proof.
  intros (Hd & _ & _ & Hr) He Hx Hred Hi Hs Hm. rewrite Hred in Hr.
  destruct (stream_live _ _ _ _ Hr) as (? & f' & [= <-] & _ & Hi' & Hf). assert (f' = f) as -> by congruence.
  assert (Hlt := lookup_lt_Some _ _ _ Hi). destruct s as [desc c r ds]. cbn in *. subst desc r.
  destruct (rotate_ok e 3 (Captures DescOpen c (Some i) ds) i f He eq_refl Hi Hf) as [name Hrot].
  eexists. split.
  - unfold record_pkt, sbind at 1, sget. cbn [pcap_main_desc]. rewrite decide_False by done. unfold sbind at 1, sret at 1.
    cbn [Z.eqb negb]. unfold sbind at 1. cbn [pcap_output_redirected]. unfold sbind at 1, ftell, sbind at 1.
    rewrite (dumper_at_ok _ i f) by done. unfold sret at 1. cbn [snd]. rewrite (proj2 (Z.ltb_lt _ _)) by done. unfold sbind at 1.
    rewrite Hrot. cbn. unfold sbind, slift. rewrite Hx. rewrite (dumped_ok _ _ (Dumper name [] true)); [reflexivity| |done].
    cbn. rewrite lookup_app_r by (rewrite length_insert; lia). by rewrite length_insert, Nat.sub_diag.
  - apply (closed_faults _ _ _ _ i (f <| dp_open := false |>)); [done|done| |done|done].
    change (<[length ds := (Dumper name [] true) <| dp_dumped ::= (fun l => l ++ [x]) |>]>
              (<[i := f <| dp_open := false |>]> ds ++ [Dumper name [] true]) !! i = Some (f <| dp_open := false |>)).
    rewrite list_lookup_insert_ne by lia. apply lookup_app_l_Some. by apply list_lookup_insert_eq.
Qed.

(** When a file cannot be opened the context stays half made, and the next call
    goes on with a null dumper. *)
Lemma half_made_context e p mode e' p' : ce_dead e = true -> is_Some (ce_date e) -> ce_open e = false ->
  exists s, record_pkt e p mode no_capture = Ret (-1, s) /\ record_pkt e' p' 0 s = Fault NullDeref.
Proof.
  intros H1 [t Ht] H2. eexists. split; [|shelve].
  unfold record_pkt, init_pcap_context, create_pcap_filename, pcap_dump_open, sbind, smodify, slift, sget, sret.
  rewrite H1, H2, Ht. cbn. reflexivity. Unshelve. reflexivity.
Qed.

(** A file of redirected packets that mode 2 opens has the name of one of the
    other packets, and the eleventh of January that of the first of November. *)
Example capture_names t : create_pcap_filename [] (Some t) 2 = create_pcap_filename [] (Some t) 0.
Proof. reflexivity. Qed.
Example capture_dates : create_pcap_filename [] (Some (Tm 111 0 11 8 0 0 0)) 0 = create_pcap_filename [] (Some (Tm 111 10 1 8 0 0 0)) 0.
Proof. vm_compute. reflexivity. Qed.

(** Two packets of the queue and one of the honeypot. *)
Definition sample_capture_env : capture_env :=
  CaptureEnv (string_bytes "/tmp/") true true true (Some (Tm 111 0 11 8 0 0 0)) (Some (Tm 111 0 11 8 0 0 0)) 7 8 (Some [69; 0; 0; 4]).
Example sample_capture :
  exists s, record_pkts [CaptureCall sample_capture_env [] 0; CaptureCall sample_capture_env [69; 0; 0; 5; 1; 9] 2;
                         CaptureCall sample_capture_env [] 0] no_capture = Ret ([0; 0; 0], s) /\
    dumpers s = [Dumper (string_bytes "/tmp/2011111-8-0-0.pcap") [Dumped 7 8 4 4 [69; 0; 0; 4]; Dumped 7 8 4 4 [69; 0; 0; 4]] true;
                 Dumper (string_bytes "/tmp/2011111-8-0-0-redirected.pcap") [Dumped 7 8 5 5 [69; 0; 0; 5; 1]] true].
Proof. eexists. split; [vm_compute; reflexivity|]. vm_compute. reflexivity. Qed.
