(* ===== verification/Locks.v ===== *)
(** The locks of the connections ([connections.c], [honeybrid.c]): [connlock], which
    protects the trees, and the mutex of each connection.  The other files take
    an iteration of a thread as one step; here a step is one acquisition or one
    release, with what is done to the trees in between, and the contents of the
    connections are forgotten.

    A decision thread looks a packet up under [connlock] and locks the connection
    it found before it releases it ([conn_lookup], lines 420, 574, 577).  A new
    connection is locked before anybody knows it ([create_conn], line 664) and
    filed under [connlock] (746, 839, 958, 1023, 1101), or worked on without
    being filed (869).  The iteration ends with the release of the connection
    ([de_thread], line 1011).  A rule that calls [mod_dns_control] takes [connlock]
    again in between ([switch_conn_to_intra], line 1510).  The cleaning thread
    takes [connlock], reads every connection that is filed, tries the lock of
    those that expired and frees the ones it gets ([clean], [expire_conn],
    [remove_conn]).

    The frames of a connection with the outside are in the queue of one thread,
    its home ([Order.flows_in_order]); those of a connection of the local
    network, or that was switched to it, may be in two queues: it roams.
    [remove_conn] has no branch for a connection opened by a LIH and switched to
    an INTRA host: it frees it and leaves it filed ([Redirect.switched_lih_dangles]).
    Reading or locking a connection that was freed is undefined; here a thread
    that has to cannot go on.

    What a thread does between two steps is taken to end: [get_tcp_timestamps],
    which loops on some options ([TcpOptions.get_tcp_timestamps_hangs]), is the
    exception.  Left out: the pins, which are looked up without [connlock],
    [setup_redirection], which files a second key of a filed connection
    without it (1382), the locks of the targets and of [mod_vmi], a switch of
    a connection that is not filed, which has no key, and [close_conn_trees], which runs
    when the other threads have ended. *)
From stdpp Require Import fin_sets.
From S2P Require Import Prelude Types.

Notation conn := positive (only parsing).

(** Where a thread is.  [Working c k]: it holds [c], and modules will switch the
    connection [k] more times before it is released; the cleaning thread goes
    through the connections that are filed ([Sweeping]), then through those that
    expired ([Dooming], [Removing]). *)
Inductive phase :=
  | Idle
  | Searching
  | Found (c : conn)
  | Fresh (c : conn)
  | Filing (c : conn)
  | Working (c : conn) (k : nat)
  | Switching (c : conn) (k : nat)
  | Sweeping (m : gset conn)
  | Dooming (l : list conn)
  | Removing (c : conn) (l : list conn).

(** The phases that hold [connlock]; the connection a thread holds; the one whose
    packet it handles. *)
Definition holds_trees (p : phase) : bool :=
  match p with
  | Searching | Found _ | Filing _ | Switching _ _ | Sweeping _ | Dooming _ | Removing _ _ => true
  | _ => false
  end.
Definition holds (p : phase) : option conn :=
  match p with Fresh c | Filing c | Working c _ | Switching c _ | Removing c _ => Some c | _ => None end.
Definition visits (p : phase) : option conn :=
  match p with Found c | Fresh c | Filing c | Working c _ | Switching c _ => Some c | _ => None end.

(** The connections a thread knows from the trees, and those it goes through. *)
Definition doomed (p : phase) : list conn :=
  match p with Dooming l => l | Removing c l => c :: l | _ => [] end.
Definition relies (p : phase) (c : conn) : Prop :=
  match p with Found d => c = d | Sweeping m => c ∈ m | p => c ∈ doomed p end.
Definition touches (p : phase) (c : conn) : Prop := holds p = Some c \/ relies p c.

Record locks := Locks {
  connlock : option nat;
  conn_lock : gmap conn nat;
  births : gmap conn (role_t * nat);   (* who opened it, its home *)
  filed : gset conn;
  roaming : gset conn;
  alive : gset conn;
  next_conn : conn;
  threads : list phase;
}.
#[export] Instance eta_locks : EtaRecord locks := fun s =>
  Locks (connlock s) (conn_lock s) (births s) (filed s) (roaming s) (alive s) (next_conn s) (threads s).

Definition goto (i : nat) (p : phase) (s : locks) : locks := s <| threads ::= <[i := p]> |>.

(** A lock taken and a lock released, for the other threads and for the thread. *)
Section Ownership.
Context (m : gmap conn nat) (c : conn) (i : nat).

Lemma taken_others j d : m !! c = None -> j <> i -> <[c := i]> m !! d = Some j <-> m !! d = Some j.
Proof. intros Hc Hj. rewrite lookup_insert_Some. split; [naive_solver|]. intros Hd. right. split; congruence. Qed.

Lemma released_others j d : m !! c = Some i -> j <> i -> delete c m !! d = Some j <-> m !! d = Some j.
Proof. intros Hc Hj. rewrite lookup_delete_Some. split; [naive_solver|]. intros Hd. split; congruence. Qed.

Lemma taken_own d : (forall d, m !! d = Some i <-> None = Some d) -> <[c := i]> m !! d = Some i <-> Some c = Some d.
Proof. intros Hown. rewrite lookup_insert_Some, Hown. naive_solver. Qed.

Lemma released_own d : (forall d, m !! d = Some i <-> Some c = Some d) -> delete c m !! d = Some i <-> None = Some d.
Proof. intros Hown. rewrite lookup_delete_Some, Hown. naive_solver. Qed.
End Ownership.

(** What [remove_conn] frees without removing it from the trees. *)
Definition stray (s : locks) (c : conn) : Prop := c ∈ roaming s /\ exists h, births s !! c = Some (LIH, h).
#[export] Instance stray_dec s c : Decision (stray s c).
Proof.
  apply and_dec; [apply _|].
  destruct (births s !! c) as [[[] h]|]; (left; by eexists) || (right; by intros [? [=]]).
Defined.

(** The kinds of trees [create_conn] files a connection in. *)
Definition files_as (r : role_t) (roams : bool) : bool :=
  match r with EXT | LIH => negb roams | HIH => true | INTRA => roams | INT => false end.

Section Protocol.
(** The cleaning thread; the modules that switch a connection in one iteration, at
    most: when it goes outside, and when it is one of the local network. *)
Context (cleaner ext_calls intra_calls : nat).

Definition calls (s : locks) (c : conn) : nat :=
  match births s !! c with
  | Some ((LIH | HIH), _) => if decide (c ∈ roaming s) then intra_calls else ext_calls
  | _ => 0
  end.

(** A packet is taken from a queue, or the cleaning thread wakes up. *)
Inductive begin (s : locks) : locks -> Prop :=
  | begin_lookup i : i <> cleaner -> threads s !! i = Some Idle -> connlock s = None ->
      begin s (goto i Searching (s <| connlock := Some i |>))
  | begin_clean : threads s !! cleaner = Some Idle -> connlock s = None ->
      begin s (goto cleaner (Sweeping (filed s)) (s <| connlock := Some cleaner |>)).

(** [conn_lookup]: the connection that is found is locked; without one the packet is
    dropped, unless it opens a connection. *)
Inductive lookup_step (s : locks) : locks -> Prop :=
  | step_found i c r h : threads s !! i = Some Searching -> c ∈ filed s ->
      births s !! c = Some (r, h) -> h = i \/ c ∈ roaming s -> lookup_step s (goto i (Found c) s)
  | step_lock i c k : threads s !! i = Some (Found c) -> c ∈ alive s -> conn_lock s !! c = None -> (k <= calls s c)%nat ->
      lookup_step s (goto i (Working c k) (s <| conn_lock ::= <[c := i]> |> <| connlock := None |>))
  | step_drop i : threads s !! i = Some Searching -> lookup_step s (goto i Idle (s <| connlock := None |>)).

(** [create_conn]: a connection is created and locked, given up, filed, or worked on
    without being filed. *)
Inductive create_step (s : locks) : locks -> Prop :=
  | step_create i r : threads s !! i = Some Searching -> r <> INT ->
      create_step s (goto i (Fresh (next_conn s)) (s <| connlock := None |> <| conn_lock ::= <[next_conn s := i]> |>
        <| births ::= <[next_conn s := (r, i)]> |>
        <| alive ::= fun l => {[next_conn s]} ∪ l |> <| next_conn ::= Pos.succ |>))
  | step_give_up i c : threads s !! i = Some (Fresh c) ->
      create_step s (goto i Idle (s <| conn_lock ::= delete c |> <| alive ::= fun l => l ∖ {[c]} |>))
  | step_file i c r h roams : threads s !! i = Some (Fresh c) -> connlock s = None ->
      births s !! c = Some (r, h) -> files_as r roams = true ->
      create_step s (goto i (Filing c) (s <| connlock := Some i |> <| filed ::= fun l => {[c]} ∪ l |>
        <| roaming ::= fun l => if roams : bool then {[c]} ∪ l else l |>))
  | step_filed i c k : threads s !! i = Some (Filing c) -> (k <= calls s c)%nat ->
      create_step s (goto i (Working c k) (s <| connlock := None |>))
  | step_keep i c h : threads s !! i = Some (Fresh c) -> births s !! c = Some (HIH, h) ->
      create_step s (goto i (Working c 0) s).

(** [switch_conn_to_intra]. *)
Inductive switch_step (s : locks) : locks -> Prop :=
  | step_switch i c k : threads s !! i = Some (Working c (S k)) -> connlock s = None ->
      switch_step s (goto i (Switching c k) (s <| connlock := Some i |>))
  | step_switched i c k : threads s !! i = Some (Switching c k) ->
      switch_step s (goto i (Working c k) (s <| connlock := None |> <| filed ::= fun l => {[c]} ∪ l |>
        <| roaming ::= fun l => {[c]} ∪ l |>)).

(** The end of an iteration of [de_thread]. *)
Inductive finish_step (s : locks) : locks -> Prop :=
  | step_finish i c : threads s !! i = Some (Working c 0) ->
      finish_step s (goto i Idle (s <| conn_lock ::= delete c |>)).

(** [clean]: every connection that is filed is read, some have expired; each of these
    is removed when [g_mutex_trylock] gets it. *)
Inductive clean_step (s : locks) : locks -> Prop :=
  | step_doom i m l : threads s !! i = Some (Sweeping m) -> m ⊆ alive s -> NoDup l -> (forall c, c ∈ l -> c ∈ m) ->
      clean_step s (goto i (Dooming l) s)
  | step_busy i c l j : threads s !! i = Some (Dooming (c :: l)) -> conn_lock s !! c = Some j ->
      clean_step s (goto i (Dooming l) s)
  | step_trylock i c l : threads s !! i = Some (Dooming (c :: l)) -> conn_lock s !! c = None ->
      clean_step s (goto i (Removing c l) (s <| conn_lock ::= <[c := i]> |>))
  | step_free i c l : threads s !! i = Some (Removing c l) ->
      clean_step s (goto i (Dooming l) (s <| conn_lock ::= delete c |>
        <| filed ::= fun f => if decide (stray s c) then f else f ∖ {[c]} |> <| alive ::= fun l => l ∖ {[c]} |>))
  | step_cleaned i : threads s !! i = Some (Dooming []) -> clean_step s (goto i Idle (s <| connlock := None |>)).

(** The operations that are under way go on. *)
Inductive advance (s s' : locks) : Prop :=
  | adv_lookup : lookup_step s s' -> advance s s'
  | adv_create : create_step s s' -> advance s s'
  | adv_switch : switch_step s s' -> advance s s'
  | adv_finish : finish_step s s' -> advance s s'
  | adv_clean : clean_step s s' -> advance s s'.

Definition lock_step (s s' : locks) : Prop := begin s s' \/ advance s s'.

(** [n] threads, no connection. *)
Definition locks_start (n : nat) : locks := Locks None ∅ ∅ ∅ ∅ ∅ 1 (repeat Idle n).

(** * The invariant *)

(** Rules that switch a connection at most once, and none of the local network;
    rules that switch none. *)
Definition tame : Prop := (ext_calls <= 1)%nat /\ intra_calls = 0%nat.
Definition quiet : Prop := ext_calls = 0%nat /\ intra_calls = 0%nat.

Definition at_home (s : locks) (i : nat) (c : conn) : Prop := c ∈ roaming s \/ exists r, births s !! c = Some (r, i).

(** What holds of a thread: it owns the locks its phase says; the connection it
    holds and those that are doomed exist; those it knows from the trees are
    filed, one that was just created is not; the packets it handles are at home. *)
Record thread_ok (s : locks) (i : nat) (p : phase) : Prop := {
  to_trees : connlock s = Some i <-> holds_trees p = true;
  to_conns : forall c, conn_lock s !! c = Some i <-> holds p = Some c;
  to_alive : forall c, holds p = Some c \/ c ∈ doomed p -> c ∈ alive s;
  to_filed : forall c, relies p c -> c ∈ filed s;
  to_fresh : forall c, p = Fresh c -> c ∉ filed s;
  to_doomed : NoDup (doomed p);
  to_home : forall c, visits p = Some c -> at_home s i c;
  to_calls : forall c k, p = Working c k -> (tame -> (k <= 1)%nat /\ (c ∈ roaming s -> k = 0%nat)) /\ (quiet -> k = 0%nat);
  to_switching : forall c k, p = Switching c k -> (tame -> k = 0%nat) /\ ~ quiet;
}.

(** Cases that are immediate from the phase. *)
Ltac thread_solver :=
  split; simpl in *; try (intros c; rewrite ?elem_of_nil); try solve [naive_solver|constructor|auto].

Record locks_ok (s : locks) : Prop := {
  lo_threads : forall i p, threads s !! i = Some p -> thread_ok s i p;
  lo_trees : forall i, connlock s = Some i -> is_Some (threads s !! i);
  lo_conns : forall c i, conn_lock s !! c = Some i -> is_Some (threads s !! i);
  lo_filed : forall c, c ∈ filed s -> c ∈ alive s \/ stray s c;
  lo_next : forall c, c ∈ alive s \/ c ∈ filed s \/ c ∈ roaming s -> (c < next_conn s)%positive;
  lo_births : forall c b, births s !! c = Some b -> (c < next_conn s)%positive;
  lo_strays : quiet -> forall c, ~ stray s c;
}.

Lemma start_idle n i p : threads (locks_start n) !! i = Some p -> p = Idle.
Proof. intros Hp%list_elem_of_lookup_2%list_elem_of_In. exact (repeat_spec _ _ _ Hp). Qed.

Lemma locks_start_ok n : locks_ok (locks_start n).
Proof.
  split; [|done|done|set_solver|set_solver|by intros c b|by intros _ c [? _]].
  intros i p ->%start_idle. thread_solver.
Qed.

(** What a step keeps for a thread that does not take it. *)
Record keeps (s s' : locks) (j : nat) (q : phase) : Prop := {
  kp_alive : forall c, holds q = Some c \/ c ∈ doomed q -> c ∈ alive s';
  kp_filed : forall c, relies q c -> c ∈ filed s';
  kp_fresh : forall c, q = Fresh c -> c ∉ filed s';
  kp_home : forall c, visits q = Some c -> at_home s' j c;
  kp_roaming : forall c k, q = Working c k -> c ∈ roaming s' -> c ∈ roaming s;
}.

Lemma keeps_same s s' j q : thread_ok s j q ->
  alive s' = alive s -> filed s' = filed s -> births s' = births s -> roaming s' = roaming s -> keeps s s' j q.
Proof.
  intros [] Ea Ef Eb Er. split; unfold at_home in *; rewrite ?Ea, ?Ef, ?Eb, ?Er; auto.
Qed.

(** A step of thread [i] that leaves the others what they own. *)
Lemma locks_ok_goto s s' i p0 p :
  locks_ok s -> threads s !! i = Some p0 -> threads s' = <[i := p]> (threads s) ->
  (forall j, j <> i -> connlock s' = Some j <-> connlock s = Some j) ->
  (forall j c, j <> i -> conn_lock s' !! c = Some j <-> conn_lock s !! c = Some j) ->
  (forall j q, j <> i -> threads s !! j = Some q -> thread_ok s j q -> keeps s s' j q) ->
  thread_ok s' i p ->
  (forall c, c ∈ filed s' -> c ∈ alive s' \/ stray s' c) ->
  (forall c, c ∈ alive s' \/ c ∈ filed s' \/ c ∈ roaming s' -> (c < next_conn s')%positive) ->
  (forall c b, births s' !! c = Some b -> (c < next_conn s')%positive) -> (quiet -> forall c, ~ stray s' c) ->
  locks_ok s'.
Proof.
  intros Hok Hi Ht Htrees Hconns Hother Hp Hfiled Hnext Hbirths Hstray.
  assert (Hlive : forall j, is_Some (threads s' !! j) <-> is_Some (threads s !! j)).
  { intros j. rewrite Ht, !lookup_lt_is_Some, length_insert. done. }
  split; [| | |exact Hfiled|exact Hnext|exact Hbirths|exact Hstray].
  - intros j q Hj. rewrite Ht in Hj.
    apply list_lookup_insert_Some in Hj as [(<- & <- & _)|[Hne Hj]]; [exact Hp|].
    pose proof (lo_threads _ Hok _ _ Hj) as Hq. destruct (Hother j q (not_eq_sym Hne) Hj Hq), Hq.
    split; [rewrite Htrees by done|intros c; rewrite Hconns by done|..]; auto.
    intros c k E. destruct (to_calls0 c k E) as [Hc1 Hc2]. split; [|exact Hc2].
    intros Htame. destruct (Hc1 Htame). eauto.
  - intros j Hj. apply Hlive. destruct (decide (j = i)) as [->|]; [eauto|].
    apply (lo_trees _ Hok), Htrees; done.
  - intros c j Hj. apply Hlive. destruct (decide (j = i)) as [->|]; [eauto|].
    apply (lo_conns _ Hok c), Hconns; done.
Qed.

(** The same for a step that only moves locks. *)
Lemma locks_ok_move s s' i p0 p :
  locks_ok s -> threads s !! i = Some p0 -> threads s' = <[i := p]> (threads s) ->
  alive s' = alive s -> filed s' = filed s -> births s' = births s -> roaming s' = roaming s -> next_conn s' = next_conn s ->
  (forall j, j <> i -> connlock s' = Some j <-> connlock s = Some j) ->
  (forall j c, j <> i -> conn_lock s' !! c = Some j <-> conn_lock s !! c = Some j) ->
  thread_ok s' i p -> locks_ok s'.
Proof.
  intros Hok Hi Ht Ea Ef Eb Er En H1 H2 Hp. eapply (locks_ok_goto s); try done.
  - intros j q _ _ Hq. by apply keeps_same.
  - unfold stray. rewrite Ea, Ef, Eb, Er. apply (lo_filed _ Hok).
  - rewrite Ea, Ef, Er, En. apply (lo_next _ Hok).
  - rewrite Eb, En. apply (lo_births _ Hok).
  - unfold stray. rewrite Eb, Er. apply (lo_strays _ Hok).
Qed.

(** The locks of a thread after its step. *)
Lemma next_unlocked s : locks_ok s -> conn_lock s !! next_conn s = None.
Proof.
  intros Hok. apply eq_None_not_Some. intros [j Hj].
  destruct (lo_conns _ Hok _ _ Hj) as [q Hq]. destruct (lo_threads _ Hok _ _ Hq) as [_ Hc Ha _ _ _ _ _ _].
  assert (next_conn s < next_conn s)%positive as Hlt; [|lia].
  apply (lo_next _ Hok). left. apply Ha. left. by apply Hc.
Qed.

(** Two threads never hold the same connection, and two never hold the trees. *)
Lemma holds_exclusive s i j p q c :
  locks_ok s -> threads s !! i = Some p -> threads s !! j = Some q -> holds p = Some c -> holds q = Some c -> i = j.
Proof.
  intros Hok Hi Hj Hp Hq. apply (to_conns _ _ _ (lo_threads _ Hok _ _ Hi)) in Hp.
  apply (to_conns _ _ _ (lo_threads _ Hok _ _ Hj)) in Hq. congruence.
Qed.

Lemma trees_exclusive s i j p q :
  locks_ok s -> threads s !! i = Some p -> threads s !! j = Some q ->
  holds_trees p = true -> holds_trees q = true -> i = j.
Proof.
  intros Hok Hi Hj Hp Hq. apply (to_trees _ _ _ (lo_threads _ Hok _ _ Hi)) in Hp.
  apply (to_trees _ _ _ (lo_threads _ Hok _ _ Hj)) in Hq. congruence.
Qed.

Lemma calls_bounds s c k : (k <= calls s c)%nat -> (k <= Nat.max ext_calls intra_calls)%nat /\
  (tame -> (k <= 1)%nat /\ (c ∈ roaming s -> k = 0%nat)) /\ (quiet -> k = 0%nat).
Proof.
  unfold calls, tame, quiet. destruct (births s !! c) as [[[] h]|]; try (destruct (decide (c ∈ roaming s)));
    intros; repeat split; intros; (lia || done).
Qed.

Lemma begin_ok s s' : locks_ok s -> begin s s' -> locks_ok s'.
Proof.
  intros Hok [i Hne Hi Hc|Hi Hc]; pose proof (lo_threads _ Hok _ _ Hi) as [T1 T2 T3 T4 T5 T6 T7 T8 T9];
    (eapply (locks_ok_move s); [exact Hok|exact Hi|try reflexivity..|]; simpl in *; [naive_solver..|]).
  all: thread_solver.
Qed.

(** ** The steps that change the trees or the connections *)

Section Steps.
Context (s : locks) (i : nat).
Hypothesis Hok : locks_ok s.

Lemma create_ok r : threads s !! i = Some Searching -> locks_ok (goto i (Fresh (next_conn s)) (s <| connlock := None |>
  <| conn_lock ::= <[next_conn s := i]> |> <| births ::= <[next_conn s := (r, i)]> |>
  <| alive ::= fun l => {[next_conn s]} ∪ l |> <| next_conn ::= Pos.succ |>)).
Proof.
  intros Hi. pose proof (lo_threads _ Hok _ _ Hi) as [T1 T2 T3 T4 T5 T6 T7 T8 T9].
  pose proof (proj2 T1 eq_refl) as E. pose proof (next_unlocked _ Hok) as Hnew. pose proof (lo_next _ Hok) as Hn.
  assert (Hborn : forall d b, births s !! d = Some b -> <[next_conn s := (r, i)]> (births s) !! d = Some b).
  { intros d b Hd. pose proof (lo_births _ Hok _ _ Hd). rewrite lookup_insert_ne; [done|]. intros <-. lia. }
  assert (Hstray : forall d, stray (goto i (Fresh (next_conn s)) (s <| connlock := None |>
    <| conn_lock ::= <[next_conn s := i]> |> <| births ::= <[next_conn s := (r, i)]> |>
    <| alive ::= fun l => {[next_conn s]} ∪ l |> <| next_conn ::= Pos.succ |>)) d <-> stray s d).
  { intros d. unfold stray. simpl. split; intros [Hd [h Hb]]; (split; [done|]); exists h; [|by apply Hborn].
    rewrite lookup_insert_ne in Hb; [done|]. intros <-. specialize (Hn (next_conn s) (or_intror (or_intror Hd))). lia. }
  eapply (locks_ok_goto s); [done|done|done|..]; simpl.
  - intros j Hj. split; congruence.
  - intros j d Hj. by apply taken_others.
  - intros j q Hj Hq [Q1 Q2 Q3 Q4 Q5 Q6 Q7 Q8 Q9]. split; simpl; auto.
    + intros d Hd. apply elem_of_union_r. auto.
    + intros d Hd. destruct (Q7 d Hd) as [?|[r' Hb]]; [by left|right]. exists r'. by apply Hborn.
  - split; simpl; try done.
    + intros d. by apply taken_own.
    + intros d [[= <-]|[]%elem_of_nil]. set_solver.
    + intros d [= <-] Hd. specialize (Hn (next_conn s) (or_intror (or_introl Hd))). lia.
    + intros d [= <-]. right. exists r. simpl. by rewrite lookup_insert_eq.
  - intros d Hd. rewrite Hstray. destruct (lo_filed _ Hok d Hd); [left; set_solver|by right].
  - intros d Hd. assert (d = next_conn s \/ (d < next_conn s)%positive) as [->|]; [|lia..].
    destruct Hd as [[->%elem_of_singleton|Hd]%elem_of_union|Hd]; auto.
  - intros d b. rewrite lookup_insert_Some. intros [[<- _]|[_ Hb%(lo_births _ Hok)]]; lia.
  - intros Hq d. rewrite Hstray. by apply (lo_strays _ Hok).
Qed.

Lemma give_up_ok c : threads s !! i = Some (Fresh c) ->
  locks_ok (goto i Idle (s <| conn_lock ::= delete c |> <| alive ::= fun l => l ∖ {[c]} |>)).
Proof.
  intros Hi. pose proof (lo_threads _ Hok _ _ Hi) as [T1 T2 T3 T4 T5 T6 T7 T8 T9].
  pose proof (proj2 (T2 _) eq_refl) as F. pose proof (lo_next _ Hok) as Hn. pose proof (T5 c eq_refl) as Hc.
  eapply (locks_ok_goto s); [done|done|done|..]; simpl.
  - done.
  - intros j d Hj. by eapply released_others.
  - intros j q Hj Hq [Q1 Q2 Q3 Q4 Q5 Q6 Q7 Q8 Q9]. split; simpl; auto.
    intros d Hd. apply elem_of_difference. split; [auto|]. intros ->%elem_of_singleton. destruct Hd as [Hd%Q2|Hd]; [congruence|].
    apply Hc, Q4. destruct q; try by apply elem_of_nil in Hd. all: exact Hd.
  - split; simpl; try done.
    + intros d. by apply released_own.
    + by intros d [|[]%elem_of_nil].
  - intros d Hd. destruct (lo_filed _ Hok d Hd); [left; set_solver|by right].
  - intros d Hd. apply Hn. set_solver.
  - apply (lo_births _ Hok).
  - apply (lo_strays _ Hok).
Qed.

Lemma file_ok c r h roams : threads s !! i = Some (Fresh c) -> connlock s = None -> births s !! c = Some (r, h) ->
  files_as r roams = true ->
  locks_ok (goto i (Filing c) (s <| connlock := Some i |> <| filed ::= fun l => {[c]} ∪ l |>
    <| roaming ::= fun l => if roams : bool then {[c]} ∪ l else l |>)).
Proof.
  intros Hi Hfree Hb Hr. pose proof (lo_threads _ Hok _ _ Hi) as [T1 T2 T3 T4 T5 T6 T7 T8 T9].
  pose proof (proj2 (T2 _) eq_refl) as F. pose proof (lo_next _ Hok) as Hn. pose proof (T3 c (or_introl eq_refl)) as Ha.
  set (roaming' := if roams : bool then {[c]} ∪ roaming s else roaming s).
  assert (Hroam : roaming s ⊆ roaming') by (unfold roaming'; destruct roams; set_solver).
  assert (Hroam' : forall d, d ∈ roaming' -> (d = c /\ roams = true) \/ d ∈ roaming s) by (unfold roaming'; destruct roams; set_solver).
  eapply (locks_ok_goto s); [done|done|done|..]; simpl; fold roaming'.
  - intros j Hj. split; congruence.
  - done.
  - intros j q Hj Hq [Q1 Q2 Q3 Q4 Q5 Q6 Q7 Q8 Q9]. split; simpl; auto.
    + intros d Hd. apply elem_of_union_r. auto.
    + intros d -> [->%elem_of_singleton|Hd]%elem_of_union; [|by apply (Q5 d)].
      assert (conn_lock s !! c = Some j) by (by apply Q2). congruence.
    + intros d Hd. destruct (Q7 d Hd); [left; simpl; set_solver|by right].
    + intros d k -> [[-> _]|]%Hroam'; [|done]. assert (conn_lock s !! c = Some j) by (by apply Q2). congruence.
  - split; simpl; try done.
    + by intros d []%elem_of_nil.
    + intros d [= <-]. destruct (T7 c eq_refl); [left; simpl; set_solver|by right].
  - intros d [->%elem_of_singleton|Hd]%elem_of_union; [by left|].
    destruct (lo_filed _ Hok d Hd) as [|[? ?]]; [by left|right; split; [simpl; set_solver|done]].
  - intros d Hd. apply Hn. set_solver.
  - apply (lo_births _ Hok).
  - intros Hq d [[[-> ->]|Hd]%Hroam' [h' Hb']]; [|apply (lo_strays _ Hok Hq d); split; [done|by exists h']].
    simpl in Hb'. rewrite Hb in Hb'. by destruct r.
Qed.

Lemma switched_ok c k : threads s !! i = Some (Switching c k) ->
  locks_ok (goto i (Working c k) (s <| connlock := None |> <| filed ::= fun l => {[c]} ∪ l |>
    <| roaming ::= fun l => {[c]} ∪ l |>)).
Proof.
  intros Hi. pose proof (lo_threads _ Hok _ _ Hi) as [T1 T2 T3 T4 T5 T6 T7 T8 T9].
  pose proof (proj2 T1 eq_refl) as E. pose proof (proj2 (T2 _) eq_refl) as F.
  pose proof (lo_next _ Hok) as Hn. pose proof (T3 c (or_introl eq_refl)) as Ha. destruct (T9 c k eq_refl) as [Ht Hnq].
  eapply (locks_ok_goto s); [done|done|done|..]; simpl.
  - intros j Hj. split; congruence.
  - done.
  - intros j q Hj Hq [Q1 Q2 Q3 Q4 Q5 Q6 Q7 Q8 Q9]. split; simpl; auto.
    + intros d Hd. apply elem_of_union_r. auto.
    + intros d -> [->%elem_of_singleton|Hd]%elem_of_union; [|by apply (Q5 d)].
      assert (conn_lock s !! c = Some j) by (by apply Q2). congruence.
    + intros d Hd. destruct (Q7 d Hd); [left; simpl; set_solver|by right].
    + intros d k' -> [->%elem_of_singleton|]%elem_of_union; [|done].
      assert (conn_lock s !! c = Some j) by (by apply Q2). congruence.
  - split; simpl; try done.
    + by intros d []%elem_of_nil.
    + intros d [= <-]. left. simpl. set_solver.
    + intros d k' [= <- <-]. split; [|done]. intros Htame. rewrite (Ht Htame). split; [lia|done].
  - intros d [->%elem_of_singleton|Hd]%elem_of_union; [by left|].
    destruct (lo_filed _ Hok d Hd) as [|[? ?]]; [by left|right; split; [simpl; set_solver|done]].
  - intros d Hd. apply Hn. set_solver.
  - apply (lo_births _ Hok).
  - done.
Qed.

Lemma free_ok c l : threads s !! i = Some (Removing c l) ->
  locks_ok (goto i (Dooming l) (s <| conn_lock ::= delete c |>
    <| filed ::= fun f => if decide (stray s c) then f else f ∖ {[c]} |> <| alive ::= fun l => l ∖ {[c]} |>)).
Proof.
  intros Hi. pose proof (lo_threads _ Hok _ _ Hi) as [T1 T2 T3 T4 T5 T6 T7 T8 T9].
  pose proof (proj2 T1 eq_refl) as E. pose proof (proj2 (T2 _) eq_refl) as F.
  pose proof (lo_next _ Hok) as Hn. simpl in T3, T4, T6. apply NoDup_cons in T6 as [Hcl Hl].
  set (filed' := if decide (stray s c) then filed s else filed s ∖ {[c]}).
  assert (Hf : forall d, d <> c -> d ∈ filed s -> d ∈ filed') by (intros; unfold filed'; case_decide; set_solver).
  assert (Hf' : filed' ⊆ filed s) by (unfold filed'; case_decide; set_solver).
  eapply (locks_ok_goto s); [done|done|done|..]; simpl; fold filed'.
  - done.
  - intros j d Hj. by eapply released_others.
  - intros j q Hj Hq [Q1 Q2 Q3 Q4 Q5 Q6 Q7 Q8 Q9]. assert (Hnt : holds_trees q <> true) by (intros Hh%Q1; congruence).
    split; simpl; auto.
    + intros d Hd. apply elem_of_difference. split; [auto|]. intros ->%elem_of_singleton. destruct Hd as [Hd%Q2|Hd]; [congruence|].
      by destruct q; try apply elem_of_nil in Hd.
    + intros d Hd. destruct q; try done; by apply elem_of_nil in Hd.
    + intros d -> Hd. by apply (Q5 d), Hf'.
  - split; simpl; try done.
    + intros d. by apply released_own.
    + intros d [|Hd]; [done|]. apply elem_of_difference. split; [set_solver|]. by intros ->%elem_of_singleton.
    + intros d Hd. apply Hf; [by intros ->|]. set_solver.
  - intros d Hd. destruct (lo_filed _ Hok d (Hf' d Hd)); [|by right]. destruct (decide (d = c)) as [->|]; [|left; set_solver].
    right. unfold filed' in Hd. case_decide; [done|set_solver].
  - intros d Hd. apply Hn. set_solver.
  - apply (lo_births _ Hok).
  - apply (lo_strays _ Hok).
Qed.
End Steps.

Lemma advance_ok s s' : locks_ok s -> advance s s' -> locks_ok s'.
Proof.
  intros Hok Hs.
  destruct Hs as [Hs|Hs|Hs|Hs|Hs]; destruct Hs; try first [by apply create_ok|by apply give_up_ok|by eapply file_ok|by apply switched_ok|by apply free_ok];
    match goal with Hi : threads s !! _ = Some _ |- _ =>
     pose proof (lo_threads _ Hok _ _ Hi) as [T1 T2 T3 T4 T5 T6 T7 T8 T9] end; simpl in *;
    try (pose proof (proj2 T1 eq_refl) as E); try (pose proof (proj2 (T2 _) eq_refl) as F);
    (eapply (locks_ok_move s); [exact Hok|eassumption|reflexivity|reflexivity|reflexivity|reflexivity|reflexivity|reflexivity|..]).
  all: try match goal with
    | |- forall j, j <> _ -> _ <-> _ => intros j' Hj; first [tauto|simpl in *; split; congruence]
    | |- forall j c, j <> _ -> _ <-> _ => intros j' d Hj; first [tauto|apply taken_others; assumption|eapply released_others; eassumption]
    | |- thread_ok _ _ _ => split; simpl in *
    end.
  all: try match goal with
    | |- _ <-> _ => first [exact T1|split; congruence]
    | |- forall c, _ <-> _ => first [exact T2|intros d; apply taken_own; assumption|intros d; apply released_own; assumption]
    | |- NoDup _ => first [assumption|constructor|eapply NoDup_cons_1_2; eassumption]
    | |- forall c, _ -> at_home _ _ _ => first [done|exact T7|idtac]
    | |- forall c k, _ = _ -> _ => first [done|idtac]
    | |- forall c, _ -> _ => first [done|clear T7 T8 T9; set_solver]
    end.
  - intros d [= <-]. destruct H2 as [->|]; [right; by exists r|by left].
  - intros d k' [= <- <-]. by apply calls_bounds in H2 as [_ ?].
  - intros d k' [= <- <-]. by apply calls_bounds in H0 as [_ ?].
  - intros d k' [= <- <-]. split; intros; [split; [lia|done]|done].
  - intros d k' [= <- <-]. destruct (T8 _ _ eq_refl) as [H1 H2]. split; [intros Ht; destruct (H1 Ht); lia|intros Hq; specialize (H2 Hq); lia].
Qed.

Lemma reachable_ok n s : rtc lock_step (locks_start n) s -> locks_ok s.
Proof.
  assert (H : forall s0, rtc lock_step s0 s -> locks_ok s0 -> locks_ok s).
  { induction 1 as [s0|s0 s1 s2 [Hs|Hs] _ IH]; eauto using begin_ok, advance_ok. }
  intros Hr. exact (H _ Hr (locks_start_ok n)).
Qed.

(** * How far a thread is from the end of what it does *)

Definition rank (p : phase) : nat :=
  let b := Nat.max ext_calls intra_calls in
  match p with
  | Idle => 0 | Working _ k => 1 + 2 * k | Switching _ k => 2 + 2 * k
  | Found _ | Filing _ => 2 + 2 * b | Fresh _ => 3 + 2 * b | Searching => 4 + 2 * b
  | Dooming l => 1 + 2 * length l | Removing _ l => 2 + 2 * length l | Sweeping m => 2 + 2 * size m
  end.

Definition remaining (s : locks) : nat := sum_list (map rank (threads s)).

Lemma ranks_insert l i p0 p : l !! i = Some p0 ->
  (sum_list (map rank (<[i := p]> l)) + rank p0 = sum_list (map rank l) + rank p)%nat.
Proof.
  revert i. induction l as [|q l IH]; intros [|i] H; simplify_eq/=; [lia|]. specialize (IH i H). lia.
Qed.

Lemma doomed_size (l : list conn) (m : gset conn) : NoDup l -> (forall c, c ∈ l -> c ∈ m) -> (length l <= size m)%nat.
Proof.
  intros Hl Hm. rewrite <- (size_list_to_set (C := gset conn)) by done. apply subseteq_size. set_solver.
Qed.

Lemma advance_decreases s s' : advance s s' -> (remaining s' < remaining s)%nat.
Proof.
  intros Hs. unfold remaining.
  destruct Hs as [Hs|Hs|Hs|Hs|Hs]; destruct Hs; match goal with Hi : threads s !! ?i = Some ?p0 |- (sum_list (map rank (threads ?t)) < _)%nat =>
      match t with goto i ?p _ => pose proof (ranks_insert _ _ _ p Hi) end end; simpl in *; try lia.
  - apply calls_bounds in H2 as [? _]. lia.
  - apply calls_bounds in H0 as [? _]. lia.
  - pose proof (doomed_size _ _ H1 H2). lia.
Qed.

Lemma runs_bounded k s s' : locks_ok s -> nsteps advance k s s' -> locks_ok s' /\ (k + remaining s' <= remaining s)%nat.
Proof.
  intros Hok Hr. induction Hr as [s|k s s1 s2 Hs _ IH]; [split; [done|lia]|].
  destruct (IH (advance_ok _ _ Hok Hs)). pose proof (advance_decreases _ _ Hs). split; [done|lia].
Qed.

(** ** Where the threads can stop *)

Definition sound_pointers (s : locks) : Prop := forall i p c, threads s !! i = Some p -> touches p c -> c ∈ alive s.

Definition touched (p : phase) : gset conn :=
  match holds p with Some c => {[c]} | None => ∅ end ∪
  match p with Found d => {[d]} | Sweeping m => m | p => list_to_set (doomed p) end.

Lemma elem_touched p c : c ∈ touched p <-> touches p c.
Proof.
  unfold touched, touches. destruct p; simpl; rewrite ?elem_of_nil; set_solver.
Qed.

(** A thread that goes through something that was freed can be found. *)
Lemma pointers_cases s : sound_pointers s \/ exists i p c, threads s !! i = Some p /\ touches p c /\ c ∉ alive s.
Proof.
  destruct (decide (Forall (fun p => touched p ⊆ alive s) (threads s))) as [Hf|Hf].
  - left. intros i p c Hi Hc%elem_touched. by apply (Forall_lookup_1 _ _ _ _ Hf Hi).
  - right. apply not_Forall_Exists in Hf; [|apply _]. apply Exists_exists in Hf as (p & Hp & Hn).
    apply list_elem_of_lookup in Hp as [i Hi]. destruct (set_choose_or_empty (touched p ∖ alive s)) as [[c Hc]|He].
    + exists i, p, c. rewrite <- elem_touched. set_solver.
    + destruct Hn. intros c Hc. destruct (decide (c ∈ alive s)); [done|]. set_solver.
Qed.

Section Stuck.
Context (s : locks) (Hok : locks_ok s) (Htame : tame) (Hsound : sound_pointers s) (Hstuck : forall s', ~ advance s s').

(** The holder of a connection that is waited for does not wait. *)
Lemma found_not_stuck j c : threads s !! j = Some (Found c) -> False.
Proof using Hok Htame Hsound Hstuck.
  intros Hj. pose proof (lo_threads _ Hok _ _ Hj) as [T1 _ _ T4 _ _ T7 _ _].
  destruct (conn_lock s !! c) as [k|] eqn:Ek.
  2:{ apply (Hstuck _ (adv_lookup _ _ (step_lock s j c 0 Hj (Hsound j _ c Hj (or_intror eq_refl)) Ek ltac:(lia)))). }
  destruct (lo_conns _ Hok _ _ Ek) as [r Hr].
  pose proof (lo_threads _ Hok _ _ Hr) as [U1 U2 _ _ U5 _ U7 U8 _]. apply U2 in Ek.
  assert (Hnt : holds_trees r <> true).
  { intros Hh. assert (k = j) as -> by exact (trees_exclusive s _ _ _ _ Hok Hr Hj Hh eq_refl). simplify_eq. }
  destruct r as [| |c'|c'|c'|c' m|c' m|m|l|c' l]; simplify_eq/=; try done.
  - by apply (U5 _ eq_refl), T4.
  - destruct m as [|m]; [exact (Hstuck _ (adv_finish _ _ (step_finish s k c Hr)))|]. destruct (U8 _ _ eq_refl) as [Hw _].
    destruct (Hw Htame) as [_ Hm]. destruct (U7 c eq_refl) as [Hc|[r' Hb]]; [by specialize (Hm Hc)|].
    destruct (T7 c eq_refl) as [Hc|[r'' Hb']]; [by specialize (Hm Hc)|]. assert (k = j) as -> by congruence. simplify_eq.
Qed.

Lemma trees_free : connlock s = None.
Proof using Hok Htame Hsound Hstuck.
  apply eq_None_not_Some. intros [j Hj]. destruct (lo_trees _ Hok _ Hj) as [q Hq].
  pose proof (lo_threads _ Hok _ _ Hq) as [T1 _ _ T4 _ _ _ _ _]. apply T1 in Hj as Hh.
  destruct q as [| |c|c|c|c k|c k|m|[|c l]|c l]; try discriminate; try done.
  - exact (Hstuck _ (adv_lookup _ _ (step_drop s j Hq))).
  - exact (found_not_stuck j c Hq).
  - apply (Hstuck _ (adv_create _ _ (step_filed s j c 0 Hq ltac:(lia)))).
  - exact (Hstuck _ (adv_switch _ _ (step_switched s j c k Hq))).
  - apply (Hstuck _ (adv_clean _ _ (step_doom s j m [] Hq (fun c Hc => Hsound j _ c Hq (or_intror Hc)) (NoDup_nil_2) (fun c Hc => False_ind _ (not_elem_of_nil c Hc))))).
  - exact (Hstuck _ (adv_clean _ _ (step_cleaned s j Hq))).
  - destruct (conn_lock s !! c) as [k|] eqn:Ek; [apply (Hstuck _ (adv_clean _ _ (step_busy s j c l k Hq Ek)))|apply (Hstuck _ (adv_clean _ _ (step_trylock s j c l Hq Ek)))].
  - exact (Hstuck _ (adv_clean _ _ (step_free s j c l Hq))).
Qed.

Lemma all_idle i p : threads s !! i = Some p -> p = Idle.
Proof using Hok Htame Hsound Hstuck.
  intros Hi. pose proof (lo_threads _ Hok _ _ Hi) as [T1 _ _ _ _ _ _ _ _].
  assert (Hnt : holds_trees p <> true) by (intros Hh%T1; rewrite trees_free in Hh; discriminate).
  destruct p as [| |c|c|c|c [|k]|c k|m|l|c l]; simpl in Hnt; try congruence.
  - destruct (Hstuck _ (adv_create _ _ (step_give_up s i c Hi))).
  - destruct (Hstuck _ (adv_finish _ _ (step_finish s i c Hi))).
  - destruct (Hstuck _ (adv_switch _ _ (step_switch s i c k Hi trees_free))).
Qed.
End Stuck.
End Protocol.

(** * The theorems *)



(** A run of three threads, the last one the cleaning thread: thread 0 creates the
    connection 1, which a HIH opens to a host of the local network, and files it. *)
Definition filed_run (k : nat) : locks :=
  Locks None {[1%positive := 0%nat]} {[1%positive := (HIH, 0%nat)]} {[1%positive]} {[1%positive]} {[1%positive]} 2
    [Working 1 k; Idle; Idle].

Lemma filed_run_reached ext_calls intra_calls k : (k <= intra_calls)%nat ->
  rtc (lock_step 2 ext_calls intra_calls) (locks_start 3) (filed_run k).
Proof.
  intros Hk.
  eapply rtc_l; [left; apply (begin_lookup _ _ 0); [lia|reflexivity..]|].
  eapply rtc_l; [right; apply adv_create, (step_create _ _ _ 0 HIH); [reflexivity|discriminate]|].
  eapply rtc_l; [right; apply adv_create, (step_file _ _ _ 0 1 HIH 0 true); reflexivity|].
  eapply rtc_l; [right; apply adv_create, (step_filed _ _ _ 0 1 k); [reflexivity|exact Hk]|].
  match goal with |- rtc _ ?x _ => replace (filed_run k) with x by (vm_compute; reflexivity) end.
  apply rtc_refl.
Qed.

(** C33: when the rule of a local host calls [mod_dns_control], two decision threads
    can block each other for ever.  A HIH opens a connection to that host; while
    its thread evaluates the rule, a frame of the host, which is in another
    queue, is looked up: one thread holds the connection and waits for
    [connlock] in [switch_conn_to_intra], the other holds [connlock] and waits for
    the connection in [conn_lookup]; no thread can do anything then. *)
Theorem locks_deadlock :
  exists s, rtc (lock_step 2 0 1) (locks_start 3) s /\
    threads s = [Working 1 1; Found 1; Idle] /\ births s !! 1%positive = Some (HIH, 0%nat) /\
    connlock s = Some 1%nat /\ conn_lock s !! 1%positive = Some 0%nat /\
    forall s', ~ lock_step 2 0 1 s s'.
Proof.
  exists (goto 1 (Found 1) (goto 1 Searching ((filed_run 1) <| connlock := Some 1%nat |>))).
  split; [|split; [|split; [|split; [|split]]]]; try reflexivity.
  - etransitivity; [exact (filed_run_reached 0 1 1 (le_n 1))|].
    eapply rtc_l; [left; apply (begin_lookup _ _ 1); [lia|reflexivity..]|].
    eapply rtc_l; [right; apply adv_lookup, (step_found _ _ _ 1 1 HIH 0); [reflexivity|set_solver|reflexivity|right; set_solver]|]. apply rtc_refl.
  - assert (Hall : forall i p, [Working 1 1; Found 1; Idle] !! i = Some p ->
      (i = 0%nat /\ p = Working 1 1) \/ (i = 1%nat /\ p = Found 1) \/ (i = 2%nat /\ p = Idle)).
    { intros [|[|[|i]]] p Hp; simplify_eq/=; auto. }
    intros s' [Hs|[Hs|Hs|Hs|Hs|Hs]]; destruct Hs;
      match goal with Hi : threads _ !! _ = Some _ |- _ => apply Hall in Hi as [[? ?]|[[? ?]|[? ?]]]; simplify_eq end.
Qed.

(** [remove_conn] frees the connection of a LIH that was switched, and leaves it
    filed: the next thread that looks it up goes through what was freed. *)
Definition stray_run : locks :=
  Locks (Some 0%nat) ∅ {[1%positive := (LIH, 0%nat)]} {[1%positive]} {[1%positive]} ∅ 2 [Found 1; Idle; Idle].

Lemma stray_run_reached : rtc (lock_step 2 1 0) (locks_start 3) stray_run.
Proof.
  eapply rtc_l; [left; apply (begin_lookup _ _ 0); [lia|reflexivity..]|].
  eapply rtc_l; [right; apply adv_create, (step_create _ _ _ 0 LIH); [reflexivity|discriminate]|].
  eapply rtc_l; [right; apply adv_create, (step_file _ _ _ 0 1 LIH 0 false); reflexivity|].
  eapply rtc_l; [right; apply adv_create, (step_filed _ _ _ 0 1 1); [reflexivity|vm_compute; lia]|].
  eapply rtc_l; [right; apply adv_switch, (step_switch _ 0 1 0); reflexivity|].
  eapply rtc_l; [right; apply adv_switch, (step_switched _ 0 1 0); reflexivity|].
  eapply rtc_l; [right; apply adv_finish, (step_finish _ 0 1); reflexivity|].
  eapply rtc_l; [left; apply begin_clean; reflexivity|].
  eapply rtc_l; [right; apply adv_clean, (step_doom _ 2 {[1%positive]} [1%positive]); [reflexivity|set_solver|apply NoDup_singleton|set_solver]|].
  eapply rtc_l; [right; apply adv_clean, (step_trylock _ 2 1 []); reflexivity|].
  eapply rtc_l; [right; apply adv_clean, (step_free _ 2 1 []); reflexivity|].
  eapply rtc_l; [right; apply adv_clean, (step_cleaned _ 2); reflexivity|].
  eapply rtc_l; [left; apply (begin_lookup _ _ 0); [lia|reflexivity..]|].
  eapply rtc_l; [right; apply adv_lookup, (step_found _ _ _ 0 1 LIH 0); [reflexivity|set_solver|reflexivity|by left]|].
  match goal with |- rtc _ ?x _ => replace stray_run with x by (vm_compute; reflexivity) end.
  apply rtc_refl.
Qed.


